(* ===== verification/_CoqProject ===== *)
-Q . S2P
Prelude.v
StdString.v
SwigCommon.v
Protocol.v
Dto.v
DtoWrapper.v
Machine.v
SocketLowLevel.v
SocketHighLevel.v
MetaData.v
RowCodec.v
TableIterator.v
ResultHandler.v
RoundTrip.v
ClientMain.v
ClientRun.v
SwigFactory.v
TestContainer.v
BenchmarkContainer.v
SharedSocket.v
Supervision.v
StreamingContainer.v
StreamThreads.v
StreamInterleaving.v
StreamRun.v
ClientStart.v
Session.v
LegacyOptions.v
CtpgOptions.v
Posix.v
UnixSocket.v
EventFd.v
WaitableQueue.v
QueueOnLinux.v
Ownership.v
Epoll.v
Messages.v
Assert.v
MessageViews.v
