(* ===== verification/Prelude.v ===== *)
(** * A verification library for the Exasol UDF client

    The repository holds two generations of the process that runs user-defined functions
    for an Exasol database. The first, [src/udf-runner-cpp/v1], is complete: it connects
    to the database over a ZeroMQ REQ socket, learns in a handshake which script it
    serves, builds a language container and then works through rounds: it tells the
    database that it is ready, lets the container read its input row by row and emit its
    output row by row, and reports the end of the round. The second,
    [src/udf-runner-cpp/v2], is so far a set of building blocks for a process with many
    streams over a Unix socket: descriptors, sockets, event descriptors, queues, epoll,
    messages. This library is a shallow embedding of both with their correctness theorems.

    ** The parts of v1 and how they interact

    Paths are relative to [src/udf-runner-cpp/v1].

    - [Prelude], [StdString]: the library's own foundations. A C++ routine is a state
      transformer [M S E A] that returns, throws, is killed ([Abort]), waits for ever
      ([Blocked]) or is undefined ([Undef]: an access out of range, a null pointer, a
      variable that was never written). Record update, machine integers, C strings,
      frame rules ([keeps]), weakest preconditions; the searches of [std::string].
    - [SwigCommon] ([base/exaudflib/swig/swig_common.h]): the parameter block
      [SWIGVM_params_t] and the exception handler that records the first error.
    - [Protocol] ([base/exaudflib/zmqcontainer.proto], [impl/msg_conversion.cc]): the
      messages as records. Their byte encoding is generated code, so it is the class
      [Codec]: serializing can fail, parsing can fail, and nothing relates the two
      except where a theorem says so.
    - [Dto], [DtoWrapper] ([swig/script_data_transfer_objects.cc] and its wrapper): the
      arguments of single calls, with every check of their setters.
    - [Machine] ([impl/global.h], [impl/check.cc], the member variables of the classes):
      the state of the process as one record, and its environment: what the socket, the
      file system, [getppid] and [setrlimit] are going to answer, and the trace of
      events the process has produced.
    - [SocketLowLevel] ([impl/socket_low_level.cc], [impl/check.cc],
      [impl/socket_info.cc]): sending and receiving with retries, the socket mutex, the
      supervision of the parent process.
    - [SocketHighLevel] ([impl/socket_high_level.cc], [impl/global.cc]): the handshake
      [send_init] and every later exchange.
    - [MetaData] ([impl/swig/swig_meta_data.h]): what the script can ask about itself.
    - [RowCodec], [TableIterator] ([impl/swig/swig_table_iterator.h]): the rows of the
      input as the script sees them; a table message stores its cells by type in flat
      arrays, and [encodes] says which rows such a message stands for.
    - [ResultHandler] ([impl/swig/swig_result_handler.h]), [RoundTrip]: staging, adding
      and flushing output rows, and that what is emitted is what a reader reads.
    - [ClientMain], [ClientRun] ([impl/exaudflib_main.cc], [vm/swig_vm.h]): the main
      loop and the interface of a language container. The class [ContainerContract]
      states what a container promises; the theorems about the client are proved
      against it.
    - [SwigFactory] ([base/load_dynamic.cc], [impl/swig/swig_factory.cc],
      [base/exaudflib/swig/*.h]): how the members of a container find their implementation
      in the library.
    - [TestContainer], [BenchmarkContainer], [StreamingContainer]
      ([test_container/], [benchmark_container/], [streaming_container/]): the three
      containers of the repository.
    - [StreamThreads], [StreamInterleaving] ([streaming_container/] again): the two threads
      of the streaming container, one call of the library at a time, interleaved with each
      other, with bounded pipes and with the program behind them; the invariant of every
      interleaving, what the threads have achieved when they end, and that they can end.
    - [StreamRun]: [StreamingVM::run] as the main loop calls it. The environment [shell]
      gives the order in which the threads, the pipes and the program move; [run_threads]
      carries it out until both threads can be joined. Its moves are the steps of
      [StreamThreads].
    - [ClientStart] ([exa_udfclient.cc], [exa_udf_client.cc], [exa_vm_factory.cc],
      [base/exa_udfclient_binary_common/]): from [main] to
      [exaudfclient_main].
    - [Session]: the life cycle of the process, threads included, as an automaton, and
      that the client refines it.
    - [SharedSocket] ([impl/socket_low_level.cc] again): the lines of [socket_send] and
      [socket_recv] as the steps of any number of threads that share the socket, as the
      two threads of the streaming container do.
    - [Supervision] ([impl/check.cc] again): the supervision thread and the client that
      cleans up in [stop_all], interleaved with each other and with the world.
    - [LegacyOptions], [CtpgOptions] ([base/script_options_parser/]): the two parsers
      for the option lines of a script.

    The calls go downwards in this list: [ClientStart.main] calls
    [ClientMain.exaudfclient_main] with the factory of a container, which calls the
    exchanges of [SocketHighLevel] and the operations of the container, which uses
    the metadata object, the iterator and the handler; each of these sends its own
    requests over [SocketLowLevel].

    ** The parts of v2 and how they interact

    Paths are relative to [src/udf-runner-cpp/v2]; [include] is short for
    [include/exasol/udf/v2].

    - [Posix] ([include/posix/posix.hpp], [posix/posix.cc]): the injectable facade of the
      system calls. A call is a value with its arguments, and consumes the next answer of
      the environment; a trace records the calls, and a set the descriptors that are open.
      The retry loop for interrupted calls, and the relation [settles] that bounds what a
      routine may do to the open descriptors.
    - [UnixSocket] ([socket/]): [OwnedFileDescriptor], the connected socket with its
      vectored reads and writes, the listener.
    - [EventFd] ([linux_event_fd.cc], [event_fd_factory.cc], [include/event_fd.hpp]): the
      interface as a class, with two instances: the implementation over system calls, and
      the counter that the kernel documents.
    - [WaitableQueue] ([include/waitable_queue.hpp]): the queue with its notification, over
      any instance of that class and any queue; and the transition system of producers and
      consumers whose steps are its single operations, for what a queue promises.
    - [QueueOnLinux]: that queue over the system calls of the Linux descriptor, with the
      history of the calls, between which other threads may change the counter.
    - [Ownership]: a client that creates, moves, uses and destroys objects of all the
      classes above in any order.
    - [Epoll] ([linux_epoll.cc], [linux_epoll_state.cc], [linux_epoll_registration.cc]):
      epolls, registrations that refer weakly to them, waiting with a deadline.
    - [Messages] ([interface/*_builder.cc], [include/internal/]): the builders of outgoing
      messages over a heap of Arrow objects that have to be released.
    - [Assert] ([assert.cc], [include/exception.hpp]): what a failed assertion writes and
      how it ends.
    - [MessageViews] ([udf_protocol.fbs], [udf_protocol.cc], [interface/*view*.cc]):
      received frames, verified and copied, and the views that read them.

    [Posix] carries [UnixSocket], [EventFd] and [Epoll]; [WaitableQueue] uses [EventFd]
    through its class; [MessageViews] uses [Assert], and hands data on to [Messages].

    ** The correspondence of state and operations

    A definition has the name of the function it models, in Rocq's lexical conventions.
    The static variables of the client library and the objects of the container are the
    fields of [Machine.machine]: [chan] is the socket and the rest of the outside,
    [sup] the supervision, [glob] the global structure with the parameter block and the
    exception handler, [it] the table iterator, [rh] the result handler, [vmf] the two
    fields of class [SWIGVM]. One object of each class exists at a time, as in the
    containers of the repository. Cells are [Z] for the numbers (a double is its 64
    bits), [string] for everything the protocol sends as text. Indexes, counters and
    sizes wrap as the C++ types do ([u32], [u64], [s32], [s64]). A vector element that
    is accessed without a check is [access], undefined when it is missing. In v2 an object
    is a record that its operations take and return; a move returns the new object and what
    is left of the old one, and a destructor is an explicit call.

    ** What the theorems show

    - The whole program: [ClientStart.main_forward_session] takes the process from the
      command line to its exit status, against a server that cooperates, and states
      every message of the session; [ClientRun.exaudfclient_main_session] does the same
      for any container that keeps its contract.
      [Session.client_life_cycle] and [Session.process_life_cycle] assume nothing about
      the environment: whatever the server answers, the events are a run of an
      automaton in which requests and replies alternate, the container lives inside one
      connection, its threads run only while it exists and share the socket under its lock,
      and a status is reported only with the socket closed, 0 only with the container
      deleted.
    - The data path: [TableIterator.iterator_scan_spec] (the reader sees exactly the
      rows that were sent, over any number of messages), [ResultHandler.handler_next_spec]
      and [flush_spec] (the emitted message holds exactly the staged rows),
      [RoundTrip.emit_read_round_trip] (a reader that is served the emitted table gets the
      emitted rows back).
    - The protocol: the handshake, each exchange, the import requests, the argument of a
      single call, exactly as the type of the reply decides.
    - The errors: what every error path leaves behind: [handle_error], an exception of
      [run], a refused reply, a row with a missing column, a getter on a missing column.
      Several of these theorems describe defects; the manifest lists them as findings.
    - The data transfer objects: invariants over every sequence of setter calls.
    - Threads: [SharedSocket.exchanges_atomic] shows that the mutex and the REQ socket
      together make every exchange atomic although neither does alone,
      [exchange_can_finish] that no thread is ever stuck, [unlocked_race] what happens
      without the mutex, and [socket_exchange_runs] that the sequential routines are runs
      of these steps. [WaitableQueue.queue_no_lost_wakeup] and [queue_delivers] are the
      safety and the liveness of the queue for any interleaving, under the two promises
      that they need of the queue; [missed_element_lost] and [thrown_element_lost] are the
      runs in which an element is forgotten without one of them;
      [enqueue_batch_runs] and [consumer_operations_run] tie the operations to the steps, and
      [QueueOnLinux.enqueue_batch_on_linux] and [drain_on_linux_spec] to the system calls
      of the Linux descriptor. [StreamInterleaving.streams_interleaved] says what every
      interleaving of the streaming container's threads writes and emits,
      [streams_can_finish] that both can always end if the program does its part,
      [error_output_deadlock] that they cannot with a program that complains too much, and
      [StreamThreads.threads_alone] that each thread on its own is the loop as it is
      written. [StreamRun.program_move_step] and [program_step_move] tie the moves of an
      executed run to the steps.
      [Supervision.clean_up_kills_nothing] shows that the client's own clean-up never makes
      the supervision thread kill the process, [watch_kills] that the thread does so when
      the database is gone; [watcher_alone_routine] and [client_stops_all] tie its points to
      the sequential routines.
    - Descriptors and memory in v2: [Ownership.descriptors_owned] (no leak, no double
      close, whatever the client does), [Epoll.epoll_lifetimes] (no call on a closed
      epoll), [Messages.builder_contract_spec] and
      [MessageViews.forwarded_data_released_once] (Arrow objects are freed once).
    - The operations of v2: [UnixSocket.connect_spec], [listener_bind_spec], [accept_spec],
      [write_some_spec], [read_some_spec], [Epoll.wait_deadline_spec],
      [EventFd.linux_event_fd_refines], [MessageViews.decoded_views_spec],
      [Assert.assertion_failure_spec].
    - The containers: [bench_run_spec], [stream_rows_spec], [stream_columns_eof],
      [emit_metadata_spec].
    - The parsers: the line loop equals a reference that splits the script into lines;
      the reported positions are inside the script; extraction removes exactly the
      option; the error names the line.

    ** Bounds and fuel

    [socket_send] and [socket_recv] recurse on the list of answers the environment still
    has, so they need no fuel; with the list used up they wait for ever. The loops of
    [exaudfclient_main] and of the containers take fuel and count as waiting when it is
    used up. The session theorems ask for one unit more than the rounds and rows of the
    session; [do_while] needs one per row, [parseOptions] the length of the script plus
    one and [read_results] the length of the output plus one, and both last bounds are
    supplied by the definitions or proved enough for every input. Where a theorem bounds
    the number of rows or bytes ([2 ^ 31] cells in a message, 4,000,000 bytes before a
    flush) the bound is the one at which the C++ code changes its behaviour. In v2 the
    retry loops and [drain_notifications] take fuel; the theorems ask for one unit more
    than the answers that interrupt the call, and hold for any number of these. Vectored
    input and output is bounded by 1024 buffers and [SSIZE_MAX] bytes as in the code.
    [StreamRun] recurses on the moves that the environment still has; the capacity of a
    pipe and of a stream buffer are parameters.

    ** What is assumed

    In v1 [bind] and [connect] succeed; assertions are compiled in; the variant for plugins
    ([UDF_PLUGIN_CLIENT]) and debug output are not compiled in. The session theorems leave the
    supervision thread out: it can only end the process ([Supervision] says when).
    The REQ socket of [SharedSocket] sends only when no reply is outstanding and receives
    only when one is, as the ZeroMQ library documents.
    A lock that is taken twice is undefined. The engine of the ctpg parser generator is a parameter with its contract:
    it answers with a derivation of the grammar or with an error text. The kernel's event
    counter and the FlatBuffers verifier are classes or parameters with the documented
    behaviour as their laws; each theorem that uses one names it. Of the lock-free queues
    the SPSC queue documents that [try_dequeue] fails if the queue is empty, the MPMC queue
    only that it is then likely to be; the record [queue_contract] says which of this a
    theorem uses. The program of the streaming container ends its outputs by exiting, and
    [pipe], [fork] and [waitpid] succeed.

    ** Not modelled

    - A call of the library by a thread of the streaming container is one step, in
      [StreamThreads] and in [StreamRun]: its exchange is atomic by [SharedSocket] as long
      as the lock of the socket is in use, which [Session.process_life_cycle] proves of
      every start of a thread. The unprotected read of the iterator's row number by the
      second thread is taken as an atomic read; formally it is a data race, and is reported
      as a finding. In [StreamThreads] the server's answers to the input are fixed and
      those to the emitted messages arbitrary; in [StreamRun] they come from the
      environment of the machine like all others.
    - The generated protobuf, FlatBuffers and SWIG code, the methods of the forwarding
      classes (they only call the implementation), debug macros, vendored code ([ctpg.hpp], the lock-free
      queues), tests, fuzzers and benchmarks.
    - In v2, the worker-facing interfaces ([Call], [Context], [ControlStream],
      [BackgroundThreadInterface]) are pure virtual and have no implementation yet; the
      Arrow demonstration is example code around the Arrow library. The text of a thrown
      [std::system_error] is kept, its error category is not. *)
From Stdlib Require Export ZArith Lia String Ascii.
From stdpp Require Export base tactics option list gmap strings pretty.

(** ** Outcomes and programs

    A C++ routine is a state transformer that ends in one of five ways: it
    returns, it throws, the process is killed (a failed [assert] or [abort]),
    it waits for ever for the environment, or its behaviour is undefined (an
    access out of range, a read of an uninitialised field). *)
Inductive outcome (E A : Type) : Type :=
  | Ret (a : A)
  | Throw (e : E)
  | Abort
  | Blocked
  | Undef.
Arguments Ret {E A} a.
Arguments Throw {E A} e.
Arguments Abort {E A}.
Arguments Blocked {E A}.
Arguments Undef {E A}.

Definition M (S E A : Type) : Type := S → outcome E A * S.

Section operations.
Context {S E : Type}.

Definition bind_outcome {A B} (f : A → M S E B) (r : outcome E A * S) :
  outcome E B * S :=
  match r.1 with
  | Ret a => f a r.2
  | Throw e => (Throw e, r.2)
  | Abort => (Abort, r.2)
  | Blocked => (Blocked, r.2)
  | Undef => (Undef, r.2)
  end.

#[global] Instance M_ret : MRet (M S E) := λ A a s, (Ret a, s).
#[global] Instance M_bind : MBind (M S E) := λ A B f m s, bind_outcome f (m s).

Definition throw {A} (e : E) : M S E A := λ s, (Throw e, s).
Definition abort {A} : M S E A := λ s, (Abort, s).
Definition blocked {A} : M S E A := λ s, (Blocked, s).
Definition undef {A} : M S E A := λ s, (Undef, s).
Definition gets {A} (f : S → A) : M S E A := λ s, (Ret (f s), s).
Definition modify (f : S → S) : M S E unit := λ s, (Ret tt, f s).

(** [try m { … } catch (e) { h }] *)
Definition try_catch {A} (m : M S E A) (h : E → M S E A) : M S E A := λ s,
  match m s with
  | (Throw e, s') => h e s'
  | r => r
  end.

(** [if (b) { m }] without an else branch *)
Definition when (b : bool) (m : M S E unit) : M S E unit :=
  if b then m else mret tt.

(** [assert(b)] in a build where assertions are compiled in *)
Definition massert (b : bool) : M S E unit := if b then mret tt else abort.

(** An access that is undefined behaviour when the element is missing *)
Definition access {A} (o : option A) : M S E A :=
  match o with Some a => mret a | None => undef end.

Fixpoint mapM_ {A} (f : A → M S E unit) (l : list A) : M S E unit :=
  match l with
  | [] => mret tt
  | x :: l' => f x ;; mapM_ f l'
  end.
End operations.

Arguments bind_outcome {S E A B} f !r /.
#[global] Typeclasses Opaque M.

(** ** Running programs

    The equations that evaluate a program at a state, gathered in the rewrite
    database [run]; [run_bind] steps through a sequence whose first part is
    known to return. *)
Section running.
Context {S E : Type}.
Implicit Types s : S.

Lemma bind_run {A B} (m : M S E A) (f : A → M S E B) s :
  (m ≫= f) s = bind_outcome f (m s).
Proof. done. Qed.

Lemma run_bind {A B} (m : M S E A) (f : A → M S E B) s s' a :
  m s = (Ret a, s') → (m ≫= f) s = f a s'.
Proof. intros H. by rewrite bind_run, H. Qed.

Lemma run_bind_throw {A B} (m : M S E A) (f : A → M S E B) s s' e :
  m s = (Throw e, s') → (m ≫= f) s = (Throw e, s').
Proof. intros H. by rewrite bind_run, H. Qed.

Lemma run_bind_blocked {A B} (m : M S E A) (f : A → M S E B) s s' :
  m s = (Blocked, s') → (m ≫= f) s = (Blocked, s').
Proof. intros H. by rewrite bind_run, H. Qed.

Lemma run_bind_ext {A B} (m : M S E A) (f g : A → M S E B) s :
  (∀ a s', m s = (Ret a, s') → f a s' = g a s') → (m ≫= f) s = (m ≫= g) s.
Proof.
  intros Hf. rewrite !bind_run. unfold bind_outcome.
  destruct (m s) as [[] s'] eqn:Hm; simpl; by try apply Hf.
Qed.

Lemma run_bind_inv {A B} (m : M S E A) (f : A → M S E B) s s'' b :
  (m ≫= f) s = (Ret b, s'') →
  ∃ a s', m s = (Ret a, s') ∧ f a s' = (Ret b, s'').
Proof.
  rewrite bind_run. unfold bind_outcome. destruct (m s) as [[] s']; simpl;
    naive_solver.
Qed.

Lemma run_ret {A} (a : A) s : (mret a : M S E A) s = (Ret a, s).
Proof. done. Qed.
Lemma run_throw {A} (e : E) s : (throw e : M S E A) s = (Throw e, s).
Proof. done. Qed.
Lemma run_gets {A} (f : S → A) s : (gets f : M S E A) s = (Ret (f s), s).
Proof. done. Qed.
Lemma run_modify (f : S → S) s : (modify f : M S E unit) s = (Ret tt, f s).
Proof. done. Qed.
Lemma run_access_some {A} (o : option A) a s :
  o = Some a → (access o : M S E A) s = (Ret a, s).
Proof. by intros ->. Qed.
Lemma run_bind_ret {A B} (a : A) (f : A → M S E B) s : (mret a ≫= f) s = f a s.
Proof. done. Qed.
Lemma run_bind_gets {A B} (g : S → A) (f : A → M S E B) s :
  (gets g ≫= f) s = f (g s) s.
Proof. done. Qed.
Lemma run_bind_modify {B} (g : S → S) (f : unit → M S E B) s :
  (modify g ≫= f) s = f tt (g s).
Proof. done. Qed.
Lemma run_bind_thrown {A B} (e : E) (f : A → M S E B) s :
  (throw e ≫= f) s = (Throw e, s).
Proof. done. Qed.
Lemma run_bind_access {A B} (o : option A) a (f : A → M S E B) s :
  o = Some a → (access o ≫= f) s = f a s.
Proof. by intros ->. Qed.
Lemma run_bind_bind {A B C} (m : M S E A) (f : A → M S E B) (g : B → M S E C) s :
  ((m ≫= f) ≫= g) s = (m ≫= λ a, f a ≫= g) s.
Proof. rewrite !bind_run. unfold bind_outcome. by destruct (m s) as [[] ?]. Qed.
Lemma bind_unit_r (f : M S E unit) (m : M S E unit) s :
  (m;; f;; mret tt) s = (m;; f) s.
Proof.
  rewrite !bind_run. unfold bind_outcome. destruct (m s) as [[] s']; simpl; try done.
  rewrite bind_run. unfold bind_outcome. by destruct (f s') as [[[]| | | |] ?].
Qed.
Lemma mapM_invariant {A} (P : S → Prop) (f : A → M S E unit) l s s' :
  (∀ x s s', x ∈ l → P s → f x s = (Ret tt, s') → P s') →
  P s → mapM_ f l s = (Ret tt, s') → P s'.
Proof.
  revert s. induction l as [|x l IH]; intros s Hf Hs Hr; simpl in Hr.
  - by injection Hr as <-.
  - apply run_bind_inv in Hr as ([] & s1 & H1 & H2). apply (IH s1); [|by eapply Hf; [left| |]|done].
    intros y s2 s3 Hy. apply Hf. by right.
Qed.
Lemma run_catch_ret {A} (m : M S E A) h s s' a :
  m s = (Ret a, s') → try_catch m h s = (Ret a, s').
Proof. intros H. unfold try_catch. by rewrite H. Qed.
Lemma run_catch_throw {A} (m : M S E A) h s s' e :
  m s = (Throw e, s') → try_catch m h s = h e s'.
Proof. intros H. unfold try_catch. by rewrite H. Qed.
End running.

Create Rewrite HintDb run.
#[export] Hint Rewrite @run_ret @run_throw @run_gets @run_modify @run_bind_ret
  @run_bind_gets @run_bind_modify @run_bind_thrown @run_bind_bind : run.

(** [run_simpl] evaluates the bookkeeping steps of a program at a state. *)
Ltac run_simpl := repeat (progress (autorewrite with run; simpl)).

(** ** Equivalence of programs

    Two programs are equivalent when they agree at every state. Sequencing and
    exception handling respect it, so the monad laws can be used to rewrite
    inside a program. *)
#[global] Instance M_equiv S E A : Equiv (M S E A) := λ m1 m2, ∀ s, m1 s = m2 s.

#[global] Instance M_equivalence S E A : Equivalence (≡@{M S E A}).
Proof.
  split.
  - by intros m s.
  - intros m1 m2 H s. by rewrite H.
  - intros m1 m2 m3 H1 H2 s. by rewrite H1, H2.
Qed.

#[global] Instance M_bind_proper S E A B :
  Proper (pointwise_relation A (≡) ==> (≡) ==> (≡)) (@mbind (M S E) M_bind A B).
Proof.
  intros f1 f2 Hf m1 m2 Hm s. rewrite !bind_run, Hm.
  unfold bind_outcome. destruct (m2 s) as [[] s']; simpl; [apply Hf|done..].
Qed.

#[global] Instance M_catch_proper S E A :
  Proper ((≡) ==> pointwise_relation E (≡) ==> (≡)) (@try_catch S E A).
Proof.
  intros m1 m2 Hm h1 h2 Hh s. unfold try_catch. rewrite Hm.
  destruct (m2 s) as [[] s']; try done. apply Hh.
Qed.

Section laws.
Context {S E : Type}.

Lemma bind_ret_l {A B} (a : A) (f : A → M S E B) : mret a ≫= f ≡ f a.
Proof. by intros s. Qed.
Lemma bind_ret_r {A} (m : M S E A) : m ≫= mret ≡ m.
Proof. intros s. rewrite bind_run. unfold bind_outcome. by destruct (m s) as [[] ?]. Qed.
Lemma bind_assoc {A B C} (m : M S E A) (f : A → M S E B) (g : B → M S E C) :
  (m ≫= f) ≫= g ≡ m ≫= λ a, f a ≫= g.
Proof. intros s. rewrite !bind_run. unfold bind_outcome. by destruct (m s) as [[] ?]. Qed.
Lemma bind_throw_l {A B} (e : E) (f : A → M S E B) : throw e ≫= f ≡ throw e.
Proof. by intros s. Qed.
Lemma mapM_app {A} (f : A → M S E unit) (l k : list A) :
  mapM_ f (l ++ k) ≡ (mapM_ f l ;; mapM_ f k).
Proof.
  induction l as [|x l IH]; simpl.
  - by intros s.
  - rewrite bind_assoc. f_equiv. intros []. apply IH.
Qed.
End laws.

(** ** Frames

    [keeps R m]: whatever way [m] ends, the states before and after are related
    by [R]. With [R] a preorder such as "the trace only grows" the database
    [keeps] composes the fact through a whole program. *)
Definition keeps {S E A} (R : S → S → Prop) (m : M S E A) : Prop :=
  ∀ s, R s (m s).2.

Section keeps.
Context {S E : Type} (R : S → S → Prop) `{!PreOrder R}.

Lemma keeps_run {A} (m : M S E A) s o s' : keeps R m → m s = (o, s') → R s s'.
Proof. intros Hk Hm. specialize (Hk s). by rewrite Hm in Hk. Qed.
Lemma keeps_ret {A} (a : A) : keeps R (mret a : M S E A).
Proof. intros s. simpl. reflexivity. Qed.
Lemma keeps_throw {A} (e : E) : keeps R (throw e : M S E A).
Proof. intros s. simpl. reflexivity. Qed.
Lemma keeps_abort {A} : keeps R (abort : M S E A).
Proof. intros s. simpl. reflexivity. Qed.
Lemma keeps_undef {A} : keeps R (undef : M S E A).
Proof. intros s. simpl. reflexivity. Qed.
Lemma keeps_gets {A} (f : S → A) : keeps R (gets f : M S E A).
Proof. intros s. simpl. reflexivity. Qed.
Lemma keeps_modify (f : S → S) : (∀ s, R s (f s)) → keeps R (modify f : M S E unit).
Proof. intros H s. apply H. Qed.
Lemma keeps_access {A} (o : option A) : keeps R (access o : M S E A).
Proof. intros s. destruct o; simpl; reflexivity. Qed.
Lemma keeps_massert b : keeps R (massert b : M S E unit).
Proof. intros s. destruct b; simpl; reflexivity. Qed.
Lemma keeps_bind {A B} (m : M S E A) (f : A → M S E B) :
  keeps R m → (∀ a, keeps R (f a)) → keeps R (m ≫= f).
Proof.
  intros Hm Hf s. rewrite bind_run. specialize (Hm s). unfold bind_outcome.
  destruct (m s) as [[] s']; simpl in *; try done.
  transitivity s'; [done|]. apply Hf.
Qed.
Lemma keeps_catch {A} (m : M S E A) h :
  keeps R m → (∀ e, keeps R (h e)) → keeps R (try_catch m h).
Proof.
  intros Hm Hh s. specialize (Hm s). unfold try_catch.
  destruct (m s) as [[] s']; simpl in *; try done.
  transitivity s'; [done|]. apply Hh.
Qed.
Lemma keeps_when b m : keeps R m → keeps R (when b m : M S E unit).
Proof. destruct b; [done|]. intros _. apply keeps_ret. Qed.
Lemma keeps_mapM {A} (f : A → M S E unit) l :
  (∀ x, keeps R (f x)) → keeps R (mapM_ f l).
Proof.
  intros Hf. induction l; simpl; [apply keeps_ret|]. by apply keeps_bind.
Qed.
End keeps.

Create HintDb keeps.
#[export] Hint Resolve keeps_ret keeps_throw keeps_abort keeps_undef keeps_gets
  keeps_access keeps_massert keeps_when keeps_mapM : keeps.

(** [keeps_auto] walks through a program and leaves the goals about the steps
    that change the state. *)
Ltac keeps_step :=
  lazymatch goal with
  | |- keeps _ (mbind _ _) => apply keeps_bind; [try apply _|..|intros ?]
  | |- keeps _ (try_catch _ _) => apply keeps_catch; [try apply _|..|intros ?]
  | |- keeps _ (when _ _) => apply keeps_when; [apply _|]
  | |- keeps _ (match ?x with _ => _ end) => destruct x
  | |- keeps _ (modify _) => apply keeps_modify
  | |- keeps _ _ => solve [eauto 3 with keeps typeclass_instances]
  end.
Ltac keeps_auto := repeat (keeps_step; simpl).

(** ** Weakest preconditions *)
Definition wp {S E A} (m : M S E A) (Q : outcome E A → S → Prop) (s : S) : Prop :=
  Q (m s).1 (m s).2.

Section wp.
Context {S E : Type}.

Lemma wp_mono {A} (m : M S E A) (P Q : outcome E A → S → Prop) s :
  wp m P s → (∀ o s', P o s' → Q o s') → wp m Q s.
Proof. unfold wp. auto. Qed.

Lemma wp_bind {A B} (m : M S E A) (f : A → M S E B) Q s :
  wp m (λ o s', match o with
                | Ret a => wp (f a) Q s'
                | Throw e => Q (Throw e) s'
                | Abort => Q Abort s'
                | Blocked => Q Blocked s'
                | Undef => Q Undef s'
                end) s →
  wp (m ≫= f) Q s.
Proof.
  unfold wp. rewrite bind_run. unfold bind_outcome.
  by destruct (m s) as [[] s'].
Qed.

Lemma wp_catch {A} (m : M S E A) h Q s :
  wp m (λ o s', match o with Throw e => wp (h e) Q s' | o => Q o s' end) s →
  wp (try_catch m h) Q s.
Proof. unfold wp, try_catch. by destruct (m s) as [[] s']. Qed.

Lemma wp_run {A} (m : M S E A) Q s o s' : m s = (o, s') → wp m Q s → Q o s'.
Proof. unfold wp. by intros ->. Qed.
End wp.

(** ** Record update

    [r <| field := v |>] writes one field. A record that uses it declares how
    it is rebuilt from its fields ([Rebuild]); the update of each field is
    derived from that by the instance below. *)
Class Rebuild (R : Type) : Type := rebuild : R → R.
Class FieldUpdate {R F : Type} (proj : R → F) : Type := field_update : F → R → R.

Ltac derive_field_update :=
  match goal with
  | |- @FieldUpdate ?R ?F ?p =>
      let inst := constr:(_ : Rebuild R) in
      let e := eval red in inst in
      let e := match e with (λ x : _, _) => e | ?c => eval red in c end in
      match eval pattern p in e with
      | ?G _ =>
          let t := eval cbv beta in (λ v : F, G (λ _ : R, v)) in
          exact t
      end
  end.
#[export] Hint Extern 1 (FieldUpdate _) => derive_field_update : typeclass_instances.

Definition update {R F : Type} (proj : R → F) `{!FieldUpdate proj} (v : F) (r : R) : R :=
  field_update v r.

Declare Scope update_scope.
Delimit Scope update_scope with upd.
Notation "r <| proj := v |>" := (update proj v r)
  (at level 1, left associativity, proj at level 9, v at level 200,
   format "r  <| proj  :=  v |>") : update_scope.
Open Scope update_scope.

(** ** Machine integers *)
Definition u32 (z : Z) : Z := (z `mod` 2 ^ 32)%Z.
Definition u64 (z : Z) : Z := (z `mod` 2 ^ 64)%Z.
Definition s32 (z : Z) : Z := ((z + 2 ^ 31) `mod` 2 ^ 32 - 2 ^ 31)%Z.
Definition s64 (z : Z) : Z := ((z + 2 ^ 63) `mod` 2 ^ 64 - 2 ^ 63)%Z.

Lemma u32_small z : (0 ≤ z < 2 ^ 32)%Z → u32 z = z.
Proof. apply Z.mod_small. Qed.
Lemma u64_small z : (0 ≤ z < 2 ^ 64)%Z → u64 z = z.
Proof. apply Z.mod_small. Qed.
Lemma s64_small z : (- 2 ^ 63 ≤ z < 2 ^ 63)%Z → s64 z = z.
Proof. intros H. unfold s64. rewrite Z.mod_small; lia. Qed.
Lemma s32_small z : (- 2 ^ 31 ≤ z < 2 ^ 31)%Z → s32 z = z.
Proof. intros H. unfold s32. rewrite Z.mod_small; lia. Qed.
Lemma u64_range z : (0 ≤ u64 z < 2 ^ 64)%Z.
Proof. apply Z.mod_pos_bound. lia. Qed.
Lemma u32_range z : (0 ≤ u32 z < 2 ^ 32)%Z.
Proof. apply Z.mod_pos_bound. lia. Qed.

(** The [i]-th element of a vector indexed by a machine integer *)
Definition zlookup {A} (l : list A) (i : Z) : option A :=
  if (i <? 0)%Z then None else l !! Z.to_nat i.

Lemma zlookup_nat {A} (l : list A) (n : nat) : zlookup l (Z.of_nat n) = l !! n.
Proof.
  unfold zlookup. destruct (Z.ltb_spec (Z.of_nat n) 0); [lia|]. by rewrite Nat2Z.id.
Qed.

Definition zlength {A} (l : list A) : Z := Z.of_nat (length l).

(** ** C strings

    A [std::string] is a [string], any bytes included. A C string ends at its
    first NUL, so a trip through [c_str()] keeps the part before it. *)
Fixpoint c_str (s : string) : string :=
  match s with
  | EmptyString => EmptyString
  | String c s' => if Ascii.eqb c "000" then EmptyString else String c (c_str s')
  end.

Lemma c_str_idemp s : c_str (c_str s) = c_str s.
Proof.
  induction s as [|c s IH]; simpl; [done|].
  destruct (Ascii.eqb c "000") eqn:E; simpl; [done|]. by rewrite E, IH.
Qed.

(** A string without NUL is its own C string. *)
Fixpoint no_nul (s : string) : bool :=
  match s with
  | EmptyString => true
  | String c s' => negb (Ascii.eqb c "000") && no_nul s'
  end.

Lemma c_str_no_nul s : no_nul s = true → c_str s = s.
Proof.
  induction s as [|c s IH]; simpl; [done|]. intros [H1 H2]%andb_true_iff.
  apply negb_true_iff in H1. rewrite H1. by rewrite IH.
Qed.

Lemma append_nil_r (s : string) : (s +:+ "")%string = s.
Proof. induction s as [|c s IH]; [done|]. exact (f_equal (String c) IH). Qed.
Lemma append_assoc (s1 s2 s3 : string) : s1 +:+ (s2 +:+ s3) = (s1 +:+ s2) +:+ s3.
Proof. induction s1 as [|c s1 IH]; [done|]. exact (f_equal (String c) IH). Qed.
Lemma length_append (s1 s2 : string) :
  String.length (s1 +:+ s2) = (String.length s1 + String.length s2)%nat.
Proof. induction s1 as [|c s1 IH]; [done|]. exact (f_equal S IH). Qed.

Definition str_empty (s : string) : bool :=
  match s with EmptyString => true | _ => false end.

Lemma str_empty_false s : str_empty s = false ↔ s ≠ ""%string.
Proof. by destruct s. Qed.
Lemma str_empty_true s : str_empty s = true ↔ s = ""%string.
Proof. by destruct s. Qed.

(** Decimal output of [std::to_string] and of [ostream <<] on an integer *)
Definition to_string (z : Z) : string := pretty z.
