(* ===== verification/StdString.v ===== *)
(** * The searches of [std::string] the parsers use

    Text is a list of characters; [npos] is [None]. [find_if] is the common form of
    [find_first_of] and [find_first_not_of], [rfind_if] that of the searches from
    the end. *)
From S2P Require Import Prelude.

Open Scope list_scope.
Open Scope nat_scope.

Abbreviation text := (list ascii).

(** A literal *)
Notation "'txt' s" := (list_ascii_of_string s%string) (at level 10, s at level 9, only parsing).

Definition one_of (set : text) (c : ascii) : bool := bool_decide (c ∈ set).
Definition none_of (set : text) (c : ascii) : bool := negb (one_of set c).

(** ** The searches *)
Fixpoint index_of (p : ascii → bool) (s : text) : option nat :=
  match s with
  | [] => None
  | c :: s => if p c then Some 0 else S <$> index_of p s
  end.

(** The first position from [pos] on whose character satisfies [p] *)
Definition find_if (p : ascii → bool) (s : text) (pos : nat) : option nat :=
  (λ i, pos + i) <$> index_of p (drop pos s).

(** The last such position not after [pos] *)
Definition rfind_if (p : ascii → bool) (s : text) (pos : nat) : option nat :=
  let front := take (S pos) s in
  (λ i, length front - S i) <$> index_of p (reverse front).

Definition find_first_of (s set : text) (pos : nat) : option nat := find_if (one_of set) s pos.
Definition find_first_not_of (s set : text) (pos : nat) : option nat :=
  find_if (none_of set) s pos.
Definition find_last_of (s set : text) (pos : nat) : option nat := rfind_if (one_of set) s pos.
Definition find_last_not_of (s set : text) (pos : nat) : option nat :=
  rfind_if (none_of set) s pos.

Fixpoint is_prefix (p s : text) : bool :=
  match p, s with
  | [], _ => true
  | c :: p, d :: s => Ascii.eqb c d && is_prefix p s
  | _, [] => false
  end.

Fixpoint index_of_text (p s : text) : option nat :=
  if is_prefix p s then Some 0
  else match s with [] => None | _ :: s => S <$> index_of_text p s end.

(** [s.find(p)] *)
Definition find (s p : text) : option nat := index_of_text p s.

(** [s.substr(pos, n)], with the exception of a position past the end as [None];
    [s.erase(pos, n)] for a position inside *)
Definition substr (s : text) (pos n : nat) : option text :=
  if pos <=? length s then Some (take n (drop pos s)) else None.
Definition erase (s : text) (pos n : nat) : text := take pos s ++ drop (pos + n) s.

(** [s.compare(pos, n, t) == 0] *)
Definition compare_eq (s : text) (pos n : nat) (t : text) : bool :=
  bool_decide (take n (drop pos s) = t).

(** ** What they find *)
Lemma index_of_some p s i :
  index_of p s = Some i ↔
  (∃ c, s !! i = Some c ∧ p c = true) ∧ Forall (λ c, p c = false) (take i s).
Proof.
  revert i. induction s as [|d s IH]; intros i; simpl; [naive_solver|].
  destruct (p d) eqn:Hd.
  - split; [intros [= <-]; split; [by exists d|constructor]|].
    intros [_ Hf]. destruct i as [|i]; [done|]. simpl in Hf. apply Forall_cons in Hf as [? _].
    congruence.
  - split.
    + intros (j & Hj & ->) % fmap_Some. apply IH in Hj as [Hc Hf]. split; [done|]. by constructor.
    + intros [(c & Hc & Hp) Hf]. destruct i as [|i]; [simpl in Hc; congruence|].
      simpl in Hc, Hf. apply Forall_cons in Hf as [_ Hf].
      by rewrite (proj2 (IH i) (conj (ex_intro _ c (conj Hc Hp)) Hf)).
Qed.

Lemma index_of_none p s : index_of p s = None ↔ Forall (λ c, p c = false) s.
Proof.
  induction s as [|d s IH]; simpl; [by split|]. rewrite Forall_cons, <-IH.
  destruct (p d); [naive_solver|]. rewrite fmap_None. naive_solver.
Qed.

Lemma index_of_app p s t :
  Forall (λ c, p c = false) s → index_of p (s ++ t) = (λ i, length s + i) <$> index_of p t.
Proof.
  induction 1 as [|c s Hc _ IH]; simpl; [by destruct (index_of p t)|].
  rewrite Hc, IH. by destruct (index_of p t).
Qed.

Lemma index_of_length p s i : index_of p s = Some i → i < length s.
Proof. intros [(c & Hc & _) _] % index_of_some. by apply lookup_lt_Some in Hc. Qed.

Lemma find_if_some p s pos i :
  find_if p s pos = Some i →
  pos ≤ i < length s ∧ (∃ c, s !! i = Some c ∧ p c = true) ∧
  ∀ j c, pos ≤ j < i → s !! j = Some c → p c = false.
Proof.
  unfold find_if. intros (k & Hk & ->) % fmap_Some.
  pose proof (index_of_length _ _ _ Hk) as Hlen. rewrite length_drop in Hlen.
  apply index_of_some in Hk as [(c & Hc & Hp) Hf]. rewrite lookup_drop in Hc.
  split; [lia|]. split; [by exists c|]. intros j d Hj Hd.
  rewrite Forall_lookup in Hf. apply (Hf (j - pos)).
  rewrite lookup_take_lt, lookup_drop by lia. by replace (pos + (j - pos)) with j by lia.
Qed.

Lemma find_if_none p s pos j c :
  find_if p s pos = None → pos ≤ j → s !! j = Some c → p c = false.
Proof.
  unfold find_if. rewrite fmap_None, index_of_none, Forall_lookup. intros Hf Hj Hc.
  apply (Hf (j - pos)). rewrite lookup_drop. by replace (pos + (j - pos)) with j by lia.
Qed.

Lemma rfind_if_some p s pos i :
  rfind_if p s pos = Some i →
  i ≤ pos ∧ i < length s ∧ (∃ c, s !! i = Some c ∧ p c = true) ∧
  ∀ j c, i < j ≤ pos → s !! j = Some c → p c = false.
Proof.
  unfold rfind_if. set (f := take (S pos) s). intros (k & Hk & ->) % fmap_Some.
  pose proof (index_of_length _ _ _ Hk) as Hlen. rewrite length_reverse in Hlen.
  assert (length f ≤ S pos ∧ length f ≤ length s) as [Hf1 Hf2]
    by (unfold f; rewrite length_take; lia).
  apply index_of_some in Hk as [(c & Hc & Hp) Hf].
  rewrite reverse_lookup in Hc by done. split; [lia|]. split; [lia|]. split.
  - exists c. split; [|done]. by apply lookup_take_Some in Hc as [Hc _].
  - intros j d Hj Hd. rewrite Forall_lookup in Hf.
    assert (f !! j = Some d) as Hfj by (unfold f; rewrite lookup_take_lt by lia; done).
    pose proof (lookup_lt_Some _ _ _ Hfj). apply (Hf (length f - S j)).
    rewrite lookup_take_lt, reverse_lookup by lia.
    by replace (length f - S (length f - S j)) with j by lia.
Qed.

Lemma rfind_if_none p s pos j c :
  rfind_if p s pos = None → j ≤ pos → s !! j = Some c → p c = false.
Proof.
  unfold rfind_if. rewrite fmap_None, index_of_none, Forall_reverse, Forall_lookup.
  intros Hf Hj Hc. apply (Hf j). rewrite lookup_take_lt; [done|lia].
Qed.

(** A search that skips a part without hits *)
Lemma find_if_app p s t pos k c u :
  Forall (λ c, p c = false) t → pos = length s → k = length s + length t → p c = true →
  find_if p (s ++ t ++ c :: u) pos = Some k.
Proof.
  intros Ht -> -> Hc. unfold find_if. rewrite drop_app_length, (index_of_app _ _ _ Ht).
  simpl. rewrite Hc. simpl. f_equal. lia.
Qed.

Lemma rfind_if_app p s t pos :
  Forall (λ c, p c = false) t → ∀ c u, p c = true → S pos = length s + S (length t) →
  rfind_if p (s ++ c :: t ++ u) pos = Some (length s).
Proof.
  intros Ht c u Hc Hpos. unfold rfind_if.
  assert (take (S pos) (s ++ c :: t ++ u) = s ++ c :: t) as ->.
  { change (c :: t ++ u) with ((c :: t) ++ u). rewrite app_assoc, take_app_length'; [done|].
    rewrite length_app. simpl. lia. }
  rewrite reverse_app, reverse_cons, <-app_assoc.
  rewrite index_of_app by by apply Forall_reverse. simpl. rewrite Hc. simpl.
  f_equal. rewrite length_app, length_reverse. simpl. lia.
Qed.

Lemma rfind_if_all p s pos u :
  Forall (λ c, p c = false) s → S pos = length s → rfind_if p (s ++ u) pos = None.
Proof.
  intros Hs Hpos. unfold rfind_if. rewrite take_app_length' by done.
  by rewrite (proj2 (index_of_none _ _)) by by apply Forall_reverse.
Qed.

(** ** Sub-texts *)
Lemma is_prefix_spec p s : is_prefix p s = true ↔ ∃ u, s = p ++ u.
Proof.
  revert s. induction p as [|c p IH]; intros s; simpl; [naive_solver|].
  destruct s as [|d s]; [split; [done|by intros [? [=]]]|].
  rewrite andb_true_iff, Ascii.eqb_eq, IH. naive_solver.
Qed.

Lemma find_some s p i :
  find s p = Some i →
  (∃ u, s = take i s ++ p ++ u) ∧ ∀ j, j < i → ∀ u, s ≠ take j s ++ p ++ u.
Proof.
  unfold find. revert i. induction s as [|c s IH]; intros i; simpl.
  - destruct (is_prefix p []) eqn:Hp; [|done]. intros [= <-].
    apply is_prefix_spec in Hp as [u Hu]. split; [by exists u|lia].
  - destruct (is_prefix p (c :: s)) eqn:Hp.
    + intros [= <-]. apply is_prefix_spec in Hp as [u Hu]. split; [by exists u|lia].
    + intros (k & Hk & ->) % fmap_Some. destruct (IH k Hk) as [[u Hu] Hn]. split.
      * exists u. simpl. by rewrite <-Hu.
      * intros [|j] Hj v Hv; simpl in Hv.
        -- assert (is_prefix p (c :: s) = true) by (apply is_prefix_spec; by exists v). congruence.
        -- injection Hv as Hv. apply (Hn j ltac:(lia) v Hv).
Qed.

Lemma find_here s p u :
  (∀ j v, j < length s → s ++ p ++ u ≠ take j s ++ p ++ v) → find (s ++ p ++ u) p = Some (length s).
Proof.
  unfold find. induction s as [|c s IH]; intros Hn; simpl.
  - destruct (p ++ u) eqn:Hpu; simpl; (replace (is_prefix p _) with true; [done|]); symmetry;
      apply is_prefix_spec; exists u; congruence.
  - destruct (is_prefix p (c :: s ++ p ++ u)) eqn:Hp.
    + apply is_prefix_spec in Hp as [v Hv]. exfalso. apply (Hn 0 v); [simpl; lia|done].
    + rewrite IH; [done|]. intros j v Hj Hv. apply (Hn (S j) v); [simpl; lia|].
      simpl. by rewrite Hv.
Qed.

(** Concrete text is read with [txt]; its length and look-ups compute. *)
Lemma substr_inside s pos n : pos ≤ length s → substr s pos n = Some (take n (drop pos s)).
Proof. intros Hp. unfold substr. by rewrite (proj2 (Nat.leb_le _ _) Hp). Qed.

Lemma erase_middle a b c n : n = length b → erase (a ++ b ++ c) (length a) n = a ++ c.
Proof.
  intros ->. unfold erase. rewrite take_app_length, app_assoc, <-length_app.
  by rewrite drop_app_length.
Qed.

(** ** Parts of a text *)
Definition part (s : text) (i j : nat) : text := take (j - i) (drop i s).

Lemma drop_part s i j : i ≤ j → drop i s = part s i j ++ drop j s.
Proof.
  intros Hij. unfold part. replace (drop j s) with (drop (j - i) (drop i s)).
  - by rewrite take_drop.
  - rewrite drop_drop. f_equal. lia.
Qed.

Lemma part_forall (P : ascii → Prop) s i j :
  (∀ k c, i ≤ k < j → s !! k = Some c → P c) → Forall P (part s i j).
Proof.
  intros H. apply Forall_lookup. intros k c Hk. unfold part in Hk.
  apply lookup_take_Some in Hk as [Hk Hlt]. rewrite lookup_drop in Hk.
  apply (H (i + k)); [lia|done].
Qed.

Lemma part_length s i j : j ≤ length s → length (part s i j) = j - i.
Proof. intros Hj. unfold part. rewrite length_take, length_drop. lia. Qed.
