(* ===== verification/SwigCommon.v ===== *)
(** * Shared data of the v1 client ([swig/swig_common.h])

    The enumerations, the exception handler object and the parameter block
    [SWIGVM_params_t] that the library and the language containers share. *)
From S2P Require Import Prelude.

Open Scope string_scope.
Open Scope list_scope.
Open Scope nat_scope.

(** [enum VMTYPE] *)
Inductive VMTYPE : Type :=
  | VM_UNSUPPORTED | VM_PYTHON | VM_SCHEME | VM_JAVASCRIPT | VM_R | VM_EXTERNAL
  | VM_JAVA | VM_PLUGIN_LANGUAGE | VM_BENCHMARK.

(** [enum SWIGVM_datatype_e], with the number each enumerator has in C++ *)
Inductive SWIGVM_datatype_e : Type :=
  | UNSUPPORTED | DOUBLE | INT32 | INT64 | NUMERIC | TIMESTAMP | DATE | STRING
  | BOOLEAN | INTERVALYM | INTERVALDS | GEOMETRY.

Definition datatype_num (t : SWIGVM_datatype_e) : Z :=
  match t with
  | UNSUPPORTED => 0 | DOUBLE => 1 | INT32 => 2 | INT64 => 3 | NUMERIC => 4
  | TIMESTAMP => 5 | DATE => 6 | STRING => 7 | BOOLEAN => 8 | INTERVALYM => 9
  | INTERVALDS => 10 | GEOMETRY => 11
  end.

#[global] Instance SWIGVM_datatype_e_eq_dec : EqDecision SWIGVM_datatype_e.
Proof. solve_decision. Defined.

(** [enum SWIGVM_itertype_e] *)
Inductive SWIGVM_itertype_e : Type := EXACTLY_ONCE | MULTIPLE.

#[global] Instance SWIGVM_itertype_e_eq_dec : EqDecision SWIGVM_itertype_e.
Proof. solve_decision. Defined.

(** [enum single_call_function_id_e] *)
Inductive single_call_function_id_e : Type :=
  | SC_FN_NIL
  | SC_FN_DEFAULT_OUTPUT_COLUMNS
  | SC_FN_VIRTUAL_SCHEMA_ADAPTER_CALL
  | SC_FN_GENERATE_SQL_FOR_IMPORT_SPEC
  | SC_FN_GENERATE_SQL_FOR_EXPORT_SPEC.

#[global] Instance single_call_function_id_e_eq_dec :
  EqDecision single_call_function_id_e.
Proof. solve_decision. Defined.

(** [struct SWIGVMExceptionHandler] *)
Record SWIGVMExceptionHandler : Type := mkExch {
  exmsg : string;
  exthrowed : bool;
}.

(** The constructor *)
Definition SWIGVMExceptionHandler_init : SWIGVMExceptionHandler := mkExch "" false.

(** [setException(const std::string&)]. The overload for [const char*] gets a C
    string, which callers of the model truncate with [c_str]. *)
Definition setException (msg : string) (h : SWIGVMExceptionHandler) :
  SWIGVMExceptionHandler := mkExch msg true.

(** [SWIGGeneralIterator::checkException] and its copy in [SWIGMetadata_Impl]:
    reports the pending message once. *)
Definition checkException (h : SWIGVMExceptionHandler) :
  option string * SWIGVMExceptionHandler :=
  if exthrowed h then (Some (c_str (exmsg h)), mkExch (exmsg h) false)
  else (None, h).

(** [struct SWIGVM_columntype_t] *)
Record SWIGVM_columntype_t : Type := mkColumntype {
  ct_type : SWIGVM_datatype_e;
  ct_type_name : string;
  ct_len : Z;
  ct_prec : Z;
  ct_scale : Z;
}.

(** Its default constructor *)
Definition SWIGVM_columntype_default : SWIGVM_columntype_t :=
  mkColumntype UNSUPPORTED "UNSUPPORTED" 0 0 0.

(** [struct SWIGVM_params_t]. The [char*] fields are [None] while null and else
    hold the C string they point at; the vectors are owned by the block. *)
Record SWIGVM_params_t : Type := mkParams {
  connection_id : Z;
  dbname : option string;
  dbversion : option string;
  script_name : option string;
  script_schema : option string;
  current_user : option string;
  current_schema : option string;
  scope_user : option string;
  script_code : option string;
  session_id : Z;
  statement_id : Z;
  node_count : Z;
  node_id : Z;
  vm_id : Z;
  vm_type : VMTYPE;
  maximal_memory_limit : Z;
  inp_names : list string;
  inp_types : list SWIGVM_columntype_t;
  inp_iter_type : SWIGVM_itertype_e;
  inp_force_finish : bool;
  out_names : list string;
  out_types : list SWIGVM_columntype_t;
  out_iter_type : SWIGVM_itertype_e;
  is_emitted : list bool;
  params_singleCallMode : bool;
  pluginName : string;
  pluginURI : string;
  outputAddress : string;
}.

(** [SWIGVM_params_t(true)], the block [startClientBase] allocates *)
Definition SWIGVM_params_init : SWIGVM_params_t :=
  mkParams 0 None None None None None None None None 0 0 0 0 0 VM_UNSUPPORTED 0
    [] [] MULTIPLE false [] [] MULTIPLE [] false "" "" "".

#[export] Instance params_rebuild : Rebuild SWIGVM_params_t := λ p,
  mkParams (connection_id p) (dbname p) (dbversion p) (script_name p)
    (script_schema p) (current_user p) (current_schema p) (scope_user p)
    (script_code p) (session_id p) (statement_id p) (node_count p) (node_id p)
    (vm_id p) (vm_type p) (maximal_memory_limit p) (inp_names p) (inp_types p)
    (inp_iter_type p) (inp_force_finish p) (out_names p) (out_types p)
    (out_iter_type p) (is_emitted p) (params_singleCallMode p) (pluginName p)
    (pluginURI p) (outputAddress p).
