(* ===== verification/Protocol.v ===== *)
(** * The messages of the v1 protocol

    [zmqcontainer.proto] as records, the accessors of the generated classes that
    the client uses (default values of absent fields included), and
    [impl/msg_conversion.cc]. The byte encoding of the messages is generated
    code: it is the interface [Codec]. *)
From S2P Require Import Prelude SwigCommon.

Open Scope string_scope.
Open Scope list_scope.
Open Scope nat_scope.

(** [enum message_type]. proto2 enumerations are closed: a received number
    outside the list never reaches the field. *)
Inductive message_type : Type :=
  | MT_UNKNOWN | MT_CLIENT | MT_INFO | MT_META | MT_CLOSE | MT_IMPORT | MT_NEXT
  | MT_RESET | MT_EMIT | MT_RUN | MT_DONE | MT_CLEANUP | MT_FINISHED
  | MT_PING_PONG | MT_TRY_AGAIN | MT_CALL | MT_RETURN | MT_UNDEFINED_CALL.

#[global] Instance message_type_eq_dec : EqDecision message_type.
Proof. solve_decision. Defined.

Definition message_num (t : message_type) : Z :=
  match t with
  | MT_UNKNOWN => 0 | MT_CLIENT => 1 | MT_INFO => 2 | MT_META => 3 | MT_CLOSE => 4
  | MT_IMPORT => 5 | MT_NEXT => 6 | MT_RESET => 7 | MT_EMIT => 8 | MT_RUN => 9
  | MT_DONE => 10 | MT_CLEANUP => 11 | MT_FINISHED => 12 | MT_PING_PONG => 13
  | MT_TRY_AGAIN => 14 | MT_CALL => 15 | MT_RETURN => 16 | MT_UNDEFINED_CALL => 17
  end.

(** [enum column_type] *)
Inductive column_type : Type :=
  | PB_UNSUPPORTED | PB_DOUBLE | PB_INT32 | PB_INT64 | PB_NUMERIC | PB_TIMESTAMP
  | PB_DATE | PB_STRING | PB_BOOLEAN.

Inductive import_type : Type :=
  | PB_IMPORT_SCRIPT_CODE | PB_IMPORT_CONNECTION_INFORMATION.

(** [exascript_metadata.column_definition]; the optional numbers read as 0 and the
    optional type as [PB_UNSUPPORTED] when absent, so their values are stored. *)
Record column_definition : Type := mkColdef {
  cd_name : string;
  cd_type : column_type;
  cd_type_name : string;
  cd_size : Z;
  cd_precision : Z;
  cd_scale : Z;
}.

Record exascript_metadata : Type := mkMetadata {
  md_input_iter_type : SWIGVM_itertype_e;
  md_output_iter_type : SWIGVM_itertype_e;
  md_input_columns : list column_definition;
  md_output_columns : list column_definition;
  md_single_call_mode : bool;
}.

(** [exascript_table_data]. A double is carried as its 64-bit pattern. [td_rows]
    is [None] while the required field is unset. *)
Record exascript_table_data : Type := mkTable {
  td_rows : option Z;
  td_rows_in_group : Z;
  td_string : list string;
  td_nulls : list bool;
  td_bool : list bool;
  td_int32 : list Z;
  td_int64 : list Z;
  td_double : list Z;
  td_row_number : list Z;
}.

Definition table_empty : exascript_table_data := mkTable None 0 [] [] [] [] [] [] [].

#[export] Instance table_rebuild : Rebuild exascript_table_data := λ t,
  mkTable (td_rows t) (td_rows_in_group t) (td_string t) (td_nulls t) (td_bool t)
    (td_int32 t) (td_int64 t) (td_double t) (td_row_number t).

Record exascript_info : Type := mkInfo {
  if_database_name : string;
  if_database_version : string;
  if_script_name : string;
  if_source_code : string;
  if_session_id : Z;
  if_statement_id : Z;
  if_node_count : Z;
  if_node_id : Z;
  if_vm_id : Z;
  if_maximal_memory_limit : Z;
  if_script_schema : string;
  if_current_user : string;
  if_current_schema : string;
  if_scope_user : string;
}.

Definition info_default : exascript_info :=
  mkInfo "" "" "" "" 0 0 0 0 0 0 "" "" "" "".

Record connection_information_rep : Type := mkConnInfoRep {
  cr_kind : string;
  cr_address : string;
  cr_user : string;
  cr_password : string;
}.

Record exascript_import_rep : Type := mkImportRep {
  ir_source_code : option string;
  ir_exception_message : option string;
  ir_connection_information : option connection_information_rep;
}.

Record import_specification_rep : Type := mkImportSpecRep {
  is_is_subselect : bool;
  is_connection_information : option connection_information_rep;
  is_connection_name : option string;
  is_subselect_column_specification : list column_definition;
  is_parameters : list (string * string);
}.

Record export_specification_rep : Type := mkExportSpecRep {
  es_has_truncate : bool;
  es_has_replace : bool;
  es_created_by : option string;
  es_source_column_names : list string;
  es_connection_information : option connection_information_rep;
  es_connection_name : option string;
  es_parameters : list (string * string);
}.

Record exascript_single_call_rep : Type := mkSingleCallRep {
  sc_fn : single_call_function_id_e;
  sc_import_specification : option import_specification_rep;
  sc_json_arg : option string;
  sc_export_specification : option export_specification_rep;
}.

Definition single_call_default : exascript_single_call_rep :=
  mkSingleCallRep SC_FN_NIL None None None.

(** [exascript_response]; the [exascript_close] sub-message is its optional
    exception message, absent sub-messages read as the default instance. *)
Record exascript_response : Type := mkResponse {
  rp_type : message_type;
  rp_connection_id : Z;
  rp_info : exascript_info;
  rp_meta : exascript_metadata;
  rp_close : option string;
  rp_import : exascript_import_rep;
  rp_next : exascript_table_data;
  rp_call : exascript_single_call_rep;
}.

Definition metadata_default : exascript_metadata :=
  mkMetadata EXACTLY_ONCE EXACTLY_ONCE [] [] false.

(** A response that carries nothing but its type and connection id; it is also
    the state of a response object after [Clear()]. *)
Definition response_plain (t : message_type) (id : Z) : exascript_response :=
  mkResponse t id info_default metadata_default None (mkImportRep None None None)
    table_empty single_call_default.

#[export] Instance response_rebuild : Rebuild exascript_response := λ r,
  mkResponse (rp_type r) (rp_connection_id r) (rp_info r) (rp_meta r) (rp_close r)
    (rp_import r) (rp_next r) (rp_call r).

(** [exascript_request]: the type, the connection id and the sub-message that the
    type calls for. *)
Inductive request_body : Type :=
  | body_none
  | body_client (client_name : string)
  | body_close (exception_message : option string)
  | body_import (name : string) (kind : import_type)
  | body_emit (table : exascript_table_data)
  | body_call_result (result : string)
  | body_undefined_call (remote_fn : string).

Record exascript_request : Type := mkRequest {
  rq_type : message_type;
  rq_connection_id : Z;
  rq_body : request_body;
}.

(** ** The generated encoder

    [wire] is what one ZeroMQ message carries; [serialize] is
    [SerializeToString] and [parse] is [ParseFromArray], both of which can fail;
    [parse_leftover] is what a failed parse leaves in the object it filled, and
    [wire_empty] is the message of length zero. *)
Class Codec : Type := {
  wire : Type;
  wire_empty : wire;
  serialize : exascript_request → option wire;
  parse : wire → option exascript_response;
  parse_leftover : wire → exascript_response;
}.

(** A codec whose messages are the requests and responses themselves: what the
    witnesses compute with. *)
Definition plain_codec : Codec := {|
  wire := (exascript_request + option exascript_response)%type;
  wire_empty := inr None;
  serialize := λ r, Some (inl r);
  parse := λ w, match w with inr o => o | inl _ => None end;
  parse_leftover := λ _, response_plain MT_UNKNOWN 0;
|}.

Definition plain_reply (r : exascript_response) : @wire plain_codec := inr (Some r).
Definition plain_request (t : message_type) (id : Z) (b : request_body) :
  @wire plain_codec := inl (mkRequest t id b).

(** ** [impl/msg_conversion.cc] *)

(** [literal + n] on a string literal is pointer arithmetic: it drops the first
    [n] characters, and is undefined behind the terminating NUL. *)
Definition literal_plus (lit : string) (n : Z) : option string :=
  if (0 <=? n)%Z && (n <=? Z.of_nat (String.length lit))%Z
  then Some (substring (Z.to_nat n) (String.length lit) lit) else None.

Definition convert_message_type_to_string (message_type : Z) : option string :=
  match message_type with
  | 0 => Some "MT_UNKNOWN" | 1 => Some "MT_CLIENT" | 2 => Some "MT_INFO"
  | 3 => Some "MT_META" | 4 => Some "MT_CLOSE" | 5 => Some "MT_IMPORT"
  | 6 => Some "MT_NEXT" | 7 => Some "MT_RESET" | 8 => Some "MT_EMIT"
  | 9 => Some "MT_RUN" | 10 => Some "MT_DONE" | 11 => Some "MT_CLEANUP"
  | 12 => Some "MT_FINISHED" | 13 => Some "MT_PING_PONG"
  | 14 => Some "MT_TRY_AGAIN" | 15 => Some "MT_CALL" | 16 => Some "MT_RETURN"
  | 17 => Some "MT_UNDEFINED_CALL"
  | n => literal_plus "unknown: " n
  end%Z.

Definition convert_type_to_string (type : Z) : option string :=
  match type with
  | 0 => Some "PB_UNSUPPORTED" | 1 => Some "PB_DOUBLE" | 2 => Some "PB_INT32"
  | 3 => Some "PB_INT64" | 4 => Some "PB_NUMERIC" | 5 => Some "PB_TIMESTAMP"
  | 6 => Some "PB_DATE" | 7 => Some "PB_STRING" | 8 => Some "PB_BOOLEAN"
  | n => literal_plus "unknown: " n
  end%Z.

(** The name printed for a message type that was received *)
Definition message_name (t : message_type) : string :=
  default "" (convert_message_type_to_string (message_num t)).

Lemma convert_message_type_total t :
  convert_message_type_to_string (message_num t) = Some (message_name t).
Proof. by destruct t. Qed.

Lemma message_name_inj t1 t2 : message_name t1 = message_name t2 → t1 = t2.
Proof. by destruct t1, t2. Qed.

Definition all_datatypes : list SWIGVM_datatype_e :=
  [UNSUPPORTED; DOUBLE; INT32; INT64; NUMERIC; TIMESTAMP; DATE; STRING; BOOLEAN;
   INTERVALYM; INTERVALDS; GEOMETRY].
