(* ===== verification/Dto.v ===== *)
(** * Data transfer objects ([swig/script_data_transfer_objects.{h,cc}])

    The arguments of a single call: a connection, an import specification, an
    export specification, a string. A method is a program over the object it is
    called on; it throws the message of its [DTOError]. *)
From S2P Require Import Prelude.

Open Scope string_scope.
Open Scope list_scope.
Open Scope nat_scope.

(** ** [EmptyDTO], [StringDTO] *)
Inductive EmptyDTO : Type := mkEmptyDTO.
Definition EmptyDTO_isEmpty (d : EmptyDTO) : bool := true.

Record StringDTO : Type := mkStringDTO { sd_arg : string }.
Definition StringDTO_default : StringDTO := mkStringDTO "".
Definition StringDTO_getArg (d : StringDTO) : string := sd_arg d.
Definition StringDTO_isEmpty (d : StringDTO) : bool := false.

(** ** [ConnectionInformation] *)
Record ConnectionInformation : Type := mkConnectionInformation {
  ci_kind : string;
  ci_address : string;
  ci_user : string;
  ci_password : string;
}.

#[global] Instance ConnectionInformation_eq_dec : EqDecision ConnectionInformation.
Proof. solve_decision. Defined.

Module ConnectionInformation.
(** [ConnectionInformation()] *)
Definition default : ConnectionInformation := mkConnectionInformation "" "" "" "".

(** The constructor without a kind *)
Definition password_kind (address user password : string) : ConnectionInformation :=
  mkConnectionInformation "password" address user password.

(** The copy constructor goes through the getters. *)
Definition copy (other : ConnectionInformation) : ConnectionInformation :=
  mkConnectionInformation (ci_kind other) (ci_address other) (ci_user other)
    (ci_password other).

(** [hasData()] answers whether there is *no* data: [kind.size() == 0]. *)
Definition hasData (c : ConnectionInformation) : bool := str_empty (ci_kind c).

Definition isEmpty (c : ConnectionInformation) : bool := false.
End ConnectionInformation.

(** ** [ImportSpecification]

    [isSubselect_] is [None] while indeterminate: the default constructor does not
    initialise it. *)
Record ImportSpecification : Type := mkImportSpecification {
  i_isEmptySpec : bool;
  i_isSubselect : option bool;
  i_subselect_column_names : list string;
  i_subselect_column_types : list string;
  i_connection_name : string;
  i_connection_information : ConnectionInformation;
  i_parameters : gmap string string;
}.

#[export] Instance ImportSpecification_rebuild : Rebuild ImportSpecification := λ r,
  mkImportSpecification (i_isEmptySpec r) (i_isSubselect r)
    (i_subselect_column_names r) (i_subselect_column_types r) (i_connection_name r)
    (i_connection_information r) (i_parameters r).

Module ImportSpecification.
(** A method of an import specification; exceptions carry the message. *)
Abbreviation method := (M ImportSpecification string).

Definition default : ImportSpecification :=
  mkImportSpecification true None [] [] "" ConnectionInformation.default ∅.
Definition make (isSubselect : bool) : ImportSpecification :=
  mkImportSpecification false (Some isSubselect) [] [] ""
    ConnectionInformation.default ∅.

Definition isEmpty (o : ImportSpecification) : bool := i_isEmptySpec o.
Definition isSubselect : method bool := gets i_isSubselect ≫= access.
Definition hasSubselectColumnNames (o : ImportSpecification) : bool :=
  bool_decide (0 < length (i_subselect_column_names o)).
Definition hasSubselectColumnTypes (o : ImportSpecification) : bool :=
  bool_decide (0 < length (i_subselect_column_types o)).
Definition hasSubselectColumnSpecification (o : ImportSpecification) : bool :=
  hasSubselectColumnNames o || hasSubselectColumnTypes o.
Definition hasConnectionName (o : ImportSpecification) : bool :=
  negb (str_empty (i_connection_name o)).
Definition hasConnectionInformation (o : ImportSpecification) : bool :=
  negb (ConnectionInformation.hasData (i_connection_information o)).
Definition hasParameters (o : ImportSpecification) : bool :=
  bool_decide (0 < size (i_parameters o)).

Definition hasConsistentColumns : method bool :=
  sub ← isSubselect;
  names ← gets i_subselect_column_names;
  types ← gets i_subselect_column_types;
  mret ((sub && bool_decide (length names = length types))
        || (negb sub && bool_decide (length types = 0))).

Definition isCompleteImportSubselectSpecification : method bool :=
  c ← hasConsistentColumns;
  if (c : bool) then gets (λ o, hasSubselectColumnNames o && hasSubselectColumnTypes o)
  else mret false.

Definition isCompleteImportIntoTargetTableSpecification : method bool :=
  hasConsistentColumns.

Definition getSubselectColumnNames : method (list string) :=
  sub ← isSubselect;
  if negb sub then
    throw "import specification error: cannot get column names of non-subselect import specification"
  else gets i_subselect_column_names.

Definition getSubselectColumnTypes : method (list string) :=
  sub ← isSubselect;
  if negb sub then
    throw "import specification error: cannot get column types of non-subselect import specification"
  else gets i_subselect_column_types.

Definition appendSubselectColumnName (columnName : string) : method unit :=
  sub ← isSubselect;
  if negb sub then
    throw "import specification error: cannot add column name to non-subselect import specification"
  else modify (λ o, o <| i_subselect_column_names :=
                      (i_subselect_column_names o ++ [columnName]) |>).

Definition appendSubselectColumnType (columnType : string) : method unit :=
  sub ← isSubselect;
  if negb sub then
    throw "import specification error: cannot add column type to non-subselect import specification"
  else modify (λ o, o <| i_subselect_column_types :=
                      (i_subselect_column_types o ++ [columnType]) |>).

Definition setConnectionName (connectionName : string) : method unit :=
  o ← gets id;
  if hasConnectionName o then
    throw "import specification error: connection name is set more than once"
  else if hasConnectionInformation o then
    throw "import specification error: cannot set connection name, because there is already connection information set"
  else modify (λ o, o <| i_connection_name := connectionName |>).

Definition setConnectionInformation (c : ConnectionInformation) : method unit :=
  o ← gets id;
  if hasConnectionName o then
    throw "import specification error: cannot set connection information, because there is already a connection name set"
  else if hasConnectionInformation o then
    throw "import specification error: cannot set connection information more than once"
  else modify (λ o, o <| i_connection_information := c |>).

Definition addParameter (key value : string) : method unit :=
  o ← gets id;
  match i_parameters o !! key with
  | Some _ => throw ("import specification error: parameter with name '" +:+ key
                     +:+ "', is set more than once")
  | None => modify (λ o, o <| i_parameters := <[key := value]> (i_parameters o) |>)
  end.

Definition getConnectionName : method string :=
  o ← gets id;
  if negb (hasConnectionName o) then
    throw "import specification error: cannot get connection name because it is not set"
  else mret (i_connection_name o).

Definition getConnectionInformation : method ConnectionInformation :=
  o ← gets id;
  if negb (hasConnectionInformation o) then
    throw "import specification error: cannot get connection information because it is not set"
  else mret (ConnectionInformation.copy (i_connection_information o)).
End ImportSpecification.

(** ** [ExportSpecification] *)
Record ExportSpecification : Type := mkExportSpecification {
  e_isEmptySpec : bool;
  e_connection_name : string;
  e_connection_information : ConnectionInformation;
  e_parameters : gmap string string;
  e_truncate : bool;
  e_replace : bool;
  e_created_by : string;
  e_source_column_names : list string;
}.

#[export] Instance ExportSpecification_rebuild : Rebuild ExportSpecification := λ r,
  mkExportSpecification (e_isEmptySpec r) (e_connection_name r)
    (e_connection_information r) (e_parameters r) (e_truncate r) (e_replace r)
    (e_created_by r) (e_source_column_names r).

Module ExportSpecification.
Abbreviation method := (M ExportSpecification string).

Definition default : ExportSpecification :=
  mkExportSpecification true "" ConnectionInformation.default ∅ false false "" [].

Definition isEmpty (o : ExportSpecification) : bool := e_isEmptySpec o.
Definition hasConnectionName (o : ExportSpecification) : bool :=
  negb (str_empty (e_connection_name o)).
Definition hasConnectionInformation (o : ExportSpecification) : bool :=
  negb (ConnectionInformation.hasData (e_connection_information o)).
Definition hasParameters (o : ExportSpecification) : bool :=
  negb (bool_decide (size (e_parameters o) = 0)).
Definition hasTruncate (o : ExportSpecification) : bool := e_truncate o.
Definition hasReplace (o : ExportSpecification) : bool := e_replace o.
Definition hasCreatedBy (o : ExportSpecification) : bool :=
  negb (str_empty (e_created_by o)).
Definition getCreatedBy (o : ExportSpecification) : string := e_created_by o.
Definition getSourceColumnNames (o : ExportSpecification) : list string :=
  e_source_column_names o.
Definition getParameters (o : ExportSpecification) : gmap string string :=
  e_parameters o.

Definition setConnectionName (connectionName : string) : method unit :=
  o ← gets id;
  if hasConnectionName o then
    throw "export specification error: connection name is set more than once"
  else if hasConnectionInformation o then
    throw "export specification error: cannot set connection name, because there is already connection information set"
  else modify (λ o, o <| e_isEmptySpec := false |>
                      <| e_connection_name := connectionName |>).

Definition setConnectionInformation (c : ConnectionInformation) : method unit :=
  o ← gets id;
  if hasConnectionName o then
    throw "export specification error: cannot set connection information, because there is already a connection name set"
  else if hasConnectionInformation o then
    throw "export specification error: cannot set connection information more than once"
  else modify (λ o, o <| e_isEmptySpec := false |>
                      <| e_connection_information := c |>).

Definition addParameter (key value : string) : method unit :=
  o ← gets id;
  match e_parameters o !! key with
  | Some _ => throw ("export specification error: parameter with name '" +:+ key
                     +:+ "', is set more than once")
  | None => modify (λ o, o <| e_isEmptySpec := false |>
                           <| e_parameters := <[key := value]> (e_parameters o) |>)
  end.

Definition setTruncate (truncate : bool) : method unit :=
  modify (λ o, o <| e_isEmptySpec := false |> <| e_truncate := truncate |>).

Definition setReplace (replace : bool) : method unit :=
  modify (λ o, o <| e_isEmptySpec := false |> <| e_replace := replace |>).

Definition setCreatedBy (createdBy : string) : method unit :=
  o ← gets id;
  if negb (str_empty (e_created_by o)) then
    throw "export specification error: cannot set created by more than once"
  else modify (λ o, o <| e_isEmptySpec := false |> <| e_created_by := createdBy |>).

Definition addSourceColumnName (name : string) : method unit :=
  modify (λ o, o <| e_isEmptySpec := false |>
                 <| e_source_column_names := (e_source_column_names o ++ [name]) |>).

Definition getConnectionName : method string :=
  o ← gets id;
  if negb (hasConnectionName o) then
    throw "export specification error: cannot get connection name because it is not set"
  else mret (e_connection_name o).

Definition getConnectionInformation : method ConnectionInformation :=
  o ← gets id;
  if negb (hasConnectionInformation o) then
    throw "export specification error: cannot get connection information because it is not set"
  else mret (ConnectionInformation.copy (e_connection_information o)).
End ExportSpecification.

(** ** Sequences of calls

    The mutating methods of an import specification as data, and the object after
    a call: the call's effect also when it throws. *)
Inductive import_call : Type :=
  | ic_connection_name (s : string)
  | ic_connection_information (c : ConnectionInformation)
  | ic_column_name (s : string)
  | ic_column_type (s : string)
  | ic_parameter (k v : string).

Definition import_call_run (c : import_call) : M ImportSpecification string unit :=
  match c with
  | ic_connection_name s => ImportSpecification.setConnectionName s
  | ic_connection_information c => ImportSpecification.setConnectionInformation c
  | ic_column_name s => ImportSpecification.appendSubselectColumnName s
  | ic_column_type s => ImportSpecification.appendSubselectColumnType s
  | ic_parameter k v => ImportSpecification.addParameter k v
  end.

Inductive import_reachable (sub : bool) : ImportSpecification → Prop :=
  | import_reachable_make : import_reachable sub (ImportSpecification.make sub)
  | import_reachable_call o c :
      import_reachable sub o → import_reachable sub (import_call_run c o).2.

Inductive export_call : Type :=
  | ec_connection_name (s : string)
  | ec_connection_information (c : ConnectionInformation)
  | ec_parameter (k v : string)
  | ec_truncate (b : bool)
  | ec_replace (b : bool)
  | ec_created_by (s : string)
  | ec_source_column (s : string).

Definition export_call_run (c : export_call) : M ExportSpecification string unit :=
  match c with
  | ec_connection_name s => ExportSpecification.setConnectionName s
  | ec_connection_information c => ExportSpecification.setConnectionInformation c
  | ec_parameter k v => ExportSpecification.addParameter k v
  | ec_truncate b => ExportSpecification.setTruncate b
  | ec_replace b => ExportSpecification.setReplace b
  | ec_created_by s => ExportSpecification.setCreatedBy s
  | ec_source_column s => ExportSpecification.addSourceColumnName s
  end.

Inductive export_reachable : ExportSpecification → Prop :=
  | export_reachable_default : export_reachable ExportSpecification.default
  | export_reachable_call o c :
      export_reachable o → export_reachable (export_call_run c o).2.

(** ** Well-formedness *)
Record import_wf (sub : bool) (o : ImportSpecification) : Prop := {
  iwf_not_empty : i_isEmptySpec o = false;
  iwf_sub : i_isSubselect o = Some sub;
  iwf_columns : sub = false →
    i_subselect_column_names o = [] ∧ i_subselect_column_types o = [];
  iwf_exclusive :
    ImportSpecification.hasConnectionName o = true →
    ImportSpecification.hasConnectionInformation o = false;
}.

(** [method_cases] evaluates a method on a destructed object, splitting on the
    conditions it tests. *)
Ltac method_cases :=
  repeat (rewrite ?bind_run in *; unfold bind_outcome, gets, access, modify, throw,
            mret, M_ret, id in *;
          simpl in *; try case_match; simplify_eq/=).

Lemma import_call_wf sub o c :
  import_wf sub o → import_wf sub (import_call_run c o).2.
Proof.
  destruct o as [e sb ns ts nm ci ps]. intros [He Hs Hc Hx]. simpl in *. subst.
  unfold ImportSpecification.hasConnectionName,
    ImportSpecification.hasConnectionInformation in *.
  destruct c; simpl;
    unfold ImportSpecification.setConnectionName,
      ImportSpecification.setConnectionInformation,
      ImportSpecification.appendSubselectColumnName,
      ImportSpecification.appendSubselectColumnType,
      ImportSpecification.addParameter, ImportSpecification.isSubselect,
      ImportSpecification.hasConnectionName,
      ImportSpecification.hasConnectionInformation;
    method_cases; (split; simpl in *; try done;
      unfold ImportSpecification.hasConnectionName,
      ImportSpecification.hasConnectionInformation; simpl in *;
      intros; subst; simpl in *; intuition congruence).
Qed.

Lemma import_reachable_wf sub o : import_reachable sub o → import_wf sub o.
Proof. induction 1; [done|]. by apply import_call_wf. Qed.

(** C28. However its setters are called, and whichever of them throw, an import
    specification never holds both a connection name and connection information;
    one that is not a subselect has no columns, so that its column check
    [hasConsistentColumns] answers true. *)
Theorem import_specification_invariant sub o :
  import_reachable sub o →
  ImportSpecification.isEmpty o = false ∧
  ImportSpecification.hasConnectionName o
    && ImportSpecification.hasConnectionInformation o = false ∧
  (sub = false →
   ImportSpecification.hasSubselectColumnSpecification o = false ∧
   ImportSpecification.hasConsistentColumns o = (Ret true, o)).
Proof.
  intros [He Hs Hc Hx]%import_reachable_wf.
  split_and!; [done| |].
  - destruct (ImportSpecification.hasConnectionName o) eqn:E; simpl; auto.
  - intros ->. destruct (Hc eq_refl) as [Hn Ht].
    unfold ImportSpecification.hasSubselectColumnSpecification,
      ImportSpecification.hasSubselectColumnNames,
      ImportSpecification.hasSubselectColumnTypes,
      ImportSpecification.hasConsistentColumns, ImportSpecification.isSubselect.
    rewrite Hn, Ht. split; [done|].
    run_simpl. rewrite Hs. run_simpl. by rewrite Ht.
Qed.

Lemma import_specification_invariant_witness :
  ImportSpecification.hasConsistentColumns
    (import_call_run (ic_column_name "A") (ImportSpecification.make false)).2
  = (Ret true, (import_call_run (ic_column_name "A") (ImportSpecification.make false)).2).
Proof.
  refine (proj2 (proj2 (proj2 (import_specification_invariant false _ _)) eq_refl)).
  apply import_reachable_call. apply import_reachable_make.
Defined.

(** ** Export specifications *)
Record export_wf (o : ExportSpecification) : Prop := {
  ewf_empty : e_isEmptySpec o = true → o = ExportSpecification.default;
  ewf_exclusive :
    ExportSpecification.hasConnectionName o = true →
    ExportSpecification.hasConnectionInformation o = false;
}.

Lemma export_call_wf o c : export_wf o → export_wf (export_call_run c o).2.
Proof.
  destruct o as [em nm ci ps tr rp cb cs]. intros [He Hx]. simpl in *.
  unfold ExportSpecification.hasConnectionName,
    ExportSpecification.hasConnectionInformation in *.
  destruct c; simpl;
    unfold ExportSpecification.setConnectionName,
      ExportSpecification.setConnectionInformation, ExportSpecification.addParameter,
      ExportSpecification.setTruncate, ExportSpecification.setReplace,
      ExportSpecification.setCreatedBy, ExportSpecification.addSourceColumnName,
      ExportSpecification.hasConnectionName,
      ExportSpecification.hasConnectionInformation;
    method_cases; (split; simpl in *; try done;
      unfold ExportSpecification.hasConnectionName,
      ExportSpecification.hasConnectionInformation; simpl in *;
      intros; subst; simpl in *; intuition congruence).
Qed.

Lemma export_reachable_wf o : export_reachable o → export_wf o.
Proof. induction 1; [done|]. by apply export_call_wf. Qed.

(** However its setters are called, an export specification that still says
    it is empty has every field at its initial value, and it never holds both a
    connection name and connection information. *)
Theorem export_specification_invariant o :
  export_reachable o →
  (ExportSpecification.isEmpty o = true → o = ExportSpecification.default) ∧
  ExportSpecification.hasConnectionName o
    && ExportSpecification.hasConnectionInformation o = false.
Proof.
  intros [He Hx]%export_reachable_wf. split; [done|].
  destruct (ExportSpecification.hasConnectionName o); simpl; auto.
Qed.

Definition sample_export : ExportSpecification :=
  (export_call_run (ec_connection_information (mkConnectionInformation "password" "a" "u" "p"))
    (export_call_run (ec_connection_name "CON") ExportSpecification.default).2).2.

Lemma export_specification_invariant_witness :
  ExportSpecification.hasConnectionName sample_export = true ∧
  ExportSpecification.hasConnectionName sample_export
    && ExportSpecification.hasConnectionInformation sample_export = false.
Proof.
  split; [reflexivity|].
  refine (proj2 (export_specification_invariant _ _)).
  apply export_reachable_call, export_reachable_call, export_reachable_default.
Defined.

(** ** Parameters

    The first key of a list that is already taken, either by an earlier entry of
    the list or before it. *)
Fixpoint first_repeated (taken : gset string) (kvs : list (string * string)) :
  option string :=
  match kvs with
  | [] => None
  | (k, v) :: kvs' =>
      if decide (k ∈ taken) then Some k else first_repeated ({[k]} ∪ taken) kvs'
  end.

Definition insert_all (kvs : list (string * string)) (m : gmap string string) :
  gmap string string := fold_left (λ m kv, <[kv.1 := kv.2]> m) kvs m.

Section add_parameters.
Context {S : Type} (params : S → gmap string string)
  (put : gmap string string → S → S) (message : string → string)
  (add : string → string → M S string unit).
Context (params_put : ∀ m s, params (put m s) = m)
  (put_put : ∀ m m' s, put m (put m' s) = put m s)
  (put_params : ∀ s, put (params s) s = s).
Context (add_spec : ∀ k v s,
  add k v s = match params s !! k with
              | Some _ => (Throw (message k), s)
              | None => (Ret tt, put (<[k := v]> (params s)) s)
              end).

Lemma add_parameters_run kvs s :
  match first_repeated (dom (params s)) kvs with
  | None => mapM_ (λ kv, add kv.1 kv.2) kvs s
            = (Ret tt, put (insert_all kvs (params s)) s)
  | Some k => (mapM_ (λ kv, add kv.1 kv.2) kvs s).1 = Throw (message k)
  end.
Proof.
  revert s. induction kvs as [|[k v] kvs IH]; intros s; simpl.
  { unfold insert_all. simpl. by rewrite put_params. }
  case_decide as Hk.
  - apply elem_of_dom in Hk as [v' Hv].
    rewrite bind_run, add_spec, Hv. done.
  - apply not_elem_of_dom in Hk.
    specialize (IH (put (<[k := v]> (params s)) s)).
    rewrite params_put, dom_insert_L in IH.
    destruct (first_repeated _ kvs) eqn:E; rewrite bind_run, add_spec, Hk; simpl; [done|].
    by rewrite IH, put_put.
Qed.
End add_parameters.

Lemma export_addParameter_run k v o :
  ExportSpecification.addParameter k v o =
  match e_parameters o !! k with
  | Some _ => (Throw ("export specification error: parameter with name '" +:+ k
                      +:+ "', is set more than once"), o)
  | None => (Ret tt, o <| e_isEmptySpec := false |>
                       <| e_parameters := <[k := v]> (e_parameters o) |>)
  end.
Proof.
  unfold ExportSpecification.addParameter. run_simpl. by destruct (e_parameters o !! k).
Qed.

Lemma import_add_parameters_run kvs (io : ImportSpecification) :
  match first_repeated (dom (i_parameters io)) kvs with
  | None => mapM_ (λ kv, ImportSpecification.addParameter kv.1 kv.2) kvs io
            = (Ret tt, io <| i_parameters := insert_all kvs (i_parameters io) |>)
  | Some k => (mapM_ (λ kv, ImportSpecification.addParameter kv.1 kv.2) kvs io).1
              = Throw ("import specification error: parameter with name '" +:+ k
                       +:+ "', is set more than once")
  end.
Proof.
  apply (add_parameters_run i_parameters (λ m o, o <| i_parameters := m |>)); try done.
  - by intros [].
  - intros k v s. unfold ImportSpecification.addParameter. run_simpl.
    by destruct (i_parameters s !! k).
Qed.

Lemma export_add_parameters_run kvs (eo : ExportSpecification) :
  match first_repeated (dom (e_parameters eo)) kvs with
  | None => mapM_ (λ kv, ExportSpecification.addParameter kv.1 kv.2) kvs eo
            = (Ret tt, eo <| e_isEmptySpec := e_isEmptySpec eo && bool_decide (kvs = []) |>
                          <| e_parameters := insert_all kvs (e_parameters eo) |>)
  | Some k => (mapM_ (λ kv, ExportSpecification.addParameter kv.1 kv.2) kvs eo).1
              = Throw ("export specification error: parameter with name '" +:+ k
                       +:+ "', is set more than once")
  end.
Proof.
  revert eo. induction kvs as [|[k v] kvs IH]; intros eo; simpl.
  { rewrite andb_true_r. by destruct eo. }
  rewrite bind_run, export_addParameter_run. case_decide as Hk.
  - apply elem_of_dom in Hk as [v' Hv]. by rewrite Hv.
  - apply not_elem_of_dom in Hk. rewrite Hk.
    specialize (IH (eo <| e_isEmptySpec := false |>
                       <| e_parameters := <[k := v]> (e_parameters eo) |>)).
    simpl in IH. rewrite dom_insert_L in IH.
    destruct (first_repeated _ kvs); [done|]. simpl. rewrite IH. simpl.
    by rewrite andb_false_r.
Qed.

(** Adding a list of parameters, as the client does for the parameters of an
    import or export message, stores exactly those parameters when no key is
    given twice, and otherwise throws the error that names the first repeated
    key; the import and the export specification agree on which lists are
    accepted. *)
Theorem add_parameters_spec kvs (io : ImportSpecification) (eo : ExportSpecification) :
  match first_repeated (dom (i_parameters io)) kvs with
  | None => mapM_ (λ kv, ImportSpecification.addParameter kv.1 kv.2) kvs io
            = (Ret tt, io <| i_parameters := insert_all kvs (i_parameters io) |>)
  | Some k => (mapM_ (λ kv, ImportSpecification.addParameter kv.1 kv.2) kvs io).1
              = Throw ("import specification error: parameter with name '" +:+ k
                       +:+ "', is set more than once")
  end ∧
  match first_repeated (dom (e_parameters eo)) kvs with
  | None => ∃ eo', mapM_ (λ kv, ExportSpecification.addParameter kv.1 kv.2) kvs eo
                   = (Ret tt, eo') ∧
                   e_parameters eo' = insert_all kvs (e_parameters eo)
  | Some k => (mapM_ (λ kv, ExportSpecification.addParameter kv.1 kv.2) kvs eo).1
              = Throw ("export specification error: parameter with name '" +:+ k
                       +:+ "', is set more than once")
  end.
Proof.
  split; [apply import_add_parameters_run|].
  pose proof (export_add_parameters_run kvs eo) as He.
  destruct (first_repeated _ kvs); [done|]. rewrite He. by eexists.
Qed.
