(* ===== verification/DtoWrapper.v ===== *)
(** * The C view of the data transfer objects
    ([swig/script_data_transfer_objects_wrapper.{h,cc}])

    A wrapper holds a pointer to a specification and snapshots of the parameters
    taken when it was built. Its methods are programs over the specification it
    points at; a [char*] result is the C string that [strdup] copied. *)
From S2P Require Import Prelude Dto.
From stdpp Require Import sorting.

Open Scope string_scope.
Open Scope list_scope.
Open Scope nat_scope.

Inductive wrapper_error : Type :=
  | DTOError (msg : string)
  | out_of_range.

(** A method of the wrapped object, its exception unchanged *)
Definition from_dto {S A} (m : M S string A) : M S wrapper_error A := λ s,
  match m s with
  | (Ret a, s') => (Ret a, s')
  | (Throw e, s') => (Throw (DTOError e), s')
  | (Abort, s') => (Abort, s')
  | (Blocked, s') => (Blocked, s')
  | (Undef, s') => (Undef, s')
  end.

(** [std::vector::at] *)
Definition vector_at {S A} (l : list A) (i : nat) : M S wrapper_error A :=
  match l !! i with Some a => mret a | None => throw out_of_range end.

(** ** Iteration over a [std::map<std::string, std::string>]: ascending keys *)
Definition key_le (x y : string * string) : Prop := String.leb x.1 y.1 = true.

#[global] Instance key_le_dec x y : Decision (key_le x y).
Proof. unfold key_le. apply _. Defined.

Definition map_entries (m : gmap string string) : list (string * string) :=
  merge_sort key_le (map_to_list m).

(** ** [ConnectionInformationWrapper] *)
Definition ConnectionInformationWrapper : Type := ConnectionInformation.
Definition copyKind (w : ConnectionInformationWrapper) : string := c_str (ci_kind w).
Definition copyAddress (w : ConnectionInformationWrapper) : string := c_str (ci_address w).
Definition copyUser (w : ConnectionInformationWrapper) : string := c_str (ci_user w).
Definition copyPassword (w : ConnectionInformationWrapper) : string := c_str (ci_password w).

(** ** [ImportSpecificationWrapper] *)
Record ImportSpecificationWrapper : Type := mkImportWrapper {
  iw_keys : list string;
  iw_values : list string;
}.

Module ImportSpecificationWrapper.
Abbreviation method := (M ImportSpecification wrapper_error).

(** The constructor, on a non-null pointer *)
Definition make (importSpecification : ImportSpecification) : ImportSpecificationWrapper :=
  let entries := map_entries (i_parameters importSpecification) in
  mkImportWrapper entries.*1 entries.*2.

Definition isSubselect : method bool := from_dto ImportSpecification.isSubselect.
Definition numSubselectColumns : method nat :=
  names ← from_dto ImportSpecification.getSubselectColumnNames;
  mret (length names).
Definition copySubselectColumnName (i : nat) : method string :=
  names ← from_dto ImportSpecification.getSubselectColumnNames;
  name ← vector_at names i; mret (c_str name).
Definition copySubselectColumnType (i : nat) : method string :=
  types ← from_dto ImportSpecification.getSubselectColumnTypes;
  type ← vector_at types i; mret (c_str type).
Definition hasConnectionName : method bool := gets ImportSpecification.hasConnectionName.
Definition hasConnectionInformation : method bool :=
  gets ImportSpecification.hasConnectionInformation.
Definition copyConnectionName : method string :=
  name ← from_dto ImportSpecification.getConnectionName; mret (c_str name).
Definition getConnectionInformation : method ConnectionInformationWrapper :=
  from_dto ImportSpecification.getConnectionInformation.
Definition getNumberOfParameters (w : ImportSpecificationWrapper) : nat :=
  length (iw_keys w).
Definition copyKey (w : ImportSpecificationWrapper) (pos : nat) : method string :=
  k ← vector_at (iw_keys w) pos; mret (c_str k).
Definition copyValue (w : ImportSpecificationWrapper) (pos : nat) : method string :=
  v ← vector_at (iw_values w) pos; mret (c_str v).
End ImportSpecificationWrapper.

(** ** [ExportSpecificationWrapper] *)
Record ExportSpecificationWrapper : Type := mkExportWrapper {
  ew_keys : list string;
  ew_values : list string;
  ew_columnNames : list string;
}.

Module ExportSpecificationWrapper.
Abbreviation method := (M ExportSpecification wrapper_error).

Definition make (exportSpecification : ExportSpecification) : ExportSpecificationWrapper :=
  let entries := map_entries (e_parameters exportSpecification) in
  mkExportWrapper entries.*1 entries.*2
    (ExportSpecification.getSourceColumnNames exportSpecification).

(** [char*] results that are null for an empty string *)
Definition strdup_or_null (s : string) : option string :=
  if str_empty s then None else Some (c_str s).

Definition hasConnectionName : method bool := gets ExportSpecification.hasConnectionName.
Definition hasConnectionInformation : method bool :=
  gets ExportSpecification.hasConnectionInformation.
Definition copyConnectionName : method string :=
  name ← from_dto ExportSpecification.getConnectionName; mret (c_str name).
Definition getConnectionInformation : method ConnectionInformationWrapper :=
  from_dto ExportSpecification.getConnectionInformation.
Definition getNumberOfParameters (w : ExportSpecificationWrapper) : nat :=
  length (ew_keys w).
Definition copyKey (w : ExportSpecificationWrapper) (pos : nat) : method string :=
  k ← vector_at (ew_keys w) pos; mret (c_str k).
Definition copyValue (w : ExportSpecificationWrapper) (pos : nat) : method string :=
  v ← vector_at (ew_values w) pos; mret (c_str v).
Definition hasTruncate : method bool := gets ExportSpecification.hasTruncate.
Definition hasReplace : method bool := gets ExportSpecification.hasReplace.
Definition hasCreatedBy : method bool := gets ExportSpecification.hasCreatedBy.
Definition copyCreatedBy : method (option string) :=
  s ← gets ExportSpecification.getCreatedBy; mret (strdup_or_null s).
Definition numSourceColumns (w : ExportSpecificationWrapper) : nat :=
  length (ew_columnNames w).
Definition copySourceColumnName (w : ExportSpecificationWrapper) (pos : nat) :
  method (option string) :=
  s ← vector_at (ew_columnNames w) pos; mret (strdup_or_null s).
End ExportSpecificationWrapper.

(** ** The entries of a map, in order *)
Lemma map_entries_perm m : map_entries m ≡ₚ map_to_list m.
Proof. apply merge_sort_Permutation. Qed.

Lemma map_entries_keys_NoDup m : NoDup (map_entries m).*1.
Proof. rewrite map_entries_perm. apply NoDup_fst_map_to_list. Qed.

Lemma map_entries_lookup m k v : (k, v) ∈ map_entries m ↔ m !! k = Some v.
Proof. rewrite map_entries_perm. apply elem_of_map_to_list. Qed.

Lemma ascii_compare_trans c1 c2 c3 :
  Ascii.compare c1 c2 = Lt → Ascii.compare c2 c3 = Lt → Ascii.compare c1 c3 = Lt.
Proof. unfold Ascii.compare. rewrite !N.compare_lt_iff. lia. Qed.

Lemma ascii_compare_refl c : Ascii.compare c c = Eq.
Proof. apply N.compare_refl. Qed.

Lemma string_compare_trans_lt s1 s2 s3 :
  String.compare s1 s2 = Lt → String.compare s2 s3 = Lt → String.compare s1 s3 = Lt.
Proof.
  revert s2 s3. induction s1 as [|c1 s1 IH]; intros [|c2 s2] [|c3 s3]; simpl; try done.
  destruct (Ascii.compare c1 c2) eqn:E12; [|clear IH|done].
  - apply Ascii.compare_eq_iff in E12 as ->.
    destruct (Ascii.compare c2 c3); [apply IH|done|done].
  - intros _. destruct (Ascii.compare c2 c3) eqn:E23; [|intros _|done].
    + apply Ascii.compare_eq_iff in E23 as ->. by rewrite E12.
    + by rewrite (ascii_compare_trans _ _ _ E12 E23).
Qed.

#[global] Instance key_le_trans : Transitive key_le.
Proof.
  intros [s1 ?] [s2 ?] [s3 ?]. unfold key_le, String.leb. simpl.
  destruct (String.compare s1 s2) eqn:E1; [|intros _|done].
  - apply String.compare_eq_iff in E1 as ->. by intros _.
  - destruct (String.compare s2 s3) eqn:E2; [|intros _|done].
    + apply String.compare_eq_iff in E2 as <-. by rewrite E1.
    + by rewrite (string_compare_trans_lt _ _ _ E1 E2).
Qed.

#[global] Instance key_le_total : Total key_le.
Proof.
  intros [s1 ?] [s2 ?]. unfold key_le, String.leb. simpl.
  rewrite (String.compare_antisym s1 s2).
  destruct (String.compare s2 s1); simpl; auto.
Qed.

Lemma run_vector_at {S A B} (l : list A) i (f : A → M S wrapper_error B) s :
  (vector_at l i ≫= f) s =
  match l !! i with Some a => f a s | None => (Throw out_of_range, s) end.
Proof. unfold vector_at. by destruct (l !! i). Qed.

Lemma fmap_pair_lookup {A B} (l : list (A * B)) i :
  l !! i = a ← l.*1 !! i; b ← l.*2 !! i; Some (a, b).
Proof. rewrite !list_lookup_fmap. by destruct (l !! i) as [[]|]. Qed.

(** The parameter view of an import wrapper is the parameter map: position by
    position [copyKey] and [copyValue] give one entry of the map (as C strings),
    every entry has exactly one position below [getNumberOfParameters], the keys
    ascend, and a position past the end throws [std::out_of_range]. *)
Theorem wrapper_parameters_spec (o : ImportSpecification) s :
  let w := ImportSpecificationWrapper.make o in
  let n := ImportSpecificationWrapper.getNumberOfParameters w in
  (∀ k v, i_parameters o !! k = Some v ↔
     ∃ i, i < n ∧ iw_keys w !! i = Some k ∧ iw_values w !! i = Some v) ∧
  NoDup (iw_keys w) ∧
  Sorted key_le (map_entries (i_parameters o)) ∧
  (∀ i, i < n → ∃ k v, i_parameters o !! k = Some v ∧
     ImportSpecificationWrapper.copyKey w i s = (Ret (c_str k), s) ∧
     ImportSpecificationWrapper.copyValue w i s = (Ret (c_str v), s)) ∧
  (∀ i, n ≤ i →
     ImportSpecificationWrapper.copyKey w i s = (Throw out_of_range, s) ∧
     ImportSpecificationWrapper.copyValue w i s = (Throw out_of_range, s)).
Proof.
  intros w n. set (m := i_parameters o).
  assert (Hn : n = length (map_entries m)) by (subst n; apply length_fmap).
  split_and!.
  - intros k v. rewrite <-(map_entries_lookup m), list_elem_of_lookup. split.
    + intros [i Hi]. exists i. apply lookup_lt_Some in Hi as Hlt.
      subst w. simpl. rewrite !list_lookup_fmap. fold m. rewrite Hi. naive_solver lia.
    + intros (i & Hi & Hk & Hv). exists i. rewrite fmap_pair_lookup.
      subst w. simpl in Hk, Hv. fold m in Hk, Hv. by rewrite Hk, Hv.
  - apply map_entries_keys_NoDup.
  - apply Sorted_merge_sort, _.
  - intros i Hi. rewrite Hn in Hi. apply lookup_lt_is_Some in Hi as [[k v] Hi].
    exists k, v. unfold ImportSpecificationWrapper.copyKey,
      ImportSpecificationWrapper.copyValue. rewrite !run_vector_at.
    subst w. simpl. fold m. rewrite !list_lookup_fmap, Hi. split; [|done].
    apply map_entries_lookup. rewrite list_elem_of_lookup. eauto.
  - intros i Hi. rewrite Hn in Hi. apply lookup_ge_None in Hi.
    unfold ImportSpecificationWrapper.copyKey, ImportSpecificationWrapper.copyValue.
    rewrite !run_vector_at. subst w. simpl. fold m. by rewrite !list_lookup_fmap, Hi.
Qed.
