(* ===== verification/Machine.v ===== *)
(** * The state of the v1 client process

    Everything the client library keeps in static variables and in the objects of
    a language container: the ZeroMQ socket with the answers its environment is
    going to give, the process supervision of [impl/check.cc], the globals of
    [impl/global.{h,cc}], the table iterator, the result handler, and the fields
    of the language container base class. *)
From S2P Require Import Prelude SwigCommon Protocol Dto.

Open Scope string_scope.
Open Scope list_scope.
Open Scope nat_scope.

(** ** Exceptions: [SWIGVM::exception], any other [std::exception], the rest *)
Inductive exn : Type :=
  | SwigException (what : string)
  | StdException (what : string)
  | OtherException.

(** ** The environment

    What the calls that leave the process are going to answer, in order. A
    transmission ends in [true], in [false] (the timeout of the socket) or in an
    exception. A list that is used up means that the next answer never comes. *)
Inductive send_outcome : Type := send_true | send_false | send_threw.

#[global] Instance send_outcome_eq_dec : EqDecision send_outcome.
Proof. solve_decision. Defined.

Section machine.
Context `{Codec}.

Inductive recv_outcome : Type := recv_true (w : wire) | recv_false | recv_threw.

(** What the process did, oldest first *)
Inductive event : Type :=
  | ev_send (w : wire)
  | ev_recv (w : wire)
  | ev_sleep (microseconds : Z)
  | ev_unlink (path : string)
  | ev_socket_open
  | ev_socket_close
  | ev_setrlimit (resource : Z) (limit : Z)
  | ev_vm_make
  | ev_vm_shutdown
  | ev_vm_delete
  | ev_thread_start (locks : bool)   (* with the value of [use_zmq_socket_locks] *)
  | ev_thread_end.

Record channel : Type := mkChannel {
  c_sends : list send_outcome;
  c_recvs : list recv_outcome;
  c_access : list bool;          (* access(socket file) == 0; then true *)
  c_getppid : list Z;            (* getppid() *)
  c_setrlimit : list bool;       (* setrlimit() == 0; then true *)
  c_nofile_max : Z;              (* getrlimit(RLIMIT_NOFILE).rlim_max *)
  c_trace : list event;
  use_zmq_socket_locks : bool;
  mutex_held : bool;
}.

#[export] Instance channel_rebuild : Rebuild channel := λ c,
  mkChannel (c_sends c) (c_recvs c) (c_access c) (c_getppid c) (c_setrlimit c)
    (c_nofile_max c) (c_trace c) (use_zmq_socket_locks c) (mutex_held c).

(** ** The static variables of [check.cc] and [socket_info.cc] *)
Record supervision : Type := mkSupervision {
  keep_checking : bool;
  check_thread_started : bool;
  check_thread_cancelled : bool;
  first_ppid : Z;
  remote_client : bool;
  socket_file_name : string;
  socket_name_url : string;
}.

#[export] Instance supervision_rebuild : Rebuild supervision := λ c,
  mkSupervision (keep_checking c) (check_thread_started c)
    (check_thread_cancelled c) (first_ppid c) (remote_client c)
    (socket_file_name c) (socket_name_url c).

(** ** [struct Global] and the static strings of [global.cc] *)
Record Global : Type := mkGlobal {
  params : SWIGVM_params_t;
  exchandler : SWIGVMExceptionHandler;
  g_script : exascript_info;
  singleCallMode : bool;
  singleCallFunction : single_call_function_id_e;
  singleCall_StringArg : StringDTO;
  singleCall_ImportSpecificationArg : ImportSpecification;
  singleCall_ExportSpecificationArg : ExportSpecification;
}.

#[export] Instance Global_rebuild : Rebuild Global := λ g,
  mkGlobal (params g) (exchandler g) (g_script g) (singleCallMode g)
    (singleCallFunction g) (singleCall_StringArg g)
    (singleCall_ImportSpecificationArg g) (singleCall_ExportSpecificationArg g).

(** ** [SWIGTableIterator_Impl]

    [m_types] is a reference to the input columns of the parameter block and is
    read from there. [m_rows_in_group] is [None] while indeterminate. *)
Record values_per_row_t : Type := mkValuesPerRow {
  v_strings : Z; v_bools : Z; v_int32s : Z; v_int64s : Z; v_doubles : Z;
}.

#[export] Instance values_per_row_rebuild : Rebuild values_per_row_t := λ v,
  mkValuesPerRow (v_strings v) (v_bools v) (v_int32s v) (v_int64s v) (v_doubles v).

(** [values_per_row_t()] and [reset()] *)
Definition values_per_row_reset : values_per_row_t := mkValuesPerRow 0 0 0 0 0.

Record table_iterator : Type := mkIterator {
  it_connection_id : Z;
  m_next_response : exascript_response;
  m_rows_received : Z;
  m_values_per_row : values_per_row_t;
  m_column_count : Z;
  m_col_offsets : list Z;
  m_rows_in_group : option Z;
  m_current_row : Z;
  m_rows_completed : Z;
  m_rows_group_completed : Z;
  m_was_null : bool;
}.

#[export] Instance iterator_rebuild : Rebuild table_iterator := λ i,
  mkIterator (it_connection_id i) (m_next_response i) (m_rows_received i)
    (m_values_per_row i) (m_column_count i) (m_col_offsets i) (m_rows_in_group i)
    (m_current_row i) (m_rows_completed i) (m_rows_group_completed i) (m_was_null i).

(** ** [SWIGResultHandler_Impl] *)
Record rowdata_t : Type := mkRowdata {
  null_data : gmap nat bool;
  bool_data : gmap nat bool;
  double_data : gmap nat Z;
  int32_data : gmap nat Z;
  int64_data : gmap nat Z;
  string_data : gmap nat string;
}.

#[export] Instance rowdata_rebuild : Rebuild rowdata_t := λ r,
  mkRowdata (null_data r) (bool_data r) (double_data r) (int32_data r)
    (int64_data r) (string_data r).

Definition rowdata_empty : rowdata_t := mkRowdata ∅ ∅ ∅ ∅ ∅ ∅.

Record result_handler : Type := mkHandler {
  rh_connection_id : Z;
  m_message_size : Z;
  m_rowdata : rowdata_t;
  m_emit_table : exascript_table_data;
  m_rows_emited : Z;
}.

#[export] Instance handler_rebuild : Rebuild result_handler := λ h,
  mkHandler (rh_connection_id h) (m_message_size h) (m_rowdata h) (m_emit_table h)
    (m_rows_emited h).

(** ** The fields of class [SWIGVM] *)
Record vm_fields : Type := mkVmFields {
  exception_msg : string;
  calledUndefinedSingleCall : string;
}.

#[export] Instance vm_fields_rebuild : Rebuild vm_fields := λ v,
  mkVmFields (exception_msg v) (calledUndefinedSingleCall v).

Record machine : Type := mkMachine {
  chan : channel;
  sup : supervision;
  glob : Global;
  it : table_iterator;
  rh : result_handler;
  vmf : vm_fields;
}.

#[export] Instance machine_rebuild : Rebuild machine := λ s,
  mkMachine (chan s) (sup s) (glob s) (it s) (rh s) (vmf s).

(** A routine of the client *)
Definition prog (A : Type) : Type := M machine exn A.
End machine.

Section start.
Context `{Codec}.

(** ** The state at the start of the process

    The static variables with their initialisers, an environment with the given
    answers, and an iterator and a handler as their constructors leave them. *)
Definition channel_init (sends : list send_outcome) (recvs : list recv_outcome) : channel :=
  mkChannel sends recvs [] [] [] (2 ^ 20) [] false false.

Definition supervision_init : supervision :=
  mkSupervision true false false (-1) false "" "".

Definition Global_init : Global :=
  mkGlobal SWIGVM_params_init SWIGVMExceptionHandler_init info_default false SC_FN_NIL
    StringDTO_default ImportSpecification.default ExportSpecification.default.

Definition iterator_init (id : Z) (columns : Z) : table_iterator :=
  mkIterator id (response_plain MT_UNKNOWN 0) 0 values_per_row_reset columns
    (replicate (Z.to_nat columns) 0%Z) None (u64 (-1)) 0 1 false.

Definition handler_init (id : Z) : result_handler :=
  mkHandler id 0 rowdata_empty table_empty 1.

Definition machine_init (c : channel) : machine :=
  mkMachine c supervision_init Global_init (iterator_init 0 0) (handler_init 0)
    (mkVmFields "" "").
End start.

Arguments recv_true {_} w.
Arguments recv_false {_}.
Arguments recv_threw {_}.

Abbreviation run_of A := (M machine exn A).

(** ** Access to the parts *)
Section parts.
Context `{Codec}.

Definition upd_chan (f : channel → channel) : run_of unit :=
  modify (λ s, s <| chan := f (chan s) |>).
Definition upd_sup (f : supervision → supervision) : run_of unit :=
  modify (λ s, s <| sup := f (sup s) |>).
Definition upd_glob (f : Global → Global) : run_of unit :=
  modify (λ s, s <| glob := f (glob s) |>).
Definition upd_params (f : SWIGVM_params_t → SWIGVM_params_t) : run_of unit :=
  modify (λ s, s <| glob := (glob s) <| params := f (params (glob s)) |> |>).
Definition upd_it (f : table_iterator → table_iterator) : run_of unit :=
  modify (λ s, s <| it := f (it s) |>).
Definition upd_rh (f : result_handler → result_handler) : run_of unit :=
  modify (λ s, s <| rh := f (rh s) |>).
Definition upd_vmf (f : vm_fields → vm_fields) : run_of unit :=
  modify (λ s, s <| vmf := f (vmf s) |>).

Definition get_params {A} (f : SWIGVM_params_t → A) : run_of A :=
  gets (λ s, f (params (glob s))).

(** An externally visible step *)
Definition log (e : event) : run_of unit :=
  upd_chan (λ c, c <| c_trace := c_trace c ++ [e] |>).

(** [exchandler.setException(msg)] *)
Definition set_exception (msg : string) : run_of unit :=
  upd_glob (λ g, g <| exchandler := setException msg (exchandler g) |>).

(** [exchandler.setException("…" + f(n))] where computing the message may read
    past the end of a literal *)
Definition set_exception_opt (msg : option string) : run_of unit :=
  m ← access msg; set_exception m.

(** [checkException()] of the iterator, the handler and the metadata object *)
Definition check_exception : run_of (option string) :=
  h ← gets (λ s, exchandler (glob s));
  upd_glob (λ g, g <| exchandler := (checkException h).2 |>);;
  mret (checkException h).1.
End parts.

(** ** Frames

    The trace of a run extends the trace before it. *)
Definition trace_grows `{Codec} (s s' : machine) : Prop :=
  c_trace (chan s) `prefix_of` c_trace (chan s').

#[global] Instance trace_grows_preorder `{Codec} : PreOrder trace_grows.
Proof. split; unfold trace_grows; [by intros s|]. intros s1 s2 s3. apply transitivity. Qed.

Section grows.
Context `{Codec}.

Lemma log_grows e : keeps trace_grows (log e).
Proof. intros s. unfold trace_grows. simpl. by apply prefix_app_r. Qed.
Lemma upd_sup_grows f : keeps trace_grows (upd_sup f).
Proof. intros s. unfold trace_grows. done. Qed.
Lemma upd_glob_grows f : keeps trace_grows (upd_glob f).
Proof. intros s. unfold trace_grows. done. Qed.
Lemma upd_params_grows f : keeps trace_grows (upd_params f).
Proof. intros s. unfold trace_grows. done. Qed.
Lemma upd_it_grows f : keeps trace_grows (upd_it f).
Proof. intros s. unfold trace_grows. done. Qed.
Lemma upd_rh_grows f : keeps trace_grows (upd_rh f).
Proof. intros s. unfold trace_grows. done. Qed.
Lemma upd_vmf_grows f : keeps trace_grows (upd_vmf f).
Proof. intros s. unfold trace_grows. done. Qed.
Lemma upd_chan_grows f :
  (∀ c, c_trace (f c) = c_trace c) → keeps trace_grows (upd_chan f).
Proof. intros Hf s. unfold trace_grows. simpl. by rewrite Hf. Qed.
Lemma set_exception_grows m : keeps trace_grows (set_exception m).
Proof. apply upd_glob_grows. Qed.
Lemma set_exception_opt_grows m : keeps trace_grows (set_exception_opt m).
Proof.
  apply keeps_bind; [apply _|apply keeps_access; apply _|].
  intros ?. apply set_exception_grows.
Qed.
End grows.

#[export] Hint Resolve log_grows upd_sup_grows upd_glob_grows upd_params_grows
  upd_it_grows upd_rh_grows upd_vmf_grows set_exception_grows
  set_exception_opt_grows : keeps.
