(* ===== verification/SocketLowLevel.v ===== *)
(** * Sending and receiving one message, and the supervision of the process
    ([impl/check.cc], [impl/socket_info.cc], [impl/socket_low_level.cc])

    [socket_send] and [socket_recv] retry until the socket accepts or delivers a
    message; between two attempts the process checks that the socket file is
    still there. Both recurse on the answers the environment is going to give:
    when these are used up the process waits for ever ([Blocked]). *)
From S2P Require Import Prelude SwigCommon Protocol Dto Machine.

Open Scope string_scope.
Open Scope list_scope.
Open Scope nat_scope.

Section check.
Context `{Codec}.

(** ** [socket_info.cc] *)
Definition set_socket_url (url : string) : run_of unit :=
  upd_sup (λ c, c <| socket_name_url := url |>).
Definition get_socket_url : run_of string := gets (λ s, socket_name_url (sup s)).
Definition set_socket_file_name (name : string) : run_of unit :=
  upd_sup (λ c, c <| socket_file_name := name |>).
Definition get_socket_file_name : run_of string := gets (λ s, socket_file_name (sup s)).

(** ** [check.cc] *)
Definition set_remote_client (value : bool) : run_of unit :=
  upd_sup (λ c, c <| remote_client := value |>).
Definition get_remote_client : run_of bool := gets (λ s, remote_client (sup s)).

(** [::access(socket_file_name, F_OK) == 0] *)
Definition access_socket_file : run_of bool := λ s,
  match c_access (chan s) with
  | [] => (Ret true, s)
  | b :: rest => (Ret b, s <| chan := (chan s) <| c_access := rest |> |>)
  end.

Definition usleep (microseconds : Z) : run_of unit := log (ev_sleep microseconds).
Definition sleep (seconds : Z) : run_of unit := log (ev_sleep (seconds * 1000000)).

Definition external_process_check : run_of unit :=
  remote ← get_remote_client;
  if (remote : bool) then mret tt
  else
    ok ← access_socket_file;
    if (ok : bool) then mret tt
    else sleep 1;; abort.

(** [::getppid()] *)
Definition getppid : run_of Z := λ s,
  match c_getppid (chan s) with
  | [] => (Blocked, s)
  | p :: rest => (Ret p, s <| chan := (chan s) <| c_getppid := rest |> |>)
  end.

Definition check_parent_pid : run_of unit :=
  new_ppid ← getppid;
  first ← gets (λ s, first_ppid (sup s));
  when (first =? -1)%Z (upd_sup (λ c, c <| first_ppid := new_ppid |>));;
  first ← gets (λ s, first_ppid (sup s));
  when (negb (first =? new_ppid)%Z)
    (sleep 1;;
     name ← get_socket_file_name;
     log (ev_unlink name);;
     abort).

(** [check_thread_routine], [fuel] rounds of it *)
Fixpoint check_thread_routine (fuel : nat) : run_of unit :=
  match fuel with
  | 0 => blocked
  | S fuel =>
      keep ← gets (λ s, keep_checking (sup s));
      if (keep : bool) then
        external_process_check;;
        check_parent_pid;;
        usleep 100000;;
        check_thread_routine fuel
      else mret tt
  end.

Definition start_check_thread : run_of unit :=
  remote ← get_remote_client;
  when (negb remote) (upd_sup (λ c, c <| check_thread_started := true |>)).
Definition stop_check_thread : run_of unit :=
  upd_sup (λ c, c <| keep_checking := false |>).
Definition cancel_check_thread : run_of unit :=
  upd_sup (λ c, c <| check_thread_cancelled := true |>).

(** ** [socket_low_level.cc] *)
Definition init (locks : bool) : run_of unit :=
  upd_chan (λ c, c <| use_zmq_socket_locks := locks |>).

(** [zmq_socket_mutex]: locking it again or unlocking it when free is undefined. *)
Definition lock_mutex : run_of unit :=
  held ← gets (λ s, mutex_held (chan s));
  if (held : bool) then undef else upd_chan (λ c, c <| mutex_held := true |>).
Definition unlock_mutex : run_of unit :=
  held ← gets (λ s, mutex_held (chan s));
  if (held : bool) then upd_chan (λ c, c <| mutex_held := false |>) else undef.
Definition lock_if_used : run_of unit :=
  locks ← gets (λ s, use_zmq_socket_locks (chan s)); when locks lock_mutex.
Definition unlock_if_used : run_of unit :=
  locks ← gets (λ s, use_zmq_socket_locks (chan s)); when locks unlock_mutex.

Fixpoint socket_send_loop (script : list send_outcome) (zmsg : wire) : run_of unit :=
  match script with
  | [] => lock_if_used;; blocked
  | answer :: rest =>
      lock_if_used;;
      upd_chan (λ c, c <| c_sends := rest |>);;
      match answer with
      | send_true => log (ev_send zmsg);; unlock_if_used
      | send_false | send_threw =>
          external_process_check;;
          unlock_if_used;;
          usleep 100000;;
          socket_send_loop rest zmsg
      end
  end.

Definition socket_send (zmsg : wire) : run_of unit :=
  script ← gets (λ s, c_sends (chan s)); socket_send_loop script zmsg.

(** The result is the received message, or [None] for the C++ result [false]. *)
Fixpoint socket_recv_loop (script : list recv_outcome) (return_on_error : bool) :
  run_of (option wire) :=
  match script with
  | [] => lock_if_used;; blocked
  | answer :: rest =>
      lock_if_used;;
      upd_chan (λ c, c <| c_recvs := rest |>);;
      match answer with
      | recv_true w => log (ev_recv w);; unlock_if_used;; mret (Some w)
      | recv_false | recv_threw =>
          external_process_check;;
          unlock_if_used;;
          if return_on_error then mret None
          else usleep 100000;; socket_recv_loop rest return_on_error
      end
  end.

Definition socket_recv (return_on_error : bool) : run_of (option wire) :=
  script ← gets (λ s, c_recvs (chan s)); socket_recv_loop script return_on_error.
End check.

(** ** What a routine sent and received *)
Section io.
Context `{Codec}.

Definition sent (tr : list event) : list wire :=
  omap (λ e, match e with ev_send w => Some w | _ => None end) tr.
Definition received (tr : list event) : list wire :=
  omap (λ e, match e with ev_recv w => Some w | _ => None end) tr.

Lemma sent_app tr1 tr2 : sent (tr1 ++ tr2) = sent tr1 ++ sent tr2.
Proof. apply omap_app. Qed.
Lemma received_app tr1 tr2 : received (tr1 ++ tr2) = received tr1 ++ received tr2.
Proof. apply omap_app. Qed.

(** Only the environment's part of the state changed. *)
Record same_but_chan (s s' : machine) : Prop := {
  sbc_sup : sup s' = sup s;
  sbc_glob : glob s' = glob s;
  sbc_it : it s' = it s;
  sbc_rh : rh s' = rh s;
  sbc_vmf : vmf s' = vmf s;
}.

#[global] Instance same_but_chan_preorder : PreOrder same_but_chan.
Proof.
  split; [by intros []|]. intros s1 s2 s3 [] []. split; congruence.
Qed.

(** The events of the transport *)
Definition transport_event (e : event) : Prop :=
  match e with ev_send _ | ev_recv _ | ev_sleep _ => True | _ => False end.

(** [io s s' ws rs]: between [s] and [s'] exactly [ws] was sent and [rs]
    received, the settings of the channel are the same, no bad news about the
    socket file came up, and nothing outside the channel changed. *)
Record io (s s' : machine) (ws rs : list wire) : Prop := {
  io_sent : sent (c_trace (chan s')) = sent (c_trace (chan s)) ++ ws;
  io_received : received (c_trace (chan s')) = received (c_trace (chan s)) ++ rs;
  io_locks : use_zmq_socket_locks (chan s') = use_zmq_socket_locks (chan s);
  io_access : c_access (chan s') ⊆ c_access (chan s);
  io_setrlimit : c_setrlimit (chan s') = c_setrlimit (chan s);
  io_events : ∃ tr, c_trace (chan s') = c_trace (chan s) ++ tr ∧ Forall transport_event tr;
  io_frame : same_but_chan s s';
}.

Lemma io_refl s : io s s [] [].
Proof. split; rewrite ?app_nil_r; try done. exists []. by rewrite app_nil_r. Qed.

Lemma io_trans s1 s2 s3 ws1 ws2 rs1 rs2 :
  io s1 s2 ws1 rs1 → io s2 s3 ws2 rs2 → io s1 s3 (ws1 ++ ws2) (rs1 ++ rs2).
Proof.
  intros [Hs1 Hr1 Hl1 Ha1 Hx1 (tr1 & He1 & Ht1) Hf1].
  intros [Hs2 Hr2 Hl2 Ha2 Hx2 (tr2 & He2 & Ht2) Hf2]. split.
  - by rewrite Hs2, Hs1, app_assoc.
  - by rewrite Hr2, Hr1, app_assoc.
  - congruence.
  - by etransitivity.
  - congruence.
  - exists (tr1 ++ tr2). rewrite He2, He1, <-app_assoc. by rewrite Forall_app.
  - by transitivity s2.
Qed.

(** A step of the channel that logs nothing *)
Lemma io_silent s c :
  c_trace c = c_trace (chan s) →
  use_zmq_socket_locks c = use_zmq_socket_locks (chan s) →
  c_access c ⊆ c_access (chan s) → c_setrlimit c = c_setrlimit (chan s) →
  io s (s <| chan := c |>) [] [].
Proof.
  intros Ht Hl Ha Hx. split; simpl; rewrite ?Ht, ?app_nil_r; try done.
  exists []. by rewrite app_nil_r.
Qed.

Lemma io_log s s' e ws rs :
  log e s = (Ret tt, s') → transport_event e → ws = sent [e] → rs = received [e] →
  io s s' ws rs.
Proof.
  intros [= <-] He -> ->.
  split; simpl; unfold sent, received; rewrite ?omap_app; try done.
  exists [e]. split; [done|]. by constructor.
Qed.

(** The mutex is free, as it is between two calls. *)
Definition mutex_free (s : machine) : Prop := mutex_held (chan s) = false.
End io.

(** ** One attempt's bookkeeping *)
Section attempts.
Context `{Codec}.

Lemma lock_run s :
  mutex_free s →
  ∃ s', lock_if_used s = (Ret tt, s') ∧ io s s' [] [] ∧
    mutex_held (chan s') = use_zmq_socket_locks (chan s) ∧
    c_sends (chan s') = c_sends (chan s) ∧ c_recvs (chan s') = c_recvs (chan s) ∧
    c_access (chan s') = c_access (chan s).
Proof.
  unfold lock_if_used, lock_mutex, mutex_free. intros Hm. run_simpl.
  destruct (use_zmq_socket_locks (chan s)) eqn:E; simpl.
  - run_simpl. rewrite Hm. eexists. split; [done|]. split; [by apply io_silent|done].
  - exists s. split_and!; [done|apply io_refl|done..].
Qed.

Lemma unlock_run s :
  mutex_held (chan s) = use_zmq_socket_locks (chan s) →
  ∃ s', unlock_if_used s = (Ret tt, s') ∧ io s s' [] [] ∧ mutex_free s' ∧
    c_sends (chan s') = c_sends (chan s) ∧ c_recvs (chan s') = c_recvs (chan s) ∧
    c_access (chan s') = c_access (chan s).
Proof.
  unfold unlock_if_used, unlock_mutex, mutex_free. intros Hm. run_simpl.
  destruct (use_zmq_socket_locks (chan s)) eqn:E; simpl.
  - run_simpl. rewrite Hm. eexists. split; [done|]. split; [by apply io_silent|done].
  - exists s. split_and!; [done|apply io_refl|done..].
Qed.

(** The check between two attempts passes, or kills the process when the socket
    file is gone; a remote client is never killed. *)
Lemma external_process_check_run s :
  (∃ s', external_process_check s = (Ret tt, s') ∧ io s s' [] [] ∧
     mutex_held (chan s') = mutex_held (chan s) ∧
     c_sends (chan s') = c_sends (chan s) ∧ c_recvs (chan s') = c_recvs (chan s) ∧
     c_access (chan s') = (if remote_client (sup s) then c_access (chan s)
                           else tail (c_access (chan s))) ∧
     (remote_client (sup s) = true ∨ head (c_access (chan s)) ≠ Some false)) ∨
  (∃ s', external_process_check s = (Abort, s') ∧ io s s' [] [] ∧
     c_sends (chan s') = c_sends (chan s) ∧ c_recvs (chan s') = c_recvs (chan s) ∧
     remote_client (sup s) = false ∧ head (c_access (chan s)) = Some false).
Proof.
  unfold external_process_check, get_remote_client, access_socket_file. run_simpl.
  destruct (remote_client (sup s)) eqn:Er.
  { left. exists s. split_and!; try done; [apply io_refl|by left]. }
  rewrite bind_run. destruct (c_access (chan s)) as [|[] rest] eqn:Ea; simpl.
  - left. exists s. split_and!; try done; [apply io_refl|by right].
  - left. eexists. split_and!; try done; [|by right].
    apply io_silent; try done. rewrite Ea. set_solver.
  - right. unfold sleep, log, upd_chan. run_simpl. eexists. split_and!; try done.
    eapply (io_trans _ (s <| chan := (chan s) <| c_access := rest |> |>) _ [] [] [] []);
      [apply io_silent; try done; rewrite Ea; set_solver|].
    by eapply (io_log _ _ (ev_sleep _)).
Qed.

(** The end of a failed attempt, before the continuation [k] *)
Lemma failed_attempt_run {A} (k : run_of A) s :
  mutex_held (chan s) = use_zmq_socket_locks (chan s) →
  (∃ s', (external_process_check;; unlock_if_used;; k) s = k s' ∧ io s s' [] [] ∧
     mutex_free s' ∧ c_sends (chan s') = c_sends (chan s) ∧
     c_recvs (chan s') = c_recvs (chan s) ∧
     c_access (chan s') = (if remote_client (sup s) then c_access (chan s)
                           else tail (c_access (chan s))) ∧
     (remote_client (sup s) = true ∨ head (c_access (chan s)) ≠ Some false)) ∨
  (∃ s', (external_process_check;; unlock_if_used;; k) s = (Abort, s') ∧
     io s s' [] [] ∧ c_sends (chan s') = c_sends (chan s) ∧
     c_recvs (chan s') = c_recvs (chan s) ∧ remote_client (sup s) = false ∧
     false ∈ c_access (chan s)).
Proof.
  intros Hm. destruct (external_process_check_run s)
    as [(s1 & Hr1 & Hio1 & Hm1 & Hs1 & Hv1 & Ha1 & Hok)
       |(s1 & Hr1 & Hio1 & Hs1 & Hv1 & Hrem & Hacc)].
  - left. rewrite (run_bind _ _ _ _ _ Hr1).
    destruct (unlock_run s1) as (s2 & Hr2 & Hio2 & Hm2 & Hs2 & Hv2 & Ha2).
    { by rewrite Hm1, (io_locks _ _ _ _ Hio1). }
    rewrite (run_bind _ _ _ _ _ Hr2). exists s2. split_and!; try congruence.
    by eapply (io_trans _ s1 _ [] [] [] []).
  - right. exists s1. rewrite bind_run, Hr1. split_and!; try done.
    destruct (c_access (chan s)); simplify_eq/=. left.
Qed.

(** The end of a successful attempt: log the message and release the mutex *)
Lemma successful_attempt_run {A} e (k : run_of A) s :
  transport_event e →
  mutex_held (chan s) = use_zmq_socket_locks (chan s) →
  ∃ s', (log e;; unlock_if_used;; k) s = k s' ∧ io s s' (sent [e]) (received [e]) ∧
    mutex_free s' ∧ c_sends (chan s') = c_sends (chan s) ∧
    c_recvs (chan s') = c_recvs (chan s).
Proof.
  intros He Hm. destruct (log e s) as [o s1] eqn:Hlog. pose proof Hlog as [= <- <-].
  rewrite (run_bind _ _ _ _ _ Hlog).
  destruct (unlock_run (log e s).2) as (s2 & Hr2 & Hio2 & Hm2 & Hs2 & Hv2 & _); [done|].
  rewrite Hlog in *. simpl in *. rewrite (run_bind _ _ _ _ _ Hr2).
  exists s2. split; [done|]. split; [|done].
  pose proof (io_trans _ _ _ _ _ _ _ (io_log _ _ _ _ _ Hlog He eq_refl eq_refl) Hio2) as Hio.
  by rewrite !app_nil_r in Hio.
Qed.
End attempts.

(** ** The retry loop

    Sending and receiving are the same loop: take the next answer, finish with an
    event when it is good, and else check the process and try again or give up. *)
Section retry.
Context `{Codec} {R A U : Type} (good : R → option (event * A))
  (pop : list R → channel → channel) (pending : channel → list R)
  (untouched : channel → U) (on_failure : option A).
Context (pending_pop : ∀ l c, pending (pop l c) = l)
  (untouched_pop : ∀ l c, untouched (pop l c) = untouched c)
  (pop_silent : ∀ l c, c_trace (pop l c) = c_trace c ∧
     use_zmq_socket_locks (pop l c) = use_zmq_socket_locks c ∧
     mutex_held (pop l c) = mutex_held c ∧ c_access (pop l c) = c_access c ∧
     c_setrlimit (pop l c) = c_setrlimit c).
Context (good_transport : ∀ r e a, good r = Some (e, a) → transport_event e).
Context (pending_other : ∀ c c', c_sends c' = c_sends c → c_recvs c' = c_recvs c →
     pending c' = pending c ∧ untouched c' = untouched c).

Fixpoint retry (script : list R) : run_of A :=
  match script with
  | [] => lock_if_used;; blocked
  | r :: rest =>
      lock_if_used;; upd_chan (pop rest);;
      match good r with
      | Some (e, a) => log e;; unlock_if_used;; mret a
      | None =>
          external_process_check;; unlock_if_used;;
          match on_failure with
          | Some a => mret a
          | None => usleep 100000;; retry rest
          end
      end
  end.

(** How the loop can end: with the event of the first good answer, by giving up
    after the first one, killed, or waiting after an answerless last attempt. *)
Definition retry_post (script : list R) (s : machine) (o : outcome exn A)
  (s' : machine) : Prop :=
  untouched (chan s') = untouched (chan s) ∧
  match o with
  | Ret a => mutex_free s' ∧
      ((∃ pre r e, script = pre ++ r :: pending (chan s') ∧
          Forall (λ r, good r = None) pre ∧ good r = Some (e, a) ∧
          io s s' (sent [e]) (received [e])) ∨
       (∃ r, script = r :: pending (chan s') ∧ good r = None ∧
          on_failure = Some a ∧ io s s' [] []))
  | Abort => io s s' [] [] ∧ remote_client (sup s) = false ∧ false ∈ c_access (chan s)
  | Blocked => io s s' [] [] ∧ Forall (λ r, good r = None) script
  | _ => False
  end.

Lemma retry_post_step r rest s s1 o s' :
  io s s1 [] [] → good r = None → on_failure = None →
  untouched (chan s1) = untouched (chan s) →
  (∀ b, b ∈ c_access (chan s1) → b ∈ c_access (chan s)) →
  retry_post rest s1 o s' → retry_post (r :: rest) s o s'.
Proof.
  intros Hio Hg Hgu Hun Hacc [Hun' Hp]. split; [congruence|]. destruct o; try done.
  - destruct Hp as [Hm [(pre & r' & e & -> & Hpre & Hr & Hio')|(? & _ & _ & ? & _)]];
      [split; [done|]|congruence].
    left. exists (r :: pre), r', e. split_and!; [done|by constructor|done|].
    by eapply (io_trans _ s1 _ [] _ [] _).
  - destruct Hp as (Hio' & Hrem & Hin).
    split_and!; [by eapply (io_trans _ s1 _ [] [] [] [])| |auto].
    by rewrite <-Hrem, (sbc_sup _ _ (io_frame _ _ _ _ Hio)).
  - destruct Hp as (Hio' & Hin). split; [by eapply (io_trans _ s1 _ [] [] [] [])|].
    by constructor.
Qed.

(** The bookkeeping at the start of an attempt *)
Lemma attempt_start_run (k : run_of A) rest s :
  mutex_free s →
  ∃ s', (lock_if_used;; upd_chan (pop rest);; k) s = k s' ∧ io s s' [] [] ∧
    mutex_held (chan s') = use_zmq_socket_locks (chan s') ∧
    pending (chan s') = rest ∧ c_access (chan s') = c_access (chan s) ∧
    untouched (chan s') = untouched (chan s).
Proof.
  intros Hm. destruct (lock_run s Hm) as (s1 & Hr1 & Hio1 & Hm1 & Hs1 & Hv1 & Ha1).
  rewrite (run_bind _ _ _ _ _ Hr1). unfold upd_chan. run_simpl.
  destruct (pop_silent rest (chan s1)) as (Ht & Hl & Hh & Hac & Hx).
  destruct (pending_other _ _ Hs1 Hv1) as [_ Hu].
  eexists. split; [done|]. split_and!; simpl.
  - eapply (io_trans _ s1 _ [] [] [] []); [done|].
    apply io_silent; [done|done|by rewrite Hac|done].
  - rewrite Hh, Hl, Hm1. symmetry. apply Hio1.
  - done.
  - congruence.
  - by rewrite untouched_pop.
Qed.

Lemma retry_run script s :
  mutex_free s → script = pending (chan s) →
  retry_post script s (retry script s).1 (retry script s).2.
Proof.
  revert s. induction script as [|r rest IH]; intros s Hm Hs; simpl.
  { destruct (lock_run s Hm) as (s1 & Hr1 & Hio1 & _ & Hs1 & Hv1 & _).
    rewrite (run_bind _ _ _ _ _ Hr1). split; [|by split].
    by destruct (pending_other _ _ Hs1 Hv1). }
  match goal with |- context [(lock_if_used;; upd_chan _;; ?k) s] =>
    destruct (attempt_start_run k rest s Hm) as (s1 & -> & Hio1 & Hm1 & Hp1 & Ha1 & Hu1) end.
  destruct (good r) as [[e a]|] eqn:Hg.
  { destruct (successful_attempt_run e (mret a) s1 (good_transport _ _ _ Hg) Hm1)
      as (s2 & -> & Hio2 & Hm2 & Hs2 & Hv2).
    destruct (pending_other _ _ Hs2 Hv2) as [Hp2 Hu2].
    split; [simpl; congruence|]. split; [done|]. left. exists [], r, e.
    split_and!; [simpl; congruence|done|done|]. by eapply (io_trans _ s1 _ [] _ [] _). }
  match goal with |- context [(external_process_check;; unlock_if_used;; ?k) s1] =>
    destruct (failed_attempt_run k s1 Hm1)
      as [(s2 & -> & Hio2 & Hm2 & Hs2 & Hv2 & Ha2 & _)
         |(s2 & -> & Hio2 & Hs2 & Hv2 & Hrem & Hacc)] end;
    destruct (pending_other _ _ Hs2 Hv2) as [Hp2 Hu2].
  2:{ split; [simpl; congruence|].
      split_and!; [by eapply (io_trans _ s1 _ [] [] [] [])| |by rewrite <-Ha1].
      by rewrite <-Hrem, (sbc_sup _ _ (io_frame _ _ _ _ Hio1)). }
  assert (io s s2 [] []) as Hio02 by by eapply (io_trans _ s1 _ [] [] [] []).
  destruct on_failure as [a|] eqn:Hgu.
  { split; [simpl; congruence|]. split; [done|]. right. exists r.
    split_and!; [simpl; congruence|done..]. }
  destruct (usleep 100000 s2) as [o3 s3] eqn:Hr3.
  pose proof Hr3 as Hr3'. injection Hr3' as <- <-. rewrite (run_bind _ _ _ _ _ Hr3).
  pose proof (io_log _ _ (ev_sleep 100000) [] [] Hr3 I eq_refl eq_refl) as Hio3.
  match goal with |- retry_post _ _ (_ ?s3).1 _ =>
    destruct (pending_other (chan s2) (chan s3) eq_refl eq_refl) as [Hp3 Hu3] end.
  simpl in Hp3, Hu3.
  apply (retry_post_step _ _ _ _ _ _
    (io_trans _ _ _ [] [] [] [] Hio02 Hio3) Hg).
  - done.
  - simpl. congruence.
  - simpl. rewrite Ha2, Ha1. destruct (remote_client _); [done|].
    destruct (c_access (chan s)); [done|]. by right.
  - apply IH; [done|]. simpl. congruence.
Qed.
End retry.

(** ** [socket_send] and [socket_recv] *)
Section transfer.
Context `{Codec}.

Definition send_good (w : wire) (a : send_outcome) : option (event * unit) :=
  match a with send_true => Some (ev_send w, tt) | _ => None end.
Definition recv_good (a : recv_outcome) : option (event * option wire) :=
  match a with recv_true w => Some (ev_recv w, Some w) | _ => None end.

Lemma socket_send_retry script w s :
  socket_send_loop script w s =
  retry (send_good w) (λ l c, c <| c_sends := l |>) None script s.
Proof.
  revert s. change (socket_send_loop script w ≡
    retry (send_good w) (λ l c, c <| c_sends := l |>) None script).
  induction script as [|a script IH]; simpl; [done|].
  f_equiv; intros []; f_equiv; intros [].
  destruct a; simpl; [|f_equiv; intros []; f_equiv; intros []; f_equiv; intros []; apply IH..].
  intros s. symmetry. apply bind_unit_r.
Qed.

Lemma socket_recv_retry script roe s :
  socket_recv_loop script roe s =
  retry recv_good (λ l c, c <| c_recvs := l |>)
    (if roe then Some None else None) script s.
Proof.
  revert s. change (socket_recv_loop script roe ≡
    retry recv_good (λ l c, c <| c_recvs := l |>)
    (if roe then Some None else None) script).
  induction script as [|a script IH]; simpl; [done|].
  f_equiv; intros []; f_equiv; intros [].
  destruct a; simpl; [done|destruct roe; do 3 (f_equiv; intros []); apply IH..].
Qed.

Lemma socket_send_run w s :
  mutex_free s →
  retry_post (send_good w) c_sends c_recvs None (c_sends (chan s)) s
    (socket_send w s).1 (socket_send w s).2.
Proof.
  intros Hm. unfold socket_send. run_simpl. rewrite socket_send_retry.
  apply retry_run; try done. by intros [] ? ? [= <- <-].
Qed.

Lemma socket_recv_run (roe : bool) s :
  mutex_free s →
  retry_post recv_good c_recvs c_sends (if roe then Some None else None)
    (c_recvs (chan s)) s (socket_recv roe s).1 (socket_recv roe s).2.
Proof.
  intros Hm. unfold socket_recv. run_simpl. rewrite socket_recv_retry.
  apply retry_run; try done. by intros [] ? ? [= <- <-].
Qed.

(** What the callers of the two need: the socket file is never found missing, and
    an answer is good sooner or later. *)
Definition supervised (s : machine) : Prop := false ∉ c_access (chan s).
Definition delivers (l sends : list send_outcome) : Prop :=
  ∃ failed, (send_true ∉ failed) ∧ l = failed ++ send_true :: sends.
Definition offers (l : list recv_outcome) (w : wire) (recvs : list recv_outcome) : Prop :=
  ∃ failed, (∀ w, recv_true w ∉ failed) ∧ l = failed ++ recv_true w :: recvs.

Lemma supervised_io s s' ws rs : io s s' ws rs → supervised s → supervised s'.
Proof. intros Hio Hs Hin. apply Hs. by apply (io_access _ _ _ _ Hio). Qed.

(** The first element with a property splits a list in one way. *)
Lemma first_unique {A} (P : A → Prop) l1 l2 x1 x2 k1 k2 :
  (∀ x, x ∈ l1 → ¬ P x) → (∀ x, x ∈ l2 → ¬ P x) → P x1 → P x2 →
  l1 ++ x1 :: k1 = l2 ++ x2 :: k2 → l1 = l2 ∧ x1 = x2 ∧ k1 = k2.
Proof.
  revert l2. induction l1 as [|y l1 IH]; intros [|z l2] H1 H2 Hx1 Hx2 Heq;
    injection Heq as <- Heq; try done.
  - exfalso. eapply H2; [left|done].
  - exfalso. eapply H1; [left|done].
  - destruct (IH l2) as (-> & -> & ->); try done; intros; [apply H1|apply H2]; by right.
Qed.

Lemma socket_send_good w s sends :
  mutex_free s → supervised s → delivers (c_sends (chan s)) sends →
  ∃ s', socket_send w s = (Ret tt, s') ∧ io s s' [w] [] ∧ mutex_free s' ∧
    c_sends (chan s') = sends ∧ c_recvs (chan s') = c_recvs (chan s).
Proof.
  intros Hm Hsup Hdel. destruct Hdel as (failed & Hf & Hs). pose proof (socket_send_run w s Hm) as [Hun Hp].
  destruct (socket_send w s) as [[[]|e| | |] s'] eqn:Hr; simpl in *; try done.
  - destruct Hp as [Hm' [(pre & r & e & Hscr & Hpre & Hg & Hio)|(r & _ & _ & ? & _)]];
      [|done].
    destruct r; simplify_eq/=. exists s'. split_and!; try done.
    rewrite Hs in Hscr. rewrite Forall_forall in Hpre.
    apply (first_unique (λ x, x = send_true)) in Hscr as (_ & _ & ?); try done;
      intros x Hx ->; [done|]. by apply Hpre in Hx.
  - by destruct Hp as (_ & _ & ?).
  - destruct Hp as [_ Hp]. rewrite Hs, Forall_app, Forall_cons in Hp.
    by destruct Hp as (_ & ? & _).
Qed.

Lemma socket_recv_good (roe : bool) w s recvs :
  mutex_free s → supervised s → offers (c_recvs (chan s)) w recvs →
  roe = false ∨ c_recvs (chan s) = recv_true w :: recvs →
  ∃ s', socket_recv roe s = (Ret (Some w), s') ∧ io s s' [] [w] ∧ mutex_free s' ∧
    c_sends (chan s') = c_sends (chan s) ∧ c_recvs (chan s') = recvs.
Proof.
  intros Hm Hsup (failed & Hf & Hs) Hroe.
  pose proof (socket_recv_run roe s Hm) as [Hun Hp].
  destruct (socket_recv roe s) as [[o|e| | |] s'] eqn:Hr; simpl in *; try done.
  - destruct Hp as [Hm' [(pre & r & e & Hscr & Hpre & Hg & Hio)|(r & Hscr & Hg & Hgu & _)]].
    + destruct r as [v| |]; simplify_eq/=. exists s'.
      rewrite Hs in Hscr. rewrite Forall_forall in Hpre.
      apply (first_unique (λ x, ∃ w, x = recv_true w)) in Hscr as (_ & [= ->] & ?); eauto;
        intros x Hx [v' ->]; [by eapply Hf|]. by apply Hpre in Hx.
    + destruct roe; [|done]. destruct Hroe as [|Hroe]; [done|].
      rewrite Hroe in Hscr. by injection Hscr as <- _.
  - by destruct Hp as (_ & _ & ?).
  - destruct Hp as [_ Hp]. rewrite Hs, Forall_app, Forall_cons in Hp.
    by destruct Hp as (_ & ? & _).
Qed.

(** An environment that accepts a request and offers a reply for each of [vs] *)
Fixpoint delivers_many (n : nat) (l : list send_outcome) : Prop :=
  match n with
  | 0 => True
  | S n => ∃ l', delivers l l' ∧ delivers_many n l'
  end.
Fixpoint offers_many (vs : list wire) (l : list recv_outcome) : Prop :=
  match vs with
  | [] => True
  | v :: vs => ∃ l', offers l v l' ∧ offers_many vs l'
  end.

Record serves (vs : list wire) (s : machine) : Prop := {
  srv_mutex : mutex_free s;
  srv_supervised : supervised s;
  srv_sends : delivers_many (length vs) (c_sends (chan s));
  srv_recvs : offers_many vs (c_recvs (chan s));
}.

Lemma serves_chan vs s s' : chan s' = chan s → serves vs s → serves vs s'.
Proof.
  intros Hc [Hm Hsup Hs Hr]. unfold mutex_free, supervised in *.
  split; unfold mutex_free, supervised; by rewrite Hc.
Qed.

(** The same when a request is out and the reply [v] is due *)
Record awaits (v : wire) (vs : list wire) (s : machine) : Prop := {
  aw_mutex : mutex_free s;
  aw_supervised : supervised s;
  aw_sends : delivers_many (length vs) (c_sends (chan s));
  aw_recvs : ∃ recvs, offers (c_recvs (chan s)) v recvs ∧ offers_many vs recvs;
}.

Lemma awaits_chan v vs s s' : chan s' = chan s → awaits v vs s → awaits v vs s'.
Proof.
  intros Hc [Hm Hsup Hs Hr]. unfold mutex_free, supervised in *.
  split; unfold mutex_free, supervised; by rewrite Hc.
Qed.

Lemma serves_send w v vs s :
  serves (v :: vs) s →
  ∃ s', socket_send w s = (Ret tt, s') ∧ io s s' [w] [] ∧ awaits v vs s'.
Proof.
  intros [Hm Hsup (sends & Hd & Hds) (recvs & Ho & Hos)].
  destruct (socket_send_good w s sends Hm Hsup Hd) as (s1 & Hr1 & Hio1 & Hm1 & Hs1 & Hv1).
  exists s1. split_and!; try done. split; [done|by eapply supervised_io|by rewrite Hs1|].
  exists recvs. by rewrite Hv1.
Qed.

Lemma awaits_recv v vs s :
  awaits v vs s →
  ∃ s', socket_recv false s = (Ret (Some v), s') ∧ io s s' [] [v] ∧ serves vs s'.
Proof.
  intros [Hm Hsup Hds (recvs & Ho & Hos)].
  destruct (socket_recv_good false v s recvs Hm Hsup Ho) as (s2 & Hr2 & Hio2 & Hm2 & Hs2 & Hv2);
    [by left|].
  exists s2. split_and!; try done. split; [done|by eapply supervised_io|..]; congruence.
Qed.

Lemma serves_exchange w v vs s :
  serves (v :: vs) s →
  ∃ s1 s', socket_send w s = (Ret tt, s1) ∧ socket_recv false s1 = (Ret (Some v), s') ∧
    io s s' [w] [v] ∧ serves vs s'.
Proof.
  intros (s1 & Hr1 & Hio1 & Haw) % (serves_send w).
  destruct (awaits_recv v vs s1 Haw) as (s2 & Hr2 & Hio2 & Hsrv).
  exists s1, s2. split_and!; try done. by apply (io_trans s s1 s2 [w] [] [] [v]).
Qed.

(** Whatever happens, a send transmits the message at most once and nothing else,
    and only the channel changes. *)
Lemma socket_send_io w s :
  mutex_free s →
  ∃ ws, io s (socket_send w s).2 ws [] ∧ ws `prefix_of` [w] ∧
    (∀ a, (socket_send w s).1 = Ret a → ws = [w] ∧ mutex_free (socket_send w s).2) ∧
    (∀ e, (socket_send w s).1 ≠ Throw e) ∧ (socket_send w s).1 ≠ Undef.
Proof.
  intros Hm. pose proof (socket_send_run w s Hm) as [_ Hp].
  destruct (socket_send w s) as [[a|e| | |] s']; simpl in *; try done.
  - destruct Hp as [Hm' [(pre & r & e & _ & _ & Hg & Hio)|(r & _ & _ & ? & _)]];
      [|done].
    destruct r; simplify_eq/=. exists [w]. by split_and!.
  - exists []. split_and!; [apply Hp|apply prefix_nil|done..].
  - exists []. split_and!; [apply Hp|apply prefix_nil|done..].
Qed.

(** A receive takes at most one message, and returns the one it took. *)
Lemma socket_recv_io (roe : bool) s :
  mutex_free s →
  ∃ rs, io s (socket_recv roe s).2 [] rs ∧ length rs ≤ 1 ∧
    (∀ o, (socket_recv roe s).1 = Ret o →
      rs = option_list o ∧ (roe = false → is_Some o) ∧
      mutex_free (socket_recv roe s).2) ∧
    (∀ e, (socket_recv roe s).1 ≠ Throw e) ∧ (socket_recv roe s).1 ≠ Undef.
Proof.
  intros Hm. pose proof (socket_recv_run roe s Hm) as [_ Hp].
  destruct (socket_recv roe s) as [[a|e| | |] s']; simpl in *; try done.
  - destruct Hp as [Hm' [(pre & r & e & _ & _ & Hg & Hio)|(r & _ & _ & Hgu & Hio)]].
    + destruct r; simplify_eq/=. exists [w]. split_and!; naive_solver eauto with lia.
    + destruct roe; simplify_eq. exists []. split_and!; naive_solver eauto with lia.
  - exists []. destruct Hp as [? _]. split_and!; [done|simpl; lia|done..].
  - exists []. destruct Hp as [? _]. split_and!; [done|simpl; lia|done..].
Qed.
End transfer.

(** ** Turns

    [turn s s' ws rs]: between [s] and [s'] exactly [ws] was sent and [rs]
    received and the session stayed as it was. Unlike [io] it lets the iterator,
    the handler, the fields of the container and the pending exception change. *)
Section turns.
Context `{Codec}.

Record turn (s s' : machine) (ws rs : list wire) : Prop := {
  tn_events : ∃ tr, c_trace (chan s') = c_trace (chan s) ++ tr ∧
    Forall transport_event tr ∧ sent tr = ws ∧ received tr = rs;
  tn_sup : sup s' = sup s;
  tn_id : connection_id (params (glob s')) = connection_id (params (glob s));
  tn_mode : singleCallMode (glob s') = singleCallMode (glob s);
}.

Lemma turn_refl s : turn s s [] [].
Proof. split; try done. exists []. by rewrite app_nil_r. Qed.

Lemma turn_trans s1 s2 s3 ws1 ws2 rs1 rs2 :
  turn s1 s2 ws1 rs1 → turn s2 s3 ws2 rs2 → turn s1 s3 (ws1 ++ ws2) (rs1 ++ rs2).
Proof.
  intros [(tr1 & Ht1 & Hev1 & Hs1 & Hr1) Hsup1 Hid1 Hm1].
  intros [(tr2 & Ht2 & Hev2 & Hs2 & Hr2) Hsup2 Hid2 Hm2].
  split; [|congruence..]. exists (tr1 ++ tr2).
  rewrite Ht2, Ht1, <-app_assoc, Forall_app, sent_app, received_app. by subst.
Qed.

Lemma io_turn s s' ws rs : io s s' ws rs → turn s s' ws rs.
Proof.
  intros [Hs Hr _ _ _ (tr & Ht & Hev) [Hsup Hg _ _ _]].
  rewrite Ht in Hs, Hr. rewrite sent_app in Hs. rewrite received_app in Hr.
  apply app_inv_head in Hs, Hr. split; [by exists tr|congruence..].
Qed.

(** A step that leaves the channel and the session alone *)
Lemma turn_silent s s' :
  chan s' = chan s → sup s' = sup s →
  connection_id (params (glob s')) = connection_id (params (glob s)) →
  singleCallMode (glob s') = singleCallMode (glob s) → turn s s' [] [].
Proof. intros Hc ? ? ?. split; try done. exists []. by rewrite Hc, app_nil_r. Qed.
(** The same with later changes outside the channel and the globals *)
Lemma io_turn_after s s1 s2 ws rs :
  io s s1 ws rs → chan s2 = chan s1 → sup s2 = sup s1 → glob s2 = glob s1 →
  turn s s2 ws rs.
Proof.
  intros [(tr & Ht & Htr) ? ? ?] % io_turn Hc Hsup Hg. split; [|congruence..].
  exists tr. by rewrite Hc.
Qed.

Lemma turn_after s s1 s2 ws rs :
  turn s s1 ws rs → chan s2 = chan s1 → sup s2 = sup s1 →
  connection_id (params (glob s2)) = connection_id (params (glob s1)) →
  singleCallMode (glob s2) = singleCallMode (glob s1) → turn s s2 ws rs.
Proof.
  intros [(tr & Ht & Htr) ? ? ?] Hc ? ? ?. split; [|congruence..]. exists tr. by rewrite Hc.
Qed.

Lemma turn_same_chan s1 s2 s3 ws rs :
  chan s2 = chan s1 → sup s2 = sup s1 → glob s2 = glob s1 → turn s2 s3 ws rs → turn s1 s3 ws rs.
Proof.
  intros Hc Hsup Hg [Ht ? ? ?]. rewrite Hc in Ht. split; [done|congruence..].
Qed.

Lemma turn_sent s s' ws rs :
  turn s s' ws rs →
  sent (c_trace (chan s')) = sent (c_trace (chan s)) ++ ws ∧
  received (c_trace (chan s')) = received (c_trace (chan s)) ++ rs.
Proof.
  intros [(tr & Ht & _ & Hs & Hr) _ _ _]. rewrite Ht, sent_app, received_app. by subst.
Qed.
End turns.

(** ** The supervision thread *)
Section supervision.
Context `{Codec}.

(** One round with the socket file present and the parent alive *)
Lemma check_round_run (k : run_of unit) p rest s :
  c_access (chan s) = [] → c_getppid (chan s) = p :: rest →
  first_ppid (sup s) = p ∨ first_ppid (sup s) = (-1)%Z →
  (external_process_check;; check_parent_pid;; k) s =
  k (s <| chan := (chan s) <| c_getppid := rest |> |>
       <| sup := (sup s) <| first_ppid := p |> |>).
Proof.
  intros Ha Hp Hf. unfold external_process_check, get_remote_client, access_socket_file.
  run_simpl.
  destruct s as [[] [kc cs cc fp rc sf su] gl i r v]; simpl in *; subst.
  destruct rc; run_simpl; rewrite ?bind_run; simpl;
    unfold check_parent_pid, getppid; run_simpl; rewrite bind_run; simpl; run_simpl;
    unfold upd_sup; destruct Hf as [->| ->];
    try destruct (p =? -1)%Z; run_simpl; by rewrite Z.eqb_refl.
Qed.

(** A round in which the parent is found to have changed *)
Lemma check_round_dead (k : run_of unit) p q rest s :
  c_access (chan s) = [] → c_getppid (chan s) = q :: rest →
  p = first_ppid (sup s) → p ≠ (-1)%Z → p ≠ q →
  ∃ s', (external_process_check;; check_parent_pid;; k) s = (Abort, s') ∧
    c_trace (chan s') =
      c_trace (chan s) ++ [ev_sleep 1000000; ev_unlink (socket_file_name (sup s))].
Proof.
  intros Ha Hp Hf Hp1 Hpq.
  unfold external_process_check, get_remote_client, access_socket_file. run_simpl.
  destruct s as [[] [kc cs cc fp rc sf su] gl i r v]; simpl in *; subst.
  assert ((fp =? -1)%Z = false) as E1 by lia. assert ((fp =? q)%Z = false) as E2 by lia.
  destruct rc; run_simpl; rewrite ?bind_run; simpl;
    unfold check_parent_pid, getppid; run_simpl; rewrite bind_run; simpl; run_simpl;
    rewrite E1; run_simpl; rewrite E2; simpl;
    unfold sleep, log, upd_chan, get_socket_file_name; run_simpl;
    (eexists; split; [done|]; simpl; by rewrite <-app_assoc).
Qed.

(** The state after [n] rounds under the parent [p] *)
Lemma check_thread_run n fuel p q rest s :
  p ≠ (-1)%Z → p ≠ q → keep_checking (sup s) = true →
  c_access (chan s) = [] → c_getppid (chan s) = replicate n p ++ q :: rest →
  first_ppid (sup s) = p → n < fuel →
  ∃ s', check_thread_routine fuel s = (Abort, s') ∧
    c_trace (chan s') = c_trace (chan s) ++ replicate n (ev_sleep 100000) ++
      [ev_sleep 1000000; ev_unlink (socket_file_name (sup s))].
Proof.
  intros Hp1 Hpq. revert n s. induction fuel as [|fuel IH]; [lia|].
  intros n s Hk Ha Hg Hf Hn. simpl. run_simpl. rewrite Hk.
  destruct n as [|n]; simpl in Hg.
  { by eapply check_round_dead. }
  rewrite (check_round_run _ _ _ _ Ha Hg (or_introl Hf)).
  unfold usleep, log, upd_chan. run_simpl.
  match goal with |- context [check_thread_routine fuel ?s1] =>
    destruct (IH n s1) as (s' & Hr & Ht); [done..|lia|] end.
  exists s'. split; [done|]. rewrite Ht. simpl. by rewrite <-app_assoc.
Qed.
End supervision.

(** ** Properties *)
Section properties.
Context `{Codec}.

(** C37. [socket_send] delivers exactly once. Whatever sequence of timeouts and
    exceptions the socket answers with, when the call returns the message was
    transmitted once, after the failed attempts that precede the first success
    and by consuming no answer beyond it; the mutex is free again and nothing
    outside the channel changed. It never throws. It is killed only for a local
    client whose socket file was found missing, before anything was sent, and it
    waits for ever only when no attempt succeeds. *)
Theorem socket_send_spec (w : wire) (s : machine) :
  mutex_free s →
  match socket_send w s with
  | (Ret _, s') => io s s' [w] [] ∧ mutex_free s' ∧
      c_recvs (chan s') = c_recvs (chan s) ∧
      ∃ failed, c_sends (chan s) = failed ++ send_true :: c_sends (chan s') ∧
        send_true ∉ failed
  | (Abort, s') => io s s' [] [] ∧ remote_client (sup s) = false ∧
      false ∈ c_access (chan s)
  | (Blocked, s') => io s s' [] [] ∧ send_true ∉ c_sends (chan s)
  | _ => False
  end.
Proof.
  intros Hm. pose proof (socket_send_run w s Hm) as [Hun Hp].
  assert (∀ l, Forall (λ r, send_good w r = None) l → send_true ∉ l) as Hbad.
  { intros l Hl Hin. rewrite Forall_forall in Hl. by specialize (Hl _ Hin). }
  destruct (socket_send w s) as [[a|e| | |] s']; simpl in *; try done.
  - destruct Hp as [Hm' [(pre & r & e & Hs & Hpre & Hg & Hio)|(r & _ & _ & ? & _)]];
      [|done].
    destruct r; simplify_eq/=. split_and!; [done..|]. exists pre. auto.
  - destruct Hp as [Hio Hpre]. auto.
Qed.

(** [socket_recv] returns the first message the socket delivers. Without
    [return_on_error] it retries over every failed attempt and yields that very
    message; with it, one failed attempt makes it return [false]. In no case
    does it send, throw, or leave the mutex locked on return. *)
Theorem socket_recv_spec (roe : bool) (s : machine) :
  mutex_free s →
  match socket_recv roe s with
  | (Ret (Some w), s') => io s s' [] [w] ∧ mutex_free s' ∧
      c_sends (chan s') = c_sends (chan s) ∧
      ∃ failed, c_recvs (chan s) = failed ++ recv_true w :: c_recvs (chan s') ∧
        (∀ w', recv_true w' ∉ failed)
  | (Ret None, s') => io s s' [] [] ∧ mutex_free s' ∧ roe = true ∧
      c_sends (chan s') = c_sends (chan s) ∧
      ∃ r, c_recvs (chan s) = r :: c_recvs (chan s') ∧ ∀ w, r ≠ recv_true w
  | (Abort, s') => io s s' [] [] ∧ remote_client (sup s) = false ∧
      false ∈ c_access (chan s)
  | (Blocked, s') => io s s' [] [] ∧ ∀ w, recv_true w ∉ c_recvs (chan s)
  | _ => False
  end.
Proof.
  intros Hm. pose proof (socket_recv_run roe s Hm) as [Hun Hp].
  assert (∀ l, Forall (λ r, recv_good r = None) l → ∀ w, recv_true w ∉ l) as Hbad.
  { intros l Hl w Hin. rewrite Forall_forall in Hl. by specialize (Hl _ Hin). }
  destruct (socket_recv roe s) as [[a|e| | |] s']; simpl in *; try done.
  - destruct Hp as [Hm' [(pre & r & e & Hs & Hpre & Hg & Hio)|(r & Hs & Hg & Hgu & Hio)]].
    + destruct r; simplify_eq/=. split_and!; [done..|]. exists pre. auto.
    + destruct roe; simplify_eq. split_and!; [done..|]. exists r.
      split; [done|]. by intros w ->.
  - destruct Hp as [Hio Hpre]. auto.
Qed.

(** The supervision thread kills an orphaned client. Started before the first
    parent is known, with the socket file present, it polls every 100 ms as long
    as [getppid()] keeps answering the first parent; at the first other answer it
    waits a second, unlinks the socket file and kills the process. *)
Theorem check_thread_orphan_spec (n fuel : nat) (p q : Z) (rest : list Z)
  (s : machine) :
  p ≠ (-1)%Z → p ≠ q → keep_checking (sup s) = true →
  c_access (chan s) = [] → first_ppid (sup s) = (-1)%Z →
  c_getppid (chan s) = replicate (S n) p ++ q :: rest → S n < fuel →
  ∃ s', check_thread_routine fuel s = (Abort, s') ∧
    c_trace (chan s') = c_trace (chan s) ++ replicate (S n) (ev_sleep 100000) ++
      [ev_sleep 1000000; ev_unlink (socket_file_name (sup s))].
Proof.
  intros Hp1 Hpq Hk Ha Hf Hg Hn. destruct fuel as [|fuel]; [lia|]. simpl. run_simpl.
  rewrite Hk. simpl in Hg. rewrite (check_round_run _ _ _ _ Ha Hg (or_intror Hf)).
  unfold usleep, log, upd_chan. run_simpl.
  match goal with |- context [check_thread_routine fuel ?s1] =>
    destruct (check_thread_run n fuel p q rest s1) as (s' & Hr & Ht); [done..|lia|] end.
  exists s'. split; [done|]. rewrite Ht. simpl. by rewrite <-app_assoc.
Qed.
End properties.

(** ** Witnesses *)
Section witnesses.
#[local] Existing Instance plain_codec.

Definition sample_wire : wire := plain_reply (response_plain MT_DONE 3).

Lemma socket_send_spec_witness :
  let s := machine_init (channel_init [send_false; send_threw; send_true; send_false] []) in
  ∃ s', socket_send sample_wire s = (Ret tt, s') ∧
    c_sends (chan s') = [send_false] ∧ io s s' [sample_wire] [].
Proof.
  intros s. pose proof (socket_send_spec sample_wire s eq_refl) as Hs.
  destruct (socket_send sample_wire s) as [o s'] eqn:Hr. vm_compute in Hr.
  injection Hr as <- <-. eexists. split; [reflexivity|]. split; [reflexivity|].
  apply Hs.
Defined.

Lemma socket_recv_spec_witness :
  let s := machine_init (channel_init [] [recv_false; recv_true sample_wire]) in
  ∃ s', socket_recv false s = (Ret (Some sample_wire), s') ∧ c_recvs (chan s') = [].
Proof.
  intros s. pose proof (socket_recv_spec false s eq_refl) as Hs.
  destruct (socket_recv false s) as [o s'] eqn:Hr. vm_compute in Hr.
  injection Hr as <- <-. eexists. split; [reflexivity|]. reflexivity.
Defined.

Lemma check_thread_orphan_spec_witness :
  let c := (channel_init [] []) <| c_getppid := [42; 42; 1]%Z |> in
  ∃ s', check_thread_routine 5 (machine_init c) = (Abort, s') ∧
    c_trace (chan s') = [ev_sleep 100000; ev_sleep 100000; ev_sleep 1000000; ev_unlink ""].
Proof.
  intros c.
  destruct (check_thread_orphan_spec 1 5 42 1 [] (machine_init c)) as (s' & Hr & Ht);
    try reflexivity; try discriminate; [lia|].
  exists s'. by split.
Defined.
End witnesses.
