(* ===== verification/SocketHighLevel.v ===== *)
(** * The protocol of a session ([impl/global.cc], [impl/socket_high_level.cc])

    Every routine builds one request (two for [send_init]), hands it to
    [socket_send], waits for the reply and interprets it. The static request and
    response objects are cleared before each use, so they are local here. The
    memory-limit calls are compiled without [SWIGVM_LOG_CLIENT], as in this file
    of the source: a failure throws. *)
From S2P Require Import Prelude SwigCommon Protocol Dto Machine SocketLowLevel.

Open Scope string_scope.
Open Scope list_scope.
Open Scope nat_scope.

Section global.
Context `{Codec}.

(** ** [struct Global] *)

(** [writeScriptParams]: the static strings hold what the server sent, with the
    current user in place of a missing scope user. *)
Definition writeScriptParams (rep : exascript_info) : run_of unit :=
  let scope := if str_empty (if_scope_user rep) then if_current_user rep
               else if_scope_user rep in
  upd_glob (λ g, g <| g_script := mkInfo (if_database_name rep)
    (if_database_version rep) (if_script_name rep) (if_source_code rep)
    (if_session_id rep) (if_statement_id rep) (if_node_count rep) (if_node_id rep)
    (if_vm_id rep) (if_maximal_memory_limit rep) (if_script_schema rep)
    (if_current_user rep) (if_current_schema rep) scope |>).

Definition initSwigParams : run_of unit :=
  g ← gets (λ s, g_script (glob s));
  mode ← gets (λ s, singleCallMode (glob s));
  upd_params (λ p, p <| dbname := Some (c_str (if_database_name g)) |>
    <| dbversion := Some (c_str (if_database_version g)) |>
    <| script_name := Some (c_str (if_script_name g)) |>
    <| script_schema := Some (c_str (if_script_schema g)) |>
    <| current_user := Some (c_str (if_current_user g)) |>
    <| current_schema := Some (c_str (if_current_schema g)) |>
    <| scope_user := Some (c_str (if_scope_user g)) |>
    <| script_code := Some (c_str (if_source_code g)) |>
    <| session_id := if_session_id g |>
    <| statement_id := if_statement_id g |>
    <| node_count := if_node_count g |>
    <| node_id := if_node_id g |>
    <| vm_id := if_vm_id g |>
    <| params_singleCallMode := mode |>).
End global.

Section requests.
Context `{Codec}.

(** ** Building, sending and receiving

    The lines every routine starts with: fill in the request with the connection
    id of the parameter block, serialize it, send it. [None] stands for a
    message that cannot be serialized. *)
Definition make_request (t : message_type) (body : request_body) : run_of (option wire) :=
  id ← get_params connection_id;
  mret (serialize (mkRequest t id body)).

Definition request_or_throw (t : message_type) (body : request_body) (error : string) :
  run_of unit :=
  w ← make_request t body;
  match w with
  | None => throw (SwigException error)
  | Some w => socket_send w
  end.

(** [socket_recv(socket, zmsg)] and [response.ParseFromArray] *)
Definition receive_response : run_of (option exascript_response) :=
  w ← socket_recv false;
  mret (parse (default wire_empty w)).

Definition response_or_throw (error : string) : run_of exascript_response :=
  r ← receive_response;
  match r with
  | None => throw (SwigException error)
  | Some r => mret r
  end.

(** The reason a close message gives, or the caller's *)
Definition close_reason (r : exascript_response) (empty_close : string) : string :=
  match rp_close r with Some m => c_str m | None => empty_close end.

(** ** [setrlimit] *)
Definition RLIMIT_CORE : Z := 4.
Definition RLIMIT_RSS : Z := 5.
Definition RLIMIT_NPROC : Z := 6.
Definition RLIMIT_NOFILE : Z := 7.

Definition setrlimit (resource limit : Z) : run_of bool :=
  log (ev_setrlimit resource limit);;
  answers ← gets (λ s, c_setrlimit (chan s));
  match answers with
  | [] => mret true
  | b :: rest => upd_chan (λ c, c <| c_setrlimit := rest |>);; mret b
  end.

(** The resource limits [send_init] sets after the info message. The limit for
    open files goes through [int]: an unlimited hard limit becomes -1. *)
Definition limit_resources (maximal_memory_limit : Z) : run_of unit :=
  ok ← setrlimit RLIMIT_RSS maximal_memory_limit;
  when (negb ok) (throw (SwigException
    "F-UDF-CL-LIB-1007: Failed to set memory limit"));;
  ok ← setrlimit RLIMIT_CORE 0;
  when (negb ok) (throw (SwigException
    "F-UDF-CL-LIB-1009: Failed to set core dump size limit"));;
  rlim_max ← gets (λ s, c_nofile_max (chan s));
  ok ← setrlimit RLIMIT_NOFILE (u64 (Z.min 32768 (s32 rlim_max)));
  when (negb ok) (throw (SwigException
    "F-UDF-CL-LIB-1012: Failed to set nofile limit"));;
  ok ← setrlimit RLIMIT_NPROC 32768;
  when (negb ok)
    (ok ← setrlimit RLIMIT_NPROC 8192;
     when (negb ok) (throw (SwigException
       "F-UDF-CL-LIB-1015: Failed to set nproc limit"))).

(** ** The columns of the metadata message *)
Definition column_type_of (coldef : column_definition) : option SWIGVM_columntype_t :=
  let name := cd_type_name coldef in
  match cd_type coldef with
  | PB_UNSUPPORTED => None
  | PB_DOUBLE => Some (mkColumntype DOUBLE name 0 0 0)
  | PB_INT32 => Some (mkColumntype INT32 name 0 (cd_precision coldef) (cd_scale coldef))
  | PB_INT64 => Some (mkColumntype INT64 name 0 (cd_precision coldef) (cd_scale coldef))
  | PB_NUMERIC =>
      Some (mkColumntype NUMERIC name 0 (cd_precision coldef) (cd_scale coldef))
  | PB_TIMESTAMP => Some (mkColumntype TIMESTAMP name 0 0 0)
  | PB_DATE => Some (mkColumntype DATE name 0 0 0)
  | PB_STRING => Some (mkColumntype STRING name (cd_size coldef) 0 0)
  | PB_BOOLEAN => Some (mkColumntype BOOLEAN name 0 0 0)
  end.

Definition push_input (name : string) (t : SWIGVM_columntype_t) : run_of unit :=
  upd_params (λ p, p <| inp_names := (inp_names p ++ [name]) |>
                     <| inp_types := (inp_types p ++ [t]) |>).
Definition push_output (name : string) (t : SWIGVM_columntype_t) : run_of unit :=
  upd_params (λ p, p <| out_names := (out_names p ++ [name]) |>
                     <| out_types := (out_types p ++ [t]) |>).

(** One of the two loops over column definitions; the entry of an unsupported
    column has been pushed when the loop gives up. *)
Fixpoint read_columns (push : string → SWIGVM_columntype_t → run_of unit)
  (unsupported : string) (cols : list column_definition) : run_of bool :=
  match cols with
  | [] => mret true
  | coldef :: cols =>
      match column_type_of coldef with
      | None =>
          push (cd_name coldef) (mkColumntype UNSUPPORTED (cd_type_name coldef) 0 0 0);;
          set_exception unsupported;;
          mret false
      | Some t => push (cd_name coldef) t;; read_columns push unsupported cols
      end
  end.

Definition read_metadata (rep : exascript_metadata) : run_of bool :=
  upd_glob (λ g, g <| singleCallMode := md_single_call_mode rep |>);;
  upd_params (λ p, p <| inp_iter_type := md_input_iter_type rep |>
                     <| out_iter_type := md_output_iter_type rep |>);;
  ok ← read_columns push_input
         "F-UDF-CL-LIB-1020: Unsupported input column type found" (md_input_columns rep);
  if negb ok then mret false
  else read_columns push_output
         "F-UDF-CL-LIB-1022: Unsupported output column type found" (md_output_columns rep).

(** ** [send_init] *)

(** The metadata exchange of [send_init] *)
Definition request_metadata : run_of bool :=
  w ← make_request MT_META body_none;
  match w with
  | None =>
      set_exception "F-UDF-CL-LIB-1016: Communication error: failed to serialize data";;
      mret false
  | Some w =>
      socket_send w;;
      r ← receive_response;
      match r with
      | None =>
          set_exception "F-UDF-CL-LIB-1017: Communication error: failed to parse data";;
          mret false
      | Some r =>
          match rp_type r with
          | MT_CLOSE =>
              set_exception
                (close_reason r "F-UDF-CL-LIB-1018: Connection closed by server");;
              mret false
          | MT_META => read_metadata (rp_meta r)
          | t =>
              set_exception
                ("F-UDF-CL-LIB-1019: Wrong message type, should be META, got "
                 +:+ message_name t);;
              mret false
          end
      end
  end.

Definition send_init (client_name : string) : run_of bool :=
  match serialize (mkRequest MT_CLIENT 0 (body_client client_name)) with
  | None =>
      set_exception "F-UDF-CL-LIB-1002: Communication error: failed to serialize data";;
      mret false
  | Some w =>
      socket_send w;;
      answer ← socket_recv true;
      match answer with
      | None => mret false
      | Some w =>
          match parse w with
          | None => set_exception "F-UDF-CL-LIB-1003: Failed to parse data";; mret false
          | Some r =>
              upd_params (λ p, p <| connection_id := rp_connection_id r |>);;
              match rp_type r with
              | MT_CLOSE =>
                  set_exception
                    (close_reason r "F-UDF-CL-LIB-1004: Connection closed by server");;
                  mret false
              | MT_INFO =>
                  writeScriptParams (rp_info r);;
                  upd_params (λ p, p <| maximal_memory_limit :=
                                          if_maximal_memory_limit (rp_info r) |>);;
                  limit_resources (if_maximal_memory_limit (rp_info r));;
                  request_metadata
              | t =>
                  set_exception
                    ("F-UDF-CL-LIB-1005: Wrong message type, should be MT_INFO got "
                     +:+ message_name t);;
                  mret false
              end
          end
      end
  end.

(** ** [send_close]: a failure to serialize goes unnoticed *)
Definition send_close (exmsg : string) : run_of unit :=
  w ← make_request MT_CLOSE
        (body_close (if str_empty exmsg then None else Some exmsg));
  socket_send (default wire_empty w);;
  r ← response_or_throw "F-UDF-CL-LIB-1024: Communication error: failed to parse data";
  match rp_type r with
  | MT_FINISHED => mret tt
  | t => throw (SwigException
      ("F-UDF-CL-LIB-1025: Wrong response type, should be MT_FINISHED, got "
       +:+ message_name t))
  end.

(** ** Single calls: the arguments of the next call *)
Definition dto_outcome {A} (o : outcome string A) : outcome exn A :=
  match o with
  | Ret a => Ret a
  | Throw e => Throw (StdException e)
  | Abort => Abort
  | Blocked => Blocked
  | Undef => Undef
  end.

Definition on_import (m : ImportSpecification.method unit) : run_of unit := λ s,
  let r := m (singleCall_ImportSpecificationArg (glob s)) in
  (dto_outcome r.1, s <| glob := (glob s) <| singleCall_ImportSpecificationArg := r.2 |> |>).

Definition on_export (m : ExportSpecification.method unit) : run_of unit := λ s,
  let r := m (singleCall_ExportSpecificationArg (glob s)) in
  (dto_outcome r.1, s <| glob := (glob s) <| singleCall_ExportSpecificationArg := r.2 |> |>).

Definition connection_of (ci : connection_information_rep) : ConnectionInformation :=
  mkConnectionInformation (cr_kind ci) (cr_address ci) (cr_user ci) (cr_password ci).

Definition import_spec_calls (rep : import_specification_rep) :
  ImportSpecification.method unit :=
  match is_connection_information rep with
  | Some ci => ImportSpecification.setConnectionInformation (connection_of ci)
  | None => mret tt
  end;;
  match is_connection_name rep with
  | Some n => ImportSpecification.setConnectionName n
  | None => mret tt
  end;;
  mapM_ (λ cdef, ImportSpecification.appendSubselectColumnName (cd_name cdef);;
                 ImportSpecification.appendSubselectColumnType (cd_type_name cdef))
    (is_subselect_column_specification rep);;
  mapM_ (λ kvp, ImportSpecification.addParameter kvp.1 kvp.2) (is_parameters rep).

Definition export_spec_calls (rep : export_specification_rep) :
  ExportSpecification.method unit :=
  match es_connection_information rep with
  | Some ci => ExportSpecification.setConnectionInformation (connection_of ci)
  | None => mret tt
  end;;
  match es_connection_name rep with
  | Some n => ExportSpecification.setConnectionName n
  | None => mret tt
  end;;
  mapM_ (λ kvp, ExportSpecification.addParameter kvp.1 kvp.2) (es_parameters rep);;
  ExportSpecification.setTruncate (es_has_truncate rep);;
  ExportSpecification.setReplace (es_has_replace rep);;
  match es_created_by rep with
  | Some n => ExportSpecification.setCreatedBy n
  | None => mret tt
  end;;
  mapM_ ExportSpecification.addSourceColumnName (es_source_column_names rep).

(** The [switch] of [send_run] on the function of an [MT_CALL] reply *)
Definition accept_call (sc : exascript_single_call_rep) : run_of unit :=
  upd_glob (λ g, g <| singleCallFunction := sc_fn sc |>);;
  match sc_fn sc with
  | SC_FN_NIL | SC_FN_DEFAULT_OUTPUT_COLUMNS => mret tt
  | SC_FN_GENERATE_SQL_FOR_IMPORT_SPEC =>
      match sc_import_specification sc with
      | None => throw (SwigException "F-UDF-CL-LIB-1029: internal error SC_FN_GENERATE_SQL_FOR_IMPORT_SPEC without import specification")
      | Some rep =>
          upd_glob (λ g, g <| singleCall_ImportSpecificationArg :=
                                ImportSpecification.make (is_is_subselect rep) |>);;
          on_import (import_spec_calls rep)
      end
  | SC_FN_GENERATE_SQL_FOR_EXPORT_SPEC =>
      match sc_export_specification sc with
      | None => throw (SwigException "F-UDF-CL-LIB-1030: internal error SC_FN_GENERATE_SQL_FOR_EXPORT_SPEC without export specification")
      | Some rep =>
          upd_glob (λ g, g <| singleCall_ExportSpecificationArg :=
                                ExportSpecification.default |>);;
          on_export (export_spec_calls rep)
      end
  | SC_FN_VIRTUAL_SCHEMA_ADAPTER_CALL =>
      match sc_json_arg sc with
      | None => throw (SwigException "F-UDF-CL-LIB-1031: internal error SC_FN_VIRTUAL_SCHEMA_ADAPTER_CALL without json arg")
      | Some json =>
          upd_glob (λ g, g <| singleCall_StringArg := mkStringDTO json |>)
      end
  end.

(** ** The exchanges of a session *)

(** What a routine makes of a reply that must have the type [expected]: whether to
    go on ([MT_CLEANUP] says no), or the exception. *)
Definition accept_reply (expected : message_type) (empty_close wrong : string)
  (r : exascript_response) : run_of bool :=
  match rp_type r with
  | MT_CLOSE => throw (SwigException (close_reason r empty_close))
  | MT_CLEANUP => mret false
  | t => if decide (t = expected) then mret true
         else throw (SwigException (wrong +:+ message_name t))
  end.

Definition send_run : run_of bool :=
  request_or_throw MT_RUN body_none
    "F-UDF-CL-LIB-1026: Communication error: failed to serialize data";;
  r ← response_or_throw "F-UDF-CL-LIB-1027: Communication error: failed to parse data";
  mode ← gets (λ s, singleCallMode (glob s));
  if mode && bool_decide (rp_type r = MT_CALL)
  then accept_call (rp_call r);; mret true
  else accept_reply MT_RUN "F-UDF-CL-LIB-1028: Wrong response type, got empty MT_CLOSE"
         "F-UDF-CL-LIB-1032: Wrong response type, should be MT_RUN, got " r.

(** The result of a single call, a null pointer included *)
Definition send_return (result : option string) : run_of bool :=
  match result with
  | None => abort
  | Some result =>
      request_or_throw MT_RETURN (body_call_result (c_str result))
        "F-UDF-CL-LIB-1033: Communication error: failed to serialize data";;
      r ← response_or_throw "F-UDF-CL-LIB-1034: Communication error: failed to parse data";
      accept_reply MT_RETURN
        "F-UDF-CL-LIB-1035: Wrong response type, got empty close response"
        "F-UDF-CL-LIB-1036: Wrong response type, should be MT_RETURN, got " r
  end.

Definition send_undefined_call (fn : string) : run_of unit :=
  request_or_throw MT_UNDEFINED_CALL (body_undefined_call fn)
    "F-UDF-CL-LIB-1037: Communication error: failed to serialize data";;
  r ← response_or_throw "F-UDF-CL-LIB-1038: Communication error: failed to parse data";
  match rp_type r with
  | MT_UNDEFINED_CALL => mret tt
  | t => throw (SwigException
      ("F-UDF-CL-LIB-1039: Wrong response type, should be MT_UNDEFINED_CALL, got "
       +:+ message_name t))
  end.

Definition send_done : run_of bool :=
  request_or_throw MT_DONE body_none
    "F-UDF-CL-LIB-1040: Communication error: failed to serialize data";;
  r ← response_or_throw "F-UDF-CL-LIB-1041: Communication error: failed to parse data";
  accept_reply MT_DONE
    "F-UDF-CL-LIB-1042: Wrong response type, got empty close response"
    "F-UDF-CL-LIB-1043: Wrong response type, should be MT_DONE, got " r.

Definition send_finished : run_of unit :=
  request_or_throw MT_FINISHED body_none
    "F-UDF-CL-LIB-1044: Communication error: failed to serialize data";;
  r ← response_or_throw "F-UDF-CL-LIB-1045: Communication error: failed to parse data";
  match rp_type r with
  | MT_CLOSE => throw (SwigException (close_reason r
      "F-UDF-CL-LIB-1046: Wrong response type, got empty MT_CLOSE"))
  | MT_FINISHED => mret tt
  | t => throw (SwigException
      ("F-UDF-CL-LIB-1047: Wrong response type, should be MT_FINISHED, got"
       +:+ message_name t))
  end.
End requests.

(** ** The arguments of a single call *)
Section single_call.
Context `{Codec}.

Definition import_information (rep : import_specification_rep) : ConnectionInformation :=
  match is_connection_information rep with
  | Some ci => connection_of ci
  | None => ConnectionInformation.default
  end.

(** The import specifications the client accepts from the server: no column
    outside a subselect, not both a connection name and connection information
    (told by its kind), no repeated parameter *)
Definition import_rep_ok (rep : import_specification_rep) : bool :=
  (is_is_subselect rep || bool_decide (is_subselect_column_specification rep = [])) &&
  (bool_decide (is_connection_name rep = None)
   || str_empty (ci_kind (import_information rep))) &&
  bool_decide (first_repeated ∅ (is_parameters rep) = None).

(** The object it builds from one *)
Definition import_of_rep (rep : import_specification_rep) : ImportSpecification :=
  mkImportSpecification false (Some (is_is_subselect rep))
    (cd_name <$> is_subselect_column_specification rep)
    (cd_type_name <$> is_subselect_column_specification rep)
    (default "" (is_connection_name rep)) (import_information rep)
    (insert_all (is_parameters rep) ∅).

Lemma append_subselect_run cols o :
  i_isSubselect o = Some true →
  mapM_ (λ cdef, ImportSpecification.appendSubselectColumnName (cd_name cdef);;
                 ImportSpecification.appendSubselectColumnType (cd_type_name cdef)) cols o =
  (Ret tt, o <| i_subselect_column_names :=
                  (i_subselect_column_names o ++ (cd_name <$> cols)) |>
             <| i_subselect_column_types :=
                  (i_subselect_column_types o ++ (cd_type_name <$> cols)) |>).
Proof.
  revert o. induction cols as [|c cols IH]; intros [e sb ns ts nm ci ps] Hs; simpl in *; subst.
  { by rewrite !app_nil_r. }
  rewrite !bind_run. simpl. rewrite IH by done. simpl. by rewrite <-!app_assoc.
Qed.

(** The connection part of a specification object that has none yet *)
Definition import_connection (rep : import_specification_rep) : ImportSpecification :=
  (ImportSpecification.make (is_is_subselect rep))
    <| i_connection_information := import_information rep |>
    <| i_connection_name := default "" (is_connection_name rep) |>.

Lemma import_connection_run {A} rep (k : unit → M ImportSpecification string A) :
  (match is_connection_information rep with
   | Some ci => ImportSpecification.setConnectionInformation (connection_of ci)
   | None => mret tt
   end;;
   x ← match is_connection_name rep with
       | Some n => ImportSpecification.setConnectionName n
       | None => mret tt
       end; k x) (ImportSpecification.make (is_is_subselect rep)) =
  if bool_decide (is_connection_name rep = None)
     || str_empty (ci_kind (import_information rep))
  then k tt (import_connection rep)
  else (Throw "import specification error: cannot set connection name, because there is already connection information set",
        (ImportSpecification.make (is_is_subselect rep))
          <| i_connection_information := import_information rep |>).
Proof.
  destruct rep as [sub ci nm cols ps]. unfold import_information, import_connection. simpl.
  rewrite bind_run. destruct ci as [ci|]; simpl; rewrite bind_run; destruct nm; simpl;
    try done.
  unfold ImportSpecification.setConnectionName. run_simpl.
  unfold ImportSpecification.hasConnectionInformation, ConnectionInformation.hasData.
  simpl. by destruct (str_empty (cr_kind ci)).
Qed.

Lemma append_columns_refused cols o :
  i_isSubselect o = Some false →
  (mapM_ (λ cdef, ImportSpecification.appendSubselectColumnName (cd_name cdef);;
                  ImportSpecification.appendSubselectColumnType (cd_type_name cdef)) cols o).1
  = match cols with
    | [] => Ret tt
    | _ => Throw "import specification error: cannot add column name to non-subselect import specification"
    end.
Proof. destruct o, cols; simpl; by intros ->. Qed.

Lemma import_spec_calls_run rep :
  if import_rep_ok rep then
    import_spec_calls rep (ImportSpecification.make (is_is_subselect rep))
    = (Ret tt, import_of_rep rep)
  else ∃ e, (import_spec_calls rep (ImportSpecification.make (is_is_subselect rep))).1
            = Throw e.
Proof.
  unfold import_rep_ok, import_spec_calls. rewrite import_connection_run.
  destruct (_ || str_empty _); rewrite ?andb_false_r; simpl; [|by eexists].
  destruct (is_is_subselect rep) eqn:Hsub; simpl.
  - rewrite (run_bind _ _ _ _ _ (append_subselect_run _ (import_connection rep) (f_equal Some Hsub))). simpl.
    match goal with |- context [mapM_ _ _ ?o] =>
      pose proof (import_add_parameters_run (is_parameters rep) o) as Hp end.
    simpl in Hp. rewrite dom_empty_L in Hp.
    destruct (first_repeated _ _) as [k|]; simpl; [eexists; exact Hp|].
    by rewrite Hp.
  - pose proof (append_columns_refused (is_subselect_column_specification rep)
      (import_connection rep) (f_equal Some Hsub)) as Hc.
    destruct (is_subselect_column_specification rep) as [|c cols] eqn:Hcols; simpl.
    + rewrite run_bind_ret.
      pose proof (import_add_parameters_run (is_parameters rep) (import_connection rep)) as Hp.
      simpl in Hp. rewrite dom_empty_L in Hp.
      destruct (first_repeated _ _) as [k|]; simpl; [eexists; exact Hp|].
      rewrite Hp. unfold import_of_rep. by rewrite Hcols.
    + exists "import specification error: cannot add column name to non-subselect import specification".
      rewrite bind_run. unfold bind_outcome. simpl in Hc.
      match goal with |- context [match (?m ?s).1 with _ => _ end] =>
        destruct (m s) as [o s'] end. simpl in *. by subst.
Qed.

(** The same for an export *)
Definition export_information (rep : export_specification_rep) : ConnectionInformation :=
  match es_connection_information rep with
  | Some ci => connection_of ci
  | None => ConnectionInformation.default
  end.

Definition export_rep_ok (rep : export_specification_rep) : bool :=
  (bool_decide (es_connection_name rep = None)
   || str_empty (ci_kind (export_information rep))) &&
  bool_decide (first_repeated ∅ (es_parameters rep) = None).

Definition export_of_rep (rep : export_specification_rep) : ExportSpecification :=
  mkExportSpecification false (default "" (es_connection_name rep))
    (export_information rep) (insert_all (es_parameters rep) ∅) (es_has_truncate rep)
    (es_has_replace rep) (default "" (es_created_by rep)) (es_source_column_names rep).

Definition export_connection (rep : export_specification_rep) : ExportSpecification :=
  ExportSpecification.default
    <| e_isEmptySpec := bool_decide (es_connection_information rep = None) &&
                        bool_decide (es_connection_name rep = None) |>
    <| e_connection_information := export_information rep |>
    <| e_connection_name := default "" (es_connection_name rep) |>.

Lemma export_connection_run {A} rep (k : unit → M ExportSpecification string A) :
  (match es_connection_information rep with
   | Some ci => ExportSpecification.setConnectionInformation (connection_of ci)
   | None => mret tt
   end;;
   x ← match es_connection_name rep with
       | Some n => ExportSpecification.setConnectionName n
       | None => mret tt
       end; k x) ExportSpecification.default =
  if bool_decide (es_connection_name rep = None)
     || str_empty (ci_kind (export_information rep))
  then k tt (export_connection rep)
  else (Throw "export specification error: cannot set connection name, because there is already connection information set",
        ExportSpecification.default
          <| e_isEmptySpec := false |>
          <| e_connection_information := export_information rep |>).
Proof.
  destruct rep as [tr re cb cols ci nm ps].
  unfold export_information, export_connection. simpl.
  rewrite bind_run. destruct ci as [ci|]; simpl; rewrite bind_run; destruct nm; simpl;
    try done.
  unfold ExportSpecification.setConnectionName. run_simpl.
  unfold ExportSpecification.hasConnectionInformation, ConnectionInformation.hasData.
  simpl. by destruct (str_empty (cr_kind ci)).
Qed.

Lemma add_source_columns_run cols o :
  e_isEmptySpec o = false →
  mapM_ ExportSpecification.addSourceColumnName cols o =
  (Ret tt, o <| e_source_column_names := e_source_column_names o ++ cols |>).
Proof.
  revert o. induction cols as [|c cols IH]; intros [e n ci ps t r cb cs] He; simpl in *; subst.
  { by rewrite app_nil_r. }
  rewrite bind_run. simpl. rewrite IH by done. simpl. by rewrite <-app_assoc.
Qed.

Lemma export_spec_calls_run rep :
  if export_rep_ok rep then
    export_spec_calls rep ExportSpecification.default = (Ret tt, export_of_rep rep)
  else ∃ e, (export_spec_calls rep ExportSpecification.default).1 = Throw e.
Proof.
  unfold export_rep_ok, export_spec_calls. rewrite export_connection_run.
  destruct (_ || str_empty _); simpl; [|by eexists].
  pose proof (export_add_parameters_run (es_parameters rep) (export_connection rep)) as Hp.
  simpl in Hp. rewrite dom_empty_L in Hp. rewrite bind_run.
  destruct (first_repeated _ _) as [k|]; simpl.
  { match goal with |- context [bind_outcome _ (?m ?s)] =>
      destruct (m s) as [o s'] end. simpl in *. subst. by eexists. }
  rewrite Hp. simpl. unfold ExportSpecification.setTruncate, ExportSpecification.setReplace.
  run_simpl. destruct rep as [tr re cb cols ci nm ps]. simpl. rewrite bind_run.
  destruct cb; simpl; by rewrite add_source_columns_run.
Qed.
End single_call.

(** ** One exchange *)
Section exchange.
Context `{Codec}.

(** The request goes out, the reply that is offered comes in, and its parse
    decides. *)
Lemma exchange_run {A} t body e1 e2 (k : exascript_response → run_of A) s w v sends recvs :
  mutex_free s → supervised s → delivers (c_sends (chan s)) sends →
  offers (c_recvs (chan s)) v recvs →
  serialize (mkRequest t (connection_id (params (glob s))) body) = Some w →
  ∃ s', (request_or_throw t body e1;; r ← response_or_throw e2; k r) s =
    match parse v with
    | Some r => k r s'
    | None => (Throw (SwigException e2), s')
    end ∧
    io s s' [w] [v] ∧ mutex_free s' ∧ c_sends (chan s') = sends ∧
    c_recvs (chan s') = recvs.
Proof.
  intros Hm Hsup Hd Ho Hw.
  destruct (socket_send_good w s sends Hm Hsup Hd) as (s1 & Hr1 & Hio1 & Hm1 & Hs1 & Hv1).
  destruct (socket_recv_good false v s1 recvs Hm1) as (s2 & Hr2 & Hio2 & Hm2 & Hs2 & Hv2);
    [by eapply supervised_io|by rewrite Hv1|by left|].
  assert (request_or_throw t body e1 s = (Ret tt, s1)) as Hr.
  { unfold request_or_throw, make_request, get_params. run_simpl. by rewrite Hw. }
  rewrite (run_bind _ _ _ _ _ Hr). unfold response_or_throw, receive_response. run_simpl.
  rewrite (run_bind _ _ _ _ _ Hr2). run_simpl.
  exists s2. split; [by destruct (parse v)|]. split_and!; try done; [|congruence].
  by apply (io_trans s s1 s2 [w] [] [] [v]).
Qed.

(** When the request cannot be serialized nothing happens but the exception. *)
Lemma exchange_unserializable {A} t body e1 (k : unit → run_of A) s :
  serialize (mkRequest t (connection_id (params (glob s))) body) = None →
  (request_or_throw t body e1 ≫= k) s = (Throw (SwigException e1), s).
Proof.
  intros Hw. unfold request_or_throw, make_request, get_params. run_simpl. by rewrite Hw.
Qed.
End exchange.

(** ** The handshake *)
Section handshake.
Context `{Codec}.

Definition limit_events (limit nofile_max : Z) : list event :=
  [ev_setrlimit RLIMIT_RSS limit; ev_setrlimit RLIMIT_CORE 0;
   ev_setrlimit RLIMIT_NOFILE (u64 (Z.min 32768 (s32 nofile_max)));
   ev_setrlimit RLIMIT_NPROC 32768].

Lemma setrlimit_run r l s :
  c_setrlimit (chan s) = [] →
  setrlimit r l s = (Ret true, s <| chan := (chan s) <| c_trace :=
                                     (c_trace (chan s) ++ [ev_setrlimit r l]) |> |>).
Proof. intros Hs. unfold setrlimit, log, upd_chan. run_simpl. by rewrite Hs. Qed.

Lemma limit_resources_run limit s :
  c_setrlimit (chan s) = [] →
  limit_resources limit s =
  (Ret tt, s <| chan := (chan s) <| c_trace :=
     (c_trace (chan s) ++ limit_events limit (c_nofile_max (chan s))) |> |>).
Proof.
  intros Hs. unfold limit_resources.
  rewrite (run_bind _ _ _ _ _ (setrlimit_run _ _ _ Hs)). run_simpl.
  erewrite run_bind by by apply setrlimit_run. run_simpl.
  erewrite run_bind by by apply setrlimit_run. run_simpl.
  erewrite run_bind by by apply setrlimit_run. run_simpl.
  by rewrite <-!app_assoc.
Qed.

Definition add_inputs (ns : list string) (ts : list SWIGVM_columntype_t)
  (s : machine) : machine :=
  s <| glob := (glob s) <| params := (params (glob s))
         <| inp_names := inp_names (params (glob s)) ++ ns |>
         <| inp_types := inp_types (params (glob s)) ++ ts |> |> |>.
Definition add_outputs (ns : list string) (ts : list SWIGVM_columntype_t)
  (s : machine) : machine :=
  s <| glob := (glob s) <| params := (params (glob s))
         <| out_names := out_names (params (glob s)) ++ ns |>
         <| out_types := out_types (params (glob s)) ++ ts |> |> |>.

(** A loop over column definitions appends one name and one type for each, up to
    and including the first unsupported one. *)
Lemma read_columns_run push unsupported cols add s :
  (push = push_input ∧ add = add_inputs ∨ push = push_output ∧ add = add_outputs) →
  match mapM column_type_of cols with
  | Some ts => read_columns push unsupported cols s
               = (Ret true, add (cd_name <$> cols) ts s)
  | None => ∃ n ts, n < length cols ∧ length ts = S n ∧
      read_columns push unsupported cols s =
      (Ret false, (set_exception unsupported (add (cd_name <$> take (S n) cols) ts s)).2)
  end.
Proof.
  intros Hx.
  assert (∀ n t s, push n t s = (Ret tt, add [n] [t] s)) as Hpush
    by by destruct Hx as [[-> ->]|[-> ->]].
  assert (∀ s, add [] [] s = s) as Hnil.
  { intros [c u [[] ? ? ? ? ? ? ?] ? ? ?].
    destruct Hx as [[_ ->]|[_ ->]]; unfold add_inputs, add_outputs; simpl;
      by rewrite !app_nil_r. }
  assert (∀ n1 t1 n2 t2 s, add n2 t2 (add n1 t1 s) = add (n1 ++ n2) (t1 ++ t2) s) as Hadd.
  { intros. destruct Hx as [[_ ->]|[_ ->]]; unfold add_inputs, add_outputs; simpl;
      by rewrite <-!app_assoc. }
  revert s. induction cols as [|c cols IH]; intros s; simpl.
  { by rewrite Hnil. }
  destruct (column_type_of c) as [t|] eqn:Ht; simpl.
  - specialize (IH (add [cd_name c] [t] s)). rewrite (run_bind _ _ _ _ _ (Hpush _ _ _)).
    destruct (mapM column_type_of cols) as [ts|]; simpl.
    + by rewrite IH, Hadd.
    + destruct IH as (n & ts & Hn & Hl & Hr). exists (S n), (t :: ts).
      rewrite Hr, Hadd. simpl. split_and!; [lia|by rewrite Hl|done].
  - eexists 0, [_]. rewrite (run_bind _ _ _ _ _ (Hpush _ _ _)).
    unfold set_exception, upd_glob. run_simpl. split_and!; [lia|done|done].
Qed.

(** The parameter block after the handshake *)
Definition params_after_init (p : SWIGVM_params_t) (info meta : exascript_response)
  (its ots : list SWIGVM_columntype_t) : SWIGVM_params_t :=
  p <| connection_id := rp_connection_id info |>
    <| maximal_memory_limit := if_maximal_memory_limit (rp_info info) |>
    <| inp_iter_type := md_input_iter_type (rp_meta meta) |>
    <| out_iter_type := md_output_iter_type (rp_meta meta) |>
    <| inp_names := inp_names p ++ (cd_name <$> md_input_columns (rp_meta meta)) |>
    <| inp_types := inp_types p ++ its |>
    <| out_names := out_names p ++ (cd_name <$> md_output_columns (rp_meta meta)) |>
    <| out_types := out_types p ++ ots |>.

Lemma read_metadata_run rep s :
  match mapM column_type_of (md_input_columns rep),
        mapM column_type_of (md_output_columns rep) with
  | Some its, Some ots =>
      ∃ s', read_metadata rep s = (Ret true, s') ∧ chan s' = chan s ∧ sup s' = sup s ∧
        singleCallMode (glob s') = md_single_call_mode rep ∧
        g_script (glob s') = g_script (glob s) ∧
        exchandler (glob s') = exchandler (glob s) ∧
        params (glob s') = (params (glob s))
          <| inp_iter_type := md_input_iter_type rep |>
          <| out_iter_type := md_output_iter_type rep |>
          <| inp_names := inp_names (params (glob s)) ++ (cd_name <$> md_input_columns rep) |>
          <| inp_types := inp_types (params (glob s)) ++ its |>
          <| out_names := out_names (params (glob s)) ++ (cd_name <$> md_output_columns rep) |>
          <| out_types := out_types (params (glob s)) ++ ots |>
  | _, _ =>
      ∃ s', read_metadata rep s = (Ret false, s') ∧ chan s' = chan s ∧
        exthrowed (exchandler (glob s')) = true
  end.
Proof.
  unfold read_metadata, upd_glob, upd_params. run_simpl. rewrite bind_run.
  match goal with |- context [bind_outcome _ (read_columns push_input ?u ?c ?s1)] =>
    pose proof (read_columns_run push_input u c add_inputs s1 ltac:(by left)) as Hin end.
  destruct (mapM column_type_of (md_input_columns rep)) as [its|].
  2:{ destruct Hin as (n & ts & _ & _ & Hin). rewrite Hin. simpl. by eexists. }
  rewrite Hin. simpl.
  match goal with |- context [read_columns push_output ?u ?c ?s1] =>
    pose proof (read_columns_run push_output u c add_outputs s1 ltac:(by right)) as Hout end.
  destruct (mapM column_type_of (md_output_columns rep)) as [ots|].
  - rewrite Hout. eexists. by split_and!.
  - destruct Hout as (n & ts & _ & _ & Hout). rewrite Hout. by eexists.
Qed.

Lemma request_metadata_run s w v r sends recvs :
  mutex_free s → supervised s → delivers (c_sends (chan s)) sends →
  offers (c_recvs (chan s)) v recvs →
  serialize (mkRequest MT_META (connection_id (params (glob s))) body_none) = Some w →
  parse v = Some r → rp_type r = MT_META →
  ∃ s', request_metadata s = read_metadata (rp_meta r) s' ∧ io s s' [w] [v] ∧
    mutex_free s' ∧ c_sends (chan s') = sends ∧ c_recvs (chan s') = recvs.
Proof.
  intros Hm Hsup Hd Ho Hw Hr Ht.
  destruct (socket_send_good w s sends Hm Hsup Hd) as (s1 & Hr1 & Hio1 & Hm1 & Hs1 & Hv1).
  destruct (socket_recv_good false v s1 recvs Hm1) as (s2 & Hr2 & Hio2 & Hm2 & Hs2 & Hv2);
    [by eapply supervised_io|by rewrite Hv1|by left|].
  unfold request_metadata, make_request, get_params. run_simpl. rewrite Hw.
  rewrite (run_bind _ _ _ _ _ Hr1). unfold receive_response. run_simpl.
  rewrite (run_bind _ _ _ _ _ Hr2). run_simpl. rewrite Hr, Ht.
  exists s2. split_and!; [done| |done|congruence|done].
  by apply (io_trans s s1 s2 [w] [] [] [v]).
Qed.

(** The state between the info reply and the metadata request *)
Definition after_info (r : exascript_response) (s : machine) : machine :=
  ((upd_params (λ p, p <| maximal_memory_limit := if_maximal_memory_limit (rp_info r) |>);;
    limit_resources (if_maximal_memory_limit (rp_info r)))
   (writeScriptParams (rp_info r)
     (upd_params (λ p, p <| connection_id := rp_connection_id r |>) s).2).2).2.

Lemma after_info_chan r s :
  c_setrlimit (chan s) = [] →
  chan (after_info r s) = (chan s) <| c_trace := c_trace (chan s) ++
    limit_events (if_maximal_memory_limit (rp_info r)) (c_nofile_max (chan s)) |>.
Proof.
  intros Hl. unfold after_info, upd_params, writeScriptParams, upd_glob. run_simpl.
  by rewrite limit_resources_run.
Qed.

Lemma after_info_params r s :
  c_setrlimit (chan s) = [] →
  params (glob (after_info r s)) = (params (glob s))
    <| connection_id := rp_connection_id r |>
    <| maximal_memory_limit := if_maximal_memory_limit (rp_info r) |> ∧
  exchandler (glob (after_info r s)) = exchandler (glob s).
Proof.
  intros Hl. unfold after_info, upd_params, writeScriptParams, upd_glob. run_simpl.
  by rewrite limit_resources_run.
Qed.

Lemma send_init_run s name w1 v1 r1 sends1 recvs1 :
  mutex_free s → supervised s →
  delivers (c_sends (chan s)) sends1 → c_recvs (chan s) = recv_true v1 :: recvs1 →
  serialize (mkRequest MT_CLIENT 0 (body_client name)) = Some w1 →
  parse v1 = Some r1 → rp_type r1 = MT_INFO → c_setrlimit (chan s) = [] →
  ∃ s1, io s s1 [w1] [v1] ∧ mutex_free s1 ∧ c_sends (chan s1) = sends1 ∧
    c_recvs (chan s1) = recvs1 ∧ c_setrlimit (chan s1) = [] ∧
    send_init name s = request_metadata (after_info r1 s1).
Proof.
  intros Hm Hsup Hd Ho Hw Hr Ht Hl.
  destruct (socket_send_good w1 s sends1 Hm Hsup Hd) as (s1 & Hr1 & Hio1 & Hm1 & Hs1 & Hv1).
  destruct (socket_recv_good true v1 s1 recvs1 Hm1) as (s2 & Hr2 & Hio2 & Hm2 & Hs2 & Hv2);
    [by eapply supervised_io|exists []; split; [by intros ? ?%elem_of_nil|by rewrite Hv1]
    |right; congruence|].
  pose proof (io_trans s s1 s2 [w1] [] [] [v1] Hio1 Hio2) as Hio.
  assert (c_setrlimit (chan s2) = []) as Hl2 by by rewrite (io_setrlimit _ _ _ _ Hio).
  exists s2. split_and!; [done|done|congruence|done|done|]. unfold send_init. rewrite Hw, (run_bind _ _ _ _ _ Hr1), (run_bind _ _ _ _ _ Hr2), Hr.
  unfold after_info, upd_params, writeScriptParams, upd_glob. run_simpl. rewrite Ht. run_simpl.
  erewrite run_bind by by apply limit_resources_run. by rewrite limit_resources_run.
Qed.

(** An environment in which the handshake succeeds, and which then serves [vs] *)
Record handshake (name : string) (w1 w2 v1 v2 : wire) (r1 r2 : exascript_response)
  (its ots : list SWIGVM_columntype_t) (vs : list wire) (s : machine) : Prop := {
  hs_mutex : mutex_free s;
  hs_supervised : supervised s;
  hs_limits : c_setrlimit (chan s) = [];
  hs_client : serialize (mkRequest MT_CLIENT 0 (body_client name)) = Some w1;
  hs_info : parse v1 = Some r1;
  hs_info_type : rp_type r1 = MT_INFO;
  hs_meta_request : serialize (mkRequest MT_META (rp_connection_id r1) body_none) = Some w2;
  hs_meta : parse v2 = Some r2;
  hs_meta_type : rp_type r2 = MT_META;
  hs_inputs : mapM column_type_of (md_input_columns (rp_meta r2)) = Some its;
  hs_outputs : mapM column_type_of (md_output_columns (rp_meta r2)) = Some ots;
  hs_answers : ∃ sends1 sends2 recvs1 recvs2,
    delivers (c_sends (chan s)) sends1 ∧ delivers sends1 sends2 ∧
    delivers_many (length vs) sends2 ∧
    c_recvs (chan s) = recv_true v1 :: recvs1 ∧ offers recvs1 v2 recvs2 ∧
    offers_many vs recvs2;
}.

(** The static strings after [writeScriptParams] *)
Definition script_info (rep : exascript_info) : exascript_info :=
  mkInfo (if_database_name rep) (if_database_version rep) (if_script_name rep)
    (if_source_code rep) (if_session_id rep) (if_statement_id rep) (if_node_count rep)
    (if_node_id rep) (if_vm_id rep) (if_maximal_memory_limit rep) (if_script_schema rep)
    (if_current_user rep) (if_current_schema rep)
    (if str_empty (if_scope_user rep) then if_current_user rep else if_scope_user rep).

(** The globals after a successful handshake *)
Record initialised (r1 r2 : exascript_response) (its ots : list SWIGVM_columntype_t)
  (s s' : machine) : Prop := {
  ini_params : params (glob s') = params_after_init (params (glob s)) r1 r2 its ots;
  ini_script : g_script (glob s') = script_info (rp_info r1);
  ini_mode : singleCallMode (glob s') = md_single_call_mode (rp_meta r2);
  ini_exch : exchandler (glob s') = exchandler (glob s);
  ini_sup : sup s' = sup s;
}.

Definition limit_event (e : event) : Prop :=
  match e with ev_setrlimit _ _ => True | _ => False end.

(** What [send_init] leaves in the trace *)
Definition init_trace (tr : list event) : Prop :=
  ∃ tr1 limits tr2, tr = tr1 ++ limits ++ tr2 ∧ Forall transport_event tr1 ∧
    Forall limit_event limits ∧ Forall transport_event tr2.

Lemma after_info_rest r s :
  c_setrlimit (chan s) = [] →
  g_script (glob (after_info r s)) = script_info (rp_info r) ∧
  sup (after_info r s) = sup s.
Proof.
  intros Hl. unfold after_info, upd_params, writeScriptParams, upd_glob. run_simpl.
  by rewrite limit_resources_run.
Qed.

Lemma send_init_success name w1 w2 v1 v2 r1 r2 its ots vs s :
  handshake name w1 w2 v1 v2 r1 r2 its ots vs s →
  ∃ s' tr, send_init name s = (Ret true, s') ∧ initialised r1 r2 its ots s s' ∧
    serves vs s' ∧ c_trace (chan s') = c_trace (chan s) ++ tr ∧ init_trace tr ∧
    sent tr = [w1; w2] ∧ received tr = [v1; v2].
Proof.
  intros [Hm Hsup Hl Hw1 Hp1 Ht1 Hw2 Hp2 Ht2 Hin Hout
    (sends1 & sends2 & recvs1 & recvs2 & Hd1 & Hd2 & Hds & Ho1 & Ho2 & Hos)].
  destruct (send_init_run s name w1 v1 r1 sends1 recvs1 Hm Hsup Hd1 Ho1 Hw1 Hp1 Ht1 Hl)
    as (s1 & Hio1 & Hm1 & Hs1 & Hv1 & Hl1 & ->).
  set (sa := after_info r1 s1).
  pose proof (after_info_chan r1 s1 Hl1) as Hca. fold sa in Hca.
  destruct (after_info_params r1 s1 Hl1) as [Hpa Hea]. fold sa in Hpa, Hea.
  destruct (after_info_rest r1 s1 Hl1) as [Hga Hsa]. fold sa in Hga, Hsa.
  destruct (request_metadata_run sa w2 v2 r2 sends2 recvs2)
    as (s2 & -> & Hio2 & Hm2 & Hs2 & Hv2); try done;
    try (by unfold mutex_free; rewrite Hca; simpl; congruence).
  { unfold supervised. rewrite Hca. simpl. by eapply supervised_io. }
  { by rewrite Hpa. }
  pose proof (read_metadata_run (rp_meta r2) s2) as Hrm. rewrite Hin, Hout in Hrm.
  destruct Hrm as (s' & Hr & Hc & Hsup' & Hmode & Hgs & Hex & Hp).
  destruct (io_events _ _ _ _ Hio1) as (tr1 & Htr1 & Hev1).
  destruct (io_events _ _ _ _ Hio2) as (tr2 & Htr2 & Hev2).
  set (lim := limit_events (if_maximal_memory_limit (rp_info r1)) (c_nofile_max (chan s1))).
  assert (c_trace (chan s') = c_trace (chan s) ++ tr1 ++ lim ++ tr2) as Htr.
  { rewrite Hc, Htr2, Hca. simpl. fold lim. rewrite Htr1, <-!app_assoc. done. }
  pose proof (io_sent _ _ _ _ Hio1) as Hsent1. pose proof (io_sent _ _ _ _ Hio2) as Hsent2.
  pose proof (io_received _ _ _ _ Hio1) as Hrec1.
  pose proof (io_received _ _ _ _ Hio2) as Hrec2.
  rewrite Htr1, sent_app in Hsent1. apply app_inv_head in Hsent1.
  rewrite Htr1, received_app in Hrec1. apply app_inv_head in Hrec1.
  rewrite Htr2, sent_app in Hsent2. apply app_inv_head in Hsent2.
  rewrite Htr2, received_app in Hrec2. apply app_inv_head in Hrec2.
  destruct (io_frame _ _ _ _ Hio1) as [Hf1 Hg1 _ _ _].
  destruct (io_frame _ _ _ _ Hio2) as [Hf2 Hg2 _ _ _].
  exists s', (tr1 ++ lim ++ tr2). split_and!; try done.
  - split; [rewrite Hp, Hg2, Hpa, Hg1; done|congruence|done|congruence|congruence].
  - split.
    + unfold mutex_free. by rewrite Hc.
    + assert (supervised s1) as Hsup1 by by eapply supervised_io.
      assert (supervised sa) as Hsupa by by unfold supervised; rewrite Hca.
      unfold supervised. rewrite Hc. by eapply supervised_io.
    + by rewrite Hc, Hs2.
    + by rewrite Hc, Hv2.
  - exists tr1, lim, tr2. split_and!; try done. by repeat constructor.
  - rewrite !sent_app, Hsent1, Hsent2. done.
  - rewrite !received_app, Hrec1, Hrec2. done.
Qed.
End handshake.

(** ** Properties *)

(** The exchanges that follow the handshake, with the type each requests and the
    type it expects back *)
Inductive exchange : Type :=
  | ex_run
  | ex_return (result : string)
  | ex_undefined_call (fn : string)
  | ex_done
  | ex_finished
  | ex_close (exmsg : string).

Section exchanges.
Context `{Codec}.

Definition exchange_request (x : exchange) : message_type * request_body :=
  match x with
  | ex_run => (MT_RUN, body_none)
  | ex_return result => (MT_RETURN, body_call_result (c_str result))
  | ex_undefined_call fn => (MT_UNDEFINED_CALL, body_undefined_call fn)
  | ex_done => (MT_DONE, body_none)
  | ex_finished => (MT_FINISHED, body_none)
  | ex_close exmsg => (MT_CLOSE, body_close (if str_empty exmsg then None else Some exmsg))
  end.

Definition exchange_expects (x : exchange) : message_type :=
  match x with ex_close _ => MT_FINISHED | x => (exchange_request x).1 end.

(** The exchanges whose caller stops when the server answers [MT_CLEANUP] *)
Definition exchange_stops (x : exchange) : bool :=
  match x with ex_run | ex_return _ | ex_done => true | _ => false end.

(** The exchanges that pass on the message of a close reply *)
Definition exchange_closes (x : exchange) : bool :=
  match x with ex_undefined_call _ | ex_close _ => false | _ => true end.

Definition exchange_run_ (x : exchange) : run_of bool :=
  match x with
  | ex_run => send_run
  | ex_return result => send_return (Some result)
  | ex_undefined_call fn => send_undefined_call fn;; mret true
  | ex_done => send_done
  | ex_finished => send_finished;; mret true
  | ex_close exmsg => send_close exmsg;; mret true
  end.

(** What becomes of a reply *)
Definition verdict (x : exchange) (r : exascript_response) : outcome exn bool :=
  let wrong msg := Throw (SwigException (msg +:+ message_name (rp_type r))) in
  let reply msg :=
    match rp_type r with
    | MT_CLEANUP => if exchange_stops x then Ret false else wrong msg
    | t => if decide (t = exchange_expects x) then Ret true else wrong msg
    end in
  let closing empty msg :=
    match rp_type r with
    | MT_CLOSE => Throw (SwigException (close_reason r empty))
    | _ => reply msg
    end in
  match x with
  | ex_run => closing "F-UDF-CL-LIB-1028: Wrong response type, got empty MT_CLOSE"
                "F-UDF-CL-LIB-1032: Wrong response type, should be MT_RUN, got "
  | ex_return _ => closing "F-UDF-CL-LIB-1035: Wrong response type, got empty close response"
                "F-UDF-CL-LIB-1036: Wrong response type, should be MT_RETURN, got "
  | ex_undefined_call _ =>
      reply "F-UDF-CL-LIB-1039: Wrong response type, should be MT_UNDEFINED_CALL, got "
  | ex_done => closing "F-UDF-CL-LIB-1042: Wrong response type, got empty close response"
                "F-UDF-CL-LIB-1043: Wrong response type, should be MT_DONE, got "
  | ex_finished => closing "F-UDF-CL-LIB-1046: Wrong response type, got empty MT_CLOSE"
                "F-UDF-CL-LIB-1047: Wrong response type, should be MT_FINISHED, got"
  | ex_close _ => reply "F-UDF-CL-LIB-1025: Wrong response type, should be MT_FINISHED, got "
  end.

(** A close message that can be serialized is sent like any other. *)
Lemma send_close_run exmsg w s :
  serialize (mkRequest MT_CLOSE (connection_id (params (glob s)))
    (body_close (if str_empty exmsg then None else Some exmsg))) = Some w →
  send_close exmsg s =
  (request_or_throw MT_CLOSE (body_close (if str_empty exmsg then None else Some exmsg)) "";;
   r ← response_or_throw "F-UDF-CL-LIB-1024: Communication error: failed to parse data";
   match rp_type r with
   | MT_FINISHED => mret tt
   | t => throw (SwigException
       ("F-UDF-CL-LIB-1025: Wrong response type, should be MT_FINISHED, got "
        +:+ message_name t))
   end) s.
Proof.
  intros Hw. unfold send_close, request_or_throw, make_request, get_params. run_simpl.
  by rewrite Hw.
Qed.

Lemma exchange_verdict x w v r sends recvs s :
  mutex_free s → supervised s → delivers (c_sends (chan s)) sends →
  offers (c_recvs (chan s)) v recvs →
  serialize (mkRequest (exchange_request x).1 (connection_id (params (glob s)))
               (exchange_request x).2) = Some w →
  parse v = Some r →
  (x = ex_run → singleCallMode (glob s) = true → rp_type r ≠ MT_CALL) →
  ∃ s', exchange_run_ x s = (verdict x r, s') ∧ io s s' [w] [v] ∧ mutex_free s' ∧
    c_sends (chan s') = sends ∧ c_recvs (chan s') = recvs.
Proof.
  intros Hm Hsup Hd Ho Hw Hp Hcall.
  destruct x; unfold exchange_run_, send_run, send_return, send_undefined_call, send_done,
    send_finished; simpl in *;
    try match goal with
    | |- context [((_ ≫= _) ≫= _) s] => rewrite bind_run
    | |- context [(send_close _ ≫= _) s] => rewrite bind_run, (send_close_run _ _ _ Hw)
    end;
    match goal with
    |- context [(request_or_throw ?t ?b ?e1 ≫= λ _, response_or_throw ?e2 ≫= ?k) s] =>
      destruct (exchange_run t b e1 e2 k s w v sends recvs Hm Hsup Hd Ho Hw)
        as (s' & -> & Hio & Hm' & Hc)
    end; rewrite Hp; exists s'; (split; [|done]); clear -Hcall Hio;
    unfold accept_reply, verdict; simpl.
  - rewrite run_bind_gets, (sbc_glob _ _ (io_frame _ _ _ _ Hio)).
    destruct (singleCallMode (glob s)); [|by destruct (rp_type r)].
    specialize (Hcall eq_refl eq_refl). rewrite bool_decide_false by done. simpl.
    by destruct (rp_type r).
  - by destruct (rp_type r).
  - by destruct (rp_type r).
  - by destruct (rp_type r).
  - by destruct (rp_type r).
  - by destruct (rp_type r).
Qed.

(** The same against a server that answers promptly *)
Lemma exchange_serves x w v r vs s :
  serves (v :: vs) s →
  serialize (mkRequest (exchange_request x).1 (connection_id (params (glob s)))
               (exchange_request x).2) = Some w →
  parse v = Some r →
  (x = ex_run → singleCallMode (glob s) = true → rp_type r ≠ MT_CALL) →
  ∃ s', exchange_run_ x s = (verdict x r, s') ∧ io s s' [w] [v] ∧ serves vs s'.
Proof.
  intros [Hm Hsup (sends & Hd & Hds) (recvs & Ho & Hos)] Hw Hp Hcall.
  destruct (exchange_verdict x w v r sends recvs s) as (s' & Hr & Hio & Hm' & Hs & Hv);
    try done.
  exists s'. split_and!; [done..|].
  split; [done|by eapply supervised_io|by rewrite Hs|by rewrite Hv].
Qed.
End exchanges.

Section properties.
Context `{Codec}.

(** C19. The handshake. With a server that answers the client message with an info
    message and the metadata request with metadata, however many attempts the
    transmissions take, [send_init] sends exactly the client message and the
    metadata request under the connection id the server gave, and fills the
    parameter block with the limits, the iterator types and one entry per column
    in order. It succeeds exactly when every column has a supported type;
    otherwise it returns false with an exception pending. *)
Theorem send_init_handshake (name : string) (w1 w2 v1 v2 : wire)
  (r1 r2 : exascript_response) (sends1 sends2 : list send_outcome)
  (recvs1 recvs2 : list recv_outcome) (s : machine) :
  mutex_free s → supervised s → c_setrlimit (chan s) = [] →
  delivers (c_sends (chan s)) sends1 → delivers sends1 sends2 →
  c_recvs (chan s) = recv_true v1 :: recvs1 → offers recvs1 v2 recvs2 →
  serialize (mkRequest MT_CLIENT 0 (body_client name)) = Some w1 →
  parse v1 = Some r1 → rp_type r1 = MT_INFO →
  serialize (mkRequest MT_META (rp_connection_id r1) body_none) = Some w2 →
  parse v2 = Some r2 → rp_type r2 = MT_META →
  ∃ s', sent (c_trace (chan s')) = sent (c_trace (chan s)) ++ [w1; w2] ∧
    received (c_trace (chan s')) = received (c_trace (chan s)) ++ [v1; v2] ∧
    mutex_free s' ∧
    match mapM column_type_of (md_input_columns (rp_meta r2)),
          mapM column_type_of (md_output_columns (rp_meta r2)) with
    | Some its, Some ots =>
        send_init name s = (Ret true, s') ∧
        params (glob s') = params_after_init (params (glob s)) r1 r2 its ots ∧
        singleCallMode (glob s') = md_single_call_mode (rp_meta r2) ∧
        exchandler (glob s') = exchandler (glob s)
    | _, _ =>
        send_init name s = (Ret false, s') ∧ exthrowed (exchandler (glob s')) = true
    end.
Proof.
  intros Hm Hsup Hl Hd1 Hd2 Ho1 Ho2 Hw1 Hp1 Ht1 Hw2 Hp2 Ht2.
  destruct (send_init_run s name w1 v1 r1 sends1 recvs1 Hm Hsup Hd1 Ho1 Hw1 Hp1 Ht1 Hl)
    as (s1 & Hio1 & Hm1 & Hs1 & Hv1 & Hl1 & ->).
  set (sa := after_info r1 s1).
  pose proof (after_info_chan r1 s1 Hl1) as Hca. fold sa in Hca.
  destruct (after_info_params r1 s1 Hl1) as [Hpa Hea]. fold sa in Hpa, Hea.
  destruct (request_metadata_run sa w2 v2 r2 sends2 recvs2) as (s2 & -> & Hio2 & Hm2 & _);
    try done; try (by unfold mutex_free; rewrite Hca; simpl; congruence).
  { unfold supervised. rewrite Hca. simpl. by eapply supervised_io. }
  { by rewrite Hpa. }
  pose proof (read_metadata_run (rp_meta r2) s2) as Hrm.
  assert (∀ s', chan s' = chan s2 →
    sent (c_trace (chan s')) = sent (c_trace (chan s)) ++ [w1; w2] ∧
    received (c_trace (chan s')) = received (c_trace (chan s)) ++ [v1; v2] ∧
    mutex_free s') as Htr.
  { intros s' Hc. unfold mutex_free. rewrite Hc. split_and!; [| |done].
    - rewrite (io_sent _ _ _ _ Hio2), Hca. simpl.
      rewrite sent_app, (io_sent _ _ _ _ Hio1). simpl. by rewrite app_nil_r, <-app_assoc.
    - rewrite (io_received _ _ _ _ Hio2), Hca. simpl.
      rewrite received_app, (io_received _ _ _ _ Hio1). simpl. by rewrite app_nil_r, <-app_assoc. }
  pose proof (sbc_glob _ _ (io_frame _ _ _ _ Hio1)) as Hg1.
  pose proof (sbc_glob _ _ (io_frame _ _ _ _ Hio2)) as Hg2.
  rewrite Hg2, Hpa, Hea, Hg1 in Hrm.
  destruct (mapM column_type_of (md_input_columns (rp_meta r2))) as [its|];
    [destruct (mapM column_type_of (md_output_columns (rp_meta r2))) as [ots|]|].
  - destruct Hrm as (s' & Hr & Hc & _ & Hmode & _ & Hex & Hp). exists s'.
    destruct (Htr s' Hc) as (? & ? & ?). by split_and!.
  - destruct Hrm as (s' & Hr & Hc & Hex). exists s'.
    destruct (Htr s' Hc) as (? & ? & ?). by split_and!.
  - destruct Hrm as (s' & Hr & Hc & Hex). exists s'.
    destruct (Htr s' Hc) as (? & ? & ?). by split_and!.
Qed.

(** The verdict, with the texts of its messages left open *)
Definition judge (x : exchange) (empty msg : string) (r : exascript_response) : outcome exn bool :=
  if exchange_closes x && bool_decide (rp_type r = MT_CLOSE)
  then Throw (SwigException (close_reason r empty))
  else if exchange_stops x && bool_decide (rp_type r = MT_CLEANUP) then Ret false
  else if bool_decide (rp_type r = exchange_expects x) then Ret true
  else Throw (SwigException (msg +:+ message_name (rp_type r))).

Lemma verdict_judge x r : ∃ empty msg, verdict x r = judge x empty msg r.
Proof.
  unfold verdict, judge.
  destruct x; simpl; (eexists _, _; by destruct (rp_type r)).
Unshelve. all: exact "".
Qed.

Lemma exchange_expects_other x :
  exchange_expects x ≠ MT_CLEANUP ∧ exchange_expects x ≠ MT_CLOSE.
Proof. by destruct x. Qed.

Lemma judge_spec x empty msg r :
  (judge x empty msg r = Ret true ↔ rp_type r = exchange_expects x) ∧
  (judge x empty msg r = Ret false ↔ rp_type r = MT_CLEANUP ∧ exchange_stops x = true) ∧
  (judge x empty msg r ≠ Ret true → judge x empty msg r ≠ Ret false →
   ∃ msg', judge x empty msg r = Throw (SwigException msg') ∧
     (rp_type r = MT_CLOSE → exchange_closes x = true →
      ∀ m, rp_close r = Some m → msg' = c_str m)).
Proof.
  destruct (exchange_expects_other x) as [H1 H2]. unfold judge.
  destruct (exchange_closes x), (exchange_stops x); simpl; repeat case_bool_decide; simpl;
    split_and!; try (split; congruence || naive_solver congruence); intros Ht Hf; try done;
    (eexists; split; [done|]); try congruence.
  all: intros _ _ m Hm; unfold close_reason; by rewrite Hm.
Qed.

(** C23. The replies of the session. Each of the other exchanges sends exactly one
    request and consumes exactly one reply. It tells its caller to go on just for
    a reply of the expected type and to stop just for [MT_CLEANUP], where that is
    allowed; every other reply becomes an exception, which carries the server's
    message when the server closes the connection with one. *)
Theorem session_reply_spec (x : exchange) (w v : wire) (r : exascript_response)
  (sends : list send_outcome) (recvs : list recv_outcome) (s : machine) :
  mutex_free s → supervised s → delivers (c_sends (chan s)) sends →
  offers (c_recvs (chan s)) v recvs →
  serialize (mkRequest (exchange_request x).1 (connection_id (params (glob s)))
               (exchange_request x).2) = Some w →
  parse v = Some r →
  (x = ex_run → singleCallMode (glob s) = true → rp_type r ≠ MT_CALL) →
  ∃ o s', exchange_run_ x s = (o, s') ∧ io s s' [w] [v] ∧ mutex_free s' ∧
    (o = Ret true ↔ rp_type r = exchange_expects x) ∧
    (o = Ret false ↔ rp_type r = MT_CLEANUP ∧ exchange_stops x = true) ∧
    (o ≠ Ret true → o ≠ Ret false → ∃ msg, o = Throw (SwigException msg) ∧
       (rp_type r = MT_CLOSE → exchange_closes x = true →
        ∀ m, rp_close r = Some m → msg = c_str m)).
Proof.
  intros Hm Hsup Hd Ho Hw Hp Hcall.
  destruct (exchange_verdict x w v r sends recvs s) as (s' & Hr & Hio & Hm' & _); try done.
  exists (verdict x r), s'. do 3 (split; [done|]).
  destruct (verdict_judge x r) as (empty & msg & ->). apply judge_spec.
Qed.

(** C24. The argument of a single call. [send_run] accepts a call for an import or an
    export exactly when the message carries the specification and this is
    consistent (no repeated parameter, not both a connection name and a connection
    with a kind, columns only for a subselect); it then holds every field of the
    message and is never empty, so that the assertions before the call hold. A
    specification that is refused becomes an exception, never an undefined read. *)
Theorem single_call_argument_spec (sc : exascript_single_call_rep) (s : machine) :
  let s1 := s <| glob := (glob s) <| singleCallFunction := sc_fn sc |> |> in
  match sc_fn sc with
  | SC_FN_NIL | SC_FN_DEFAULT_OUTPUT_COLUMNS => accept_call sc s = (Ret tt, s1)
  | SC_FN_GENERATE_SQL_FOR_IMPORT_SPEC =>
      match sc_import_specification sc with
      | Some rep =>
          if import_rep_ok rep then
            accept_call sc s = (Ret tt, s1 <| glob := (glob s1)
              <| singleCall_ImportSpecificationArg := import_of_rep rep |> |>) ∧
            ImportSpecification.isEmpty (import_of_rep rep) = false
          else ∃ e, (accept_call sc s).1 = Throw (StdException e)
      | None => ∃ e, accept_call sc s = (Throw (SwigException e), s1)
      end
  | SC_FN_GENERATE_SQL_FOR_EXPORT_SPEC =>
      match sc_export_specification sc with
      | Some rep =>
          if export_rep_ok rep then
            accept_call sc s = (Ret tt, s1 <| glob := (glob s1)
              <| singleCall_ExportSpecificationArg := export_of_rep rep |> |>) ∧
            ExportSpecification.isEmpty (export_of_rep rep) = false
          else ∃ e, (accept_call sc s).1 = Throw (StdException e)
      | None => ∃ e, accept_call sc s = (Throw (SwigException e), s1)
      end
  | SC_FN_VIRTUAL_SCHEMA_ADAPTER_CALL =>
      match sc_json_arg sc with
      | Some json => accept_call sc s = (Ret tt, s1 <| glob := (glob s1)
          <| singleCall_StringArg := mkStringDTO json |> |>)
      | None => ∃ e, accept_call sc s = (Throw (SwigException e), s1)
      end
  end.
Proof.
  intros s1. unfold accept_call, upd_glob. run_simpl.
  destruct (sc_fn sc); try done.
  - destruct (sc_json_arg sc); [done|by eexists].
  - destruct (sc_import_specification sc) as [rep|]; [|by eexists]. run_simpl.
    unfold on_import. simpl. pose proof (import_spec_calls_run rep) as Hi.
    destruct (import_rep_ok rep); [by rewrite Hi|].
    destruct Hi as [e ->]. by eexists.
  - destruct (sc_export_specification sc) as [rep|]; [|by eexists]. run_simpl.
    unfold on_export. simpl. pose proof (export_spec_calls_run rep) as Hi.
    destruct (export_rep_ok rep); [by rewrite Hi|].
    destruct Hi as [e ->]. by eexists.
Qed.
End properties.

(** ** Witnesses *)
Section witnesses.
#[local] Existing Instance plain_codec.

Definition sample_info : exascript_response :=
  (response_plain MT_INFO 77) <| rp_info := mkInfo "db" "8" "S" "code" 1 2 3 0 5 1000 "SCH" "U" "" "" |>.
Definition sample_meta : exascript_response :=
  (response_plain MT_META 77) <| rp_meta := mkMetadata MULTIPLE MULTIPLE
    [mkColdef "A" PB_INT32 "DECIMAL(4,0)" 0 4 0] [mkColdef "B" PB_STRING "VARCHAR(9)" 9 0 0]
    false |>.
Lemma delivers_now l : delivers (send_true :: l) l.
Proof. exists []. split; [by intros ?%elem_of_nil|done]. Qed.
Lemma offers_now w l : offers (recv_true w :: l) w l.
Proof. exists []. split; [by intros ? ?%elem_of_nil|done]. Qed.

Lemma send_init_handshake_witness :
  let s := machine_init (channel_init [send_false; send_true; send_true]
    [recv_true (plain_reply sample_info); recv_false; recv_true (plain_reply sample_meta)]) in
  ∃ s', send_init "ipc:///tmp/x" s = (Ret true, s') ∧
    inp_names (params (glob s')) = ["A"] ∧ connection_id (params (glob s')) = 77%Z.
Proof.
  intros s.
  destruct (send_init_handshake "ipc:///tmp/x"
    (plain_request MT_CLIENT 0 (body_client "ipc:///tmp/x"))
    (plain_request MT_META 77 body_none) (plain_reply sample_info) (plain_reply sample_meta)
    sample_info sample_meta [send_true] []
    [recv_false; recv_true (plain_reply sample_meta)] [] s)
    as (s' & _ & _ & _ & Hr & Hp & _); try reflexivity.
  - intros Hin. by apply elem_of_nil in Hin.
  - exists [send_false]. split; [|reflexivity]. by intros [=]%list_elem_of_singleton.
  - apply delivers_now.
  - exists [recv_false]. split; [|reflexivity]. by intros ? [=]%list_elem_of_singleton.
  - exists s'. rewrite Hr, Hp. by split_and!.
Defined.

Lemma session_reply_spec_witness :
  let s := machine_init (channel_init [send_true]
    [recv_true (plain_reply (response_plain MT_CLEANUP 0))]) in
  ∃ o s', exchange_run_ ex_done s = (o, s') ∧ o = Ret false.
Proof.
  intros s.
  destruct (session_reply_spec ex_done (plain_request MT_DONE 0 body_none)
    (plain_reply (response_plain MT_CLEANUP 0)) (response_plain MT_CLEANUP 0) [] [] s)
    as (o & s' & Hr & _ & _ & _ & Hstop & _); try reflexivity.
  - intros Hin. by apply elem_of_nil in Hin.
  - apply delivers_now.
  - apply offers_now.
  - discriminate.
  - exists o, s'. split; [exact Hr|]. by apply Hstop.
Defined.
End witnesses.
