(* ===== verification/MetaData.v ===== *)
(** * The metadata object of a script ([impl/swig/swig_meta_data.h])

    The constructor copies the parameter block; the columns and the emitted flags
    are references into it and are read from there. A [const char*] result is
    [None] for [NULL]. The two requests a script can make through the object fetch
    the code of another script and the data of a connection. *)
From S2P Require Import Prelude SwigCommon Protocol Dto DtoWrapper Machine.
From S2P Require Import SocketLowLevel SocketHighLevel.

Open Scope string_scope.
Open Scope list_scope.
Open Scope nat_scope.

Record swig_metadata : Type := mkSwigMetadata {
  m_connection_id : Z;
  m_db_name : string;
  m_db_version : string;
  m_script_name : string;
  m_script_schema : string;
  m_current_user : string;
  m_current_schema : string;
  m_scope_user : string;
  m_script_code : string;
  m_session_id : Z;
  m_statement_id : Z;
  m_node_count : Z;
  m_node_id : Z;
  m_vm_id : Z;
  m_input_iter_type : SWIGVM_itertype_e;
  m_output_iter_type : SWIGVM_itertype_e;
  m_memory_limit : Z;
  m_vm_type : VMTYPE;
  m_session_id_s : string;
  m_vm_id_s : string;
  m_pluginLanguageName : string;
  m_pluginURI : string;
  m_outputAddress : string;
}.

Section metadata.
Context `{Codec}.

(** ** The constructor: a [std::string] from a null pointer is undefined. *)
Definition SWIGMetadata_Impl : run_of swig_metadata :=
  p ← get_params id;
  db_name ← access (dbname p);
  db_version ← access (dbversion p);
  name ← access (script_name p);
  schema ← access (script_schema p);
  user ← access (current_user p);
  cur_schema ← access (current_schema p);
  scope ← access (scope_user p);
  code ← access (script_code p);
  mret (mkSwigMetadata (connection_id p) db_name db_version name schema user cur_schema
    scope code (session_id p) (statement_id p) (node_count p) (node_id p) (vm_id p)
    (inp_iter_type p) (out_iter_type p) (maximal_memory_limit p) (vm_type p)
    (to_string (session_id p)) (to_string (vm_id p)) (pluginName p) (pluginURI p)
    (outputAddress p)).

(** ** The fields *)
Definition databaseName (m : swig_metadata) : string := c_str (m_db_name m).
Definition databaseVersion (m : swig_metadata) : string := c_str (m_db_version m).
Definition scriptName (m : swig_metadata) : string := c_str (m_script_name m).
Definition scriptSchema (m : swig_metadata) : string := c_str (m_script_schema m).
Definition currentUser (m : swig_metadata) : string := c_str (m_current_user m).
Definition scopeUser (m : swig_metadata) : string := c_str (m_scope_user m).
Definition currentSchema (m : swig_metadata) : string := c_str (m_current_schema m).
Definition scriptCode (m : swig_metadata) : string := c_str (m_script_code m).
Definition sessionID (m : swig_metadata) : Z := m_session_id m.
Definition sessionID_S (m : swig_metadata) : string := c_str (m_session_id_s m).
Definition statementID (m : swig_metadata) : Z := m_statement_id m.
Definition nodeCount (m : swig_metadata) : Z := m_node_count m.
Definition nodeID (m : swig_metadata) : Z := m_node_id m.
Definition vmID (m : swig_metadata) : Z := m_vm_id m.
Definition memoryLimit (m : swig_metadata) : Z := m_memory_limit m.
Definition vmType (m : swig_metadata) : VMTYPE := m_vm_type m.
Definition vmID_S (m : swig_metadata) : string := c_str (m_vm_id_s m).
Definition inputType (m : swig_metadata) : SWIGVM_itertype_e := m_input_iter_type m.
Definition outputType (m : swig_metadata) : SWIGVM_itertype_e := m_output_iter_type m.
Definition pluginLanguageName (m : swig_metadata) : string := c_str (m_pluginLanguageName m).
Definition pluginURI_ (m : swig_metadata) : string := c_str (m_pluginURI m).
Definition outputAddress_ (m : swig_metadata) : string := c_str (m_outputAddress m).

(** ** The columns: a column number past the end gets a neutral answer. *)
Definition inputColumnCount : run_of Z := get_params (λ p, u32 (zlength (inp_names p))).
Definition inputColumnName (col : Z) : run_of (option string) :=
  get_params (λ p, c_str <$> zlookup (inp_names p) col).
Definition inputColumn {A} (f : SWIGVM_columntype_t → A) (neutral : A) (col : Z) : run_of A :=
  get_params (λ p, default neutral (f <$> zlookup (inp_types p) col)).
Definition inputColumnType : Z → run_of SWIGVM_datatype_e := inputColumn ct_type UNSUPPORTED.
Definition inputColumnTypeName : Z → run_of (option string) :=
  inputColumn (λ t, Some (c_str (ct_type_name t))) None.
Definition inputColumnSize : Z → run_of Z := inputColumn ct_len 0%Z.
Definition inputColumnPrecision : Z → run_of Z := inputColumn ct_prec 0%Z.
Definition inputColumnScale : Z → run_of Z := inputColumn ct_scale 0%Z.

Definition outputColumnCount : run_of Z := get_params (λ p, u32 (zlength (out_names p))).
Definition outputColumnName (m : swig_metadata) (col : Z) : run_of (option string) :=
  if bool_decide (m_output_iter_type m = EXACTLY_ONCE) && (col =? 0)%Z
  then mret (Some "RETURN")
  else get_params (λ p, c_str <$> zlookup (out_names p) col).
Definition outputColumn {A} (f : SWIGVM_columntype_t → A) (neutral : A) (col : Z) : run_of A :=
  get_params (λ p, default neutral (f <$> zlookup (out_types p) col)).
Definition outputColumnType : Z → run_of SWIGVM_datatype_e := outputColumn ct_type UNSUPPORTED.
Definition outputColumnTypeName : Z → run_of (option string) :=
  outputColumn (λ t, Some (c_str (ct_type_name t))) None.
Definition outputColumnSize : Z → run_of Z := outputColumn ct_len 0%Z.
Definition outputColumnPrecision : Z → run_of Z := outputColumn ct_prec 0%Z.
Definition outputColumnScale : Z → run_of Z := outputColumn ct_scale 0%Z.

Definition isEmittedColumn (col : Z) : run_of bool :=
  flags ← get_params is_emitted;
  match zlookup flags col with Some b => mret b | None => abort end.

(** ** The import requests

    [request_import] is what the two requests share up to the type check: [None]
    when an exception is pending. *)
Definition request_import (m : swig_metadata) (name : string) (kind : import_type)
  (unserialized unparsed wrong : string) : run_of (option exascript_import_rep) :=
  match serialize (mkRequest MT_IMPORT (m_connection_id m) (body_import (c_str name) kind)) with
  | None => set_exception unserialized;; mret None
  | Some w =>
      socket_send w;;
      r ← receive_response;
      match r with
      | None => set_exception unparsed;; mret None
      | Some r =>
          if decide (rp_type r = MT_IMPORT) then mret (Some (rp_import r))
          else set_exception (wrong +:+ message_name (rp_type r));; mret None
      end
  end.

Definition connectionInformation (m : swig_metadata) (connection_name : string) :
  run_of ConnectionInformationWrapper :=
  rep ← request_import m connection_name PB_IMPORT_CONNECTION_INFORMATION
    "F-UDF-CL-LIB-1048: Communication error: failed to serialize data"
    "F-UDF-CL-LIB-1049: Communication error: failed to parse data"
    "F-UDF-CL-LIB-1050: Internal error: wrong message type, got ";
  match rep with
  | None => mret ConnectionInformation.default
  | Some rep =>
      match ir_exception_message rep with
      | Some e => set_exception (c_str e);; mret ConnectionInformation.default
      | None =>
          match ir_connection_information rep with
          | None =>
              set_exception
                "F-UDF-CL-LIB-1051: Internal error: No connection information returned";;
              mret ConnectionInformation.default
          | Some ci => mret (connection_of ci)
          end
      end
  end.

Definition moduleContent (m : swig_metadata) (name : string) : run_of (option string) :=
  rep ← request_import m name PB_IMPORT_SCRIPT_CODE
    "F-UDF-CL-LIB-1052: Communication error: failed to serialize data"
    "F-UDF-CL-LIB-1053: Communication error: failed to parse data"
    "F-UDF-CL-LIB-1054: Internal error: wrong message type, should MT_IMPORT, got ";
  match rep with
  | None => mret None
  | Some rep =>
      match ir_exception_message rep with
      | Some e => set_exception (c_str e);; mret None
      | None =>
          match ir_source_code rep with
          | None =>
              set_exception "F-UDF-CL-LIB-1055: Internal error: No source code returned";;
              mret None
          | Some code => mret (Some (c_str code))
          end
      end
  end.
End metadata.

(** ** The columns as the script sees them *)
Section views.
Context `{Codec}.

(** The number of an enumerator of [column_type] *)
Definition column_type_num (t : column_type) : Z :=
  match t with
  | PB_UNSUPPORTED => 0 | PB_DOUBLE => 1 | PB_INT32 => 2 | PB_INT64 => 3
  | PB_NUMERIC => 4 | PB_TIMESTAMP => 5 | PB_DATE => 6 | PB_STRING => 7
  | PB_BOOLEAN => 8
  end.

Definition has_precision (t : column_type) : bool :=
  match t with PB_INT32 | PB_INT64 | PB_NUMERIC => true | _ => false end.
Definition has_size (t : column_type) : bool :=
  match t with PB_STRING => true | _ => false end.

(** What the type accessors answer for a declared column, and past the end *)
Definition view_type (c : option column_definition) : Z :=
  default 0%Z (column_type_num ∘ cd_type <$> c).
Definition view_size (c : option column_definition) : Z :=
  match c with Some c => if has_size (cd_type c) then cd_size c else 0%Z | None => 0%Z end.
Definition view_precision (c : option column_definition) : Z :=
  match c with
  | Some c => if has_precision (cd_type c) then cd_precision c else 0%Z
  | None => 0%Z
  end.
Definition view_scale (c : option column_definition) : Z :=
  match c with
  | Some c => if has_precision (cd_type c) then cd_scale c else 0%Z
  | None => 0%Z
  end.

Lemma zlookup_fmap {A B} (f : A → B) l i : zlookup (f <$> l) i = f <$> zlookup l i.
Proof. unfold zlookup. destruct (i <? 0)%Z; [done|]. apply list_lookup_fmap. Qed.

(** A supported column becomes a type that shows it. *)
Lemma column_type_of_view c t :
  column_type_of c = Some t →
  datatype_num (ct_type t) = view_type (Some c) ∧ ct_type_name t = cd_type_name c ∧
  ct_len t = view_size (Some c) ∧ ct_prec t = view_precision (Some c) ∧
  ct_scale t = view_scale (Some c).
Proof. destruct c as [n [] tn sz p sc]; intros [= <-]; done. Qed.

Lemma column_types_view cols ts col :
  mapM column_type_of cols = Some ts →
  datatype_num (default UNSUPPORTED (ct_type <$> zlookup ts col))
    = view_type (zlookup cols col) ∧
  (c_str ∘ ct_type_name <$> zlookup ts col)
    = (c_str ∘ cd_type_name <$> zlookup cols col) ∧
  default 0%Z (ct_len <$> zlookup ts col) = view_size (zlookup cols col) ∧
  default 0%Z (ct_prec <$> zlookup ts col) = view_precision (zlookup cols col) ∧
  default 0%Z (ct_scale <$> zlookup ts col) = view_scale (zlookup cols col).
Proof.
  intros Hts % mapM_Some_1. unfold zlookup. destruct (col <? 0)%Z; [done|].
  destruct (cols !! Z.to_nat col) as [c|] eqn:Hc.
  - destruct (Forall2_lookup_l _ _ _ _ _ Hts Hc) as (t & -> & Ht).
    destruct (column_type_of_view c t Ht) as (? & ? & ? & ? & ?).
    simpl in *. unfold compose. split_and!; congruence.
  - apply lookup_ge_None in Hc. rewrite (Forall2_length _ _ _ Hts) in Hc.
    by rewrite (proj2 (lookup_ge_None _ _) Hc).
Qed.

(** The count and the six accessors of one side show the declared columns [cols], under
    the names [name_of]. *)
Record shows (cols : list column_definition) (name_of : Z → option string)
  (count : run_of Z) (names : Z → run_of (option string))
  (types : Z → run_of SWIGVM_datatype_e) (type_names : Z → run_of (option string))
  (sizes precisions scales : Z → run_of Z) (s : machine) : Prop := {
  shows_count : count s = (Ret (u32 (zlength cols)), s);
  shows_name col : names col s = (Ret (name_of col), s);
  shows_type col : ∃ t, types col s = (Ret t, s) ∧
    datatype_num t = view_type (zlookup cols col);
  shows_type_name col :
    type_names col s = (Ret (c_str ∘ cd_type_name <$> zlookup cols col), s);
  shows_size col : sizes col s = (Ret (view_size (zlookup cols col)), s);
  shows_precision col : precisions col s = (Ret (view_precision (zlookup cols col)), s);
  shows_scale col : scales col s = (Ret (view_scale (zlookup cols col)), s);
}.

(** The names of the columns; the first output column of a script that returns a value is
    called RETURN whatever was declared. *)
Definition declared_name (cols : list column_definition) (col : Z) : option string :=
  c_str ∘ cd_name <$> zlookup cols col.
Definition output_name (kind : SWIGVM_itertype_e) (cols : list column_definition) (col : Z) :
  option string :=
  if bool_decide (kind = EXACTLY_ONCE ∧ col = 0%Z) then Some "RETURN" else declared_name cols col.

Lemma shows_inputs cols ts s :
  inp_names (params (glob s)) = cd_name <$> cols →
  inp_types (params (glob s)) = ts → mapM column_type_of cols = Some ts →
  shows cols (declared_name cols) inputColumnCount inputColumnName inputColumnType
    inputColumnTypeName inputColumnSize inputColumnPrecision inputColumnScale s.
Proof.
  intros Hn Ht Hts. split; [unfold inputColumnCount, get_params; run_simpl; rewrite Hn; unfold zlength; by rewrite length_fmap|..];
  intros col; destruct (column_types_view cols ts col Hts) as (H1 & H2 & H3 & H4 & H5);
    unfold inputColumnName, inputColumnType, inputColumnTypeName, inputColumnSize,
      inputColumnPrecision, inputColumnScale, inputColumn, get_params; run_simpl;
    rewrite ?Hn, ?Ht, ?zlookup_fmap, ?H3, ?H4, ?H5; try done.
  - unfold declared_name. by destruct (zlookup cols col).
  - eexists. by split.
  - rewrite <-H2. by destruct (zlookup ts col).
Qed.

Lemma shows_outputs m cols ts s :
  out_names (params (glob s)) = cd_name <$> cols →
  out_types (params (glob s)) = ts → mapM column_type_of cols = Some ts →
  shows cols (output_name (m_output_iter_type m) cols) outputColumnCount (outputColumnName m)
    outputColumnType outputColumnTypeName outputColumnSize outputColumnPrecision
    outputColumnScale s.
Proof.
  intros Hn Ht Hts. split; [unfold outputColumnCount, get_params; run_simpl; rewrite Hn; unfold zlength; by rewrite length_fmap|..];
  intros col; destruct (column_types_view cols ts col Hts) as (H1 & H2 & H3 & H4 & H5);
    unfold outputColumnType, outputColumnTypeName, outputColumnSize,
      outputColumnPrecision, outputColumnScale, outputColumn, get_params; run_simpl;
    rewrite ?Hn, ?Ht, ?zlookup_fmap, ?H3, ?H4, ?H5; try done.
  - unfold outputColumnName, output_name, declared_name, get_params.
    rewrite bool_decide_and. destruct (Z.eqb_spec col 0) as [->|Hc].
    + rewrite (bool_decide_eq_true_2 (0 = 0)%Z) by done. destruct (bool_decide _); simpl; [done|].
      run_simpl. rewrite Hn, zlookup_fmap. by destruct (zlookup cols 0).
    + rewrite (bool_decide_eq_false_2 (col = 0%Z)) by done. rewrite !andb_false_r. run_simpl.
      rewrite Hn, zlookup_fmap. by destruct (zlookup cols col).
  - eexists. by split.
  - rewrite <-H2. by destruct (zlookup ts col).
Qed.
End views.

(** ** Properties *)
Section properties.
Context `{Codec}.

(** The identity a script sees, from the info message *)
Record identity (info : exascript_info) (m : swig_metadata) : Prop := {
  id_database : databaseName m = c_str (if_database_name info);
  id_version : databaseVersion m = c_str (if_database_version info);
  id_name : scriptName m = c_str (if_script_name info);
  id_schema : scriptSchema m = c_str (if_script_schema info);
  id_user : currentUser m = c_str (if_current_user info);
  id_current_schema : currentSchema m = c_str (if_current_schema info);
  id_scope : scopeUser m = c_str (if str_empty (if_scope_user info)
    then if_current_user info else if_scope_user info);
  id_code : scriptCode m = c_str (if_source_code info);
  id_session : sessionID m = if_session_id info ∧
    sessionID_S m = c_str (to_string (if_session_id info));
  id_statement : statementID m = if_statement_id info;
  id_nodes : nodeCount m = if_node_count info ∧ nodeID m = if_node_id info;
  id_vm : vmID m = if_vm_id info ∧ vmID_S m = c_str (to_string (if_vm_id info));
  id_memory : memoryLimit m = if_maximal_memory_limit info;
}.

(** The kind of the script, from the metadata message; the type of the virtual machine and
    the plugin are never filled in. *)
Record script_kind (meta : exascript_metadata) (m : swig_metadata) : Prop := {
  kind_input : inputType m = md_input_iter_type meta;
  kind_output : outputType m = md_output_iter_type meta;
  kind_vm : vmType m = VM_UNSUPPORTED;
  kind_plugin : pluginLanguageName m = "" ∧ pluginURI_ m = "" ∧ outputAddress_ m = "";
}.

(** The parameter block after [initSwigParams] *)
Definition params_of_info (p : SWIGVM_params_t) (info : exascript_info) (mode : bool) :
  SWIGVM_params_t :=
  p <| dbname := Some (c_str (if_database_name info)) |>
    <| dbversion := Some (c_str (if_database_version info)) |>
    <| script_name := Some (c_str (if_script_name info)) |>
    <| script_schema := Some (c_str (if_script_schema info)) |>
    <| current_user := Some (c_str (if_current_user info)) |>
    <| current_schema := Some (c_str (if_current_schema info)) |>
    <| scope_user := Some (c_str (if_scope_user info)) |>
    <| script_code := Some (c_str (if_source_code info)) |>
    <| session_id := if_session_id info |>
    <| statement_id := if_statement_id info |>
    <| node_count := if_node_count info |>
    <| node_id := if_node_id info |>
    <| vm_id := if_vm_id info |>
    <| params_singleCallMode := mode |>.

Lemma initSwigParams_run s :
  initSwigParams s = (Ret tt, s <| glob := (glob s) <| params :=
    params_of_info (params (glob s)) (g_script (glob s)) (singleCallMode (glob s)) |> |>).
Proof. done. Qed.

(** The metadata object that is built under such a block *)
Definition metadata_of_info (p : SWIGVM_params_t) (info : exascript_info) : swig_metadata :=
  mkSwigMetadata (connection_id p) (c_str (if_database_name info))
    (c_str (if_database_version info)) (c_str (if_script_name info))
    (c_str (if_script_schema info)) (c_str (if_current_user info))
    (c_str (if_current_schema info)) (c_str (if_scope_user info))
    (c_str (if_source_code info)) (session_id p) (statement_id p) (node_count p) (node_id p)
    (vm_id p) (inp_iter_type p) (out_iter_type p) (maximal_memory_limit p) (vm_type p)
    (to_string (session_id p)) (to_string (vm_id p)) (pluginName p) (pluginURI p)
    (outputAddress p).

Lemma SWIGMetadata_Impl_run p p0 info mode s :
  params (glob s) = p → p = params_of_info p0 info mode →
  SWIGMetadata_Impl s = (Ret (metadata_of_info p info), s).
Proof.
  intros Hs Hp. unfold SWIGMetadata_Impl, get_params.
  assert (dbname p = Some (c_str (if_database_name info)) ∧
    dbversion p = Some (c_str (if_database_version info)) ∧
    script_name p = Some (c_str (if_script_name info)) ∧
    script_schema p = Some (c_str (if_script_schema info)) ∧
    current_user p = Some (c_str (if_current_user info)) ∧
    current_schema p = Some (c_str (if_current_schema info)) ∧
    scope_user p = Some (c_str (if_scope_user info)) ∧
    script_code p = Some (c_str (if_source_code info)))
    as (H1 & H2 & H3 & H4 & H5 & H6 & H7 & H8) by by rewrite Hp.
  rewrite run_bind_gets, Hs. unfold id.
  by rewrite (run_bind_access _ _ _ _ H1), (run_bind_access _ _ _ _ H2),
    (run_bind_access _ _ _ _ H3), (run_bind_access _ _ _ _ H4), (run_bind_access _ _ _ _ H5),
    (run_bind_access _ _ _ _ H6), (run_bind_access _ _ _ _ H7), (run_bind_access _ _ _ _ H8).
Qed.

(** C38. The metadata object shows what the server declared. After a successful handshake
    on a fresh parameter block, and the copy of the static strings into it, the
    constructor succeeds, and what every accessor of the script, the session and the
    columns answers is given (the two import requests and [checkException] are not
    accessors): those of the script and the session answer with the value of the info
    message, the current user standing in for a missing scope user; the input and output
    kind and, on each side, the number of the columns and the six accessors of a column,
    in or out of range, answer with what the metadata message says, except that the first output column of a script that
    returns a value is called RETURN; the type of the virtual machine is always
    "unsupported" and the three plugin strings are empty; [isEmittedColumn] kills the
    process for every column. *)
Theorem metadata_object_spec (name : string) (w1 w2 v1 v2 : wire)
  (r1 r2 : exascript_response) (its ots : list SWIGVM_columntype_t) (vs : list wire)
  (s : machine) :
  let meta := rp_meta r2 in
  handshake name w1 w2 v1 v2 r1 r2 its ots vs s →
  params (glob s) = SWIGVM_params_init →
  ∃ m s', (send_init name;; initSwigParams;; SWIGMetadata_Impl) s = (Ret m, s') ∧
    identity (rp_info r1) m ∧ script_kind meta m ∧
    shows (md_input_columns meta) (declared_name (md_input_columns meta)) inputColumnCount
      inputColumnName inputColumnType inputColumnTypeName inputColumnSize
      inputColumnPrecision inputColumnScale s' ∧
    shows (md_output_columns meta)
      (output_name (md_output_iter_type meta) (md_output_columns meta)) outputColumnCount
      (outputColumnName m) outputColumnType outputColumnTypeName outputColumnSize
      outputColumnPrecision outputColumnScale s' ∧
    (∀ col, isEmittedColumn col s' = (Abort, s')).
Proof.
  intros meta Hh Hp.
  destruct (send_init_success _ _ _ _ _ _ _ _ _ _ _ Hh)
    as (s1 & tr & Hr & [Hpar Hscr Hmode Hex _] & _).
  rewrite (run_bind _ _ _ _ _ Hr), (run_bind _ _ _ _ _ (initSwigParams_run s1)).
  rewrite Hp in Hpar. rewrite Hpar, Hscr.
  unfold SWIGMetadata_Impl, get_params. run_simpl. do 2 eexists. split; [reflexivity|].
  split_and!.
  - split; cbn; rewrite ?c_str_idemp; try done.
  - by split.
  - by eapply shows_inputs; [..|exact (hs_inputs _ _ _ _ _ _ _ _ _ _ _ Hh)].
  - match goal with |- shows _ _ _ (outputColumnName ?m) _ _ _ _ _ _ =>
      by eapply (shows_outputs m); [..|exact (hs_outputs _ _ _ _ _ _ _ _ _ _ _ Hh)] end.
  - intros col. unfold isEmittedColumn, get_params. run_simpl.
    unfold zlookup. by destruct (col <? 0)%Z.
Qed.

(** What an import reply hands out: nothing unless it is an import message without
    an error *)
Definition import_given {A} (f : exascript_import_rep → option A) (r : exascript_response) :
  option A :=
  if decide (rp_type r = MT_IMPORT) then
    match ir_exception_message (rp_import r) with
    | Some _ => None
    | None => f (rp_import r)
    end
  else None.

(** The request failed: an exception is pending, with the server's message when
    the reply is an import message with an error. *)
Record import_refused (r : exascript_response) (s s' : machine) : Prop := {
  ref_chan : chan s' = chan s;
  ref_pending : exthrowed (exchandler (glob s')) = true;
  ref_message e : rp_type r = MT_IMPORT → ir_exception_message (rp_import r) = Some e →
    exmsg (exchandler (glob s')) = c_str e;
}.

Lemma set_exception_refused msg r s :
  (∀ e, rp_type r = MT_IMPORT → ir_exception_message (rp_import r) = Some e → msg = c_str e) →
  ∃ s', set_exception msg s = (Ret tt, s') ∧ import_refused r s s'.
Proof. intros Hm. eexists. split; [done|]. by split. Qed.

(** One import request, before the caller looks into the reply *)
Lemma request_import_run m name kind w v r vs s :
  serves (v :: vs) s → parse v = Some r →
  serialize (mkRequest MT_IMPORT (m_connection_id m) (body_import (c_str name) kind)) = Some w →
  ∃ s1, io s s1 [w] [v] ∧ serves vs s1 ∧ ∀ u p x,
    if decide (rp_type r = MT_IMPORT)
    then request_import m name kind u p x s = (Ret (Some (rp_import r)), s1)
    else ∃ s', request_import m name kind u p x s = (Ret None, s') ∧ import_refused r s1 s'.
Proof.
  intros Hsrv Hp Hw.
  destruct (serves_exchange w v vs s Hsrv) as (s1 & s2 & Hr1 & Hr2 & Hio & Hsrv2).
  exists s2. split_and!; [done..|]. intros u p x. unfold request_import, receive_response.
  rewrite Hw, (run_bind _ _ _ _ _ Hr1). run_simpl. rewrite (run_bind _ _ _ _ _ Hr2).
  run_simpl. rewrite Hp. run_simpl. destruct (decide _) as [|Ht]; [done|].
  destruct (set_exception_refused (x +:+ message_name (rp_type r)) r s2)
    as (s' & Hr & Href); [done|].
  exists s'. by rewrite (run_bind _ _ _ _ _ Hr).
Qed.

(** The import requests. Each asks once, under the connection id the object was
    built with, and consumes one reply. It hands out the connection or the code
    exactly when the reply is an import message that carries it and no error, and
    changes nothing else. Every other reply, a close message included, makes an
    exception pending (the server's own message, when it sends one) and gives an
    empty connection or a null pointer. *)
Theorem import_requests_spec (m : swig_metadata) (name : string) (w v : wire)
  (r : exascript_response) (vs : list wire) (conn : bool) (s : machine) :
  serves (v :: vs) s → parse v = Some r →
  serialize (mkRequest MT_IMPORT (m_connection_id m) (body_import (c_str name)
    (if conn then PB_IMPORT_CONNECTION_INFORMATION else PB_IMPORT_SCRIPT_CODE))) = Some w →
  ∃ s1, io s s1 [w] [v] ∧ serves vs s1 ∧
    if conn then
      match import_given ir_connection_information r with
      | Some ci => connectionInformation m name s = (Ret (connection_of ci), s1)
      | None => ∃ s', connectionInformation m name s =
          (Ret ConnectionInformation.default, s') ∧ import_refused r s1 s'
      end
    else
      match import_given ir_source_code r with
      | Some code => moduleContent m name s = (Ret (Some (c_str code)), s1)
      | None => ∃ s', moduleContent m name s = (Ret None, s') ∧ import_refused r s1 s'
      end.
Proof.
  intros Hsrv Hp Hw.
  destruct (request_import_run _ _ _ _ _ _ _ _ Hsrv Hp Hw) as (s1 & Hio & Hsrv1 & Hreq).
  exists s1. split_and!; [done..|]. unfold import_given.
  destruct conn; [unfold connectionInformation|unfold moduleContent];
    match goal with |- context [request_import _ _ _ ?u ?p ?x] =>
      specialize (Hreq u p x) end;
    (destruct (decide (rp_type r = MT_IMPORT)) as [Ht|Ht];
     [|destruct Hreq as (s' & Hr & Href); exists s'; by rewrite (run_bind _ _ _ _ _ Hr)]);
    rewrite (run_bind _ _ _ _ _ Hreq); clear Hreq;
    destruct (ir_exception_message (rp_import r)) as [e|] eqn:He.
  - destruct (set_exception_refused (c_str e) r s1) as (s' & Hr & Href); [naive_solver|].
    exists s'. by rewrite (run_bind _ _ _ _ _ Hr).
  - destruct (ir_connection_information (rp_import r)) as [ci|]; [done|].
    destruct (set_exception_refused
      "F-UDF-CL-LIB-1051: Internal error: No connection information returned" r s1)
      as (s' & Hr & Href); [naive_solver|]. exists s'. by rewrite (run_bind _ _ _ _ _ Hr).
  - destruct (set_exception_refused (c_str e) r s1) as (s' & Hr & Href); [naive_solver|].
    exists s'. by rewrite (run_bind _ _ _ _ _ Hr).
  - destruct (ir_source_code (rp_import r)) as [code|]; [done|].
    destruct (set_exception_refused
      "F-UDF-CL-LIB-1055: Internal error: No source code returned" r s1)
      as (s' & Hr & Href); [naive_solver|]. exists s'. by rewrite (run_bind _ _ _ _ _ Hr).
Qed.
End properties.

(** ** Witnesses *)
Section witnesses.
#[local] Existing Instance plain_codec.

(** Answers that come at once *)
Definition prompt (vs : list wire) : channel :=
  channel_init (replicate (length vs) send_true) (recv_true <$> vs).

Lemma delivers_many_now n l : delivers_many n (replicate n send_true ++ l).
Proof. induction n; [done|]. exists (replicate n send_true ++ l). split; [apply delivers_now|done]. Qed.
Lemma offers_many_now vs l : offers_many vs ((recv_true <$> vs) ++ l).
Proof. induction vs; [done|]. eexists. split; [apply offers_now|done]. Qed.

Lemma serves_now vs : serves vs (machine_init (prompt vs)).
Proof.
  split; [reflexivity|by intros ?%elem_of_nil|..].
  - change (delivers_many (length vs) (replicate (length vs) send_true)).
    rewrite <-(app_nil_r (replicate _ _)). apply delivers_many_now.
  - change (offers_many vs (recv_true <$> vs)).
    rewrite <-(app_nil_r (recv_true <$> vs)). apply offers_many_now.
Qed.

Lemma handshake_now name r1 r2 its ots vs :
  rp_type r1 = MT_INFO → rp_type r2 = MT_META →
  mapM column_type_of (md_input_columns (rp_meta r2)) = Some its →
  mapM column_type_of (md_output_columns (rp_meta r2)) = Some ots →
  handshake name (plain_request MT_CLIENT 0 (body_client name))
    (plain_request MT_META (rp_connection_id r1) body_none) (plain_reply r1) (plain_reply r2)
    r1 r2 its ots vs (machine_init (prompt (plain_reply r1 :: plain_reply r2 :: vs))).
Proof.
  intros ? ? ? ?. split; try done; [by intros ?%elem_of_nil|].
  exists (send_true :: replicate (length vs) send_true), (replicate (length vs) send_true),
    (recv_true (plain_reply r2) :: (recv_true <$> vs)), (recv_true <$> vs).
  split_and!; try done; try apply delivers_now; try apply offers_now; apply serves_now.
Qed.

Lemma metadata_object_spec_witness :
  ∃ m s', (send_init "ipc:///tmp/s";; initSwigParams;; SWIGMetadata_Impl)
    (machine_init (prompt [plain_reply sample_info; plain_reply sample_meta])) = (Ret m, s') ∧
    scopeUser m = "U" ∧ inputColumnPrecision 0 s' = (Ret 4%Z, s') ∧
    inputType m = md_input_iter_type (rp_meta sample_meta) ∧
    outputColumnCount s' = (Ret 1%Z, s') ∧ outputColumnSize 0 s' = (Ret 9%Z, s') ∧
    isEmittedColumn 0 s' = (Abort, s').
Proof.
  destruct (metadata_object_spec "ipc:///tmp/s" _ _ _ _ _ _ _ _ [] _
    (handshake_now "ipc:///tmp/s" sample_info sample_meta
      [mkColumntype INT32 "DECIMAL(4,0)" 0 4 0] [mkColumntype STRING "VARCHAR(9)" 9 0 0] []
      eq_refl eq_refl eq_refl eq_refl) eq_refl)
    as (m & s' & Hr & Hid & Hk & Hin & Hout & Hem).
  exists m, s'. split; [exact Hr|]. split; [exact (id_scope _ _ Hid)|].
  split; [exact (shows_precision _ _ _ _ _ _ _ _ _ _ Hin 0%Z)|].
  split; [exact (kind_input _ _ Hk)|].
  split; [exact (shows_count _ _ _ _ _ _ _ _ _ _ Hout)|].
  split; [exact (shows_size _ _ _ _ _ _ _ _ _ _ Hout 0%Z)|exact (Hem 0%Z)].
Defined.

Definition sample_connection : exascript_response :=
  (response_plain MT_IMPORT 77) <| rp_import := mkImportRep None None
    (Some (mkConnInfoRep "password" "host" "u" "p")) |>.

Definition sample_metadata : swig_metadata :=
  mkSwigMetadata 77 "" "" "" "" "" "" "" "" 0 0 0 0 0 MULTIPLE MULTIPLE 0 VM_UNSUPPORTED
    "0" "0" "" "" "".

Lemma import_requests_spec_witness :
  let s := machine_init (prompt [plain_reply sample_connection]) in
  ∃ s1, connectionInformation sample_metadata "C" s =
    (Ret (mkConnectionInformation "password" "host" "u" "p"), s1).
Proof.
  intros s.
  destruct (import_requests_spec sample_metadata "C"
    (plain_request MT_IMPORT 77 (body_import "C" PB_IMPORT_CONNECTION_INFORMATION))
    (plain_reply sample_connection)
    sample_connection [] true s) as (s1 & _ & _ & Hr); try reflexivity.
  - apply serves_now.
  - exists s1. exact Hr.
Defined.
End witnesses.
