(* ===== verification/RowCodec.v ===== *)
(** * Rows and their wire layout

    The table message stores rows column by column type: one list of null flags in
    row-major order and one list per storage class that holds the values that are
    not null, in the order in which they occur. This file relates such a message
    to the rows it stands for; the iterator reads it and the handler writes it. *)
From S2P Require Import Prelude SwigCommon Protocol.

Open Scope string_scope.
Open Scope list_scope.
Open Scope nat_scope.

(** The five lists of [exascript_table_data] that hold values *)
Inductive storage : Type := st_double | st_int32 | st_int64 | st_string | st_bool.

#[global] Instance storage_eq_dec : EqDecision storage.
Proof. solve_decision. Defined.

(** The [switch] on the column type that iterator and handler share; [None] for the
    types that have no storage. *)
Definition storage_of (t : SWIGVM_datatype_e) : option storage :=
  match t with
  | DOUBLE => Some st_double
  | INT32 => Some st_int32
  | INT64 => Some st_int64
  | NUMERIC | TIMESTAMP | DATE | STRING => Some st_string
  | BOOLEAN => Some st_bool
  | UNSUPPORTED | INTERVALYM | INTERVALDS | GEOMETRY => None
  end.

Inductive cell : Type :=
  | CNull
  | CDouble (bits : Z)
  | CInt32 (n : Z)
  | CInt64 (n : Z)
  | CString (s : string)
  | CBool (b : bool).

#[global] Instance cell_eq_dec : EqDecision cell.
Proof. solve_decision. Defined.

Definition cell_storage (c : cell) : option storage :=
  match c with
  | CNull => None
  | CDouble _ => Some st_double
  | CInt32 _ => Some st_int32
  | CInt64 _ => Some st_int64
  | CString _ => Some st_string
  | CBool _ => Some st_bool
  end.

Definition cell_null (c : cell) : bool :=
  match c with CNull => true | _ => false end.

Definition stored_in (k : storage) (c : cell) : Prop := cell_storage c = Some k.
#[global] Instance stored_in_dec k c : Decision (stored_in k c).
Proof. unfold stored_in. apply _. Defined.

(** A cell that a column of type [t] can hold *)
Definition cell_fits (t : SWIGVM_columntype_t) (c : cell) : Prop :=
  is_Some (storage_of (ct_type t)) ∧ (c = CNull ∨ cell_storage c = storage_of (ct_type t)).

(** A row of a table: its number and its cells *)
Abbreviation row := (Z * list cell)%type.

Definition row_fits (types : list SWIGVM_columntype_t) (r : row) : Prop :=
  Forall2 cell_fits types r.2.

(** The values of a table message, as cells *)
Definition table_cells (k : storage) (t : exascript_table_data) : list cell :=
  match k with
  | st_double => CDouble <$> td_double t
  | st_int32 => CInt32 <$> td_int32 t
  | st_int64 => CInt64 <$> td_int64 t
  | st_string => CString <$> td_string t
  | st_bool => CBool <$> td_bool t
  end.

Definition all_cells (rows : list row) : list cell := concat rows.*2.

(** The message [t] stands for [rows]. *)
Record encodes (t : exascript_table_data) (rows : list row) : Prop := {
  enc_nulls : td_nulls t = cell_null <$> all_cells rows;
  enc_cells : ∀ k, table_cells k t = filter (stored_in k) (all_cells rows);
  enc_numbers : td_row_number t = rows.*1;
  enc_rows : td_rows t = Some (zlength rows);
}.

Lemma filter_lookup_middle {A} (P : A → Prop) `{!∀ x, Decision (P x)} pre x post :
  P x → filter P (pre ++ x :: post) !! length (filter P pre) = Some x.
Proof.
  intros Hx. rewrite filter_app, filter_cons_True by done.
  by rewrite list_lookup_middle.
Qed.

(** The position of column [c] of row [k] in the row-major order *)
Definition cells_before (rows : list row) (k : nat) (c : nat) : list cell :=
  all_cells (take k rows) ++ take c (default [] (rows.*2 !! k)).

Lemma all_cells_length types rows :
  Forall (row_fits types) rows → length (all_cells rows) = length rows * length types.
Proof.
  unfold all_cells. induction 1 as [|r rows Hr _ IH]; [done|].
  rewrite fmap_cons. cbn [concat length]. rewrite length_app, IH.
  rewrite (Forall2_length _ _ _ Hr). lia.
Qed.

Lemma all_cells_split rows k r c x :
  rows !! k = Some r → r.2 !! c = Some x →
  ∃ post, all_cells rows = cells_before rows k c ++ x :: post.
Proof.
  intros Hk Hc. unfold cells_before, all_cells. rewrite list_lookup_fmap, Hk. simpl.
  exists (drop (S c) r.2 ++ concat (drop (S k) rows).*2).
  rewrite <-(take_drop_middle _ _ _ Hk) at 1.
  rewrite fmap_app, concat_app, fmap_cons. simpl.
  rewrite <-(take_drop_middle _ _ _ Hc) at 1. by rewrite <-!app_assoc.
Qed.

Lemma cells_before_length types rows k r c :
  Forall (row_fits types) rows → rows !! k = Some r → c ≤ length types →
  length (cells_before rows k c) = k * length types + c.
Proof.
  intros Hrows Hk Hc. unfold cells_before. rewrite length_app.
  rewrite (all_cells_length types) by by apply Forall_take.
  rewrite list_lookup_fmap, Hk. simpl.
  rewrite length_take_le by by apply lookup_lt_Some in Hk; lia.
  rewrite length_take_le; [done|].
  rewrite Forall_lookup in Hrows. apply Hrows in Hk.
  by rewrite <-(Forall2_length _ _ _ Hk).
Qed.

Lemma cells_before_S rows k r :
  rows !! k = Some r →
  all_cells (take (S k) rows) = cells_before rows k (length r.2).
Proof.
  intros Hk. unfold cells_before, all_cells. rewrite (take_S_r _ _ _ Hk).
  rewrite fmap_app, concat_app, list_lookup_fmap, Hk. simpl.
  by rewrite app_nil_r, firstn_all.
Qed.

Lemma cells_before_step rows k r c x :
  rows !! k = Some r → r.2 !! c = Some x →
  cells_before rows k (S c) = cells_before rows k c ++ [x].
Proof.
  intros Hk Hc. unfold cells_before. rewrite list_lookup_fmap, Hk. simpl.
  by rewrite (take_S_r _ _ _ Hc), app_assoc.
Qed.

(** Where the null flag and the value of a cell are *)
Lemma encodes_null t types rows k r c x :
  encodes t rows → Forall (row_fits types) rows →
  rows !! k = Some r → r.2 !! c = Some x →
  td_nulls t !! (k * length types + c) = Some (cell_null x).
Proof.
  intros He Hrows Hk Hc. rewrite (enc_nulls _ _ He), list_lookup_fmap.
  destruct (all_cells_split _ _ _ _ _ Hk Hc) as [post ->].
  assert (c < length types).
  { rewrite Forall_lookup in Hrows. apply Hrows, Forall2_length in Hk as ->.
    by eapply lookup_lt_Some. }
  rewrite list_lookup_middle; [done|].
  rewrite (cells_before_length types _ _ _ _ Hrows Hk); lia.
Qed.

Lemma encodes_value t rows k r c x st :
  encodes t rows → rows !! k = Some r → r.2 !! c = Some x → cell_storage x = Some st →
  table_cells st t !! length (filter (stored_in st) (cells_before rows k c)) = Some x.
Proof.
  intros He Hk Hc Hst. rewrite (enc_cells _ _ He).
  destruct (all_cells_split _ _ _ _ _ Hk Hc) as [post ->].
  by apply filter_lookup_middle.
Qed.

(** The message that stands for [rows], with no rows of a group announced *)
Definition cell_string (c : cell) : option string :=
  match c with CString s => Some s | _ => None end.
Definition cell_bool (c : cell) : option bool :=
  match c with CBool b => Some b | _ => None end.
Definition cell_int32 (c : cell) : option Z :=
  match c with CInt32 n => Some n | _ => None end.
Definition cell_int64 (c : cell) : option Z :=
  match c with CInt64 n => Some n | _ => None end.
Definition cell_double (c : cell) : option Z :=
  match c with CDouble n => Some n | _ => None end.

Definition table_of (rows : list row) : exascript_table_data :=
  let cells := all_cells rows in
  mkTable (Some (zlength rows)) 0 (omap cell_string cells) (cell_null <$> cells)
    (omap cell_bool cells) (omap cell_int32 cells) (omap cell_int64 cells)
    (omap cell_double cells) rows.*1.

Lemma values_of_cells {A} (get : cell → option A) (wrap : A → cell) st (l : list A)
  (cells : list cell) :
  (∀ a, get (wrap a) = Some a) → (∀ c, ¬ stored_in st c → get c = None) →
  wrap <$> l = filter (stored_in st) cells → l = omap get cells.
Proof.
  intros Hw Hn Hl.
  assert (omap get (wrap <$> l) = l) as Heq.
  { clear Hl. induction l as [|a l IH]; [done|]. csimpl. by rewrite Hw, IH. }
  rewrite <-Heq, Hl. clear l Hl Heq. induction cells as [|c cells IH]; [done|].
  destruct (decide (stored_in st c)) as [Hc|Hc].
  - rewrite filter_cons_True by done. csimpl. by rewrite IH.
  - rewrite filter_cons_False by done. csimpl. by rewrite (Hn _ Hc), IH.
Qed.

(** There is only one. *)
Lemma encodes_unique t rows :
  encodes t rows → td_rows_in_group t = 0%Z → t = table_of rows.
Proof.
  destruct t as [n g ss ns bs ints longs ds rs]. intros [Hn Hc Hr Hrr] Hg. simpl in *. subst.
  unfold table_of. f_equal; first
    [eapply (values_of_cells _ CString st_string); [done|intros c Hst; by destruct c|exact (Hc st_string)]
    |eapply (values_of_cells _ CBool st_bool); [done|intros c Hst; by destruct c|exact (Hc st_bool)]
    |eapply (values_of_cells _ CInt32 st_int32); [done|intros c Hst; by destruct c|exact (Hc st_int32)]
    |eapply (values_of_cells _ CInt64 st_int64); [done|intros c Hst; by destruct c|exact (Hc st_int64)]
    |eapply (values_of_cells _ CDouble st_double); [done|intros c Hst; by destruct c|exact (Hc st_double)]
    |done].
Qed.
