(* ===== verification/TableIterator.v ===== *)
(** * The table iterator ([impl/swig/swig_table_iterator.h])

    [SWIGTableIterator_Impl]: pulls table messages with [MT_NEXT] and [MT_RESET]
    requests and hands out the cells of the current row. Errors are recorded in
    the exception handler and the call returns a placeholder. A read of a repeated
    field outside its bounds is undefined behaviour and is modelled as such. *)
From S2P Require Import Prelude SwigCommon Protocol Dto Machine SocketLowLevel RowCodec.

Open Scope string_scope.
Open Scope list_scope.
Open Scope nat_scope.

(** [values_per_row_t]: the counter of a storage class *)
Definition vpr_get (k : storage) (v : values_per_row_t) : Z :=
  match k with
  | st_double => v_doubles v
  | st_int32 => v_int32s v
  | st_int64 => v_int64s v
  | st_string => v_strings v
  | st_bool => v_bools v
  end.
Definition vpr_incr (k : storage) (v : values_per_row_t) : values_per_row_t :=
  match k with
  | st_double => v <| v_doubles := u64 (v_doubles v + 1) |>
  | st_int32 => v <| v_int32s := u64 (v_int32s v + 1) |>
  | st_int64 => v <| v_int64s := u64 (v_int64s v + 1) |>
  | st_string => v <| v_strings := u64 (v_strings v + 1) |>
  | st_bool => v <| v_bools := u64 (v_bools v + 1) |>
  end.

Section iterator.
Context `{Codec}.

(** [m_next_response.next().table()] and the referenced column types *)
Definition next_table : run_of exascript_table_data :=
  gets (λ s, rp_next (m_next_response (it s))).
Definition m_types : run_of (list SWIGVM_columntype_t) := get_params inp_types.

(** [m_col_offsets[col] = v] *)
Definition set_col_offset (col : nat) (v : Z) : run_of unit :=
  n ← gets (λ s, length (m_col_offsets (it s)));
  if decide (col < n)
  then upd_it (λ i, i <| m_col_offsets := <[col := v]> (m_col_offsets i) |>)
  else undef.

(** The loop of [increment_col_offsets] *)
Fixpoint assign_col_offsets (types : list SWIGVM_columntype_t) (current_column : nat)
  (null_index : Z) : run_of unit :=
  match types with
  | [] => mret tt
  | t :: types =>
      table ← next_table;
      null ← access (zlookup (td_nulls table) (s32 null_index));
      if (null : bool) then assign_col_offsets types (S current_column) (null_index + 1)
      else
        match storage_of (ct_type t) with
        | Some k =>
            v ← gets (λ s, vpr_get k (m_values_per_row (it s)));
            set_col_offset current_column v;;
            upd_it (λ i, i <| m_values_per_row := vpr_incr k (m_values_per_row i) |>);;
            assign_col_offsets types (S current_column) (null_index + 1)
        | None =>
            if decide (ct_type t = UNSUPPORTED)
            then set_exception "F-UDF-CL-LIB-1057: Unsupported data type found"
            else set_exception_opt
              (literal_plus "F-UDF-CL-LIB-1058: Unknown data type found, got "
                 (datatype_num (ct_type t)))
        end
  end.

Definition increment_col_offsets (reset : bool) : run_of unit :=
  table ← next_table;
  i ← gets it;
  number ← access (zlookup (td_row_number table) (s32 (m_rows_completed i)));
  upd_it (λ i, i <| m_current_row := number |>);;
  when reset (upd_it (λ i, i <| m_values_per_row := values_per_row_reset |>));;
  let null_index := s64 (m_rows_completed i * m_column_count i) in
  if (zlength (td_nulls table) <=? s64 (null_index + s64 (m_column_count i) - 1))%Z then
    set_exception (c_str ("F-UDF-CL-LIB-1056: Internal error: not enough nulls in packet: wanted index "
      +:+ to_string (u64 (null_index + m_column_count i - 1)) +:+ " but have "
      +:+ to_string (zlength (td_nulls table)) +:+ " elements"))
  else
    types ← m_types; assign_col_offsets types 0 null_index.

(** The interpretation of a reply to [MT_NEXT] or [MT_RESET] *)
Definition accept_table (reset : bool) : run_of unit :=
  i ← gets it;
  let r := m_next_response i in
  if negb (rp_connection_id r =? it_connection_id i)%Z then
    set_exception ("F-UDF-CL-LIB-1061: Communication error: wrong connection id, expected "
      +:+ to_string (it_connection_id i) +:+ " got " +:+ to_string (rp_connection_id r))
  else if decide (rp_type r = MT_DONE) then mret tt
  else if decide (rp_type r = MT_CLOSE) then
    match rp_close r with
    | None =>
        if (m_rows_completed i =? 0)%Z then mret tt
        else set_exception "F-UDF-CL-LIB-1062: Unknown error occured"
    | Some msg => set_exception (c_str msg)
    end
  else if decide (rp_type r = if reset then MT_RESET else MT_NEXT) then
    upd_it (λ i, i <| m_rows_received := default 0%Z (td_rows (rp_next r)) |>
                   <| m_rows_in_group := Some (td_rows_in_group (rp_next r)) |>);;
    increment_col_offsets true
  else set_exception ("F-UDF-CL-LIB-1063: Communication error: wrong message type, got "
         +:+ message_name (rp_type r)).

Definition receive_next_data (reset : bool) : run_of unit :=
  upd_it (λ i, i <| m_rows_received := 0%Z |> <| m_rows_completed := 0%Z |>);;
  id ← gets (λ s, it_connection_id (it s));
  match serialize (mkRequest (if reset then MT_RESET else MT_NEXT) id body_none) with
  | None => set_exception "F-UDF-CL-LIB-1059: Communication error: failed to serialize data"
  | Some w =>
      socket_send w;;
      reply ← socket_recv false;
      let zmsg := default wire_empty reply in
      match parse zmsg with
      | None =>
          upd_it (λ i, i <| m_next_response := parse_leftover zmsg |>);;
          set_exception "F-UDF-CL-LIB-1060: Communication error: failed to parse data"
      | Some r =>
          upd_it (λ i, i <| m_next_response := r |>);;
          accept_table reset
      end
  end.

(** ** Construction and movement *)

(** The constructor: [m_rows_received] is assigned before it is read. *)
Definition SWIGTableIterator_Impl : run_of unit :=
  id ← get_params connection_id;
  types ← m_types;
  upd_it (λ _, iterator_init id (zlength types));;
  receive_next_data false.

Definition get_current_row : run_of Z := gets (λ s, m_current_row (it s)).

Definition iterator_reinitialize : run_of unit :=
  upd_it (λ i, i <| m_rows_completed := 0%Z |> <| m_rows_group_completed := 1%Z |>
                 <| m_values_per_row := values_per_row_reset |>);;
  receive_next_data false.

Definition iterator_next : run_of bool :=
  received ← gets (λ s, m_rows_received (it s));
  if (received =? 0)%Z then
    set_exception "E-UDF-CL-LIB-1065: Iteration finished";; mret false
  else
    upd_it (λ i, i <| m_rows_completed := u64 (m_rows_completed i + 1) |>
                   <| m_rows_group_completed := u64 (m_rows_group_completed i + 1) |>);;
    finish ← get_params inp_force_finish;
    if (finish : bool) then mret false
    else
      completed ← gets (λ s, m_rows_completed (it s));
      if (received <=? completed)%Z then
        receive_next_data false;;
        received ← gets (λ s, m_rows_received (it s));
        mret (negb (received =? 0)%Z)
      else increment_col_offsets false;; mret true.

Definition eot : run_of bool := gets (λ s, (m_rows_received (it s) =? 0)%Z).

Definition iterator_reset : run_of unit :=
  upd_it (λ i, i <| m_rows_group_completed := 1%Z |>);;
  upd_params (λ p, p <| inp_force_finish := false |>);;
  receive_next_data true.

Definition restBufferSize : run_of Z :=
  gets (λ s, if (m_rows_completed (it s) <? m_rows_received (it s))%Z
             then (m_rows_received (it s) - m_rows_completed (it s))%Z else 0%Z).

Definition rowsCompleted : run_of Z := gets (λ s, m_rows_group_completed (it s)).
Definition rowsInGroup : run_of Z := gets (λ s, m_rows_in_group (it s)) ≫= access.

(** ** The cells of the current row *)
Definition set_was_null (b : bool) : run_of unit := upd_it (λ i, i <| m_was_null := b |>).

(** The result -1 is [None]. *)
Definition check_index (index available : Z) (tp otype ts : string) : run_of (option Z) :=
  if (index <? available)%Z then mret (Some index)
  else
    i ← gets it;
    set_exception (c_str ("F-UDF-CL-LIB-1064: Internal error: not enough "
      +:+ tp +:+ otype +:+ ts +:+ " in packet: wanted index " +:+ to_string index
      +:+ " but have " +:+ to_string available +:+ " elements (on "
      +:+ to_string (m_rows_received i) +:+ "/" +:+ to_string (m_rows_completed i)
      +:+ " of received/completed rows"));;
    set_was_null true;;
    mret None.

Definition check_value (col : nat) (available : Z) (otype : string) : run_of (option Z) :=
  set_was_null false;;
  i ← gets it;
  table ← next_table;
  index ← check_index (s64 (m_column_count i * m_rows_completed i + Z.of_nat col))
            (zlength (td_nulls table)) "nulls for " otype "";
  match index with
  | None => mret None
  | Some index =>
      null ← access (zlookup (td_nulls table) (s32 index));
      set_was_null null;;
      if (null : bool) then mret None
      else
        offset ← access (m_col_offsets i !! col);
        check_index (s64 offset) available "" otype "s"
  end.

(** The two checks at the start of every getter *)
Definition check_input (col : nat) (expected : SWIGVM_datatype_e) (missing wrong : string) :
  run_of bool :=
  types ← m_types;
  match types !! col with
  | None =>
      set_exception (missing +:+ ": Input column " +:+ to_string (Z.of_nat col)
                     +:+ " does not exist");;
      set_was_null true;; mret false
  | Some t =>
      if decide (ct_type t = expected) then mret true
      else
        got ← access (convert_type_to_string (datatype_num (ct_type t)));
        set_exception (wrong +:+ got);; set_was_null true;; mret false
  end.

(** A getter: the checks, the index of the value, the value; [refused] and
    [if_null] are the placeholders. *)
Definition get_value {A} (col : nat) (expected : SWIGVM_datatype_e)
  (missing wrong otype : string) (field : exascript_table_data → list A)
  (refused if_null : A) : run_of A :=
  ok ← check_input col expected missing wrong;
  if negb ok then mret refused
  else
    table ← next_table;
    index ← check_value col (zlength (field table)) otype;
    match index with
    | None => mret if_null
    | Some index => access (zlookup (field table) (s32 index))
    end.

Definition getDouble (col : nat) : run_of Z :=
  get_value col DOUBLE "E-UDF-CL-LIB-1066"
    "E-UDF-CL-LIB-1067: Wrong input column type, expected DOUBLE, got " "double"
    td_double 0%Z 0%Z.
(** The bytes behind the returned pointer; their number is what [length] gets. *)
Definition getString (col : nat) : run_of string :=
  get_value col STRING "E-UDF-CL-LIB-1068"
    "E-UDF-CL-LIB-1069: Wrong input column type, expected STRING, got " "string"
    td_string "" "".
Definition getInt32 (col : nat) : run_of Z :=
  get_value col INT32 "E-UDF-CL-LIB-1070"
    "E-UDF-CL-LIB-1071: Wrong input column type, expected INT32, got " "int32"
    td_int32 0%Z 0%Z.
Definition getInt64 (col : nat) : run_of Z :=
  get_value col INT64 "E-UDF-CL-LIB-1072"
    "E-UDF-CL-LIB-1073: Wrong input column type, expected INT64, got " "int64"
    td_int64 0%Z 0%Z.
Definition getNumeric (col : nat) : run_of string :=
  s ← get_value col NUMERIC "E-UDF-CL-LIB-1074"
    "E-UDF-CL-LIB-1075: Wrong input column type, expected NUMERIC, got " "string"
    td_string "" "0"; mret (c_str s).
Definition getTimestamp (col : nat) : run_of string :=
  s ← get_value col TIMESTAMP "E-UDF-CL-LIB-1076"
    "E-UDF-CL-LIB-1077: Wrong input column type, expected TIMESTAMP, got " "string"
    td_string "" "1970-01-01 00:00:00.00 0000"; mret (c_str s).
Definition getDate (col : nat) : run_of string :=
  s ← get_value col DATE "E-UDF-CL-LIB-1078"
    "E-UDF-CL-LIB-1079: Wrong input column type, expected DATE, got " "string"
    td_string "" "1970-01-01"; mret (c_str s).
(** The placeholder of a refused column is a string literal, that is true. *)
Definition getBoolean (col : nat) : run_of bool :=
  get_value col BOOLEAN "E-UDF-CL-LIB-1080"
    "E-UDF-CL-LIB-1081: Wrong input column type, expected BOOLEAN, got " "bool"
    td_bool true false.

Definition wasNull : run_of bool := gets (λ s, m_was_null (it s)).
End iterator.

(** ** The iterator on a row of a table *)
Section at_row.
Context `{Codec}.
Context (types : list SWIGVM_columntype_t) (rows : list row).

(** The message in hand stands for [rows], and row [k] is the current one: the
    counters cover the cells up to the end of row [k], and the offset of each
    column leads to its value in that row. *)
Record at_row (k : nat) (s : machine) : Prop := {
  ar_types : inp_types (params (glob s)) = types;
  ar_encodes : encodes (rp_next (m_next_response (it s))) rows;
  ar_columns : m_column_count (it s) = zlength types;
  ar_received : m_rows_received (it s) = zlength rows;
  ar_completed : m_rows_completed (it s) = Z.of_nat k;
  ar_number : rows.*1 !! k = Some (m_current_row (it s));
  ar_offsets_length : length (m_col_offsets (it s)) = length types;
  ar_counters : ∀ st, vpr_get st (m_values_per_row (it s)) =
    zlength (filter (stored_in st) (all_cells (take (S k) rows)));
  ar_offsets : ∀ r c x st, rows !! k = Some r → r.2 !! c = Some x →
    cell_storage x = Some st →
    m_col_offsets (it s) !! c =
      Some (zlength (filter (stored_in st) (cells_before rows k c)));
}.

(** The rows fit the columns, and their number stays within the range of [int]. *)
Record rows_fit : Prop := {
  rf_fits : Forall (row_fits types) rows;
  rf_cells : (zlength rows * zlength types < 2 ^ 31)%Z;
  rf_rows : (zlength rows < 2 ^ 31)%Z;
}.
Hypothesis (Hfit : rows_fit).

Lemma row_of k : k < length rows → ∃ r, rows !! k = Some r ∧ Forall2 cell_fits types r.2.
Proof.
  intros [r Hr]%lookup_lt_is_Some. exists r. split; [done|].
  pose proof (rf_fits Hfit) as Hf. rewrite Forall_lookup in Hf. by apply Hf in Hr.
Qed.

Lemma cell_of k r c :
  rows !! k = Some r → c < length types → ∃ t x, types !! c = Some t ∧
    r.2 !! c = Some x ∧ cell_fits t x.
Proof.
  intros Hk Hc. pose proof (lookup_lt_Some _ _ _ Hk) as Hlt.
  destruct (row_of k Hlt) as (r' & Hk' & Hf). simplify_eq.
  apply lookup_lt_is_Some in Hc as [t Ht].
  destruct (Forall2_lookup_l _ _ _ _ _ Hf Ht) as (x & Hx & Hfx). eauto.
Qed.

(** Positions fit the [int] index of a repeated field. *)
Lemma null_index_small k c :
  k < length rows → c < length types →
  s32 (Z.of_nat (k * length types + c)) = Z.of_nat (k * length types + c).
Proof.
  intros Hk Hc. apply s32_small. destruct Hfit as [_ Hcells _]. unfold zlength in Hcells.
  nia.
Qed.

Lemma null_lookup s k r c x :
  encodes (rp_next (m_next_response (it s))) rows →
  rows !! k = Some r → r.2 !! c = Some x → c < length types →
  zlookup (td_nulls (rp_next (m_next_response (it s))))
    (s32 (Z.of_nat (k * length types + c))) = Some (cell_null x).
Proof.
  intros He Hk Hx Hc. rewrite null_index_small; [|by eapply lookup_lt_Some|done].
  rewrite zlookup_nat. by eapply encodes_null; [..|apply Hfit| |].
Qed.

(** The loop over the columns from column [c] on *)
Record assigned (k c : nat) (s : machine) : Prop := {
  as_length : length (m_col_offsets (it s)) = length types;
  as_counters : ∀ st, vpr_get st (m_values_per_row (it s)) =
    zlength (filter (stored_in st) (cells_before rows k c));
  as_offsets : ∀ r c' x st, rows !! k = Some r → r.2 !! c' = Some x → c' < c →
    cell_storage x = Some st →
    m_col_offsets (it s) !! c' =
      Some (zlength (filter (stored_in st) (cells_before rows k c')));
}.

Definition with_offsets (o : list Z) (v : values_per_row_t) (s : machine) : machine :=
  s <| it := (it s) <| m_col_offsets := o |> <| m_values_per_row := v |> |>.

Lemma vpr_get_incr st st' v :
  (0 ≤ vpr_get st v < 2 ^ 64 - 1)%Z →
  vpr_get st' (vpr_incr st v) =
  (if decide (st' = st) then vpr_get st' v + 1 else vpr_get st' v)%Z.
Proof.
  destruct v, st, st'; simpl; intros ?; rewrite ?u64_small; try done; lia.
Qed.

Lemma filter_zlength_small k r c st :
  rows !! k = Some r → c ≤ length types →
  (0 ≤ zlength (filter (stored_in st) (cells_before rows k c)) < 2 ^ 31)%Z.
Proof.
  intros Hk Hc. pose proof (length_filter (stored_in st) (cells_before rows k c)) as Hle.
  rewrite (cells_before_length types _ _ _ _ (rf_fits Hfit) Hk Hc) in Hle.
  apply lookup_lt_Some in Hk. destruct Hfit as [_ Hcells _]. unfold zlength in *. nia.
Qed.

Lemma assign_step_null k r c x s :
  rows !! k = Some r → r.2 !! c = Some x → cell_null x = true →
  assigned k c s → assigned k (S c) s.
Proof.
  intros Hk Hx Hn [Hl Hc Ho]. destruct x; simplify_eq/=. split; [done|..].
  - intros st. rewrite Hc, (cells_before_step _ _ _ _ _ Hk Hx), filter_app. simpl.
    by rewrite app_nil_r.
  - intros r' c' x' st Hk' Hx' Hlt Hst. simplify_eq.
    destruct (decide (c' = c)) as [->|]; [by simplify_eq|].
    eapply Ho; try done. lia.
Qed.

Lemma assign_step_value k r c x st s :
  rows !! k = Some r → r.2 !! c = Some x → cell_storage x = Some st → c < length types →
  assigned k c s →
  assigned k (S c) (with_offsets
    (<[c := vpr_get st (m_values_per_row (it s))]> (m_col_offsets (it s)))
    (vpr_incr st (m_values_per_row (it s))) s).
Proof.
  intros Hk Hx Hst Hlt [Hl Hc Ho]. split; simpl.
  - by rewrite length_insert.
  - intros st'. rewrite vpr_get_incr.
    2:{ rewrite Hc. pose proof (filter_zlength_small k r c st Hk). lia. }
    rewrite !Hc, (cells_before_step _ _ _ _ _ Hk Hx), filter_app. unfold zlength.
    rewrite length_app. case_decide as Hd.
    + subst. rewrite (filter_cons_True _ x) by done. simpl. lia.
    + rewrite (filter_cons_False _ x) by (unfold stored_in; congruence). simpl. lia.
  - intros r' c' x' st' Hk' Hx' Hlt' Hst'. simplify_eq.
    destruct (decide (c' = c)) as [->|Hne].
    + simplify_eq. rewrite list_lookup_insert_eq by lia. by rewrite Hc.
    + rewrite list_lookup_insert_ne by done. eapply Ho; try done. lia.
Qed.

(** The loop covers the rest of the row. *)
Lemma assign_col_offsets_run k r n c s :
  rows !! k = Some r → c + n = length types →
  inp_types (params (glob s)) = types →
  encodes (rp_next (m_next_response (it s))) rows → assigned k c s →
  ∃ o v, assign_col_offsets (drop c types) c (Z.of_nat (k * length types + c)) s
         = (Ret tt, with_offsets o v s) ∧
    assigned k (length types) (with_offsets o v s).
Proof.
  intros Hk. revert c s. induction n as [|n IH]; intros c s Hcn Hty He Has.
  { rewrite drop_ge by lia. replace (length types) with c by lia.
    exists (m_col_offsets (it s)), (m_values_per_row (it s)).
    replace (with_offsets _ _ s) with s; [by split|]. by destruct s as [? ? ? [] ? ?]. }
  assert (c < length types) as Hc by lia.
  destruct (cell_of k r c Hk Hc) as (t & x & Ht & Hx & [[st Hst] Hfx]).
  rewrite (drop_S _ _ _ Ht). simpl. unfold next_table. run_simpl.
  erewrite (run_bind_access _ (cell_null x)) by by eapply null_lookup.
  replace (Z.of_nat (k * length types + c) + 1)%Z
    with (Z.of_nat (k * length types + S c)) by lia.
  destruct (cell_null x) eqn:Hn.
  { apply IH; [lia|done|done|]. by eapply assign_step_null. }
  rewrite Hst. run_simpl.
  destruct Hfx as [->|Hfx]; [done|]. rewrite Hst in Hfx.
  pose proof (assign_step_value _ _ _ _ _ _ Hk Hx Hfx Hc Has) as Has'.
  unfold set_col_offset. run_simpl. rewrite (as_length _ _ _ Has), decide_True by done.
  unfold upd_it. run_simpl.
  destruct (IH (S c) (with_offsets
    (<[c := vpr_get st (m_values_per_row (it s))]> (m_col_offsets (it s)))
    (vpr_incr st (m_values_per_row (it s))) s)) as (o & v & Hr & Ho); [lia|done..|].
  exists o, v. by split.
Qed.

(** The check for enough null flags passes. *)
Lemma enough_nulls k s :
  k < length rows → encodes (rp_next (m_next_response (it s))) rows →
  s64 (Z.of_nat k * zlength types) = Z.of_nat (k * length types + 0) ∧
  (zlength (td_nulls (rp_next (m_next_response (it s)))) <=?
    s64 (s64 (Z.of_nat k * zlength types) + s64 (zlength types) - 1))%Z = false.
Proof.
  intros Hlt He. destruct Hfit as [Hf Hcells _]. unfold zlength in *.
  assert (s64 (Z.of_nat k * Z.of_nat (length types)) = Z.of_nat (k * length types + 0)) as Hk.
  { rewrite s64_small; nia. }
  split; [done|]. rewrite Hk, (enc_nulls _ _ He), length_fmap.
  rewrite (all_cells_length types) by done.
  apply Z.leb_gt. rewrite (s64_small (Z.of_nat (length types))) by nia.
  rewrite s64_small; nia.
Qed.

(** [increment_col_offsets] moves to row [k], from the beginning of the table or
    from the row before. *)
Lemma increment_col_offsets_run (reset : bool) k s :
  k < length rows → inp_types (params (glob s)) = types →
  encodes (rp_next (m_next_response (it s))) rows →
  m_column_count (it s) = zlength types → m_rows_received (it s) = zlength rows →
  m_rows_completed (it s) = Z.of_nat k →
  length (m_col_offsets (it s)) = length types →
  (if reset then k = 0 else ∀ st, vpr_get st (m_values_per_row (it s)) =
     zlength (filter (stored_in st) (all_cells (take k rows)))) →
  ∃ s', increment_col_offsets reset s = (Ret tt, s') ∧ at_row k s' ∧
    ∃ n o v, s' = with_offsets o v (s <| it := (it s) <| m_current_row := n |> |>).
Proof.
  intros Hlt Hty He Hcc Hrr Hrc Hlen Hreset.
  destruct (row_of k Hlt) as (r & Hk & Hf).
  unfold increment_col_offsets, next_table, upd_it. run_simpl.
  assert (zlookup (td_row_number (rp_next (m_next_response (it s))))
            (s32 (m_rows_completed (it s))) = Some r.1) as Hnum.
  { rewrite Hrc, s32_small by (destruct Hfit as [_ _ Hrows]; unfold zlength in Hrows; lia).
    by rewrite zlookup_nat, (enc_numbers _ _ He), list_lookup_fmap, Hk. }
  rewrite (run_bind_access _ _ _ _ Hnum). run_simpl.
  set (s1 := s <| it := (it s) <| m_current_row := r.1 |> |>).
  pose (s2 := if reset then with_offsets (m_col_offsets (it s)) values_per_row_reset s1 else s1).
  assert (∀ (f : unit → run_of unit),
    (when reset (modify (λ s, s <| it := (it s) <| m_values_per_row := values_per_row_reset |> |>))
     ≫= f) s1 = f tt s2) as ->.
  { intros f. unfold s2. by destruct reset. }
  assert (it s2 = (it s1) <| m_values_per_row := m_values_per_row (it s2) |> ∧
          glob s2 = glob s) as [Hit2 Hg2].
  { unfold s2. destruct reset; [done|]. by destruct s as [? ? ? [] ? ?]. }
  rewrite Hrc, Hcc. destruct (enough_nulls k s Hlt He) as [Hidx ->]. rewrite Hidx.
  assert (assigned k 0 s2) as Has.
  { split; [by rewrite Hit2| |lia]. intros st. unfold cells_before.
    rewrite list_lookup_fmap, Hk. simpl. rewrite app_nil_r. unfold s2.
    destruct reset; [subst k; by destruct st|apply Hreset]. }
  unfold m_types, get_params. run_simpl. rewrite Hg2, Hty.
  destruct (assign_col_offsets_run k r (length types) 0 s2 Hk) as (o & v & Hr & Ha);
    [lia|by rewrite Hg2|by rewrite Hit2|done|].
  rewrite drop_0 in Hr. rewrite Hr. exists (with_offsets o v s2). split; [done|].
  assert (with_offsets o v s2 = with_offsets o v s1) as ->.
  { unfold s2. by destruct reset. }
  split; [|by eexists _, o, v]. destruct Ha as [Hal Hac Hao].
  split; simpl; try done.
  - by rewrite list_lookup_fmap, Hk.
  - intros st. rewrite (cells_before_S _ _ _ Hk).
    by rewrite <-(Forall2_length _ _ _ Hf).
  - intros r' c x st Hr' Hx Hst. simplify_eq. eapply Hao; try done.
    rewrite (Forall2_length _ _ _ Hf). by eapply lookup_lt_Some.
Qed.

(** What the moves of the iterator leave alone *)
Record outside_it (s s' : machine) : Prop := {
  out_glob : glob s' = glob s;
  out_id : it_connection_id (it s') = it_connection_id (it s);
  out_rh : rh s' = rh s;
  out_vmf : vmf s' = vmf s;
  out_sup : sup s' = sup s;
}.

Lemma io_outside_it s s1 s' ws rs :
  io s s1 ws rs → glob s' = glob s1 → rh s' = rh s1 → vmf s' = vmf s1 → sup s' = sup s1 →
  it_connection_id (it s') = it_connection_id (it s) → outside_it s s'.
Proof. intros Hio ? ? ? ? ?. destruct (io_frame _ _ _ _ Hio). split; congruence. Qed.

Lemma next_in_table k s :
  at_row k s → inp_force_finish (params (glob s)) = false → S k < length rows →
  ∃ s', iterator_next s = (Ret true, s') ∧ at_row (S k) s' ∧ outside_it s s' ∧
    chan s' = chan s ∧
    m_rows_group_completed (it s') = u64 (m_rows_group_completed (it s) + 1).
Proof.
  intros Har Hff Hlt. pose proof (rf_rows Hfit) as Hrows. unfold zlength in Hrows.
  unfold iterator_next. run_simpl. rewrite (ar_received _ _ Har).
  rewrite (proj2 (Z.eqb_neq _ _)) by (unfold zlength; lia).
  unfold upd_it, get_params. run_simpl. rewrite Hff. run_simpl.
  rewrite (ar_completed _ _ Har), u64_small by lia.
  rewrite (proj2 (Z.leb_gt _ _)) by (unfold zlength; lia).
  match goal with |- context [(increment_col_offsets false ≫= _) ?s1] =>
    destruct (increment_col_offsets_run false (S k) s1) as (s' & Hr & Hat & n & o & v & ->);
      try (apply Har); [lia|simpl; lia|] end.
  rewrite (run_bind _ _ _ _ _ Hr). eexists. by split_and!.
Qed.

Lemma receive_next_data_run (reset : bool) s w v vs r :
  serves (v :: vs) s → parse v = Some r →
  serialize (mkRequest (if reset then MT_RESET else MT_NEXT) (it_connection_id (it s))
    body_none) = Some w →
  ∃ s1, io s s1 [w] [v] ∧ serves vs s1 ∧
    receive_next_data reset s = accept_table reset (s1 <| it := (it s)
      <| m_rows_received := 0%Z |> <| m_rows_completed := 0%Z |> <| m_next_response := r |> |>).
Proof.
  intros Hsrv Hp Hw.
  pose (s0 := s <| it := (it s) <| m_rows_received := 0%Z |> <| m_rows_completed := 0%Z |> |>).
  destruct (serves_exchange w v vs s0) as (s1 & s2 & Hr1 & Hr2 & Hio & Hsrv2);
    [by apply (serves_chan _ s)|].
  pose proof (sbc_it _ _ (io_frame _ _ _ _ Hio)) as Hit. simpl in Hit.
  exists (s2 <| it := it s |>). split_and!.
  - destruct Hio as [? ? ? ? ? ? []]. by split.
  - by eapply serves_chan; [|exact Hsrv2].
  - unfold receive_next_data, upd_it. run_simpl. rewrite Hw. fold s0.
    rewrite (run_bind _ _ _ _ _ Hr1), (run_bind _ _ _ _ _ Hr2). simpl. rewrite Hp.
    run_simpl. by rewrite Hit.
Qed.

Lemma receive_table_run (reset : bool) s w v vs r :
  rows ≠ [] → serves (v :: vs) s → parse v = Some r →
  serialize (mkRequest (if reset then MT_RESET else MT_NEXT) (it_connection_id (it s))
    body_none) = Some w →
  rp_connection_id r = it_connection_id (it s) →
  rp_type r = (if reset then MT_RESET else MT_NEXT) → encodes (rp_next r) rows →
  inp_types (params (glob s)) = types → m_column_count (it s) = zlength types →
  length (m_col_offsets (it s)) = length types →
  ∃ s', receive_next_data reset s = (Ret tt, s') ∧ at_row 0 s' ∧ outside_it s s' ∧
    serves vs s' ∧ sent (c_trace (chan s')) = sent (c_trace (chan s)) ++ [w] ∧
    turn s s' [w] [v] ∧ m_rows_in_group (it s') = Some (td_rows_in_group (rp_next r)) ∧
    m_rows_group_completed (it s') = m_rows_group_completed (it s).
Proof.
  intros Hne Hsrv Hp Hw Hid Hty He Htypes Hcc Hlen.
  destruct (receive_next_data_run reset s w v vs r Hsrv Hp Hw) as (s1 & Hio & Hsrv1 & ->).
  unfold accept_table, upd_it. run_simpl. rewrite Hid, Z.eqb_refl. simpl. rewrite Hty.
  destruct (io_frame _ _ _ _ Hio) as [_ Hg _ _ _].
  destruct reset; rewrite !decide_False by done; rewrite decide_True by done; run_simpl;
    (match goal with |- context [increment_col_offsets true ?s2] =>
      destruct (increment_col_offsets_run true 0 s2)
        as (s' & Hr & Hat & n & o & vv & ->); simpl; try done; [by destruct rows; simpl; try lia| | | ] end;
     [by rewrite Hg|by rewrite (enc_rows _ _ He)|];
     rewrite Hr; eexists; split_and!; try done;
     [by eapply io_outside_it|by eapply serves_chan; [|exact Hsrv1]|apply Hio
     |by eapply io_turn_after]).
Qed.

(** The end of the data *)
Lemma receive_done_run s w v vs r :
  serves (v :: vs) s → parse v = Some r →
  serialize (mkRequest MT_NEXT (it_connection_id (it s)) body_none) = Some w →
  rp_connection_id r = it_connection_id (it s) → rp_type r = MT_DONE →
  ∃ s', receive_next_data false s = (Ret tt, s') ∧ m_rows_received (it s') = 0%Z ∧
    outside_it s s' ∧ serves vs s' ∧
    sent (c_trace (chan s')) = sent (c_trace (chan s)) ++ [w] ∧ turn s s' [w] [v] ∧
    m_current_row (it s') = m_current_row (it s).
Proof.
  intros Hsrv Hp Hw Hid Hty.
  destruct (receive_next_data_run false s w v vs r Hsrv Hp Hw) as (s1 & Hio & Hsrv1 & ->).
  unfold accept_table. run_simpl. rewrite Hid, Z.eqb_refl. simpl. rewrite Hty, decide_True by done.
  eexists. split_and!; [done|done|by eapply io_outside_it| |apply Hio|by eapply io_turn_after|done].
  by eapply serves_chan; [|exact Hsrv1].
Qed.

(** ** Reading a cell *)
Definition was_null_set (b : bool) (s : machine) : machine :=
  s <| it := (it s) <| m_was_null := b |> |>.

Lemma at_row_was_null b k s : at_row k s → at_row k (was_null_set b s).
Proof. intros []. by split. Qed.

Lemma check_index_run i available tp otype ts s :
  (i < available)%Z → check_index i available tp otype ts s = (Ret (Some i), s).
Proof. intros Hi. unfold check_index. by rewrite (proj2 (Z.ltb_lt _ _) Hi). Qed.

Lemma check_value_run k r c x st otype s :
  at_row k s → rows !! k = Some r → r.2 !! c = Some x → c < length types →
  (cell_null x = true ∨ cell_storage x = Some st) →
  check_value c (zlength (table_cells st (rp_next (m_next_response (it s))))) otype s =
  (Ret (if cell_null x then None
        else Some (zlength (filter (stored_in st) (cells_before rows k c)))),
   was_null_set (cell_null x) s).
Proof.
  intros Har Hk Hx Hc Hst. pose proof (ar_encodes _ _ Har) as He.
  pose proof (lookup_lt_Some _ _ _ Hk) as Hlt.
  unfold check_value, set_was_null, upd_it, next_table. run_simpl.
  assert (s64 (m_column_count (it s) * m_rows_completed (it s) + Z.of_nat c) =
          Z.of_nat (k * length types + c)) as Hidx.
  { rewrite (ar_columns _ _ Har), (ar_completed _ _ Har).
    destruct Hfit as [_ Hcells _]. unfold zlength in *. rewrite s64_small; nia. }
  rewrite Hidx.
  pose proof (null_lookup s k r c x He Hk Hx Hc) as Hnull.
  pose proof Hnull as Hin. rewrite null_index_small in Hin by done.
  rewrite zlookup_nat in Hin. apply lookup_lt_Some in Hin.
  erewrite run_bind by (apply check_index_run; unfold zlength; lia). simpl.
  rewrite (run_bind_access _ _ _ _ Hnull). run_simpl.
  destruct (cell_null x) eqn:Hn; [done|].
  destruct Hst as [|Hst]; [done|].
  rewrite (run_bind_access _ _ _ _ (ar_offsets _ _ Har _ _ _ _ Hk Hx Hst)).
  pose proof (filter_zlength_small k r c st Hk) as Hsmall.
  rewrite s64_small by lia.
  pose proof (encodes_value _ _ _ _ _ _ _ He Hk Hx Hst) as Hv.
  apply lookup_lt_Some in Hv. apply check_index_run. unfold zlength. lia.
Qed.

Lemma get_value_run {A} (field : exascript_table_data → list A) (wrap : A → cell) st
  k r c t x expected missing wrong otype refused if_null s :
  (∀ t, table_cells st t = wrap <$> field t) → (∀ a, cell_storage (wrap a) = Some st) →
  at_row k s → rows !! k = Some r → r.2 !! c = Some x → types !! c = Some t →
  ct_type t = expected → storage_of expected = Some st →
  ∃ a, get_value c expected missing wrong otype field refused if_null s
       = (Ret a, was_null_set (cell_null x) s) ∧
    (x = CNull ∧ a = if_null ∨ x = wrap a).
Proof.
  intros Hf Hw Har Hk Hx Ht He Hst.
  pose proof (lookup_lt_Some _ _ _ Ht) as Hc.
  destruct (cell_of k r c Hk Hc) as (t' & x' & Ht' & Hx' & [_ Hfx]). simplify_eq.
  rewrite Hst in Hfx.
  assert (cell_null x = true ∨ cell_storage x = Some st) as Hor
    by (destruct Hfx as [->|]; auto).
  unfold get_value, check_input, m_types, get_params, next_table. run_simpl.
  rewrite (ar_types _ _ Har), Ht. rewrite decide_True by done. run_simpl.
  pose proof (check_value_run k r c x st otype s Har Hk Hx Hc Hor) as Hcv.
  rewrite Hf in Hcv. unfold zlength at 1 in Hcv. rewrite length_fmap in Hcv.
  rewrite (run_bind _ _ _ _ _ Hcv).
  destruct (cell_null x) eqn:Hn.
  - exists if_null. split; [done|]. left. by destruct x.
  - destruct Hor as [|Hcs]; [done|].
    pose proof (encodes_value _ _ _ _ _ _ _ (ar_encodes _ _ Har) Hk Hx Hcs) as Hv.
    rewrite Hf, list_lookup_fmap in Hv.
    destruct (field _ !! _) as [a|] eqn:Ha in Hv; simplify_eq/=.
    exists a. split; [|by right].
    pose proof (filter_zlength_small k r c st Hk) as Hsmall.
    rewrite s32_small by lia. unfold zlength. rewrite zlookup_nat.
    by rewrite (run_access_some _ _ _ Ha).
Qed.
End at_row.

(** ** Reading a whole input *)
Section scan.
Context `{Codec}.

(** How a client reads a cell of a column: the getter for its type, then
    [wasNull]. *)
Definition read_cell (t : SWIGVM_datatype_e) (col : nat) : run_of cell :=
  let read {A} (get : run_of A) (wrap : A → cell) : run_of cell :=
    v ← get; null ← wasNull; mret (if null : bool then CNull else wrap v) in
  match t with
  | DOUBLE => read (getDouble col) CDouble
  | INT32 => read (getInt32 col) CInt32
  | INT64 => read (getInt64 col) CInt64
  | NUMERIC => read (getNumeric col) CString
  | TIMESTAMP => read (getTimestamp col) CString
  | DATE => read (getDate col) CString
  | STRING => read (getString col) CString
  | BOOLEAN => read (getBoolean col) CBool
  | UNSUPPORTED | INTERVALYM | INTERVALDS | GEOMETRY => mret CNull
  end.

(** What arrives of a cell: the getters that return a C string lose what follows a
    NUL. *)
Definition cell_seen (t : SWIGVM_datatype_e) (x : cell) : cell :=
  match t, x with
  | (NUMERIC | TIMESTAMP | DATE), CString s => CString (c_str s)
  | _, x => x
  end.

Fixpoint read_cells (types : list SWIGVM_columntype_t) (col : nat) : run_of (list cell) :=
  match types with
  | [] => mret []
  | t :: types =>
      x ← read_cell (ct_type t) col;
      xs ← read_cells types (S col);
      mret (x :: xs)
  end.

Definition read_row : run_of (list cell) := types ← m_types; read_cells types 0.

(** The loop of a client that consumes its input: look at the current row, then move
    on for as long as [next] says so. *)
Fixpoint do_while {B} (body : run_of B) (fuel : nat) : run_of (list B) :=
  match fuel with
  | 0 => blocked
  | S fuel =>
      r ← body;
      more ← iterator_next;
      if (more : bool) then rs ← do_while body fuel; mret (r :: rs) else mret [r]
  end.

Definition scan (fuel : nat) : run_of (list (list cell)) := do_while read_row fuel.

Definition row_seen (types : list SWIGVM_columntype_t) (cells : list cell) : list cell :=
  zip_with (λ t x, cell_seen (ct_type t) x) types cells.

Context (types : list SWIGVM_columntype_t).

Lemma read_cell_run rows k r c t x s :
  rows_fit types rows → at_row types rows k s → rows !! k = Some r →
  r.2 !! c = Some x → types !! c = Some t →
  ∃ b, read_cell (ct_type t) c s = (Ret (cell_seen (ct_type t) x), was_null_set b s).
Proof.
  intros Hfit Har Hk Hx Ht. exists (cell_null x).
  destruct (cell_of types rows Hfit k r c Hk (lookup_lt_Some _ _ _ Ht))
    as (t' & x' & ? & ? & [[st Hst] Hfx]). simplify_eq.
  assert (∀ {A} (field : exascript_table_data → list A) wrap st m w o rf nl,
    (∀ t, table_cells st t = wrap <$> field t) → (∀ a, cell_storage (wrap a) = Some st) →
    storage_of (ct_type t) = Some st →
    ∃ a, get_value c (ct_type t) m w o field rf nl s = (Ret a, was_null_set (cell_null x) s) ∧
      (x = CNull ∧ a = nl ∨ x = wrap a)) as Hget.
  { intros. by eapply (get_value_run types rows Hfit). }
  destruct (ct_type t) eqn:Hty; simpl in *; try done;
    unfold getDouble, getInt32, getInt64, getNumeric, getTimestamp, getDate, getString,
      getBoolean.
  8: edestruct (Hget _ td_bool CBool st_bool) as (a & Hr & Ha).
  4-7: edestruct (Hget _ td_string CString st_string) as (a & Hr & Ha).
  3: edestruct (Hget _ td_int64 CInt64 st_int64) as (a & Hr & Ha).
  2: edestruct (Hget _ td_int32 CInt32 st_int32) as (a & Hr & Ha).
  1: edestruct (Hget _ td_double CDouble st_double) as (a & Hr & Ha).
  all: try done; rewrite ?run_bind_bind, (run_bind _ _ _ _ _ Hr).
  all: by destruct Ha as [[-> ->]| ->].
Qed.

Lemma was_null_same s : was_null_set (m_was_null (it s)) s = s.
Proof. by destruct s as [? ? ? [] ? ?]. Qed.

Lemma read_cells_run rows k r n c s :
  rows_fit types rows → at_row types rows k s → rows !! k = Some r →
  c + n = length types →
  ∃ b, read_cells (drop c types) c s =
    (Ret (row_seen (drop c types) (drop c r.2)), was_null_set b s).
Proof.
  intros Hfit Har Hk. revert c s Har. induction n as [|n IH]; intros c s Har Hn.
  { rewrite (drop_ge types) by lia. eexists. by rewrite was_null_same. }
  assert (c < length types) as Hc by lia.
  destruct (cell_of types rows Hfit k r c Hk Hc) as (t & x & Ht & Hx & _).
  rewrite (drop_S _ _ _ Ht), (drop_S _ _ _ Hx).
  destruct (read_cell_run rows k r c t x s Hfit Har Hk Hx Ht) as [b Hr].
  destruct (IH (S c) (was_null_set b s)) as [b' Hr']; [by apply at_row_was_null|lia|].
  exists b'. cbn [read_cells]. rewrite (run_bind _ _ _ _ _ Hr), (run_bind _ _ _ _ _ Hr').
  done.
Qed.

Lemma read_row_run rows k r s :
  rows_fit types rows → at_row types rows k s → rows !! k = Some r →
  ∃ b, read_row s = (Ret (row_seen types r.2), was_null_set b s).
Proof.
  intros Hfit Har Hk. unfold read_row, m_types, get_params. run_simpl.
  rewrite (ar_types _ _ _ _ Har).
  by apply (read_cells_run rows k r (length types) 0 s).
Qed.

(** A reply that carries the rows *)
Definition carries (id : Z) (v : wire) (rows : list row) : Prop :=
  ∃ r, parse v = Some r ∧ rp_connection_id r = id ∧ rp_type r = MT_NEXT ∧
    encodes (rp_next r) rows ∧ rows ≠ [] ∧ rows_fit types rows.

(** A reply that ends the data *)
Definition ends (id : Z) (v : wire) : Prop :=
  ∃ r, parse v = Some r ∧ rp_connection_id r = id ∧ rp_type r = MT_DONE.

(** The last row of a message: [next] asks for another one. *)
Lemma next_at_end rows k s :
  rows_fit types rows → at_row types rows k s →
  inp_force_finish (params (glob s)) = false → S k = length rows →
  ∃ s0, iterator_next s =
    (receive_next_data false;; n ← gets (λ s, m_rows_received (it s));
     mret (negb (n =? 0)%Z)) s0 ∧
    chan s0 = chan s ∧ outside_it s s0 ∧ m_column_count (it s0) = zlength types ∧
    length (m_col_offsets (it s0)) = length types ∧ m_current_row (it s0) = m_current_row (it s).
Proof.
  intros Hfit Har Hff Hk. pose proof (rf_rows _ _ Hfit) as Hrows. unfold zlength in Hrows.
  unfold iterator_next. run_simpl. rewrite (ar_received _ _ _ _ Har).
  rewrite (proj2 (Z.eqb_neq _ _)) by (unfold zlength; lia).
  unfold upd_it, get_params. run_simpl. rewrite Hff. run_simpl.
  rewrite (ar_completed _ _ _ _ Har), u64_small by lia.
  rewrite (proj2 (Z.leb_le _ _)) by (unfold zlength; lia).
  eexists. split; [done|]. split_and!; try done; apply Har.
Qed.

(** The input that is left: the rows [todo], the first of which is the current one,
    while the server is going to answer further requests with [us]. *)
Definition input_at (w : wire) (todo : list row) (us : list wire) (s : machine) : Prop :=
  serialize (mkRequest MT_NEXT (it_connection_id (it s)) body_none) = Some w ∧
  ∃ rows k batches vs vdone,
    rows_fit types rows ∧ at_row types rows k s ∧ k < length rows ∧
    todo = drop k rows ++ concat batches ∧ us = vs ++ [vdone] ∧
    Forall2 (carries (it_connection_id (it s))) vs batches ∧
    ends (it_connection_id (it s)) vdone.

Definition input_state (w : wire) (todo : list row) (us : list wire) (s : machine) : Prop :=
  match todo with
  | [] => m_rows_received (it s) = 0%Z ∧ us = []
  | _ => input_at w todo us s
  end.

Lemma at_row_ext rows k b s s' :
  glob s' = glob s → it s' = (it s) <| m_was_null := b |> →
  at_row types rows k s → at_row types rows k s'.
Proof. intros Hg Hi []. split; rewrite ?Hg, ?Hi; done. Qed.

Lemma input_at_ext w todo us b s s' :
  glob s' = glob s → it s' = (it s) <| m_was_null := b |> →
  input_at w todo us s → input_at w todo us s'.
Proof.
  intros Hg Hi (Hw & rows & k & batches & vs & vdone & Hfit & Har & Hx).
  unfold input_at. rewrite Hi. split; [done|]. exists rows, k, batches, vs, vdone.
  split; [done|]. split; [by eapply at_row_ext|done].
Qed.

Lemma input_at_current w r todo us s :
  input_at w (r :: todo) us s →
  ∃ rows k, rows_fit types rows ∧ at_row types rows k s ∧ rows !! k = Some r.
Proof.
  intros (_ & rows & k & batches & vs & vdone & Hfit & Har & Hk & Htodo & _).
  destruct (row_of types rows Hfit k Hk) as (r' & Hr & _). exists rows, k.
  rewrite (drop_S _ _ _ Hr) in Htodo. simpl in Htodo. by simplify_eq.
Qed.

(** The last row of a message is done with: the next message, or the end *)
Lemma receive_next_run w batches vs vdone u us rest s :
  serialize (mkRequest MT_NEXT (it_connection_id (it s)) body_none) = Some w →
  Forall2 (carries (it_connection_id (it s))) vs batches →
  ends (it_connection_id (it s)) vdone → vs ++ [vdone] = u :: us → serves (u :: rest) s →
  inp_types (params (glob s)) = types → m_column_count (it s) = zlength types →
  length (m_col_offsets (it s)) = length types →
  ∃ s', receive_next_data false s = (Ret tt, s') ∧
    input_state w (concat batches) us s' ∧ outside_it s s' ∧ turn s s' [w] [u] ∧
    serves rest s' ∧
    ((m_rows_received (it s') =? 0)%Z = match concat batches with [] => true | _ => false end) ∧
    (concat batches = [] → m_current_row (it s') = m_current_row (it s)).
Proof.
  intros Hw Hb Hend Hus Hsrv Hty Hcc Hlen.
  destruct Hb as [|v rows vs batches (m & Hp & Hmid & Hmty & Henc & Hne & Hfit) Hb];
    simpl in Hus; injection Hus as <- <-.
  - destruct Hend as (m & Hp & Hmid & Hmty).
    destruct (receive_done_run s w vdone rest m Hsrv Hp Hw Hmid Hmty)
      as (s' & Hrec & Hrr & Hout & Hsrv' & _ & Htu & Hcur).
    exists s'. split_and!; try done. by rewrite Hrr.
  - destruct (receive_table_run types rows Hfit false s w v rest m)
      as (s' & Hrec & Hat & Hout & Hsrv' & _ & Htu & _); try done.
    pose proof (out_id _ _ Hout) as Hid.
    exists s'. destruct rows as [|r rows]; [done|]. simpl concat.
    split_and!; try done.
    + simpl. unfold input_at. rewrite Hid. split; [done|].
      exists (r :: rows), 0, batches, vs, vdone. split_and!; try done. simpl. lia.
    + by rewrite (ar_received _ _ _ _ Hat).
Qed.

(** One move of the iterator *)
Lemma iterator_advance w r todo us rest s :
  input_at w (r :: todo) us s → inp_force_finish (params (glob s)) = false →
  serves (us ++ rest) s →
  ∃ s' us1 us2, us = us1 ++ us2 ∧
    iterator_next s = (Ret (match todo with [] => false | _ => true end), s') ∧
    input_state w todo us2 s' ∧ outside_it s s' ∧
    turn s s' (replicate (length us1) w) us1 ∧ serves (us2 ++ rest) s' ∧
    (todo = [] → m_current_row (it s') = m_current_row (it s)).
Proof.
  intros (Hw & rows & k & batches & vs & vdone & Hfit & Har & Hk & Htodo & -> & Hb & Hend) Hff Hsrv.
  destruct (row_of types rows Hfit k Hk) as (r' & Hr & _).
  rewrite (drop_S _ _ _ Hr) in Htodo. simpl in Htodo. injection Htodo as -> ->.
  rewrite <-app_assoc in Hsrv. simpl in Hsrv.
  destruct (decide (S k = length rows)) as [Hlast|Hnlast].
  - rewrite drop_ge by lia.
    destruct (next_at_end rows k _ Hfit Har Hff Hlast) as (s0 & Hn & Hc & Hout0 & Hcc & Hlen & Hcur0).
    pose proof (out_id _ _ Hout0) as Hid0. pose proof (out_glob _ _ Hout0) as Hg0.
    destruct (vs ++ [vdone]) as [|u us2] eqn:Hus; [by destruct vs|].
    assert (serves (u :: us2 ++ rest) s0) as Hsrv0.
    { apply (serves_chan _ s); [done|]. change (u :: us2 ++ rest) with ((u :: us2) ++ rest).
      by rewrite <-Hus, <-app_assoc. }
    destruct (receive_next_run w batches vs vdone u us2 (us2 ++ rest) s0)
      as (s' & Hrec & Hin & Hout & Htu & Hsrv' & Hrr & Hcur);
      rewrite ?Hid0, ?Hg0; try done; [apply Har|].
    exists s', [u], us2. simpl. split_and!; try done.
    + rewrite Hn. rewrite (run_bind _ _ _ _ _ Hrec). run_simpl. rewrite Hrr.
      by destruct (concat batches).
    + destruct Hout0, Hout. split; congruence.
    + eapply turn_same_chan; [exact Hc|apply Hout0|done|exact Htu].
    + intros Hnil. rewrite <-Hcur0. by apply Hcur.
  - destruct (next_in_table types rows Hfit k s Har Hff) as (s' & Hn & Hat & Hout & Hc & _);
      [lia|].
    exists s', [], (vs ++ [vdone]). simpl. rewrite <-app_assoc.
    assert (S k < length rows) as Hk' by lia.
    destruct (lookup_lt_is_Some_2 _ _ Hk') as [r2 Hr2].
    rewrite (drop_S _ _ _ Hr2). simpl. split_and!; try done.
    + unfold input_at. rewrite (out_id _ _ Hout). split; [done|].
      exists rows, (S k), batches, vs, vdone. split_and!; try done.
      by rewrite (drop_S _ _ _ Hr2).
    + eapply turn_same_chan; [exact Hc|apply Hout|apply Hout|apply turn_refl].
    + by apply (serves_chan _ s).
Qed.

Lemma outside_it_trans s1 s2 s3 : outside_it s1 s2 → outside_it s2 s3 → outside_it s1 s3.
Proof. intros [] []. split; congruence. Qed.

Lemma outside_was_null b s : outside_it s (was_null_set b s).
Proof. by split. Qed.

(** A body that only looks: it computes [g] of the current row, for globals that
    satisfy [G]. *)
Definition looks {B} (G : Global → Prop) (body : run_of B) (g : row → B) : Prop :=
  ∀ rows k r s, rows_fit types rows → at_row types rows k s → rows !! k = Some r →
    G (glob s) → ∃ b, body s = (Ret (g r), was_null_set b s).

Lemma do_while_run {B} G (body : run_of B) g w fuel todo us rest s :
  looks G body g → G (glob s) → input_at w todo us s → inp_force_finish (params (glob s)) = false →
  serves (us ++ rest) s → length todo ≤ fuel →
  ∃ s', do_while body fuel s = (Ret (g <$> todo), s') ∧
    turn s s' (replicate (length us) w) us ∧ m_rows_received (it s') = 0%Z ∧
    outside_it s s' ∧ serves rest s'.
Proof.
  intros Hbody. revert todo us s.
  induction fuel as [|fuel IH]; intros [|r todo] us s HG Hin Hff Hsrv Hfuel; simpl in Hfuel; try lia.
  1,2: destruct Hin as (_ & rows & k & batches & vs & vdone & _ & _ & Hk & Htodo & _);
    apply (f_equal length) in Htodo; rewrite length_app, length_drop in Htodo;
    simpl in Htodo; lia.
  destruct (input_at_current _ _ _ _ _ Hin) as (rows & k & Hfit & Har & Hr).
  destruct (Hbody rows k r s Hfit Har Hr HG) as [b Hrow].
  cbn [do_while]. rewrite (run_bind _ _ _ _ _ Hrow).
  destruct (iterator_advance w r todo us rest (was_null_set b s))
    as (s1 & us1 & us2 & -> & Hn & Hin1 & Hout & Htu & Hsrv1 & _);
    [by eapply (input_at_ext _ _ _ b s)|done|by apply (serves_chan _ s)|].
  pose proof (outside_it_trans _ _ _ (outside_was_null b s) Hout) as Hout1.
  rewrite (run_bind _ _ _ _ _ Hn).
  destruct todo as [|r2 todo].
  - destruct Hin1 as [Hrr ->]. rewrite app_nil_r. exists s1. split_and!; try done.
    by eapply turn_same_chan; [..|exact Htu].
  - destruct (IH (r2 :: todo) us2 s1) as (s2 & Hs & Htu2 & Hrr & Hout2 & Hsrv2); try done;
      [by rewrite (out_glob _ _ Hout)|by rewrite (out_glob _ _ Hout)|simpl in *; lia|].
    rewrite (run_bind _ _ _ _ _ Hs). exists s2. split_and!; try done.
    + rewrite length_app, replicate_add.
      eapply turn_trans; [by eapply turn_same_chan; [..|exact Htu]|exact Htu2].
    + by eapply outside_it_trans.
Qed.

Lemma read_row_looks : looks (λ _, True) read_row (λ r, row_seen types r.2).
Proof. intros rows k r s ? ? ? _. by eapply read_row_run. Qed.
End scan.

(** ** Construction *)
Section construction.
Context `{Codec}.

(** The constructor prepares the object and receives the first message. *)
Definition iterator_constructed (s : machine) : machine :=
  s <| it := iterator_init (connection_id (params (glob s)))
               (zlength (inp_types (params (glob s)))) |>.

Lemma constructor_run s :
  SWIGTableIterator_Impl s = receive_next_data false (iterator_constructed s).
Proof. done. Qed.

Lemma constructed_offsets s :
  length (m_col_offsets (it (iterator_constructed s))) =
  length (inp_types (params (glob s))).
Proof.
  unfold iterator_constructed, iterator_init. cbn -[Z.to_nat].
  rewrite length_replicate. unfold zlength. lia.
Qed.

(** What a reply that brings no rows leaves behind *)
Definition no_table_reply (reset : bool) (id : Z) (m : option exascript_response) : Prop :=
  match m with
  | None => True
  | Some r => rp_connection_id r ≠ id ∨ rp_type r ≠ (if reset then MT_RESET else MT_NEXT)
  end.

(** Whether such a reply is an error: the end of the data and a close without a
    message are not. *)
Definition reply_is_error (id : Z) (m : option exascript_response) : bool :=
  match m with
  | None => true
  | Some r =>
      negb (bool_decide (rp_connection_id r = id)) ||
      negb (bool_decide (rp_type r = MT_DONE) ||
            bool_decide (rp_type r = MT_CLOSE ∧ rp_close r = None))
  end.

Lemma receive_refused_run (reset : bool) s w v vs :
  serves (v :: vs) s →
  serialize (mkRequest (if reset then MT_RESET else MT_NEXT) (it_connection_id (it s))
    body_none) = Some w →
  no_table_reply reset (it_connection_id (it s)) (parse v) →
  ∃ s', receive_next_data reset s = (Ret tt, s') ∧ m_rows_received (it s') = 0%Z ∧
    m_rows_in_group (it s') = m_rows_in_group (it s) ∧
    (if reply_is_error (it_connection_id (it s)) (parse v)
     then exthrowed (exchandler (glob s')) = true
     else exchandler (glob s') = exchandler (glob s)).
Proof.
  intros Hsrv Hw Hno.
  destruct (parse v) as [r|] eqn:Hp.
  - destruct (receive_next_data_run reset s w v vs r Hsrv Hp Hw) as (s1 & Hio & _ & ->).
    destruct (io_frame _ _ _ _ Hio) as [_ Hg _ _ _].
    unfold accept_table, reply_is_error. run_simpl. simpl in Hno.
    destruct (Z.eqb_spec (rp_connection_id r) (it_connection_id (it s))) as [Hid|Hid]; simpl.
    2:{ rewrite bool_decide_false by done. simpl. by eexists. }
    rewrite bool_decide_true by done. destruct Hno as [|Hno]; [done|].
    case_decide as Hd1; [rewrite bool_decide_true by done|rewrite bool_decide_false by done];
      simpl; [eexists; split_and!; [done..|by rewrite <-Hg]|].
    case_decide as Hd2; [|rewrite bool_decide_false by naive_solver; case_decide; [done|]];
      simpl; [|by eexists].
    destruct (rp_close r) as [msg|] eqn:Hc.
    + rewrite bool_decide_false by naive_solver. simpl. by eexists.
    + rewrite bool_decide_true by done. simpl.
      eexists. split_and!; [done..|by rewrite <-Hg].
  - pose (s0 := s <| it := (it s) <| m_rows_received := 0%Z |> <| m_rows_completed := 0%Z |> |>).
    destruct (serves_exchange w v vs s0) as (s1 & s2 & Hr1 & Hr2 & Hio & _);
      [by apply (serves_chan _ s)|].
    unfold receive_next_data, upd_it. run_simpl. rewrite Hw. fold s0.
    rewrite (run_bind _ _ _ _ _ Hr1), (run_bind _ _ _ _ _ Hr2). simpl. rewrite Hp.
    run_simpl. destruct (io_frame _ _ _ _ Hio) as [_ _ Hit _ _].
    eexists. split_and!; [done|by simpl; rewrite Hit..|done].
Qed.
End construction.

(** ** Properties *)
Section properties.
Context `{Codec}.

(** The scan of a fresh iterator; the end of the data comes back with it. *)
Lemma iterator_scan_run (rows : list row) (batches : list (list row))
  (v vdone w : wire) (vs : list wire) (fuel : nat) (s : machine) :
  let types := inp_types (params (glob s)) in
  let id := connection_id (params (glob s)) in
  inp_force_finish (params (glob s)) = false →
  serialize (mkRequest MT_NEXT id body_none) = Some w →
  carries types id v rows → Forall2 (carries types id) vs batches → ends id vdone →
  serves (v :: vs ++ [vdone]) s →
  length rows + length (concat batches) ≤ fuel →
  ∃ s', (SWIGTableIterator_Impl;; scan fuel) s =
      (Ret (row_seen types <$> (rows ++ concat batches).*2), s') ∧
    sent (c_trace (chan s')) = sent (c_trace (chan s)) ++ replicate (2 + length vs) w ∧
    eot s' = (Ret true, s').
Proof.
  intros types id Hff Hw (r & Hp & Hid & Hty & Henc & Hne & Hfit) Hb Hend Hsrv Hfuel.
  pose proof (constructed_offsets s) as Hoff. fold types in Hoff.
  destruct (receive_table_run types rows Hfit false (iterator_constructed s) w v
    (vs ++ [vdone]) r) as (s1 & Hr1 & Hat & [Hg Hid1 _ _ _] & Hsrv1 & Hsent1 & _); try done.
  { by apply (serves_chan _ s). }
  rewrite <-constructor_run in Hr1. rewrite (run_bind _ _ _ _ _ Hr1).
  destruct (do_while_run types _ read_row _ w fuel (rows ++ concat batches) (vs ++ [vdone]) [] s1
    (read_row_looks types) I) as (s2 & Hs & Htu & Hrr & _);
    rewrite ?Hg, ?app_nil_r; try done; [|by rewrite length_app|].
  { unfold input_at. rewrite Hid1. split; [done|]. exists rows, 0, batches, vs, vdone.
    split_and!; try done. destruct rows; simpl; [done|lia]. }
  exists s2. split_and!; [unfold scan; by rewrite Hs, <-list_fmap_compose| |unfold eot; run_simpl; by rewrite Hrr].
  destruct (turn_sent _ _ _ _ Htu) as [-> _]. rewrite Hsent1, length_app, Nat.add_1_r.
  simpl. by rewrite <-app_assoc.
Qed.

(** C6. Complete and exact input. When the server answers the requests of a fresh
    iterator with any sequence of messages that carry rows fitting the input
    columns and then with [MT_DONE], a client that reads every column of the
    current row and calls [next] until it says no sees exactly the rows sent, in
    order, each value in its column, with NULL where it was NULL; it issues one
    [MT_NEXT] per message, never runs out of the bounds of a message, and finds
    the iterator at the end. [fuel] need only be the number of rows. *)
Theorem iterator_scan_spec (rows : list row) (batches : list (list row))
  (v vdone w : wire) (vs : list wire) (fuel : nat) (s : machine) :
  let types := inp_types (params (glob s)) in
  let id := connection_id (params (glob s)) in
  inp_force_finish (params (glob s)) = false →
  serialize (mkRequest MT_NEXT id body_none) = Some w →
  carries types id v rows → Forall2 (carries types id) vs batches → ends id vdone →
  serves (v :: vs ++ [vdone]) s →
  length rows + length (concat batches) ≤ fuel →
  ∃ s', (SWIGTableIterator_Impl;; scan fuel) s =
      (Ret (row_seen types <$> (rows ++ concat batches).*2), s') ∧
    sent (c_trace (chan s')) = sent (c_trace (chan s)) ++ replicate (2 + length vs) w ∧
    eot s' = (Ret true, s').
Proof. apply iterator_scan_run. Qed.

(** Replies that bring no rows. When the reply to [MT_NEXT] or [MT_RESET]
    cannot be parsed, has the wrong connection id or the wrong type, the iterator
    is at its end afterwards; an exception is pending unless the reply was
    [MT_DONE] or a close without a message, which end the data silently. *)
Theorem receive_refused_spec (reset : bool) (w v : wire) (vs : list wire) (s : machine) :
  serves (v :: vs) s →
  serialize (mkRequest (if reset then MT_RESET else MT_NEXT) (it_connection_id (it s))
    body_none) = Some w →
  no_table_reply reset (it_connection_id (it s)) (parse v) →
  ∃ s', receive_next_data reset s = (Ret tt, s') ∧ eot s' = (Ret true, s') ∧
    (if reply_is_error (it_connection_id (it s)) (parse v)
     then exthrowed (exchandler (glob s')) = true
     else exchandler (glob s') = exchandler (glob s)).
Proof.
  intros Hsrv Hw Hno.
  destruct (receive_refused_run reset s w v vs Hsrv Hw Hno) as (s' & Hr & Hrr & _ & Hex).
  exists s'. split_and!; [done| |done]. unfold eot. run_simpl. by rewrite Hrr.
Qed.

(** [rowsInGroup] is indeterminate until a table has arrived: on an iterator
    whose first reply brought no rows, for example the [MT_DONE] of an empty input,
    it reads an uninitialised member. *)
Theorem rows_in_group_indeterminate (w v : wire) (vs : list wire) (s : machine) :
  let id := connection_id (params (glob s)) in
  serves (v :: vs) s → serialize (mkRequest MT_NEXT id body_none) = Some w →
  no_table_reply false id (parse v) →
  ∃ s', SWIGTableIterator_Impl s = (Ret tt, s') ∧ rowsInGroup s' = (Undef, s').
Proof.
  intros id Hsrv Hw Hno.
  destruct (receive_refused_run false (iterator_constructed s) w v vs)
    as (s' & Hr & _ & Hg & _); try done.
  { by apply (serves_chan _ s). }
  exists s'. split; [done|]. unfold rowsInGroup. run_simpl. by rewrite Hg.
Qed.

(** A column that does not exist. Every getter reports it: an exception is
    pending, [wasNull] is true and a placeholder is returned, which for
    [getBoolean] is true. No getter reads the message. *)
Theorem getters_missing_column (col : nat) (s : machine) :
  inp_types (params (glob s)) !! col = None →
  let refused {A} (get : run_of A) (a : A) := ∃ s', get s = (Ret a, s') ∧
    exthrowed (exchandler (glob s')) = true ∧ wasNull s' = (Ret true, s') in
  refused (getDouble col) 0%Z ∧ refused (getString col) "" ∧
  refused (getInt32 col) 0%Z ∧ refused (getInt64 col) 0%Z ∧
  refused (getNumeric col) "" ∧ refused (getTimestamp col) "" ∧
  refused (getDate col) "" ∧ refused (getBoolean col) true.
Proof.
  intros Hc refused.
  assert (∀ {A} expected missing wrong otype (field : exascript_table_data → list A) rf nl,
    ∃ s', get_value col expected missing wrong otype field rf nl s = (Ret rf, s') ∧
      exthrowed (exchandler (glob s')) = true ∧ m_was_null (it s') = true) as Hget.
  { intros. unfold get_value, check_input, m_types, get_params, set_was_null, set_exception,
      upd_glob, upd_it. run_simpl. rewrite Hc. run_simpl. by eexists. }
  unfold refused, getDouble, getString, getInt32, getInt64, getNumeric, getTimestamp,
    getDate, getBoolean, wasNull.
  split_and!;
    match goal with
    | |- context [get_value col ?e ?m ?w ?o ?f ?rf ?nl] =>
        destruct (Hget _ e m w o f rf nl) as (s' & Hr & Hex & Hn)
    end; exists s'; rewrite ?(run_bind _ _ _ _ _ Hr); run_simpl; by rewrite Hn.
Qed.
End properties.

(** ** Witnesses *)
Section witnesses.
#[local] Existing Instance plain_codec.

Definition sample_rows : list row := [(1%Z, [CInt32 7; CNull]); (2%Z, [CNull; CString "x"])].
Definition sample_table (n : Z) : exascript_table_data :=
  mkTable (Some n) 0 ["x"] [false; true; true; false] [] [7%Z] [] [] [1%Z; 2%Z].
Definition sample_next : exascript_response :=
  (response_plain MT_NEXT 5) <| rp_next := sample_table 2 |>.
Definition sample_done : exascript_response := response_plain MT_DONE 5.
Definition sample_types : list SWIGVM_columntype_t :=
  [mkColumntype INT32 "DECIMAL(4,0)" 0 4 0; mkColumntype STRING "VARCHAR(9)" 9 0 0].
Definition sample_input (sends : list send_outcome) (replies : list exascript_response) :
  machine :=
  let s := machine_init (channel_init sends (recv_true ∘ plain_reply <$> replies)) in
  s <| glob := (glob s) <| params := (params (glob s))
         <| connection_id := 5%Z |> <| inp_types := sample_types |> |> |>.

Lemma serves_sample sends replies :
  sends = replicate (length replies) send_true →
  serves (plain_reply <$> replies) (sample_input sends replies).
Proof.
  intros ->. split; [done|by intros ?%elem_of_nil|..]; cbn -[plain_reply].
  - rewrite length_fmap. induction replies as [|r rs IH]; [done|].
    exists (replicate (length rs) send_true). split; [|done].
    exists []. split; [by intros ?%elem_of_nil|done].
  - induction replies as [|r rs IH]; [done|].
    exists (recv_true ∘ plain_reply <$> rs). split; [|done].
    exists []. split; [by intros ? ?%elem_of_nil|done].
Qed.

Lemma sample_carries : carries sample_types 5 (plain_reply sample_next) sample_rows.
Proof.
  exists sample_next. split_and!; try done.
  - split; try done. by intros [].
  - split; try done. unfold sample_rows, sample_types, row_fits, cell_fits.
    repeat first [apply Forall_cons|apply Forall_nil|apply Forall2_cons|apply Forall2_nil
      |split]; simpl; eauto.
Qed.

Lemma iterator_scan_spec_witness :
  let s := sample_input [send_true; send_true] [sample_next; sample_done] in
  ∃ s', (SWIGTableIterator_Impl;; scan 2) s =
    (Ret [[CInt32 7; CNull]; [CNull; CString "x"]], s').
Proof.
  intros s.
  destruct (iterator_scan_spec sample_rows [] (plain_reply sample_next)
    (plain_reply sample_done) (plain_request MT_NEXT 5 body_none) [] 2 s) as (s' & Hr & _).
  - reflexivity.
  - reflexivity.
  - apply sample_carries.
  - constructor.
  - exists sample_done. by split_and!.
  - by apply (serves_sample _ [sample_next; sample_done]).
  - simpl. lia.
  - exists s'. exact Hr.
Defined.

Lemma receive_refused_spec_witness :
  let s := sample_input [send_true] [response_plain MT_NEXT 6] in
  ∃ s', receive_next_data true s = (Ret tt, s') ∧ exthrowed (exchandler (glob s')) = true.
Proof.
  intros s.
  destruct (receive_refused_spec true (plain_request MT_RESET 0 body_none)
    (plain_reply (response_plain MT_NEXT 6)) [] s) as (s' & Hr & _ & Hex).
  - by apply (serves_sample _ [response_plain MT_NEXT 6]).
  - reflexivity.
  - left. done.
  - exists s'. split; [exact Hr|exact Hex].
Defined.

Lemma rows_in_group_indeterminate_witness :
  let s := sample_input [send_true] [sample_done] in
  ∃ s', SWIGTableIterator_Impl s = (Ret tt, s') ∧ rowsInGroup s' = (Undef, s').
Proof.
  intros s.
  destruct (rows_in_group_indeterminate (plain_request MT_NEXT 5 body_none)
    (plain_reply sample_done) [] s) as (s' & Hr & Hu).
  - by apply (serves_sample _ [sample_done]).
  - reflexivity.
  - by right.
  - exists s'. split; [exact Hr|exact Hu].
Defined.

Lemma getters_missing_column_witness :
  let s := sample_input [] [] in ∃ s', getBoolean 2 s = (Ret true, s').
Proof.
  intros s.
  destruct (getters_missing_column 2 s eq_refl) as (_ & _ & _ & _ & _ & _ & _ & s' & Hr & _).
  exists s'. exact Hr.
Defined.
End witnesses.
