(* ===== verification/ResultHandler.v ===== *)
(** * The result handler ([impl/swig/swig_result_handler.h])

    [SWIGResultHandler_Impl]: the setters stage the cells of one row, [next]
    appends the row to the pending table message, [flush] sends the message with
    an [MT_EMIT] request. *)
From S2P Require Import Prelude SwigCommon Protocol Dto Machine SocketLowLevel RowCodec.

Open Scope string_scope.
Open Scope list_scope.
Open Scope nat_scope.

Definition SWIG_MAX_VAR_DATASIZE : Z := 4000000.

Section handler.
Context `{Codec}.

(** The referenced column types, and the table of the pending request *)
Definition out_columns : run_of (list SWIGVM_columntype_t) := get_params out_types.
Definition upd_table (f : exascript_table_data → exascript_table_data) : run_of unit :=
  upd_rh (λ h, h <| m_emit_table := f (m_emit_table h) |>).
Definition upd_rowdata (f : rowdata_t → rowdata_t) : run_of unit :=
  upd_rh (λ h, h <| m_rowdata := f (m_rowdata h) |>).
Definition add_message_size (n : Z) : run_of unit :=
  upd_rh (λ h, h <| m_message_size := u64 (m_message_size h + n) |>).

Definition SWIGResultHandler_Impl : run_of unit :=
  id ← get_params connection_id; upd_rh (λ _, handler_init id).

Definition handler_reinitialize : run_of unit :=
  upd_rh (λ h, h <| m_rows_emited := 0%Z |> <| m_message_size := 0%Z |>
                 <| m_emit_table := table_empty |> <| m_rowdata := rowdata_empty |>).

Definition rowsEmited : run_of Z := gets (λ s, m_rows_emited (rh s)).

(** The interpretation of the reply to [MT_EMIT] *)
Definition accept_emit (r : exascript_response) : run_of unit :=
  id ← gets (λ s, rh_connection_id (rh s));
  if negb (rp_connection_id r =? id)%Z then
    set_exception (c_str ("F-UDF-CL-LIB-1084: Received wrong connection id "
      +:+ to_string (rp_connection_id r) +:+ ", should be " +:+ to_string id))
  else if decide (rp_type r = MT_CLOSE) then
    match rp_close r with
    | None => set_exception "F-UDF-CL-LIB-1085: Unknown error occured"
    | Some m => set_exception (c_str m)
    end
  else if decide (rp_type r = MT_EMIT) then mret tt
  else set_exception ("F-UDF-CL-LIB-1086: Wrong response type, got "
                      +:+ message_name (rp_type r)).

Definition flush : run_of unit :=
  table ← gets (λ s, m_emit_table (rh s));
  match td_rows table with
  | None => mret tt
  | Some n =>
      when (0 <? n)%Z
        (id ← gets (λ s, rh_connection_id (rh s));
         match serialize (mkRequest MT_EMIT id (body_emit table)) with
         | None =>
             set_exception "F-UDF-CL-LIB-1082: Communication error: failed to serialize data"
         | Some w =>
             socket_send w;;
             upd_rh (λ h, h <| m_emit_table := table_empty |> <| m_message_size := 0%Z |>);;
             reply ← socket_recv false;
             match parse (default wire_empty reply) with
             | None =>
                 set_exception "F-UDF-CL-LIB-1083: Communication error: failed to parse data"
             | Some r => accept_emit r
             end
         end)
  end.

(** ** [next] *)

(** [m_rowdata.null_data[col]], which creates the entry *)
Definition null_flag (col : nat) : run_of bool :=
  d ← gets (λ s, m_rowdata (rh s));
  let null := default false (null_data d !! col) in
  upd_rowdata (λ d, d <| null_data := <[col := null]> (null_data d) |>);;
  mret null.

(** One branch of the [switch]: the staged value of the column, its size in the
    message and where it goes *)
Definition append_value {A} (staged : rowdata_t → gmap nat A) (col : nat) (missing : string)
  (size : A → Z) (add : A → exascript_table_data → exascript_table_data) : run_of bool :=
  d ← gets (λ s, m_rowdata (rh s));
  match staged d !! col with
  | None => set_exception missing;; mret false
  | Some a => add_message_size (size a);; upd_table (add a);; mret true
  end.

Definition append_column (t : SWIGVM_datatype_e) (col : nat) : run_of bool :=
  match t with
  | UNSUPPORTED =>
      set_exception "F-UDF-CL-LIB-1087: Unsupported data type found";; mret false
  | DOUBLE => append_value double_data col
      "F-UDF-CL-LIB-1088: Not enough double columns emited" (λ _, 8%Z)
      (λ v t, t <| td_double := td_double t ++ [v] |>)
  | INT32 => append_value int32_data col
      "F-UDF-CL-LIB-1089: Not enough int32 columns emited" (λ _, 4%Z)
      (λ v t, t <| td_int32 := td_int32 t ++ [v] |>)
  | INT64 => append_value int64_data col
      "F-UDF-CL-LIB-1090: Not enough int64 columns emited" (λ _, 8%Z)
      (λ v t, t <| td_int64 := td_int64 t ++ [v] |>)
  | NUMERIC | TIMESTAMP | DATE | STRING => append_value string_data col
      "F-UDF-CL-LIB-1091: Not enough string columns emited"
      (λ v, (4 + Z.of_nat (String.length v))%Z)
      (λ v t, t <| td_string := td_string t ++ [v] |>)
  | BOOLEAN => append_value bool_data col
      "F-UDF-CL-LIB-1092: Not enough boolean columns emited" (λ _, 1%Z)
      (λ v t, t <| td_bool := td_bool t ++ [v] |>)
  | INTERVALYM | INTERVALDS | GEOMETRY =>
      got ← access (convert_type_to_string (datatype_num t));
      set_exception ("F-UDF-CL-LIB-1093: Unknown data type found, got " +:+ got);;
      mret false
  end.

(** The loop over the columns: false as soon as one fails *)
Fixpoint append_columns (types : list SWIGVM_columntype_t) (col : nat) : run_of bool :=
  match types with
  | [] => mret true
  | t :: types =>
      null ← null_flag col;
      upd_table (λ t, t <| td_nulls := td_nulls t ++ [null] |>);;
      if (null : bool) then append_columns types (S col)
      else
        ok ← append_column (ct_type t) col;
        if (ok : bool) then append_columns types (S col) else mret false
  end.

Definition handler_next : run_of bool :=
  upd_rh (λ h, h <| m_rows_emited := u64 (m_rows_emited h + 1) |>);;
  types ← out_columns;
  ok ← append_columns types 0;
  if negb ok then mret false
  else
    number ← gets (λ s, m_current_row (it s));
    upd_table (λ t, t <| td_row_number := td_row_number t ++ [number] |>);;
    upd_rowdata (λ _, rowdata_empty);;
    upd_table (λ t, t <| td_rows := Some (match td_rows t with
                                          | None => 1 | Some n => u64 (n + 1) end)%Z |>
                      <| td_rows_in_group := 0%Z |>);;
    size ← gets (λ s, m_message_size (rh s));
    when (SWIG_MAX_VAR_DATASIZE <=? size)%Z
      (inp ← get_params inp_iter_type;
       out ← get_params out_iter_type;
       if decide (inp = EXACTLY_ONCE ∧ out = EXACTLY_ONCE)
       then upd_params (λ p, p <| inp_force_finish := true |>)
       else flush);;
    mret true.

(** ** The setters *)

(** The checks at the start of a setter, then the staging *)
Definition set_value (col : nat) (expected : SWIGVM_datatype_e) (missing wrong : string)
  (stage : rowdata_t → rowdata_t) : run_of unit :=
  types ← out_columns;
  match types !! col with
  | None =>
      set_exception (missing +:+ ": Output column does " +:+ to_string (Z.of_nat col)
                     +:+ " not exist")
  | Some t =>
      if decide (ct_type t = expected) then
        upd_rowdata (λ d, stage (d <| null_data := <[col := false]> (null_data d) |>))
      else
        got ← access (convert_type_to_string (datatype_num (ct_type t)));
        set_exception (wrong +:+ got)
  end.

Definition setDouble (col : nat) (v : Z) : run_of unit :=
  set_value col DOUBLE "E-UDF-CL-LIB-1094"
    "E-UDF-CL-LIB-1095: Wrong output column type, expected DOUBLE, got "
    (λ d, d <| double_data := <[col := v]> (double_data d) |>).
(** The length that comes with the pointer is not used. *)
Definition setString (col : nat) (v : string) (l : Z) : run_of unit :=
  set_value col STRING "E-UDF-CL-LIB-1096"
    "E-UDF-CL-LIB-1097: Wrong output column type, expected STRING, got "
    (λ d, d <| string_data := <[col := c_str v]> (string_data d) |>).
Definition setInt32 (col : nat) (v : Z) : run_of unit :=
  set_value col INT32 "E-UDF-CL-LIB-1098"
    "E-UDF-CL-LIB-1099: Wrong output column type, expected INT32, got "
    (λ d, d <| int32_data := <[col := v]> (int32_data d) |>).
Definition setInt64 (col : nat) (v : Z) : run_of unit :=
  set_value col INT64 "E-UDF-CL-LIB-1100"
    "E-UDF-CL-LIB-1101: Wrong output column type, expected INT64, got "
    (λ d, d <| int64_data := <[col := v]> (int64_data d) |>).
Definition setNumeric (col : nat) (v : string) : run_of unit :=
  set_value col NUMERIC "E-UDF-CL-LIB-1102"
    "E-UDF-CL-LIB-1103: Wrong output column type, expected NUMERIC, got "
    (λ d, d <| string_data := <[col := c_str v]> (string_data d) |>).
Definition setTimestamp (col : nat) (v : string) : run_of unit :=
  set_value col TIMESTAMP "E-UDF-CL-LIB-1104"
    "E-UDF-CL-LIB-1105: Wrong output column type, expected TIMESTAMP, got "
    (λ d, d <| string_data := <[col := c_str v]> (string_data d) |>).
Definition setDate (col : nat) (v : string) : run_of unit :=
  set_value col DATE "E-UDF-CL-LIB-1106"
    "E-UDF-CL-LIB-1107: Wrong output column type, expected DATE, got "
    (λ d, d <| string_data := <[col := c_str v]> (string_data d) |>).
Definition setBoolean (col : nat) (v : bool) : run_of unit :=
  set_value col BOOLEAN "E-UDF-CL-LIB-1108"
    "E-UDF-CL-LIB-1109: Wrong output column type, expected BOOLEAN, got "
    (λ d, d <| bool_data := <[col := v]> (bool_data d) |>).
(** No check of the column *)
Definition setNull (col : nat) : run_of unit :=
  upd_rowdata (λ d, d <| null_data := <[col := true]> (null_data d) |>).
End handler.

(** ** Staged rows *)

(** The cell that [next] takes for a column, if there is one *)
Definition staged_cell (d : rowdata_t) (t : SWIGVM_datatype_e) (col : nat) : option cell :=
  if default false (null_data d !! col) then Some CNull
  else
    match storage_of t with
    | Some st_double => CDouble <$> double_data d !! col
    | Some st_int32 => CInt32 <$> int32_data d !! col
    | Some st_int64 => CInt64 <$> int64_data d !! col
    | Some st_string => CString <$> string_data d !! col
    | Some st_bool => CBool <$> bool_data d !! col
    | None => None
    end.

Fixpoint staged_row (d : rowdata_t) (types : list SWIGVM_columntype_t) (col : nat) :
  list (option cell) :=
  match types with
  | [] => []
  | t :: types => staged_cell d (ct_type t) col :: staged_row d types (S col)
  end.

Definition cell_size (x : cell) : Z :=
  match x with
  | CNull => 0
  | CDouble _ => 8
  | CInt32 _ => 4
  | CInt64 _ => 8
  | CString s => 4 + Z.of_nat (String.length s)
  | CBool _ => 1
  end.

(** A table with one more cell *)
Definition add_cell (t : exascript_table_data) (x : cell) : exascript_table_data :=
  let t := t <| td_nulls := td_nulls t ++ [cell_null x] |> in
  match x with
  | CNull => t
  | CDouble v => t <| td_double := td_double t ++ [v] |>
  | CInt32 v => t <| td_int32 := td_int32 t ++ [v] |>
  | CInt64 v => t <| td_int64 := td_int64 t ++ [v] |>
  | CString v => t <| td_string := td_string t ++ [v] |>
  | CBool v => t <| td_bool := td_bool t ++ [v] |>
  end.

Definition add_cells (xs : list cell) (t : exascript_table_data) : exascript_table_data :=
  foldl add_cell t xs.

Lemma add_cells_fields xs t :
  td_nulls (add_cells xs t) = td_nulls t ++ (cell_null <$> xs) ∧
  (∀ st, table_cells st (add_cells xs t) = table_cells st t ++ filter (stored_in st) xs) ∧
  td_row_number (add_cells xs t) = td_row_number t ∧ td_rows (add_cells xs t) = td_rows t.
Proof.
  revert t. induction xs as [|x xs IH]; intros t; simpl.
  { rewrite app_nil_r. split_and!; try done. intros st. by rewrite app_nil_r. }
  destruct (IH (add_cell t x)) as (Hn & Hc & Hr & Hrr).
  split_and!.
  - rewrite Hn. destruct x; simpl; by rewrite <-app_assoc.
  - intros st. rewrite Hc. destruct x, st; simpl; rewrite ?fmap_app, <-?app_assoc; done.
  - rewrite Hr. by destruct x.
  - rewrite Hrr. by destruct x.
Qed.

(** ** The loop of [next] *)
Section next.
Context `{Codec}.

Definition cells_size (xs : list cell) : Z := foldr (λ x n, (cell_size x + n)%Z) 0%Z xs.

(** The handler in the middle of a row *)
Definition with_row (t : exascript_table_data) (size : Z) (d : rowdata_t) (s : machine) :
  machine :=
  s <| rh := (rh s) <| m_emit_table := t |> <| m_message_size := size |>
                    <| m_rowdata := d |> |>.

(** Looking up a null flag creates entries, but stages nothing. *)
Definition same_staged (d d' : rowdata_t) : Prop :=
  d' = d <| null_data := null_data d' |> ∧
  ∀ c, default false (null_data d' !! c) = default false (null_data d !! c).

Lemma staged_cell_same d d' t c :
  same_staged d d' → staged_cell d' t c = staged_cell d t c.
Proof. intros [-> Hn]. unfold staged_cell. simpl in *. by rewrite Hn. Qed.

Lemma same_staged_trans d1 d2 d3 :
  same_staged d1 d2 → same_staged d2 d3 → same_staged d1 d3.
Proof.
  intros [H1 Hn1] [H2 Hn2]. split; [|intros c; by rewrite Hn2].
  rewrite H2 at 1. by rewrite H1.
Qed.

Lemma null_flag_run col s :
  ∃ d', null_flag col s = (Ret (default false (null_data (m_rowdata (rh s)) !! col)),
      with_row (m_emit_table (rh s)) (m_message_size (rh s)) d' s) ∧
    same_staged (m_rowdata (rh s)) d'.
Proof.
  unfold null_flag, upd_rowdata, upd_rh. run_simpl. eexists. split.
  { reflexivity. }
  split; [done|]. intros c. simpl. destruct (decide (c = col)) as [->|Hne].
  - by rewrite lookup_insert_eq.
  - by rewrite lookup_insert_ne.
Qed.

Lemma append_column_run t col s :
  is_Some (storage_of t) → default false (null_data (m_rowdata (rh s)) !! col) = false →
  let s1 := s <| rh := (rh s) <| m_emit_table := (m_emit_table (rh s))
           <| td_nulls := td_nulls (m_emit_table (rh s)) ++ [false] |> |> |> in
  match staged_cell (m_rowdata (rh s)) t col with
  | Some x => append_column t col s1 =
      (Ret true, with_row (add_cell (m_emit_table (rh s)) x)
         (u64 (m_message_size (rh s) + cell_size x)) (m_rowdata (rh s)) s)
  | None => ∃ msg, append_column t col s1 = (Ret false, (set_exception msg s1).2)
  end.
Proof.
  intros [st Hst] Hnull s1. subst s1. unfold staged_cell. rewrite Hnull, Hst.
  destruct t; simplify_eq/=;
    match goal with |- context [?f (m_rowdata (rh s)) !! col] =>
      destruct (f (m_rowdata (rh s)) !! col) as [a|] eqn:Ha end; simpl;
    unfold append_value, add_message_size, upd_table, upd_rh; run_simpl; rewrite Ha;
    run_simpl; try (by eexists); by destruct s as [? ? ? ? [] ?].
Qed.

Lemma staged_row_same d d' types col :
  same_staged d d' → staged_row d' types col = staged_row d types col.
Proof.
  intros Hd. revert col. induction types as [|t types IH]; intros col; simpl; [done|].
  by rewrite IH, (staged_cell_same d d').
Qed.

Lemma u64_add a b : u64 (u64 a + b) = u64 (a + b).
Proof. unfold u64. by rewrite Zplus_mod_idemp_l. Qed.

Definition add_null_flag (null : bool) (t : exascript_table_data) : exascript_table_data :=
  t <| td_nulls := td_nulls t ++ [null] |>.

(** One column: its null flag, then its value unless it is NULL. [d1] is the staging
    area with the entry that the look-up of the flag creates. *)
Lemma append_columns_step t types col s :
  is_Some (storage_of (ct_type t)) → (0 ≤ m_message_size (rh s) < 2 ^ 64)%Z →
  ∃ d1, same_staged (m_rowdata (rh s)) d1 ∧
  match staged_cell (m_rowdata (rh s)) (ct_type t) col with
  | Some x => append_columns (t :: types) col s =
      append_columns types (S col) (with_row (add_cell (m_emit_table (rh s)) x)
        (u64 (m_message_size (rh s) + cell_size x)) d1 s)
  | None => ∃ msg, append_columns (t :: types) col s = (Ret false, (set_exception msg
      (with_row (add_null_flag false (m_emit_table (rh s))) (m_message_size (rh s)) d1 s)).2)
  end.
Proof.
  intros Hst Hsize. destruct (null_flag_run col s) as (d1 & Hr & Hd). exists d1.
  split; [done|]. cbn [append_columns]. rewrite (run_bind _ _ _ _ _ Hr).
  unfold upd_table, upd_rh. run_simpl.
  destruct (default false (null_data (m_rowdata (rh s)) !! col)) eqn:Hn.
  { unfold staged_cell. rewrite Hn, Z.add_0_r, u64_small by done. done. }
  pose proof (append_column_run (ct_type t) col
    (with_row (m_emit_table (rh s)) (m_message_size (rh s)) d1 s) Hst) as Ha.
  simpl in Ha. rewrite (staged_cell_same _ _ _ _ Hd), (proj2 Hd) in Ha.
  specialize (Ha Hn).
  destruct (staged_cell _ (ct_type t) col) as [x|].
  - by rewrite (run_bind _ _ _ _ _ Ha).
  - destruct Ha as [msg Ha]. exists msg. by rewrite (run_bind _ _ _ _ _ Ha).
Qed.

(** The whole row, or its cells up to the first column that is not staged *)
Lemma append_columns_run types col s :
  Forall (λ t, is_Some (storage_of (ct_type t))) types →
  (0 ≤ m_message_size (rh s) < 2 ^ 64)%Z →
  ∃ d', same_staged (m_rowdata (rh s)) d' ∧
  match mapM id (staged_row (m_rowdata (rh s)) types col) with
  | Some xs => append_columns types col s =
      (Ret true, with_row (add_cells xs (m_emit_table (rh s)))
         (u64 (m_message_size (rh s) + cells_size xs)) d' s)
  | None => ∃ xs size msg,
      take (S (length xs)) (staged_row (m_rowdata (rh s)) types col)
        = (Some <$> xs) ++ [None] ∧
      append_columns types col s = (Ret false, (set_exception msg
        (with_row (add_null_flag false (add_cells xs (m_emit_table (rh s)))) size d' s)).2)
  end.
Proof.
  intros Hty. revert col s. induction Hty as [|t types Ht _ IH]; intros col s Hsize.
  { exists (m_rowdata (rh s)). split; [by split; [destruct (m_rowdata _)|]|]. simpl.
    rewrite Z.add_0_r, u64_small by done. by destruct s as [? ? ? ? [] ?]. }
  destruct (append_columns_step t types col s Ht Hsize) as (d1 & Hd1 & Hstep).
  revert Hstep. generalize (append_columns (t :: types) col s). intros o Hstep.
  cbn [staged_row mapM].
  destruct (staged_cell (m_rowdata (rh s)) (ct_type t) col) as [x|] eqn:Hx; simpl.
  2:{ destruct Hstep as [msg Hstep]. exists d1. split; [done|].
      exists [], (m_message_size (rh s)), msg. rewrite take_0. by split. }
  rewrite Hstep. set (s1 := with_row _ _ d1 s).
  destruct (IH (S col) s1) as (d' & Hd' & Hrest); [apply u64_range|].
  exists d'. split; [by eapply same_staged_trans|].
  assert (m_rowdata (rh s1) = d1) as Hrd by done.
  rewrite Hrd, (staged_row_same _ _ _ _ Hd1) in Hrest.
  destruct (mapM id _) as [xs|] eqn:Hm; simpl.
  - rewrite Hrest. unfold s1, with_row. simpl. by rewrite u64_add, Z.add_assoc.
  - destruct Hrest as (xs & size & msg & Htake & Hr). exists (x :: xs), size, msg.
    split; [|by rewrite Hr].
    change (Some x :: take (S (length xs)) (staged_row (m_rowdata (rh s)) types (S col)) =
      Some x :: ((Some <$> xs) ++ [None])). by rewrite Htake.
Qed.
End next.

(** ** The pending message *)
Section pending.
Context `{Codec}.

(** The rows appended since the last flush *)
Definition pending (rows : list row) (t : exascript_table_data) : Prop :=
  rows = [] ∧ t = table_empty ∨ rows ≠ [] ∧ encodes t rows.

Definition finish_row (n : Z) (t : exascript_table_data) : exascript_table_data :=
  t <| td_row_number := td_row_number t ++ [n] |>
    <| td_rows := Some (match td_rows t with None => 1 | Some n => u64 (n + 1) end)%Z |>
    <| td_rows_in_group := 0%Z |>.

Lemma all_cells_snoc rows n xs : all_cells (rows ++ [(n, xs)]) = all_cells rows ++ xs.
Proof. unfold all_cells. rewrite fmap_app, concat_app. simpl. by rewrite app_nil_r. Qed.

Lemma pending_add_row rows t n xs :
  pending rows t → (zlength rows < 2 ^ 64 - 1)%Z →
  encodes (finish_row n (add_cells xs t)) (rows ++ [(n, xs)]).
Proof.
  intros Hp Hsmall. destruct (add_cells_fields xs t) as (Hn & Hc & Hr & Hrr).
  destruct Hp as [[-> ->]|[Hne [En Ec Er Ers]]]; split;
    rewrite ?all_cells_snoc, ?fmap_app; simpl; unfold finish_row; simpl.
  - by rewrite Hn.
  - intros st. pose proof (Hc st) as Hst. destruct st; exact Hst.
  - by rewrite Hr.
  - by rewrite Hrr.
  - by rewrite Hn, En.
  - intros st. rewrite filter_app, <-Ec, <-Hc. by destruct st.
  - by rewrite Hr, Er.
  - rewrite Hrr, Ers. f_equal. unfold zlength in *. rewrite length_app, u64_small; simpl; lia.
Qed.

Lemma pending_some rows t : pending rows t → rows ≠ [] → encodes t rows.
Proof. intros [[-> _]|[_ ?]]; done. Qed.

(** [next] with a fully staged row, whatever the pending message *)
Lemma handler_next_table xs s :
  Forall (λ t, is_Some (storage_of (ct_type t))) (out_types (params (glob s))) →
  (0 ≤ m_message_size (rh s) < 2 ^ 64)%Z →
  mapM id (staged_row (m_rowdata (rh s)) (out_types (params (glob s))) 0) = Some xs →
  ∃ s', m_emit_table (rh s') =
      finish_row (m_current_row (it s)) (add_cells xs (m_emit_table (rh s))) ∧
    m_message_size (rh s') = u64 (m_message_size (rh s) + cells_size xs) ∧
    m_rowdata (rh s') = rowdata_empty ∧
    m_rows_emited (rh s') = u64 (m_rows_emited (rh s) + 1) ∧
    rh_connection_id (rh s') = rh_connection_id (rh s) ∧
    glob s' = glob s ∧ it s' = it s ∧ chan s' = chan s ∧
    (vmf s' = vmf s ∧ sup s' = sup s ∧ td_rows_in_group (m_emit_table (rh s')) = 0%Z) ∧
    handler_next s =
      (if (SWIG_MAX_VAR_DATASIZE <=? m_message_size (rh s'))%Z then
         if decide (inp_iter_type (params (glob s)) = EXACTLY_ONCE ∧
                    out_iter_type (params (glob s)) = EXACTLY_ONCE)
         then (upd_params (λ p, p <| inp_force_finish := true |>);; mret true) s'
         else (flush;; mret true) s'
       else (Ret true, s')).
Proof.
  intros Hty Hsize Hxs.
  unfold handler_next, upd_rh at 1, out_columns, get_params. run_simpl.
  set (s0 := s <| rh := (rh s) <| m_rows_emited := u64 (m_rows_emited (rh s) + 1) |> |>).
  destruct (append_columns_run (out_types (params (glob s))) 0 s0 Hty Hsize)
    as (d' & _ & Happ).
  change (m_rowdata (rh s0)) with (m_rowdata (rh s)) in Happ. rewrite Hxs in Happ.
  rewrite (run_bind _ _ _ _ _ Happ).
  unfold upd_table, upd_rowdata, upd_rh. run_simpl.
  exists (s0 <| rh := (rh s0)
    <| m_emit_table := finish_row (m_current_row (it s)) (add_cells xs (m_emit_table (rh s))) |>
    <| m_message_size := u64 (m_message_size (rh s) + cells_size xs) |>
    <| m_rowdata := rowdata_empty |> |>).
  split_and!; try done.
  match goal with |- _ = (if ?c then _ else _) =>
    change c with (SWIG_MAX_VAR_DATASIZE <=? u64 (m_message_size (rh s) + cells_size xs))%Z
  end.
  destruct (SWIG_MAX_VAR_DATASIZE <=? _)%Z; [|done].
  unfold when. run_simpl. by case_decide.
Qed.

Lemma handler_next_run rows xs s :
  Forall (λ t, is_Some (storage_of (ct_type t))) (out_types (params (glob s))) →
  (0 ≤ m_message_size (rh s) < 2 ^ 64)%Z →
  pending rows (m_emit_table (rh s)) → (zlength rows < 2 ^ 64 - 1)%Z →
  mapM id (staged_row (m_rowdata (rh s)) (out_types (params (glob s))) 0) = Some xs →
  ∃ s', encodes (m_emit_table (rh s')) (rows ++ [(m_current_row (it s), xs)]) ∧
    m_message_size (rh s') = u64 (m_message_size (rh s) + cells_size xs) ∧
    m_rowdata (rh s') = rowdata_empty ∧
    m_rows_emited (rh s') = u64 (m_rows_emited (rh s) + 1) ∧
    rh_connection_id (rh s') = rh_connection_id (rh s) ∧
    glob s' = glob s ∧ it s' = it s ∧ chan s' = chan s ∧
    (vmf s' = vmf s ∧ sup s' = sup s ∧ td_rows_in_group (m_emit_table (rh s')) = 0%Z) ∧
    handler_next s =
      (if (SWIG_MAX_VAR_DATASIZE <=? m_message_size (rh s'))%Z then
         if decide (inp_iter_type (params (glob s)) = EXACTLY_ONCE ∧
                    out_iter_type (params (glob s)) = EXACTLY_ONCE)
         then (upd_params (λ p, p <| inp_force_finish := true |>);; mret true) s'
         else (flush;; mret true) s'
       else (Ret true, s')).
Proof.
  intros Hty Hsize Hp Hsmall Hxs.
  destruct (handler_next_table xs s Hty Hsize Hxs) as (s' & Ht & Hrest).
  exists s'. split; [|done]. rewrite Ht. by apply pending_add_row.
Qed.
End pending.

(** ** Flushing *)
Section flushing.
Context `{Codec}.

Lemma flush_empty s : td_rows (m_emit_table (rh s)) = None → flush s = (Ret tt, s).
Proof. intros Ht. unfold flush. run_simpl. by rewrite Ht. Qed.

(** The reply that [flush] accepts *)
Definition emit_accepted (id : Z) (v : wire) : bool :=
  match parse v with
  | Some r => bool_decide (rp_connection_id r = id) && bool_decide (rp_type r = MT_EMIT)
  | None => false
  end.

Lemma flush_table n w v vs s :
  td_rows (m_emit_table (rh s)) = Some n → (0 < n)%Z →
  serialize (mkRequest MT_EMIT (rh_connection_id (rh s))
    (body_emit (m_emit_table (rh s)))) = Some w →
  serves (v :: vs) s →
  ∃ s', flush s = (Ret tt, s') ∧ serves vs s' ∧
    sent (c_trace (chan s')) = sent (c_trace (chan s)) ++ [w] ∧
    rh s' = (rh s) <| m_emit_table := table_empty |> <| m_message_size := 0%Z |> ∧
    it s' = it s ∧ params (glob s') = params (glob s) ∧
    vmf s' = vmf s ∧ turn s s' [w] [v] ∧
    (if emit_accepted (rh_connection_id (rh s)) v
     then glob s' = glob s else exthrowed (exchandler (glob s')) = true).
Proof.
  intros He Hne Hw Hsrv. unfold flush. run_simpl. rewrite He.
  rewrite (proj2 (Z.ltb_lt _ _) Hne). unfold when. run_simpl.
  rewrite Hw.
  destruct (serves_send w v vs s Hsrv) as (s1 & Hr1 & Hio1 & Haw).
  rewrite (run_bind _ _ _ _ _ Hr1). unfold upd_rh. run_simpl.
  set (s1' := s1 <| rh := _ |>).
  destruct (awaits_recv v vs s1') as (s2 & Hr2 & Hio2 & Hsrv2); [by apply (awaits_chan _ _ s1)|].
  rewrite (run_bind _ _ _ _ _ Hr2). simpl. unfold emit_accepted, accept_emit.
  pose proof (turn_trans _ _ _ _ _ _ _ (io_turn_after _ _ s1' _ _ Hio1 eq_refl eq_refl eq_refl)
    (io_turn _ _ _ _ Hio2)) as Htu. simpl in Htu.
  destruct (io_frame _ _ _ _ Hio1) as [_ Hg1 Hi1 Hh1 Hv1].
  destruct (io_frame _ _ _ _ Hio2) as [_ Hg2 Hi2 Hh2 Hv2]. simpl in Hg2, Hi2, Hh2, Hv2.
  pose proof (io_sent _ _ _ _ Hio2) as Hs2. simpl in Hs2.
  rewrite app_nil_r, (io_sent _ _ _ _ Hio1) in Hs2. rewrite Hh1 in Hh2.
  assert (∀ g s', s' = s2 <| glob := g |> → serves vs s') as Hsrv'
    by (intros g s' ->; by apply (serves_chan _ s2)).
  assert (serves vs s2) by done.
  destruct (parse v) as [r|]; run_simpl.
  2:{ eexists. split_and!; try done; try (by eapply Hsrv'); try (by eapply turn_after); simpl; congruence. }
  rewrite Hh2. simpl.
  destruct (Z.eqb_spec (rp_connection_id r) (rh_connection_id (rh s))) as [Hid|Hid]; simpl.
  2:{ rewrite bool_decide_false by done.
      eexists. split_and!; try done; try (by eapply Hsrv'); try (by eapply turn_after); simpl; congruence. }
  rewrite bool_decide_true by done. simpl. case_decide as Hd1.
  { rewrite bool_decide_false by congruence.
    destruct (rp_close r); eexists; split_and!; try done; try (by eapply Hsrv'); try (by eapply turn_after); simpl; congruence. }
  case_decide as Hd2; [rewrite bool_decide_true by done|rewrite bool_decide_false by done];
    eexists; split_and!; try done; try (by eapply Hsrv'); try (by eapply turn_after); simpl; congruence.
Qed.

Lemma flush_run rows w v vs s :
  rows ≠ [] → encodes (m_emit_table (rh s)) rows →
  serialize (mkRequest MT_EMIT (rh_connection_id (rh s))
    (body_emit (m_emit_table (rh s)))) = Some w →
  serves (v :: vs) s →
  ∃ s', flush s = (Ret tt, s') ∧ serves vs s' ∧
    sent (c_trace (chan s')) = sent (c_trace (chan s)) ++ [w] ∧
    rh s' = (rh s) <| m_emit_table := table_empty |> <| m_message_size := 0%Z |> ∧
    it s' = it s ∧ params (glob s') = params (glob s) ∧
    vmf s' = vmf s ∧ turn s s' [w] [v] ∧
    (if emit_accepted (rh_connection_id (rh s)) v
     then glob s' = glob s else exthrowed (exchandler (glob s')) = true).
Proof.
  intros Hne He. apply (flush_table _ _ _ _ _ (enc_rows _ _ He)).
  destruct rows; [done|]. unfold zlength. simpl. lia.
Qed.
End flushing.

(** ** Emitting rows *)
Section emitting.
Context `{Codec}.

(** How a client stages a cell: the setter for the type of the column *)
Definition stage_cell (t : SWIGVM_datatype_e) (x : cell) (col : nat) : run_of unit :=
  match x, t with
  | CNull, _ => setNull col
  | CDouble v, _ => setDouble col v
  | CInt32 v, _ => setInt32 col v
  | CInt64 v, _ => setInt64 col v
  | CString v, NUMERIC => setNumeric col v
  | CString v, TIMESTAMP => setTimestamp col v
  | CString v, DATE => setDate col v
  | CString v, _ => setString col v (Z.of_nat (String.length v))
  | CBool v, _ => setBoolean col v
  end.

Fixpoint stage_cells (types : list SWIGVM_columntype_t) (xs : list cell) (col : nat) :
  run_of unit :=
  match types, xs with
  | t :: types, x :: xs => stage_cell (ct_type t) x col;; stage_cells types xs (S col)
  | _, _ => mret tt
  end.

Definition emit_row (xs : list cell) : run_of bool :=
  types ← out_columns; stage_cells types xs 0;; handler_next.

(** What is left of a cell: strings pass as C strings. *)
Definition cell_emitted (x : cell) : cell :=
  match x with CString s => CString (c_str s) | x => x end.

Definition with_rowdata (d : rowdata_t) (s : machine) : machine :=
  s <| rh := (rh s) <| m_rowdata := d |> |>.

Lemma stage_cell_run t x col s :
  out_types (params (glob s)) !! col = Some t → cell_fits t x →
  ∃ d', stage_cell (ct_type t) x col s = (Ret tt, with_rowdata d' s) ∧
    staged_cell d' (ct_type t) col = Some (cell_emitted x) ∧
    ∀ ty c, c ≠ col → staged_cell d' ty c = staged_cell (m_rowdata (rh s)) ty c.
Proof.
  intros Ht [[st Hst] Hx].
  assert (∀ expected missing wrong stage, ct_type t = expected →
    set_value col expected missing wrong stage s = (Ret tt, with_rowdata
      (stage ((m_rowdata (rh s)) <| null_data := <[col := false]> (null_data (m_rowdata (rh s))) |>))
      s)) as Hset.
  { intros. unfold set_value, out_columns, get_params, upd_rowdata, upd_rh. run_simpl.
    rewrite Ht, decide_True by done. run_simpl. done. }
  destruct Hx as [->|Hx].
  { eexists. split; [reflexivity|]. unfold staged_cell. simpl. split.
    - by rewrite lookup_insert_eq.
    - intros ty c Hne. by rewrite lookup_insert_ne. }
  rewrite Hst in Hx. destruct x, (ct_type t) eqn:Hty; simplify_eq/=;
    unfold setDouble, setInt32, setInt64, setNumeric, setTimestamp, setDate, setString,
      setBoolean; rewrite Hset by done; eexists; (split; [reflexivity|]);
    unfold staged_cell; simpl; rewrite !lookup_insert_eq; (split; [done|]);
    intros ty c Hne; by rewrite !lookup_insert_ne by done.
Qed.

Lemma stage_cells_run types xs col s :
  drop col (out_types (params (glob s))) = types → Forall2 cell_fits types xs →
  ∃ d', stage_cells types xs col s = (Ret tt, with_rowdata d' s) ∧
    staged_row d' types col = (Some ∘ cell_emitted <$> xs) ∧
    ∀ ty c, c < col → staged_cell d' ty c = staged_cell (m_rowdata (rh s)) ty c.
Proof.
  intros Hd Hf. revert col s Hd. induction Hf as [|t x types xs Hx _ IH]; intros col s Hd.
  { exists (m_rowdata (rh s)). by destruct s as [? ? ? ? [] ?]. }
  assert (out_types (params (glob s)) !! col = Some t) as Ht.
  { rewrite <-(Nat.add_0_r col), <-lookup_drop, Hd. done. }
  destruct (stage_cell_run t x col s Ht Hx) as (d1 & Hr1 & Hc1 & Ho1).
  destruct (IH (S col) (with_rowdata d1 s)) as (d2 & Hr2 & Hc2 & Ho2).
  { cbn [glob with_rowdata update]. rewrite (drop_S _ _ _ Ht) in Hd. by injection Hd. }
  exists d2. cbn [stage_cells]. rewrite (run_bind _ _ _ _ _ Hr1), Hr2. split_and!; [done| |].
  - cbn [staged_row]. rewrite Hc2, Ho2 by lia. simpl. by rewrite Hc1.
  - intros ty c Hlt. rewrite Ho2 by lia. simpl. apply Ho1. lia.
Qed.

Lemma mapM_id_some {A} (xs : list A) : mapM id (Some <$> xs) = Some xs.
Proof. induction xs as [|x xs IH]; [done|]. cbn [fmap list_fmap mapM]. simpl. by rewrite IH. Qed.

Lemma row_supported types xs :
  Forall2 cell_fits types xs → Forall (λ t, is_Some (storage_of (ct_type t))) types.
Proof. induction 1 as [|t x types xs [Hst _]]; by constructor. Qed.

Lemma cells_size_pos xs : (0 ≤ cells_size xs)%Z.
Proof. induction xs as [|x xs IH]; simpl; [done|]. destruct x; simpl; lia. Qed.

(** One row, while the message stays below the size at which it is sent *)
Lemma emit_row_table xs s :
  Forall2 cell_fits (out_types (params (glob s))) xs → (0 ≤ m_message_size (rh s))%Z →
  (m_message_size (rh s) + cells_size (cell_emitted <$> xs) < SWIG_MAX_VAR_DATASIZE)%Z →
  ∃ s', emit_row xs s = (Ret true, s') ∧
    m_emit_table (rh s') = finish_row (m_current_row (it s))
      (add_cells (cell_emitted <$> xs) (m_emit_table (rh s))) ∧
    m_message_size (rh s') =
      (m_message_size (rh s) + cells_size (cell_emitted <$> xs))%Z ∧
    rh_connection_id (rh s') = rh_connection_id (rh s) ∧
    glob s' = glob s ∧ it s' = it s ∧ chan s' = chan s ∧
    vmf s' = vmf s ∧ sup s' = sup s ∧ td_rows_in_group (m_emit_table (rh s')) = 0%Z.
Proof.
  intros Hf Hpos Hmax. pose proof (cells_size_pos (cell_emitted <$> xs)). unfold SWIG_MAX_VAR_DATASIZE in Hmax.
  unfold emit_row, out_columns, get_params. run_simpl.
  destruct (stage_cells_run _ xs 0 s eq_refl Hf) as (d & Hr & Hrow & _).
  rewrite drop_0 in Hr. rewrite (run_bind _ _ _ _ _ Hr).
  destruct (handler_next_table (cell_emitted <$> xs) (with_rowdata d s))
    as (s' & He & Hms & _ & _ & Hid & Hg & Hi & Hc & (Hv & Hsup & Hgrp) & Hn).
  - by eapply row_supported.
  - simpl. lia.
  - simpl. rewrite drop_0 in Hrow. rewrite Hrow, list_fmap_compose. apply mapM_id_some.
  - simpl in Hms. rewrite u64_small in Hms by lia. exists s'. rewrite Hn, Hms.
    rewrite (proj2 (Z.leb_gt _ _)) by (unfold SWIG_MAX_VAR_DATASIZE; lia). by split_and!.
Qed.

Lemma emit_row_run rows xs s :
  Forall2 cell_fits (out_types (params (glob s))) xs →
  pending rows (m_emit_table (rh s)) → (zlength rows < 2 ^ 64 - 1)%Z →
  (0 ≤ m_message_size (rh s))%Z →
  (m_message_size (rh s) + cells_size (cell_emitted <$> xs) < SWIG_MAX_VAR_DATASIZE)%Z →
  ∃ s', emit_row xs s = (Ret true, s') ∧
    encodes (m_emit_table (rh s')) (rows ++ [(m_current_row (it s), cell_emitted <$> xs)]) ∧
    m_message_size (rh s') =
      (m_message_size (rh s) + cells_size (cell_emitted <$> xs))%Z ∧
    rh_connection_id (rh s') = rh_connection_id (rh s) ∧
    glob s' = glob s ∧ it s' = it s ∧ chan s' = chan s ∧
    vmf s' = vmf s ∧ sup s' = sup s ∧ td_rows_in_group (m_emit_table (rh s')) = 0%Z.
Proof.
  intros Hf Hp Hsmall Hpos Hmax.
  destruct (emit_row_table xs s Hf Hpos Hmax) as (s' & Hr & Ht & Hrest).
  exists s'. split; [done|]. split; [|done]. rewrite Ht. by apply pending_add_row.
Qed.
End emitting.

(** ** Properties *)
Section properties.
Context `{Codec}.

(** C20. [next] appends exactly the staged row. When every column is staged with a
    value of its type or NULL, the pending message gains that row, under the
    number of the current input row; the staging area is empty again, and nothing
    else changes. Once the values collected reach 4,000,000 bytes the row is
    followed by a flush, except for a scalar function with one result, which asks
    the iterator to finish instead. *)
Theorem handler_next_spec (rows : list row) (xs : list cell) (s : machine) :
  Forall (λ t, is_Some (storage_of (ct_type t))) (out_types (params (glob s))) →
  (0 ≤ m_message_size (rh s) < 2 ^ 64)%Z →
  pending rows (m_emit_table (rh s)) → (zlength rows < 2 ^ 64 - 1)%Z →
  mapM id (staged_row (m_rowdata (rh s)) (out_types (params (glob s))) 0) = Some xs →
  ∃ s', encodes (m_emit_table (rh s')) (rows ++ [(m_current_row (it s), xs)]) ∧
    m_message_size (rh s') = u64 (m_message_size (rh s) + cells_size xs) ∧
    m_rowdata (rh s') = rowdata_empty ∧
    glob s' = glob s ∧ it s' = it s ∧ chan s' = chan s ∧
    handler_next s =
      (if (m_message_size (rh s') <? SWIG_MAX_VAR_DATASIZE)%Z then (Ret true, s')
       else if decide (inp_iter_type (params (glob s)) = EXACTLY_ONCE ∧
                       out_iter_type (params (glob s)) = EXACTLY_ONCE)
       then (Ret true, s' <| glob := (glob s') <| params :=
              (params (glob s')) <| inp_force_finish := true |> |> |>)
       else (flush;; mret true) s').
Proof.
  intros Hty Hsize Hp Hsmall Hxs.
  destruct (handler_next_run rows xs s Hty Hsize Hp Hsmall Hxs)
    as (s' & He & Hms & Hd & _ & _ & Hg & Hi & Hc & _ & Hn).
  exists s'. split_and!; try done. rewrite Hn, Z.leb_antisym.
  destruct (_ <? _)%Z; [done|]. simpl. by case_decide.
Qed.

(** [next] with a column missing. It returns false with an exception pending and
    sends nothing, but the cells before the missing one and its null flag stay in
    the pending message and the row stays staged: no sequence of rows fits the
    message any more, so whatever is flushed later is misaligned. *)
Theorem handler_next_partial_row (rows : list row) (s : machine) :
  let types := out_types (params (glob s)) in
  Forall (λ t, is_Some (storage_of (ct_type t))) types →
  (0 ≤ m_message_size (rh s) < 2 ^ 64)%Z →
  Forall (row_fits types) rows → pending rows (m_emit_table (rh s)) →
  mapM id (staged_row (m_rowdata (rh s)) types 0) = None →
  ∃ s', handler_next s = (Ret false, s') ∧
    exthrowed (exchandler (glob s')) = true ∧ chan s' = chan s ∧
    same_staged (m_rowdata (rh s)) (m_rowdata (rh s')) ∧
    ∀ rows', Forall (row_fits types) rows' → ¬ pending rows' (m_emit_table (rh s')).
Proof.
  intros types Hty Hsize Hfit Hp Hnone.
  set (s0 := s <| rh := (rh s) <| m_rows_emited := u64 (m_rows_emited (rh s) + 1) |> |>).
  destruct (append_columns_run types 0 s0 Hty Hsize) as (d' & Hd & Happ).
  change (m_rowdata (rh s0)) with (m_rowdata (rh s)) in Happ, Hd. rewrite Hnone in Happ.
  destruct Happ as (xs & size & msg & _ & Happ).
  exists (set_exception msg (with_row (add_null_flag false
    (add_cells xs (m_emit_table (rh s)))) size d' s0)).2.
  split_and!; try done.
  - unfold handler_next, upd_rh at 1, out_columns, get_params. run_simpl.
    by rewrite (run_bind _ _ _ _ _ Happ).
  - destruct (add_cells_fields xs (m_emit_table (rh s))) as (Hn & _ & Hr & Hrr).
    intros rows' Hfit' Hp'. cbn in Hp'.
    assert (td_nulls (m_emit_table (rh s)) = cell_null <$> all_cells rows ∧
            td_row_number (m_emit_table (rh s)) = rows.*1) as [Hnulls Hnum].
    { destruct Hp as [[-> ->]|[_ []]]; done. }
    assert (td_nulls (m_emit_table (rh s)) ++ (cell_null <$> xs) ++ [false] =
              cell_null <$> all_cells rows' ∧ rows.*1 = rows'.*1) as [Hnulls' Hnum'].
    { rewrite app_assoc, <-Hn, <-Hnum, <-Hr.
      destruct Hp' as [[-> Ht]|[_ [En _ Er _]]]; [|by split].
      pose proof (f_equal td_nulls Ht) as Hx. simpl in Hx. by apply app_nil in Hx as [_ ?]. }
    apply (f_equal length) in Hnulls', Hnum'. rewrite Hnulls in Hnulls'.
    rewrite !length_app, !length_fmap in Hnulls'. rewrite !length_fmap in Hnum'.
    rewrite (all_cells_length types _ Hfit), (all_cells_length types _ Hfit') in Hnulls'.
    simpl in Hnulls'. rewrite Hnum' in Hnulls'. lia.
Qed.

(** C21. [flush] sends the pending rows once. With no row pending it does nothing.
    Otherwise it sends one [MT_EMIT] request that carries exactly the pending
    message, waits for the reply and starts an empty message, whatever the reply
    is; an exception is pending afterwards unless the reply is an [MT_EMIT] for the
    right connection. *)
Theorem flush_spec (rows : list row) (w v : wire) (vs : list wire) (s : machine) :
  pending rows (m_emit_table (rh s)) →
  serialize (mkRequest MT_EMIT (rh_connection_id (rh s))
    (body_emit (m_emit_table (rh s)))) = Some w →
  serves (v :: vs) s →
  if decide (rows = []) then flush s = (Ret tt, s)
  else ∃ s', flush s = (Ret tt, s') ∧ serves vs s' ∧
    sent (c_trace (chan s')) = sent (c_trace (chan s)) ++ [w] ∧
    pending [] (m_emit_table (rh s')) ∧ m_message_size (rh s') = 0%Z ∧
    m_rowdata (rh s') = m_rowdata (rh s) ∧
    (if emit_accepted (rh_connection_id (rh s)) v
     then exchandler (glob s') = exchandler (glob s)
     else exthrowed (exchandler (glob s')) = true).
Proof.
  intros Hp Hw Hsrv. case_decide as Hd.
  - destruct Hp as [[_ Ht]|[]]; [|done]. apply flush_empty. by rewrite Ht.
  - destruct (flush_run rows w v vs s Hd (pending_some _ _ Hp Hd) Hw Hsrv)
      as (s' & Hr & Hsrv' & Hs & Hrh & _ & _ & _ & _ & Hex).
    exists s'. rewrite Hrh. split_and!; try done; [by left|].
    destruct (emit_accepted _ v); [by rewrite Hex|done].
Qed.

(** The setters check the column. A setter for a column that does not exist
    stages nothing and leaves an exception pending; [setNull] alone accepts any
    column. *)
Theorem setters_refuse (col : nat) (s : machine) :
  out_types (params (glob s)) !! col = None →
  let refused (m : run_of unit) := ∃ msg, m s = (Ret tt, (set_exception msg s).2) in
  (∀ v, refused (setDouble col v)) ∧ (∀ v l, refused (setString col v l)) ∧
  (∀ v, refused (setInt32 col v)) ∧ (∀ v, refused (setInt64 col v)) ∧
  (∀ v, refused (setNumeric col v)) ∧ (∀ v, refused (setTimestamp col v)) ∧
  (∀ v, refused (setDate col v)) ∧ (∀ v, refused (setBoolean col v)) ∧
  staged_cell (m_rowdata (rh (setNull col s).2)) STRING col = Some CNull.
Proof.
  intros Hc refused.
  assert (∀ e m w st, refused (set_value col e m w st)) as Hset.
  { intros. unfold refused, set_value, out_columns, get_params. run_simpl. rewrite Hc.
    by eexists. }
  split_and!; try (intros; apply Hset).
  unfold staged_cell. simpl. by rewrite lookup_insert_eq.
Qed.
End properties.

(** ** Witnesses *)
Section witnesses.
#[local] Existing Instance plain_codec.

Definition sample_out : list SWIGVM_columntype_t :=
  [mkColumntype INT32 "DECIMAL(4,0)" 0 4 0; mkColumntype STRING "VARCHAR(9)" 9 0 0].
Definition sample_handler (d : rowdata_t) (t : exascript_table_data) : machine :=
  let s := machine_init (channel_init [send_true]
    [recv_true (plain_reply (response_plain MT_EMIT 3))]) in
  s <| glob := (glob s) <| params := (params (glob s)) <| out_types := sample_out |> |> |>
    <| rh := (handler_init 3) <| m_rowdata := d |> <| m_emit_table := t |> |>.
Definition sample_staged : rowdata_t :=
  mkRowdata {[1 := true]} ∅ ∅ {[0 := 7%Z]} ∅ ∅.

Lemma sample_supported :
  Forall (λ t, is_Some (storage_of (ct_type t))) sample_out.
Proof. repeat constructor; by eexists. Qed.

Lemma handler_next_spec_witness :
  let s := sample_handler sample_staged table_empty in
  ∃ s', handler_next s = (Ret true, s') ∧ chan s' = chan s.
Proof.
  intros s.
  destruct (handler_next_spec [] [CInt32 7; CNull] s) as (s' & _ & Hm & _ & _ & _ & Hc & Hr).
  - apply sample_supported.
  - split; [discriminate|reflexivity].
  - by left.
  - reflexivity.
  - reflexivity.
  - exists s'. rewrite Hm in Hr. split; [exact Hr|exact Hc].
Defined.

Lemma handler_next_partial_row_witness :
  let s := sample_handler (mkRowdata ∅ ∅ ∅ {[0 := 7%Z]} ∅ ∅) table_empty in
  ∃ s', handler_next s = (Ret false, s') ∧ exthrowed (exchandler (glob s')) = true.
Proof.
  intros s.
  destruct (handler_next_partial_row [] s) as (s' & Hr & Hex & _).
  - apply sample_supported.
  - split; [discriminate|reflexivity].
  - constructor.
  - by left.
  - reflexivity.
  - exists s'. split; [exact Hr|exact Hex].
Defined.

Definition sample_pending : exascript_table_data :=
  mkTable (Some 1%Z) 0 [] [false; true] [] [7%Z] [] [] [0%Z].

Lemma flush_spec_witness :
  let s := sample_handler rowdata_empty sample_pending in
  ∃ s', flush s = (Ret tt, s') ∧
    sent (c_trace (chan s')) = [plain_request MT_EMIT 3 (body_emit sample_pending)].
Proof.
  intros s.
  pose proof (flush_spec [(0%Z, [CInt32 7; CNull])]
    (plain_request MT_EMIT 3 (body_emit sample_pending))
    (plain_reply (response_plain MT_EMIT 3)) [] s) as Hf.
  rewrite decide_False in Hf by done.
  destruct Hf as (s' & Hr & _ & Hs & _).
  - right. split; [done|]. split; try done. by intros [].
  - reflexivity.
  - split; [done|by intros ?%elem_of_nil|..].
    + exists []. split; [|done]. exists []. split; [by intros ?%elem_of_nil|done].
    + exists []. split; [|done]. exists []. split; [by intros ? ?%elem_of_nil|done].
  - exists s'. split; [exact Hr|exact Hs].
Defined.

Lemma setters_refuse_witness :
  let s := sample_handler rowdata_empty table_empty in
  ∃ msg, setInt32 2 5 s = (Ret tt, (set_exception msg s).2).
Proof.
  intros s. destruct (setters_refuse 2 s eq_refl) as (_ & _ & Hi & _). exact (Hi 5%Z).
Defined.
End witnesses.
