(* ===== verification/RoundTrip.v ===== *)
(** * From the handler to the iterator

    What a client emits through [SWIGResultHandler_Impl] another client reads
    through [SWIGTableIterator_Impl], if the server hands the table on. *)
From S2P Require Import Prelude SwigCommon Protocol Dto Machine SocketLowLevel RowCodec.
From S2P Require Import TableIterator ResultHandler.

Open Scope string_scope.
Open Scope list_scope.
Open Scope nat_scope.

Section round_trip.
Context `{Codec}.

(** Emit rows one after the other, each fully staged, as a function that emits
    does; then flush. *)
Definition emit_rows (rows : list (list cell)) : run_of unit :=
  mapM_ (λ xs, emit_row xs;; mret tt) rows.

Definition rows_size (rows : list (list cell)) : Z :=
  foldr (λ xs n, (cells_size (cell_emitted <$> xs) + n)%Z) 0%Z rows.

Lemma rows_size_pos rows : (0 ≤ rows_size rows)%Z.
Proof.
  induction rows as [|xs rows IH]; simpl; [done|].
  pose proof (cells_size_pos (cell_emitted <$> xs)). lia.
Qed.

(** The rows as they arrive in the message *)
Definition numbered (n : Z) (rows : list (list cell)) : list row :=
  (λ xs : list cell, (n, cell_emitted <$> xs)) <$> rows.

(** What a client gets of them: strings as C strings *)
Definition arrived (rows : list (list cell)) : list (list cell) :=
  (λ xs : list cell, cell_emitted <$> xs) <$> rows.

Lemma emit_rows_run rows done_rows s :
  Forall (Forall2 cell_fits (out_types (params (glob s)))) rows →
  pending done_rows (m_emit_table (rh s)) →
  (zlength done_rows + zlength rows < 2 ^ 64)%Z → (0 ≤ m_message_size (rh s))%Z →
  (m_message_size (rh s) + rows_size rows < SWIG_MAX_VAR_DATASIZE)%Z →
  ∃ s', emit_rows rows s = (Ret tt, s') ∧
    pending (done_rows ++ numbered (m_current_row (it s)) rows)
      (m_emit_table (rh s')) ∧
    rh_connection_id (rh s') = rh_connection_id (rh s) ∧
    glob s' = glob s ∧ it s' = it s ∧ chan s' = chan s.
Proof.
  revert done_rows s. induction rows as [|xs rows IH]; intros done_rows s Hf Hp Hn Hpos Hmax.
  { exists s. unfold numbered. rewrite fmap_nil, app_nil_r. by split_and!. }
  apply Forall_cons in Hf as [Hx Hf]. simpl in Hmax. unfold zlength in Hn. simpl in Hn.
  pose proof (rows_size_pos rows).
  destruct (emit_row_run done_rows xs s Hx Hp) as (s1 & Hr & He & Hms & Hid & Hg & Hi & Hc & _);
    [unfold zlength; lia|done|lia|].
  pose proof (cells_size_pos (cell_emitted <$> xs)).
  destruct (IH (done_rows ++ [(m_current_row (it s), cell_emitted <$> xs)]) s1)
    as (s2 & Hr2 & Hp2 & Hid2 & Hg2 & Hi2 & Hc2).
  - by rewrite Hg.
  - right. split; [|done]. intros [_ ?]%app_nil. done.
  - unfold zlength. rewrite length_app. simpl. lia.
  - lia.
  - lia.
  - exists s2. unfold emit_rows in *. cbn [mapM_]. rewrite run_bind_bind.
    rewrite (run_bind _ _ _ _ _ Hr), run_bind_ret, Hr2.
    split_and!; [done| |congruence..]. rewrite Hi, <-app_assoc in Hp2. done.
Qed.

Lemma cell_seen_emitted t x : cell_seen t (cell_emitted x) = cell_emitted x.
Proof. destruct t, x; simpl; by rewrite ?c_str_idemp. Qed.

Lemma row_seen_emitted types xs :
  length types = length xs → row_seen types (cell_emitted <$> xs) = cell_emitted <$> xs.
Proof.
  unfold row_seen. revert xs. induction types as [|t types IH]; intros [|x xs] Hl; simplify_eq/=; [done|].
  by rewrite cell_seen_emitted, IH.
Qed.

Lemma numbered_seen types n rows :
  Forall (Forall2 cell_fits types) rows →
  row_seen types <$> (numbered n rows).*2 = arrived rows.
Proof.
  intros Hf. unfold numbered, arrived. induction Hf as [|xs rows Hx _ IH]; [done|].
  rewrite !fmap_cons, IH. f_equal. simpl. apply row_seen_emitted. by eapply Forall2_length.
Qed.

(** The table that a client has built is the table that another one can read. *)
Lemma pending_carries types n rows v r :
  rows ≠ [] → Forall (Forall2 cell_fits types) rows →
  (zlength rows * zlength types < 2 ^ 31)%Z → (zlength rows < 2 ^ 31)%Z →
  pending (numbered n rows) (rp_next r) → parse v = Some r → rp_type r = MT_NEXT →
  carries types (rp_connection_id r) v (numbered n rows).
Proof.
  intros Hne Hf Hcells Hrows Hp Hv Ht.
  assert (numbered n rows ≠ []) as Hne' by (unfold numbered; by destruct rows).
  exists r. split_and!; try done; [by apply pending_some|]. split.
  - unfold numbered. apply Forall_fmap. eapply Forall_impl; [exact Hf|]. intros xs Hxs.
    unfold row_fits. simpl. apply Forall2_fmap_r.
    eapply Forall2_impl; [exact Hxs|]. intros t x [Hst Hx]. split; [done|].
    destruct x; simpl in *; naive_solver.
  - unfold numbered, zlength. by rewrite length_fmap.
  - unfold numbered, zlength. by rewrite length_fmap.
Qed.

(** C10. Emit and read back. Rows that fit the output columns and stay below the message
    size are sent by one [flush] as one table, and no exception arises. When a server
    hands this table to any client that has the same column types as its input, and then
    ends the data, that client, reading every column of the current row and calling
    [next] until it says no, gets the same rows back, cell by cell and in order, NULL for
    NULL, and strings up to their first NUL byte; and it finds the iterator at the end. *)
Theorem emit_read_round_trip (rows : list (list cell)) (v : wire) (vs : list wire) (s : machine) :
  let types := out_types (params (glob s)) in
  let id := connection_id (params (glob s)) in
  rows ≠ [] → Forall (Forall2 cell_fits types) rows →
  (zlength rows * zlength types < 2 ^ 31)%Z → (zlength rows < 2 ^ 31)%Z →
  (rows_size rows < SWIG_MAX_VAR_DATASIZE)%Z →
  serves (v :: vs) s → emit_accepted id v = true →
  (∀ t, is_Some (serialize (mkRequest MT_EMIT id (body_emit t)))) →
  ∃ t w s', (SWIGResultHandler_Impl;; emit_rows rows;; flush) s = (Ret tt, s') ∧
    serialize (mkRequest MT_EMIT id (body_emit t)) = Some w ∧
    sent (c_trace (chan s')) = sent (c_trace (chan s)) ++ [w] ∧
    exchandler (glob s') = exchandler (glob s) ∧
    ∀ (reader : machine) (next_w v_rows v_end : wire) (r : exascript_response) (fuel : nat),
      let id' := connection_id (params (glob reader)) in
      inp_types (params (glob reader)) = types → inp_force_finish (params (glob reader)) = false →
      serialize (mkRequest MT_NEXT id' body_none) = Some next_w →
      parse v_rows = Some r → rp_type r = MT_NEXT → rp_connection_id r = id' → rp_next r = t →
      ends id' v_end → serves [v_rows; v_end] reader → length rows ≤ fuel →
      ∃ reader', (SWIGTableIterator_Impl;; scan fuel) reader =
          (Ret (arrived rows), reader') ∧
        eot reader' = (Ret true, reader').
Proof.
  intros types id Hne Hf Hcells Hrows Hmax Hsrv Hacc Hser.
  set (s0 := s <| rh := handler_init id |>).
  destruct (emit_rows_run rows [] s0) as (s1 & Hr1 & Hp1 & Hid1 & Hg1 & Hi1 & Hc1).
  { done. }
  { by left. }
  { unfold zlength in *. simpl. lia. }
  { done. }
  { simpl. unfold SWIG_MAX_VAR_DATASIZE in *. lia. }
  simpl in Hp1. set (sent_rows := numbered (m_current_row (it s)) rows) in *.
  assert (sent_rows ≠ []) as Hne' by (unfold sent_rows, numbered; by destruct rows).
  destruct (Hser (m_emit_table (rh s1))) as [w Hw].
  destruct (flush_run sent_rows w v vs s1 Hne' (pending_some _ _ Hp1 Hne'))
    as (s2 & Hr2 & _ & Hs2 & _ & _ & _ & _ & _ & Hex2).
  { by rewrite Hid1. }
  { by apply (serves_chan _ s). }
  exists (m_emit_table (rh s1)), w, s2. split_and!.
  - unfold SWIGResultHandler_Impl, get_params, upd_rh. run_simpl.
    by rewrite (run_bind _ _ _ _ _ Hr1).
  - done.
  - by rewrite Hs2, Hc1.
  - rewrite Hid1 in Hex2. simpl in Hex2. rewrite Hacc in Hex2. by rewrite Hex2, Hg1.
  - intros reader next_w v_rows v_end r fuel id' Hty Hff Hnw Hv Ht Hid Hnext Hend Hsrv' Hfuel.
    destruct (iterator_scan_run sent_rows [] v_rows v_end next_w [] fuel reader)
      as (reader' & Hscan & _ & Heot); try done; rewrite ?Hty.
    + unfold id' in Hid. rewrite <-Hid. apply pending_carries; try done. by rewrite Hnext.
    + unfold sent_rows, numbered. rewrite length_fmap. simpl. lia.
    + exists reader'. split; [|done]. rewrite Hscan, Hty, app_nil_r. unfold sent_rows.
      by rewrite numbered_seen.
Qed.
End round_trip.

Section witnesses.
#[local] Existing Instance plain_codec.

(** The client that emits, and one that reads the table [t] *)
Definition emitting : machine :=
  let s := machine_init (channel_init [send_true]
    [recv_true (plain_reply (response_plain MT_EMIT 0))]) in
  s <| glob := (glob s) <| params := (params (glob s)) <| out_types := sample_out |> |> |>.
Definition table_reply (t : exascript_table_data) : exascript_response :=
  (response_plain MT_NEXT 5) <| rp_next := t |>.
Definition reading (t : exascript_table_data) : machine :=
  let s := sample_input [send_true; send_true] [table_reply t; sample_done] in
  s <| glob := (glob s) <| params := (params (glob s)) <| inp_types := sample_out |> |> |>.

Lemma emit_read_round_trip_witness :
  ∃ t s' reader',
    (SWIGResultHandler_Impl;; emit_rows [[CInt32 7; CString "a"]; [CNull; CString "b"]];; flush)
      emitting = (Ret tt, s') ∧
    sent (c_trace (chan s')) = [plain_request MT_EMIT 0 (body_emit t)] ∧
    (SWIGTableIterator_Impl;; scan 2) (reading t) =
      (Ret [[CInt32 7; CString "a"]; [CNull; CString "b"]], reader').
Proof.
  destruct (emit_read_round_trip [[CInt32 7; CString "a"]; [CNull; CString "b"]]
    (plain_reply (response_plain MT_EMIT 0)) [] emitting)
    as (t & w & s' & Hr & Hw & Hsent & _ & Hread).
  - discriminate.
  - repeat first [apply Forall_cons_2|apply Forall_nil_2|apply Forall2_cons_2|apply Forall2_nil_2];
      (split; [eexists; reflexivity|first [left; reflexivity|right; reflexivity]]).
  - reflexivity.
  - reflexivity.
  - reflexivity.
  - split; [reflexivity|by intros ?%elem_of_nil|..].
    + exists []. split; [|exact I]. exists []. split; [by intros ?%elem_of_nil|reflexivity].
    + exists []. split; [|exact I]. exists []. split; [by intros ? ?%elem_of_nil|reflexivity].
  - reflexivity.
  - intros t. eexists. reflexivity.
  - destruct (Hread (reading t) (plain_request MT_NEXT 5 body_none) (plain_reply (table_reply t))
      (plain_reply sample_done) (table_reply t) 2 eq_refl eq_refl eq_refl eq_refl eq_refl eq_refl
      eq_refl) as (reader' & Hscan & _).
    + exists sample_done. split; [reflexivity|]. split; reflexivity.
    + apply (serves_chan _ (sample_input [send_true; send_true] [table_reply t; sample_done]));
        [reflexivity|]. apply (serves_sample _ [table_reply t; sample_done]). reflexivity.
    + simpl. lia.
    + exists t, s', reader'. split; [exact Hr|]. split; [|exact Hscan].
      rewrite Hsent. injection Hw as <-. reflexivity.
Defined.
End witnesses.
