(* ===== verification/ClientMain.v ===== *)
(** * The main loop of the client ([vm/swig_vm.h], [impl/exaudflib_main.cc])

    A language container is a record of programs, one for each virtual method of
    class [SWIGVM]; its fields live in the machine. [attempt] is a [try] block
    whose handlers follow it: it returns the exception. The [reinit] jump, the two
    session loops and the [while] around [run_] take fuel; a loop whose fuel is
    used up counts as waiting for ever. *)
From S2P Require Import Prelude SwigCommon Protocol Dto Machine.
From S2P Require Import SocketLowLevel SocketHighLevel.

Open Scope string_scope.
Open Scope list_scope.
Open Scope nat_scope.

(** The argument of a single call, a subclass of [ScriptDTO] *)
Inductive script_dto : Type :=
  | dto_empty
  | dto_import (spec : ImportSpecification)
  | dto_export (spec : ExportSpecification)
  | dto_string (arg : StringDTO).

Section vm.
Context `{Codec}.

(** ** Class [SWIGVM] *)
Record SWIGVM : Type := mkSWIGVM {
  vm_run : run_of bool;
  vm_singleCall : single_call_function_id_e → script_dto → run_of (option string);
  vm_shutdown : run_of unit;
  vm_useZmqSocketLocks : run_of bool;
}.

Definition get_exception_msg : run_of string := gets (λ s, exception_msg (vmf s)).
Definition set_exception_msg (msg : string) : run_of unit :=
  upd_vmf (λ v, v <| exception_msg := msg |>).

Definition run_ (vm : SWIGVM) : run_of bool :=
  try_catch (vm_run vm) (λ e,
    match e with
    | SwigException what => set_exception_msg (c_str what);; mret true
    | e => throw e
    end).

Definition shutdown (vm : SWIGVM) : run_of unit := log ev_vm_shutdown;; vm_shutdown vm.

(** [vmMaker()]: the fields of the object it builds are empty when its
    constructor starts. *)
Definition make_vm (vmMaker : run_of (option SWIGVM)) : run_of (option SWIGVM) :=
  log ev_vm_make;; upd_vmf (λ _, mkVmFields "" "");; vmMaker.

(** ** The ends of the process *)
Definition delete_vm (vm : option SWIGVM) : run_of unit :=
  match vm with Some _ => log ev_vm_delete | None => mret tt end.

Definition stop_all : run_of unit :=
  log ev_socket_close;;
  stop_check_thread;;
  remote ← get_remote_client;
  if negb remote then
    cancel_check_thread;;
    name ← get_socket_file_name;
    log (ev_unlink name)
  else sleep 3.

(** [try { m } catch (…) { h }] for the three handlers of [handle_error], which
    only print *)
Definition ignoring {A} (m : run_of A) (otherwise : A) : run_of A :=
  try_catch m (λ _, mret otherwise).

(** The shutdown [handle_error] does first; the result is the message to send. *)
Definition cleanup_vm (vm : option SWIGVM) (msg : string) (shutdown_vm : bool) :
  run_of string :=
  msg ← match vm, shutdown_vm with
        | Some v, true =>
            set_exception_msg "";;
            shutdown v;;
            e ← get_exception_msg;
            mret (if str_empty e then msg
                  else "F-UDF-CL-LIB-1111: Caught exception

" +:+ msg +:+ "

 and caught another exception during cleanup

" +:+ e)
        | _, _ => mret msg
        end;
  delete_vm vm;;
  mret msg.

Definition handle_error (vm : option SWIGVM) (msg : string) (shutdown_vm : bool) :
  run_of Z :=
  msg ← ignoring (cleanup_vm vm msg shutdown_vm) msg;
  ignoring (send_close msg;; sleep 1) tt;;
  ignoring stop_all tt;;
  mret 1%Z.

(** ** The session loops *)

(** What one round of the single-call loop does: go on, leave the loop, or return
    from the function *)
Inductive loop_exit : Type := sc_continue | sc_break | sc_return (code : Z).

Definition reset_import_arg : run_of unit :=
  upd_glob (λ g, g <| singleCall_ImportSpecificationArg := ImportSpecification.default |>).
Definition reset_export_arg : run_of unit :=
  upd_glob (λ g, g <| singleCall_ExportSpecificationArg := ExportSpecification.default |>).

(** The [switch] of the single-call loop *)
Definition dispatch_call (vm : SWIGVM) (fn : single_call_function_id_e) :
  run_of (option string) :=
  match fn with
  | SC_FN_NIL => mret None
  | SC_FN_DEFAULT_OUTPUT_COLUMNS => vm_singleCall vm fn dto_empty
  | SC_FN_GENERATE_SQL_FOR_IMPORT_SPEC =>
      arg ← gets (λ s, singleCall_ImportSpecificationArg (glob s));
      massert (negb (ImportSpecification.isEmpty arg));;
      result ← vm_singleCall vm fn (dto_import arg);
      reset_import_arg;;
      mret result
  | SC_FN_GENERATE_SQL_FOR_EXPORT_SPEC =>
      arg ← gets (λ s, singleCall_ExportSpecificationArg (glob s));
      massert (negb (ExportSpecification.isEmpty arg));;
      result ← vm_singleCall vm fn (dto_export arg);
      reset_export_arg;;
      mret result
  | SC_FN_VIRTUAL_SCHEMA_ADAPTER_CALL =>
      arg ← gets (λ s, singleCall_StringArg (glob s));
      massert (negb (StringDTO_isEmpty arg));;
      vm_singleCall vm fn (dto_string arg)
  end.

(** The body of the inner [try] *)
Definition single_call_step (vm : SWIGVM) (fn : single_call_function_id_e) :
  run_of loop_exit :=
  result ← dispatch_call vm fn;
  msg ← get_exception_msg;
  if negb (str_empty msg) then
    code ← handle_error (Some vm) ("F-UDF-CL-LIB-1126: " +:+ msg) true;
    mret (sc_return code)
  else
    undefined ← gets (λ s, calledUndefinedSingleCall (vmf s));
    (if negb (str_empty undefined) then send_undefined_call undefined
     else send_return result;; mret tt);;
    ok ← send_done;
    mret (if (ok : bool) then sc_continue else sc_break).

Fixpoint single_call_loop (fuel : nat) (vm : SWIGVM) : run_of (option Z) :=
  match fuel with
  | 0 => blocked
  | S fuel =>
      ok ← send_run;
      if (ok : bool) then
        fn ← gets (λ s, singleCallFunction (glob s));
        massert (bool_decide (fn ≠ SC_FN_NIL));;
        next ← ignoring (single_call_step vm fn) sc_continue;
        match next with
        | sc_continue => single_call_loop fuel vm
        | sc_break => mret None
        | sc_return code => mret (Some code)
        end
      else mret None
  end.

(** [while (!vm->run_()) …] *)
Fixpoint run_until_done (fuel : nat) (vm : SWIGVM) : run_of (option Z) :=
  match fuel with
  | 0 => blocked
  | S fuel =>
      finished ← run_ vm;
      if (finished : bool) then mret None
      else
        msg ← get_exception_msg;
        if negb (str_empty msg) then
          code ← handle_error (Some vm) ("F-UDF-CL-LIB-1127: " +:+ msg) true;
          mret (Some code)
        else run_until_done fuel vm
  end.

Fixpoint run_loop (fuel : nat) (vm : SWIGVM) : run_of (option Z) :=
  match fuel with
  | 0 => blocked
  | S fuel =>
      ok ← send_run;
      if (ok : bool) then
        upd_params (λ p, p <| inp_force_finish := false |>);;
        failed ← run_until_done fuel vm;
        match failed with
        | Some code => mret (Some code)
        | None =>
            ok ← send_done;
            if (ok : bool) then run_loop fuel vm else mret None
        end
      else mret None
  end.

(** The [try] block after the object is there; [Some code] when it returns *)
Definition vm_session (fuel : nat) (vm : SWIGVM) : run_of (option Z) :=
  locks ← vm_useZmqSocketLocks vm;
  init locks;;
  mode ← gets (λ s, singleCallMode (glob s));
  returned ← (if (mode : bool) then single_call_loop fuel vm else run_loop fuel vm);
  match returned with
  | Some code => mret (Some code)
  | None =>
      shutdown vm;;
      msg ← get_exception_msg;
      if negb (str_empty msg) then
        code ← handle_error (Some vm) ("F-UDF-CL-LIB-1128: " +:+ msg) false;
        mret (Some code)
      else send_finished;; mret None
  end.

(** ** [exaudfclient_main] *)
Definition attempt {A} (m : run_of A) : run_of (exn + A) :=
  try_catch (a ← m; mret (inr a)) (λ e, mret (inl e)).

(** The message of the three handlers *)
Definition crash_message (e : exn) : string :=
  match e with
  | SwigException what => "F-UDF-CL-LIB-1129: " +:+ c_str what
  | StdException what => "F-UDF-CL-LIB-1130: " +:+ c_str what
  | OtherException => "F-UDF-CL-LIB-1131: Internal/Unknown error"
  end.

(** From [initSwigParams] to the end, the outer [try] block in three parts *)
Definition serve (fuel : nat) (vmMaker : run_of (option SWIGVM)) : run_of Z :=
  initSwigParams;;
  made ← attempt (make_vm vmMaker);
  match made with
  | inl e => handle_error None (crash_message e) false
  | inr None =>
      handle_error None "F-UDF-CL-LIB-1124: Unknown or unsupported VM type" false
  | inr (Some vm) =>
      msg ← get_exception_msg;
      if negb (str_empty msg) then
        handle_error (Some vm) ("F-UDF-CL-LIB-1125: " +:+ msg) false
      else
        result ← attempt (vm_session fuel vm);
        match result with
        | inl e => handle_error (Some vm) (crash_message e) true
        | inr (Some code) => mret code
        | inr None => delete_vm (Some vm);; stop_all;; mret 0%Z
        end
  end.

(** The code from the label [reinit] on; a jump back destroys the socket. *)
Fixpoint reinit (fuel : nat) (socket_name : string) (vmMaker : run_of (option SWIGVM)) :
  run_of Z :=
  match fuel with
  | 0 => blocked
  | S fuel =>
      log ev_socket_open;;
      ok ← send_init socket_name;
      if (ok : bool) then serve fuel vmMaker
      else
        remote ← get_remote_client;
        h ← gets (λ s, exchandler (glob s));
        if negb remote && exthrowed h then
          handle_error None ("F-UDF-CL-LIB-1123: " +:+ exmsg h) false
        else log ev_socket_close;; reinit fuel socket_name vmMaker
  end.

(** [&(name[6])]: the part of the file name after [ipc://] *)
Definition skip_six (name : string) : option string :=
  if String.length name <? 6 then None
  else Some (substring 6 (String.length name - 6) name).

Definition exaudfclient_main (fuel : nat) (vmMaker : run_of (option SWIGVM))
  (argv1 : string) : run_of Z :=
  let socket_name := c_str argv1 in
  set_socket_file_name socket_name;;
  set_socket_url socket_name;;
  set_remote_client false;;
  when (String.length socket_name <? 5) abort;;
  when (String.prefix "tcp:" socket_name) (set_remote_client true);;
  when (String.prefix "ipc:" socket_name)
    (name ← get_socket_file_name;
     name ← access (skip_six name);
     set_socket_file_name name);;
  start_check_thread;;
  reinit fuel socket_name vmMaker.
End vm.
