(* ===== verification/ClientRun.v ===== *)
(** * What the client does in a session

    The theorems about [ClientMain.v]: the complete session of a container that
    keeps its contract, the end of a failed one, and what becomes of exceptions. *)
From S2P Require Import Prelude SwigCommon Protocol Dto Machine.
From S2P Require Import SocketLowLevel SocketHighLevel MetaData ClientMain.

Open Scope string_scope.
Open Scope list_scope.
Open Scope nat_scope.

(** ** The contract of a container

    A round of the session is a run request, the calls of [run] it takes and the
    done request. A call is given by what it sends and what the server answers to
    it; the last one of a round reports the end of the work. *)
Section contract.
Context `{Codec}.

Record call : Type := mkCall { cl_requests : list wire; cl_replies : list wire }.
Record round : Type := mkRound { rd_run : wire; rd_calls : list call; rd_done : wire }.

(** What a container may rely on between its calls: the globals, the iterator, the
    handler and its own fields. [I k] holds before its [k]-th call. *)
Definition vm_invariant : Type :=
  nat → Global → table_iterator → result_handler → vm_fields → Prop.

Definition holds (I : vm_invariant) (k : nat) (s : machine) : Prop :=
  I k (glob s) (it s) (rh s) (vmf s) ∧ exception_msg (vmf s) = "".

(** The client clears the flag at the start of a round. *)
Definition force_finish_cleared (g : Global) : Global :=
  g <| params := (params g) <| inp_force_finish := false |> |>.

Lemma force_finish_cleared_id g :
  inp_force_finish (params g) = false → force_finish_cleared g = g.
Proof. destruct g as [[]]. simpl. by intros ->. Qed.

Definition call_kept (vm : SWIGVM) (I : vm_invariant) (k : nat) (c : call)
  (finished : bool) : Prop :=
  ∀ vs s, serves (cl_replies c ++ vs) s → holds I k s →
    ∃ s', vm_run vm s = (Ret finished, s') ∧
      turn s s' (cl_requests c) (cl_replies c) ∧ serves vs s' ∧ holds I (S k) s'.

Fixpoint calls_kept (vm : SWIGVM) (I : vm_invariant) (k : nat) (cs : list call) : Prop :=
  match cs with
  | [] => False
  | [c] => call_kept vm I k c true
  | c :: cs => call_kept vm I k c false ∧ calls_kept vm I (S k) cs
  end.

Fixpoint rounds_kept (vm : SWIGVM) (I : vm_invariant) (k : nat) (rds : list round) : Prop :=
  match rds with
  | [] => True
  | rd :: rds =>
      calls_kept vm I k (rd_calls rd) ∧
      rounds_kept vm I (k + length (rd_calls rd)) rds
  end.

Definition total_calls (rds : list round) : nat := sum_list_with (length ∘ rd_calls) rds.

(** The contract: started with globals that satisfy [Start], the maker builds the
    container while it exchanges the messages of [mk] (the iterator asks for the
    first rows when it is constructed); the container does its part of the rounds
    [rds] and shuts down silently. *)
Class ContainerContract (vmMaker : run_of (option SWIGVM)) (vm : SWIGVM)
  (I : vm_invariant) (Start : Global → Prop) (mk : call) (rds : list round) : Prop := {
  made : ∀ vs s, serves (cl_replies mk ++ vs) s → exception_msg (vmf s) = "" →
    Start (glob s) → ∃ s', vmMaker s = (Ret (Some vm), s') ∧
      turn s s' (cl_requests mk) (cl_replies mk) ∧ serves vs s' ∧ holds I 0 s';
  locks_chosen : ∃ b, vm_useZmqSocketLocks vm = mret b;
  flag_cleared : ∀ k g i h v, I k g i h v → I k (force_finish_cleared g) i h v;
  rounds_done : rounds_kept vm I 0 rds;
  shut_down : ∀ s, holds I (total_calls rds) s → ∃ s', vm_shutdown vm s = (Ret tt, s') ∧
    chan s' = chan s ∧ sup s' = sup s ∧ glob s' = glob s ∧ exception_msg (vmf s') = "";
}.

Definition call_messages (sel : call → list wire) (cs : list call) : list wire :=
  concat (sel <$> cs).

Definition round_requests (run_w done_w : wire) (rd : round) : list wire :=
  run_w :: call_messages cl_requests (rd_calls rd) ++ [done_w].
Definition round_replies (rd : round) : list wire :=
  rd_run rd :: call_messages cl_replies (rd_calls rd) ++ [rd_done rd].
End contract.

(** ** The run loop *)
Section loops.
Context `{Codec}.

Lemma serves_upd vs s s' :
  mutex_held (chan s') = mutex_held (chan s) → c_access (chan s') = c_access (chan s) →
  c_sends (chan s') = c_sends (chan s) → c_recvs (chan s') = c_recvs (chan s) →
  serves vs s → serves vs s'.
Proof.
  intros Hm Ha Hs Hr [? ? ? ?].
  split; unfold mutex_free, supervised in *; by rewrite ?Hm, ?Ha, ?Hs, ?Hr.
Qed.

Lemma holds_io I k s s' ws rs : io s s' ws rs → holds I k s → holds I k s'.
Proof.
  intros Hio. destruct (io_frame _ _ _ _ Hio) as [_ Hg Hi Hh Hv].
  unfold holds. by rewrite Hg, Hi, Hh, Hv.
Qed.

Lemma run_returns vm s b s' : vm_run vm s = (Ret b, s') → run_ vm s = (Ret b, s').
Proof. apply run_catch_ret. Qed.

Lemma run_until_done_run vm I cs : ∀ k fuel vs s,
  calls_kept vm I k cs → serves (call_messages cl_replies cs ++ vs) s → holds I k s →
  length cs ≤ fuel →
  ∃ s', run_until_done fuel vm s = (Ret None, s') ∧
    turn s s' (call_messages cl_requests cs) (call_messages cl_replies cs) ∧
    serves vs s' ∧ holds I (k + length cs) s'.
Proof.
  unfold call_messages. induction cs as [|c cs IH]; intros k fuel vs s Hc Hsrv Hh Hf; [done|].
  destruct fuel as [|fuel]; simpl in Hf; [lia|]. simpl in Hsrv. rewrite <-app_assoc in Hsrv.
  destruct cs as [|c2 cs].
  - destruct (Hc _ _ Hsrv Hh) as (s1 & Hr & Ht & Hsrv1 & Hh1). exists s1. simpl.
    rewrite (run_bind _ _ _ _ _ (run_returns _ _ _ _ Hr)).
    rewrite !app_nil_r, Nat.add_1_r. by split_and!.
  - destruct Hc as [Hc1 Hc2].
    destruct (Hc1 _ _ Hsrv Hh) as (s1 & Hr & Ht & Hsrv1 & Hh1).
    destruct (IH (S k) fuel vs s1 Hc2 Hsrv1 Hh1 ltac:(simpl in *; lia))
      as (s2 & Hr2 & Ht2 & Hsrv2 & Hh2).
    exists s2. simpl. rewrite (run_bind _ _ _ _ _ (run_returns _ _ _ _ Hr)).
    unfold get_exception_msg. run_simpl. destruct Hh1 as [_ He]. rewrite He. simpl.
    split_and!; [done|by apply (turn_trans s s1 s2)|done|].
    simpl in Hh2. by replace (k + S (S (length cs))) with (S (k + S (length cs))) by lia.
Qed.

(** The answers of the server to the rounds and to the last run request *)
Definition answered (t : message_type) (v : wire) : Prop :=
  ∃ r, parse v = Some r ∧ rp_type r = t.

Definition round_answered (rd : round) : Prop :=
  answered MT_RUN (rd_run rd) ∧ answered MT_DONE (rd_done rd).

Lemma exchange_go x w v r vs s b :
  serves (v :: vs) s →
  serialize (mkRequest (exchange_request x).1 (connection_id (params (glob s)))
               (exchange_request x).2) = Some w →
  parse v = Some r → (x = ex_run → rp_type r ≠ MT_CALL) → verdict x r = Ret b →
  ∃ s', exchange_run_ x s = (Ret b, s') ∧ io s s' [w] [v] ∧ serves vs s'.
Proof. intros Hs Hw Hp Hc <-. by eapply exchange_serves; naive_solver. Qed.

Lemma run_loop_run vm I run_w done_w v_end rds : ∀ k fuel vs s,
  (∀ k g i h v, I k g i h v → I k (force_finish_cleared g) i h v) →
  rounds_kept vm I k rds → Forall round_answered rds → answered MT_CLEANUP v_end →
  serialize (mkRequest MT_RUN (connection_id (params (glob s))) body_none) = Some run_w →
  serialize (mkRequest MT_DONE (connection_id (params (glob s))) body_none) = Some done_w →
  serves (concat (round_replies <$> rds) ++ v_end :: vs) s → holds I k s →
  length rds + total_calls rds < fuel →
  ∃ s', run_loop fuel vm s = (Ret None, s') ∧
    turn s s' (concat (round_requests run_w done_w <$> rds) ++ [run_w])
      (concat (round_replies <$> rds) ++ [v_end]) ∧
    serves vs s' ∧ holds I (k + total_calls rds) s'.
Proof.
  induction rds as [|rd rds IH];
    intros k fuel vs s Hflag Hk Ha (re & Hpe & Hte) Hrw Hdw Hsrv Hh Hf;
    (destruct fuel as [|fuel]; [simpl in Hf; lia|]).
  - simpl in Hsrv. destruct (exchange_go ex_run run_w v_end re vs s false)
      as (s1 & Hr & Hio & Hsrv1); try done; [by intros _; rewrite Hte|by simpl; rewrite Hte|].
    exists s1. simpl. rewrite (run_bind _ _ _ _ _ Hr). rewrite Nat.add_0_r.
    split_and!; [done|by apply io_turn|done|by eapply holds_io].
  - simpl in Hsrv, Hk, Hf. destruct Hk as [Hk Hks].
    apply Forall_cons in Ha as [[(r1 & Hp1 & Ht1) (r2 & Hp2 & Ht2)] Ha].
    unfold round_replies in Hsrv at 1. simpl in Hsrv. rewrite <-!app_assoc in Hsrv.
    destruct (exchange_go ex_run run_w (rd_run rd) r1 _ s true Hsrv)
      as (s1 & Hr1 & Hio1 & Hsrv1); try done; [by intros _; rewrite Ht1|by simpl; rewrite Ht1|].
    pose (s2 := s1 <| glob := (glob s1)
      <| params := (params (glob s1)) <| inp_force_finish := false |> |> |>).
    destruct (run_until_done_run vm I (rd_calls rd) k fuel
      ([rd_done rd] ++ concat (round_replies <$> rds) ++ v_end :: vs) s2)
      as (s3 & Hr3 & Ht3 & Hsrv3 & Hh3); try done.
    { by apply (serves_chan _ s1). }
    { apply (holds_io _ _ _ _ _ _ Hio1) in Hh as [Hh He]. split; [by apply Hflag|done]. }
    { unfold total_calls in Hf. simpl in Hf. lia. }
    pose proof (io_turn _ _ _ _ Hio1) as Htu1.
    pose proof (turn_trans s s2 s3 [run_w] _ [rd_run rd] _ ltac:(by destruct Htu1; split) Ht3)
      as Htu3.
    destruct (exchange_go ex_done done_w (rd_done rd) r2 _ s3 true Hsrv3)
      as (s4 & Hr4 & Hio4 & Hsrv4); try done; [by rewrite (tn_id _ _ _ _ Htu3)|by simpl; rewrite Ht2|].
    pose proof (turn_trans _ _ _ _ _ _ _ Htu3 (io_turn _ _ _ _ Hio4)) as Htu4.
    destruct (IH (k + length (rd_calls rd)) fuel vs s4) as (s5 & Hr5 & Ht5 & Hsrv5 & Hh5);
      try done; try (by rewrite (tn_id _ _ _ _ Htu4)).
    { by eexists. }
    { by eapply holds_io. }
    { unfold total_calls in *. simpl in Hf. lia. }
    exists s5. change (run_loop (S fuel) vm) with
      (ok ← send_run; if (ok : bool) then
        upd_params (λ p, p <| inp_force_finish := false |>);;
        failed ← run_until_done fuel vm;
        match failed with
        | Some code => mret (Some code)
        | None => ok ← send_done; if (ok : bool) then run_loop fuel vm else mret None
        end else mret None : run_of (option Z)).
    simpl in Hr1, Hr4. rewrite (run_bind _ _ _ _ _ Hr1). unfold upd_params. run_simpl.
    fold s2. rewrite (run_bind _ _ _ _ _ Hr3), (run_bind _ _ _ _ _ Hr4).
    split_and!; [done| |done|].
    + pose proof (turn_trans _ _ _ _ _ _ _ Htu4 Ht5) as Htu.
      unfold round_requests, round_replies in *. simpl in *. rewrite <-!app_assoc in *.
      by simpl in *; rewrite <-?app_assoc in *.
    + unfold total_calls in *. simpl. by rewrite Nat.add_assoc.
Qed.
End loops.

(** ** What a routine did

    [did s s' life ws rs]: the trace grew by the messages sent and received and,
    apart from the transport, by the events [life]. *)
Section did.
Context `{Codec}.

Definition is_transport (e : event) : bool :=
  match e with ev_send _ | ev_recv _ | ev_sleep _ => true | _ => false end.
Definition lifecycle (tr : list event) : list event := List.filter (negb ∘ is_transport) tr.

Lemma lifecycle_app tr1 tr2 : lifecycle (tr1 ++ tr2) = lifecycle tr1 ++ lifecycle tr2.
Proof. apply List.filter_app. Qed.

Lemma lifecycle_transport tr : Forall transport_event tr → lifecycle tr = [].
Proof. induction 1 as [|e tr He _ IH]; [done|]. by destruct e. Qed.

Lemma lifecycle_limits tr : Forall limit_event tr → lifecycle tr = tr.
Proof.
  induction 1 as [|e tr He _ IH]; [done|]. destruct e; try done.
  simpl. by rewrite IH.
Qed.

Definition did (s s' : machine) (life : list event) (ws rs : list wire) : Prop :=
  ∃ tr, c_trace (chan s') = c_trace (chan s) ++ tr ∧
    lifecycle tr = life ∧ sent tr = ws ∧ received tr = rs.

Lemma did_nothing s s' : c_trace (chan s') = c_trace (chan s) → did s s' [] [] [].
Proof. exists []. by rewrite app_nil_r. Qed.

Lemma did_trans s1 s2 s3 l1 l2 ws1 ws2 rs1 rs2 :
  did s1 s2 l1 ws1 rs1 → did s2 s3 l2 ws2 rs2 →
  did s1 s3 (l1 ++ l2) (ws1 ++ ws2) (rs1 ++ rs2).
Proof.
  intros (tr1 & Ht1 & Hl1 & Hs1 & Hr1) (tr2 & Ht2 & Hl2 & Hs2 & Hr2).
  exists (tr1 ++ tr2). rewrite Ht2, Ht1, <-app_assoc, lifecycle_app, sent_app, received_app.
  by subst.
Qed.

Lemma did_step s s' e :
  c_trace (chan s') = c_trace (chan s) ++ [e] → is_transport e = false →
  did s s' [e] [] [].
Proof. intros Ht He. exists [e]. split; [done|]. by destruct e. Qed.

Lemma did_sleep s s' n :
  c_trace (chan s') = c_trace (chan s) ++ [ev_sleep n] → did s s' [] [] [].
Proof. intros Ht. by exists [ev_sleep n]. Qed.

Lemma turn_did s s' ws rs : turn s s' ws rs → did s s' [] ws rs.
Proof.
  intros [(tr & Ht & Hev & Hs & Hr) _ _ _]. exists tr. split_and!; try done.
  by apply lifecycle_transport.
Qed.

Lemma init_did s s' tr ws rs :
  c_trace (chan s') = c_trace (chan s) ++ tr → init_trace tr → sent tr = ws →
  received tr = rs → ∃ limits, Forall limit_event limits ∧ did s s' limits ws rs.
Proof.
  intros Ht (tr1 & limits & tr2 & -> & H1 & Hl & H2) Hs Hr.
  exists limits. split; [done|]. exists (tr1 ++ limits ++ tr2). split_and!; try done.
  rewrite !lifecycle_app, (lifecycle_transport _ H1), (lifecycle_transport _ H2).
  by rewrite (lifecycle_limits _ Hl), app_nil_r.
Qed.
End did.

(** ** The complete session *)
Section session.
Context `{Codec}.

(** The requests of the client under the connection id [id] *)
Record requests (id : Z) (run_w done_w finished_w : wire) : Prop := {
  req_run : serialize (mkRequest MT_RUN id body_none) = Some run_w;
  req_done : serialize (mkRequest MT_DONE id body_none) = Some done_w;
  req_finished : serialize (mkRequest MT_FINISHED id body_none) = Some finished_w;
}.

(** What the server sends after the handshake *)
Definition session_replies (rds : list round) (v_end v_fin : wire) : list wire :=
  concat (round_replies <$> rds) ++ [v_end; v_fin].
Definition session_requests (run_w done_w finished_w : wire) (rds : list round) : list wire :=
  concat (round_requests run_w done_w <$> rds) ++ [run_w; finished_w].

Section kept.
Context (vmMaker : run_of (option SWIGVM)) (vm : SWIGVM) (I : vm_invariant)
  (Start : Global → Prop) (mk : call) (rds : list round)
  {Hc : ContainerContract vmMaker vm I Start mk rds}.

(** A session up to the finished request *)
Lemma vm_session_to_finish run_w done_w v_end vs fuel s :
  Forall round_answered rds →
  serialize (mkRequest MT_RUN (connection_id (params (glob s))) body_none) = Some run_w →
  serialize (mkRequest MT_DONE (connection_id (params (glob s))) body_none) = Some done_w →
  answered MT_CLEANUP v_end →
  serves (concat (round_replies <$> rds) ++ v_end :: vs) s → holds I 0 s →
  singleCallMode (glob s) = false → length rds + total_calls rds < fuel →
  ∃ s', vm_session fuel vm s = (send_finished;; mret None) s' ∧ serves vs s' ∧
    sup s' = sup s ∧ exception_msg (vmf s') = "" ∧
    connection_id (params (glob s')) = connection_id (params (glob s)) ∧
    did s s' [ev_vm_shutdown] (concat (round_requests run_w done_w <$> rds) ++ [run_w])
      (concat (round_replies <$> rds) ++ [v_end]).
Proof.
  destruct Hc as [_ [b Hb] Hflag Hrds Hshut].
  intros Hans Hrw Hdw Hend Hsrv Hh Hmode Hf.
  pose (s0 := s <| chan := (chan s) <| use_zmq_socket_locks := b |> |>).
  destruct (run_loop_run vm I run_w done_w v_end rds 0 fuel vs s0)
    as (s1 & Hr1 & Ht1 & Hsrv1 & Hh1); try done; [by apply (serves_upd _ s)|].
  pose (s2 := s1 <| chan := (chan s1) <| c_trace := c_trace (chan s1) ++ [ev_vm_shutdown] |> |>).
  destruct (Hshut s2 Hh1) as (s3 & Hr3 & Hc3 & Hsup3 & Hg3 & He3).
  exists s3. split_and!; [| | |done| |].
  - unfold vm_session, init, upd_chan, shutdown, log, upd_chan, get_exception_msg. rewrite Hb.
    run_simpl. fold s0. rewrite Hmode. simpl. rewrite (run_bind _ _ _ _ _ Hr1). run_simpl.
    fold s2. rewrite (run_bind _ _ _ _ _ Hr3). run_simpl. by rewrite He3.
  - apply (serves_chan _ s2); [done|]. by apply (serves_upd _ s1).
  - rewrite Hsup3. simpl. by rewrite (tn_sup _ _ _ _ Ht1).
  - rewrite Hg3. simpl. by rewrite (tn_id _ _ _ _ Ht1).
  - pose proof (did_trans s s1 s3 _ _ _ _ _ _ (turn_did s0 s1 _ _ Ht1)
      (did_step s1 s3 ev_vm_shutdown ltac:(by rewrite Hc3) eq_refl)) as Hd.
    by rewrite !app_nil_r in Hd.
Qed.

Lemma send_finished_run w v r vs s :
  serves (v :: vs) s → parse v = Some r →
  serialize (mkRequest MT_FINISHED (connection_id (params (glob s))) body_none) = Some w →
  ∃ s', io s s' [w] [v] ∧ serves vs s' ∧
    ((rp_type r = MT_FINISHED ∧ send_finished s = (Ret tt, s')) ∨
     (rp_type r ≠ MT_FINISHED ∧ ∃ msg, send_finished s = (Throw (SwigException msg), s'))).
Proof.
  intros Hsrv Hp Hw.
  destruct (exchange_serves ex_finished w v r vs s Hsrv Hw Hp) as (s' & Hr & Hio & Hsrv');
    [done|].
  exists s'. split_and!; [done..|]. simpl in Hr. rewrite bind_run in Hr. unfold bind_outcome in Hr.
  destruct (send_finished s) as [[[]|e| | |] s5]; destruct (rp_type r); simpl in *;
    try discriminate Hr; injection Hr; intros; subst; eauto; right; eauto.
Qed.

Lemma vm_session_run run_w done_w finished_w v_end v_fin fuel s :
  Forall round_answered rds →
  requests (connection_id (params (glob s))) run_w done_w finished_w →
  answered MT_CLEANUP v_end → answered MT_FINISHED v_fin →
  serves (session_replies rds v_end v_fin) s → holds I 0 s →
  singleCallMode (glob s) = false → length rds + total_calls rds < fuel →
  ∃ s', vm_session fuel vm s = (Ret None, s') ∧ sup s' = sup s ∧
    did s s' [ev_vm_shutdown] (session_requests run_w done_w finished_w rds)
      (session_replies rds v_end v_fin).
Proof.
  intros Hans [Hrw Hdw Hfw] Hend (rf & Hpf & Htf) Hsrv Hh Hmode Hf.
  destruct (vm_session_to_finish run_w done_w v_end [v_fin] fuel s)
    as (s3 & Hr3 & Hsrv3 & Hsup3 & _ & Hid3 & Hd3); try done.
  destruct (send_finished_run finished_w v_fin rf [] s3 Hsrv3 Hpf) as
    (s4 & Hio4 & _ & [[_ Hr4]|[? _]]); [by rewrite Hid3| |done].
  exists s4. split_and!.
  - by rewrite Hr3, (run_bind _ _ _ _ _ Hr4).
  - by rewrite (sbc_sup _ _ (io_frame _ _ _ _ Hio4)).
  - pose proof (did_trans _ _ _ _ _ _ _ _ _ Hd3 (turn_did _ _ _ _ (io_turn _ _ _ _ Hio4))) as Hd.
    unfold session_requests, session_replies. by rewrite <-!app_assoc in Hd.
Qed.

End kept.

(** The end of a process that served a local or a remote client *)
Definition stop_events (c : supervision) : list event :=
  ev_socket_close :: if remote_client c then [] else [ev_unlink (socket_file_name c)].

Lemma stop_all_run s :
  ∃ s', stop_all s = (Ret tt, s') ∧ did s s' (stop_events (sup s)) [] [].
Proof.
  unfold stop_all, stop_check_thread, get_remote_client, cancel_check_thread,
    get_socket_file_name, sleep, log, upd_chan, upd_sup, stop_events. run_simpl.
  destruct (remote_client (sup s)); run_simpl; eexists; (split; [done|]); simpl.
  - eexists [_; _]. by rewrite <-app_assoc.
  - eexists [_; _]. by rewrite <-app_assoc.
Qed.
End session.

Section main.
Context `{Codec}.

Lemma attempt_ret {A} (m : run_of A) s a s' :
  m s = (Ret a, s') → attempt m s = (Ret (inr a), s').
Proof. intros Hm. apply run_catch_ret. by rewrite (run_bind _ _ _ _ _ Hm). Qed.

Lemma attempt_throw {A} (m : run_of A) s e s' :
  m s = (Throw e, s') → attempt m s = (Ret (inl e), s').
Proof.
  intros Hm. unfold attempt. by erewrite run_catch_throw by by apply run_bind_throw.
Qed.

Lemma serve_run vmMaker vm I Start mk rds `{!ContainerContract vmMaker vm I Start mk rds} run_w done_w finished_w v_end v_fin fuel s :
  Forall round_answered rds →
  requests (connection_id (params (glob s))) run_w done_w finished_w →
  answered MT_CLEANUP v_end → answered MT_FINISHED v_fin →
  serves (cl_replies mk ++ session_replies rds v_end v_fin) s →
  Start (glob (initSwigParams s).2) → singleCallMode (glob s) = false →
  length rds + total_calls rds < fuel →
  ∃ s', serve fuel vmMaker s = (Ret 0%Z, s') ∧
    did s s' ([ev_vm_make; ev_vm_shutdown; ev_vm_delete] ++ stop_events (sup s))
      (cl_requests mk ++ session_requests run_w done_w finished_w rds)
      (cl_replies mk ++ session_replies rds v_end v_fin).
Proof.
  intros Hans Hreq Hend Hfin Hsrv Hst Hmode Hf.
  pose proof (initSwigParams_run s) as Hini.
  match type of Hini with _ = (_, ?x) => set (s1 := x) in Hini end.
  pose (s2 := s1 <| chan := (chan s1) <| c_trace := c_trace (chan s1) ++ [ev_vm_make] |> |>
                 <| vmf := mkVmFields "" "" |>).
  destruct (made (session_replies rds v_end v_fin) s2) as (s3 & Hr3 & Ht3 & Hsrv3 & Hh3);
    [by apply (serves_upd _ s)|done|done|].
  destruct (vm_session_run vmMaker vm I Start mk rds run_w done_w finished_w v_end v_fin fuel s3)
    as (s4 & Hr4 & Hsup4 & Hd4); try done;
    [by rewrite (tn_id _ _ _ _ Ht3)|by rewrite (tn_mode _ _ _ _ Ht3)|].
  pose (s5 := s4 <| chan := (chan s4) <| c_trace := c_trace (chan s4) ++ [ev_vm_delete] |> |>).
  destruct (stop_all_run s5) as (s6 & Hr6 & Hd6).
  assert (make_vm vmMaker s1 = (Ret (Some vm), s3)) as Hmk.
  { unfold make_vm, log, upd_chan, upd_vmf. run_simpl. exact Hr3. }
  exists s6. split.
  - unfold serve. rewrite (run_bind _ _ _ _ _ Hini).
    rewrite (run_bind _ _ _ _ _ (attempt_ret _ _ _ _ Hmk)). unfold get_exception_msg. run_simpl.
    destruct Hh3 as [_ Hemp]. rewrite Hemp. simpl.
    rewrite (run_bind _ _ _ _ _ (attempt_ret _ _ _ _ Hr4)).
    unfold delete_vm, log, upd_chan. run_simpl. fold s5. by rewrite (run_bind _ _ _ _ _ Hr6).
  - assert (sup s5 = sup s) as Hsup by by simpl; rewrite Hsup4, (tn_sup _ _ _ _ Ht3).
    rewrite Hsup in Hd6.
    pose proof (did_trans _ _ _ _ _ _ _ _ _ (did_trans _ _ _ _ _ _ _ _ _
      (did_step s s2 ev_vm_make eq_refl eq_refl) (turn_did _ _ _ _ Ht3)) Hd4) as Hd.
    pose proof (did_trans _ _ _ _ _ _ _ _ _ Hd
      (did_step s4 s5 ev_vm_delete eq_refl eq_refl)) as Hd2.
    pose proof (did_trans _ _ _ _ _ _ _ _ _ Hd2 Hd6) as Hd3.
    simpl in Hd3. by rewrite !app_nil_r in Hd3.
Qed.

(** The file behind a socket name *)
Definition socket_file (socket_name : string) : string :=
  if String.prefix "ipc:" socket_name
  then substring 6 (String.length socket_name - 6) socket_name else socket_name.

Definition socket_name_ok (socket_name : string) : bool :=
  (5 <=? String.length socket_name) &&
  (negb (String.prefix "ipc:" socket_name) || (6 <=? String.length socket_name)).

(** Before the first socket is opened *)
Lemma main_start_run fuel vmMaker argv1 s :
  socket_name_ok (c_str argv1) = true →
  ∃ s', exaudfclient_main fuel vmMaker argv1 s = reinit fuel (c_str argv1) vmMaker s' ∧
    chan s' = chan s ∧ glob s' = glob s ∧
    remote_client (sup s') = String.prefix "tcp:" (c_str argv1) ∧
    socket_file_name (sup s') = socket_file (c_str argv1).
Proof.
  unfold socket_name_ok, socket_file. set (n := c_str argv1).
  intros [Hlen Hipc] % andb_true_iff. apply Nat.leb_le in Hlen.
  unfold exaudfclient_main, set_socket_file_name, set_socket_url, set_remote_client,
    start_check_thread, get_remote_client, get_socket_file_name, upd_sup. fold n. run_simpl.
  rewrite (proj2 (Nat.ltb_ge _ _) Hlen). simpl. run_simpl.
  assert (String.prefix "tcp:" n = true → String.prefix "ipc:" n = false) as Hx.
  { intros Ht. destruct (String.prefix "ipc:" n) eqn:Hi; [|done].
    apply prefix_correct in Ht, Hi. cbn in Ht, Hi. rewrite Ht in Hi. done. }
  destruct (String.prefix "ipc:" n) eqn:Hi; cbn [negb orb] in Hipc.
  - assert (String.prefix "tcp:" n = false) as -> by by destruct (String.prefix "tcp:" n); naive_solver.
    apply Nat.leb_le in Hipc. simpl. run_simpl. unfold skip_six.
    rewrite (proj2 (Nat.ltb_ge _ _) Hipc). simpl. run_simpl.
    eexists. split; [done|]. by split_and!.
  - destruct (String.prefix "tcp:" n); simpl; run_simpl; simpl; run_simpl;
      (eexists; split; [done|]; by split_and!).
Qed.

Lemma handshake_upd name w1 w2 v1 v2 r1 r2 its ots vs s s' :
  mutex_held (chan s') = mutex_held (chan s) → c_access (chan s') = c_access (chan s) →
  c_sends (chan s') = c_sends (chan s) → c_recvs (chan s') = c_recvs (chan s) →
  c_setrlimit (chan s') = c_setrlimit (chan s) →
  handshake name w1 w2 v1 v2 r1 r2 its ots vs s →
  handshake name w1 w2 v1 v2 r1 r2 its ots vs s'.
Proof.
  intros Hm Ha Hs Hr Hl [].
  split; unfold mutex_free, supervised in *; rewrite ?Hm, ?Ha, ?Hs, ?Hr, ?Hl; done.
Qed.

(** The parameter block after the handshake and the copy of the static strings *)
Definition session_params (p : SWIGVM_params_t) (r1 r2 : exascript_response)
  (its ots : list SWIGVM_columntype_t) : SWIGVM_params_t :=
  params_of_info (params_after_init p r1 r2 its ots) (script_info (rp_info r1))
    (md_single_call_mode (rp_meta r2)).

(** From the first socket to the end *)
Lemma reinit_run name w1 w2 v1 v2 r1 r2 its ots vmMaker vm I Start mk rds
  `{!ContainerContract vmMaker vm I Start mk rds} run_w done_w finished_w v_end v_fin fuel s :
  handshake name w1 w2 v1 v2 r1 r2 its ots
    (cl_replies mk ++ session_replies rds v_end v_fin) s →
  md_single_call_mode (rp_meta r2) = false →
  (∀ g, params g = session_params (params (glob s)) r1 r2 its ots → Start g) →
  Forall round_answered rds →
  requests (rp_connection_id r1) run_w done_w finished_w →
  answered MT_CLEANUP v_end → answered MT_FINISHED v_fin →
  S (length rds + total_calls rds) < fuel →
  ∃ s' limits, reinit fuel name vmMaker s = (Ret 0%Z, s') ∧ Forall limit_event limits ∧
    did s s'
      (ev_socket_open :: limits ++ [ev_vm_make; ev_vm_shutdown; ev_vm_delete]
         ++ stop_events (sup s))
      ([w1; w2] ++ cl_requests mk ++ session_requests run_w done_w finished_w rds)
      ([v1; v2] ++ cl_replies mk ++ session_replies rds v_end v_fin).
Proof.
  intros Hhs Hmode Hst Hans Hreq Hend Hfin Hf. destruct fuel as [|fuel]; [lia|].
  pose (s2 := s <| chan := (chan s) <| c_trace := c_trace (chan s) ++ [ev_socket_open] |> |>).
  destruct (send_init_success _ _ _ _ _ _ _ _ _ _ s2
    ltac:(by eapply handshake_upd; [..|exact Hhs]))
    as (s3 & tr & Hr3 & [Hpar Hscr Hm3 _ Hsup3] & Hsrv3 & Htr & Hit & Hs3 & Hv3).
  destruct (init_did s2 s3 tr _ _ Htr Hit Hs3 Hv3) as (limits & Hlim & Hd3).
  destruct (serve_run vmMaker vm I Start mk rds run_w done_w finished_w v_end v_fin fuel s3)
    as (s4 & Hr4 & Hd4); try done; [by rewrite Hpar| |by rewrite Hm3|lia|].
  { apply Hst. rewrite initSwigParams_run. simpl. by rewrite Hpar, Hscr, Hm3. }
  exists s4, limits. split_and!; [|done|].
  - simpl. unfold log, upd_chan. run_simpl. fold s2. by rewrite (run_bind _ _ _ _ _ Hr3).
  - rewrite Hsup3 in Hd4.
    pose proof (did_trans _ _ _ _ _ _ _ _ _ (did_trans _ _ _ _ _ _ _ _ _
      (did_step s s2 ev_socket_open eq_refl eq_refl) Hd3) Hd4) as Hd.
    by simpl in Hd.
Qed.

(** What the end of the process leaves, by the socket name *)
Definition end_events (socket_name : string) : list event :=
  ev_socket_close :: if String.prefix "tcp:" socket_name then []
                     else [ev_unlink (socket_file socket_name)].

(** C11. The complete session. With a server that lets the handshake succeed,
    announces rounds of work and then asks to clean up, and a container that does
    its part of every round, [exaudfclient_main] returns 0, whatever attempts the
    transmissions take. It sends the client and the metadata message, what the
    container sends while it is built, for each round the run request, the requests of the container and the done request, and
    at the end one more run request and the finished message; it consumes exactly
    the replies to them. It opens the socket, sets the limits, builds, shuts down
    and deletes the container once each in this order, closes the socket and, for
    a local client, removes the socket file. One unit of fuel for each round and
    each call of the container is enough. *)
Theorem exaudfclient_main_session (argv1 : string) (w1 w2 v1 v2 : wire)
  (r1 r2 : exascript_response) (its ots : list SWIGVM_columntype_t)
  (vmMaker : run_of (option SWIGVM)) (vm : SWIGVM) (I : vm_invariant)
  (Start : Global → Prop) (mk : call) (rds : list round)
  (run_w done_w finished_w v_end v_fin : wire) (fuel : nat) (s : machine) :
  socket_name_ok (c_str argv1) = true →
  handshake (c_str argv1) w1 w2 v1 v2 r1 r2 its ots
    (cl_replies mk ++ session_replies rds v_end v_fin) s →
  md_single_call_mode (rp_meta r2) = false →
  ContainerContract vmMaker vm I Start mk rds →
  (∀ g, params g = session_params (params (glob s)) r1 r2 its ots → Start g) →
  Forall round_answered rds →
  requests (rp_connection_id r1) run_w done_w finished_w →
  answered MT_CLEANUP v_end → answered MT_FINISHED v_fin →
  S (length rds + total_calls rds) < fuel →
  ∃ s' limits, exaudfclient_main fuel vmMaker argv1 s = (Ret 0%Z, s') ∧
    Forall limit_event limits ∧
    did s s'
      (ev_socket_open :: limits ++ [ev_vm_make; ev_vm_shutdown; ev_vm_delete]
         ++ end_events (c_str argv1))
      ([w1; w2] ++ cl_requests mk ++ session_requests run_w done_w finished_w rds)
      ([v1; v2] ++ cl_replies mk ++ session_replies rds v_end v_fin).
Proof.
  intros Hn Hhs Hmode Hc Hst Hans Hreq Hend Hfin Hf.
  destruct (main_start_run fuel vmMaker argv1 s Hn) as (s1 & Hr1 & Hc1 & Hg1 & Hrem & Hfile).
  destruct (reinit_run (c_str argv1) w1 w2 v1 v2 r1 r2 its ots vmMaker vm I Start mk rds
    run_w done_w finished_w v_end v_fin fuel s1) as (s2 & limits & Hr2 & Hlim & Hd); try done.
  { eapply handshake_upd; [..|exact Hhs]; by rewrite Hc1. }
  { by rewrite Hg1. }
  exists s2, limits. split_and!; [by rewrite Hr1|done|].
  unfold stop_events in Hd. rewrite Hrem, Hfile in Hd. unfold did in *. by rewrite Hc1 in Hd.
Qed.
End main.

(** ** Failed sessions *)
Section failures.
Context `{Codec}.

Definition settled {A} (o : outcome exn A) : Prop :=
  match o with Ret _ | Throw _ => True | _ => False end.

(** The close message, empty when it cannot be serialized *)
Definition close_wire (id : Z) (text : string) : wire :=
  default wire_empty (serialize (mkRequest MT_CLOSE id
    (body_close (if str_empty text then None else Some text)))).

(** Whatever the server answers to a close message, the call ends. *)
Lemma send_close_settles text v vs s :
  serves (v :: vs) s →
  ∃ o s', send_close text s = (o, s') ∧ settled o ∧
    io s s' [close_wire (connection_id (params (glob s))) text] [v] ∧ serves vs s'.
Proof.
  intros Hsrv.
  destruct (serves_exchange (close_wire (connection_id (params (glob s))) text) v vs s Hsrv)
    as (s1 & s2 & Hr1 & Hr2 & Hio & Hsrv2).
  unfold send_close, make_request, get_params, response_or_throw, receive_response. run_simpl.
  rewrite (run_bind _ _ _ _ _ Hr1). run_simpl. rewrite (run_bind _ _ _ _ _ Hr2). run_simpl.
  destruct (parse v) as [r|]; run_simpl; [destruct (rp_type r)|]; by do 2 eexists.
Qed.

Lemma ignoring_settled {A} (m : run_of A) d s o s' :
  m s = (o, s') → settled o →
  ignoring m d s = (Ret (match o with Ret a => a | _ => d end), s').
Proof. unfold ignoring, try_catch. intros -> Ho. by destruct o. Qed.

Lemma close_and_sleep_run text v vs s :
  serves (v :: vs) s →
  ∃ s', ignoring (send_close text;; sleep 1) tt s = (Ret tt, s') ∧
    did s s' [] [close_wire (connection_id (params (glob s))) text] [v] ∧ sup s' = sup s.
Proof.
  intros Hsrv. destruct (send_close_settles text v vs s Hsrv) as (o & s1 & Hr & Ho & Hio & _).
  pose proof (turn_did _ _ _ _ (io_turn _ _ _ _ Hio)) as Hd.
  pose proof (sbc_sup _ _ (io_frame _ _ _ _ Hio)) as Hsup.
  destruct o as [[]|e| | |]; try done.
  - pose (s2 := s1 <| chan := (chan s1) <| c_trace := c_trace (chan s1) ++ [ev_sleep 1000000] |> |>).
    assert (sleep 1 s1 = (Ret tt, s2)) as Hsl by done.
    exists s2. split; [apply run_catch_ret; rewrite (run_bind _ _ _ _ _ Hr); exact Hsl|].
    split; [|by simpl].
    pose proof (did_trans _ _ _ _ _ _ _ _ _ Hd (did_sleep s1 s2 1000000 eq_refl)) as Hd2.
    by rewrite !app_nil_r in Hd2.
  - exists s1. unfold ignoring. by erewrite run_catch_throw by by apply run_bind_throw.
Qed.

Lemma handle_error_run vm msg b text s s1 v vs life :
  ignoring (cleanup_vm vm msg b) msg s = (Ret text, s1) → did s s1 life [] [] →
  sup s1 = sup s → connection_id (params (glob s1)) = connection_id (params (glob s)) →
  serves (v :: vs) s1 →
  ∃ s', handle_error vm msg b s = (Ret 1%Z, s') ∧
    did s s' (life ++ stop_events (sup s))
      [close_wire (connection_id (params (glob s))) text] [v].
Proof.
  intros Hr Hd Hsup Hid Hsrv.
  destruct (close_and_sleep_run text v vs s1 Hsrv) as (s2 & Hr2 & Hd2 & Hsup2).
  destruct (stop_all_run s2) as (s3 & Hr3 & Hd3). exists s3. split.
  - unfold handle_error. rewrite (run_bind _ _ _ _ _ Hr), (run_bind _ _ _ _ _ Hr2).
    unfold ignoring at 1. by rewrite (run_bind _ _ _ _ _ (run_catch_ret _ _ _ _ _ Hr3)).
  - rewrite <-Hid. rewrite Hsup2, Hsup in Hd3.
    pose proof (did_trans _ _ _ _ _ _ _ _ _ (did_trans _ _ _ _ _ _ _ _ _ Hd Hd2) Hd3) as Hd4.
    by rewrite !app_nil_r in Hd4.
Qed.

(** The text of the close message after the container was shut down *)
Definition error_text (msg : string) (o : outcome exn unit) (vm_msg : string) : string :=
  match o with
  | Ret _ =>
      if str_empty vm_msg then msg
      else "F-UDF-CL-LIB-1111: Caught exception

" +:+ msg +:+ "

 and caught another exception during cleanup

" +:+ vm_msg
  | _ => msg
  end.

(** The state in which [handle_error] calls [shutdown] of the container *)
Definition shutdown_state (s : machine) : machine :=
  s <| chan := (chan s) <| c_trace := c_trace (chan s) ++ [ev_vm_shutdown] |> |>
    <| vmf := (vmf s) <| exception_msg := "" |> |>.

Lemma cleanup_run vm msg o s s1 :
  vm_shutdown vm (shutdown_state s) = (o, s1) → settled o →
  chan s1 = chan (shutdown_state s) → sup s1 = sup s → glob s1 = glob s →
  ∃ s2, ignoring (cleanup_vm (Some vm) msg true) msg s
      = (Ret (error_text msg o (exception_msg (vmf s1))), s2) ∧
    did s s2 (ev_vm_shutdown :: match o with Ret _ => [ev_vm_delete] | _ => [] end) [] [] ∧
    sup s2 = sup s ∧ glob s2 = glob s ∧
    c_sends (chan s2) = c_sends (chan s) ∧ c_recvs (chan s2) = c_recvs (chan s) ∧
    c_access (chan s2) = c_access (chan s) ∧ mutex_held (chan s2) = mutex_held (chan s).
Proof.
  intros Hr Ho Hc Hsup Hg.
  unfold ignoring, try_catch, cleanup_vm, set_exception_msg, upd_vmf, shutdown, log, upd_chan,
    get_exception_msg. run_simpl.
  match goal with |- context [(vm_shutdown vm ≫= ?k) ?s0] =>
    change s0 with (shutdown_state s); rewrite (bind_run _ k), Hr end.
  destruct o as [[]|e| | |]; try done; simpl; run_simpl.
  - eexists. split; [done|]. simpl. rewrite Hc. split_and!; try done.
    exists [ev_vm_shutdown; ev_vm_delete]. simpl. by rewrite <-app_assoc.
  - eexists. split; [done|]. simpl. rewrite Hc. split_and!; try done.
    exists [ev_vm_shutdown]. simpl. rewrite ?Hc. by split_and!.
Qed.

(** C26. The end of a failed session. [handle_error] on a container that has to be
    shut down always returns 1 and never throws, whether its shutdown returns or
    throws and whatever the server answers to the close message, parsable or not.
    It shuts the container down once, deletes it unless the shutdown threw, sends
    one close message with the error, extended by the error of the shutdown when
    there was one, waits for the reply, closes the socket and removes the socket
    file of a local client. *)
Theorem handle_error_spec (vm : SWIGVM) (msg : string) (o : outcome exn unit)
  (v : wire) (vs : list wire) (s s1 : machine) :
  vm_shutdown vm (shutdown_state s) = (o, s1) → settled o →
  chan s1 = chan (shutdown_state s) → sup s1 = sup s → glob s1 = glob s →
  serves (v :: vs) s →
  ∃ s', handle_error (Some vm) msg true s = (Ret 1%Z, s') ∧
    did s s'
      (ev_vm_shutdown :: (match o with Ret _ => [ev_vm_delete] | _ => [] end)
         ++ stop_events (sup s))
      [close_wire (connection_id (params (glob s)))
         (error_text msg o (exception_msg (vmf s1)))] [v].
Proof.
  intros Hr Ho Hc Hsup Hg Hsrv.
  destruct (cleanup_run vm msg o s s1 Hr Ho Hc Hsup Hg)
    as (s2 & Hr2 & Hd2 & Hsup2 & Hg2 & Hs2 & Hv2 & Ha2 & Hm2).
  destruct (handle_error_run (Some vm) msg true _ s s2 v vs _ Hr2 Hd2 Hsup2)
    as (s' & Hr' & Hd'); [by rewrite Hg2|by apply (serves_upd _ s)|].
  exists s'. split; [done|]. by simpl in Hd'.
Qed.
End failures.

(** ** What becomes of exceptions *)
Section exceptions.
Context `{Codec}.

(** The container of the theorems below has nothing to do at its shutdown, as the
    base class. *)
Definition default_shutdown (vm : SWIGVM) : Prop := vm_shutdown vm = mret tt.

Lemma handle_error_default vm msg v vs s :
  default_shutdown vm → serves (v :: vs) s →
  ∃ s', handle_error (Some vm) msg true s = (Ret 1%Z, s') ∧
    did s s' (ev_vm_shutdown :: ev_vm_delete :: stop_events (sup s))
      [close_wire (connection_id (params (glob s))) msg] [v].
Proof.
  intros Hvm Hsrv. unfold default_shutdown in Hvm.
  destruct (cleanup_run vm msg (Ret tt) s (shutdown_state s))
    as (s2 & Hr2 & Hd2 & Hsup2 & Hg2 & Hs2 & Hv2 & Ha2 & Hm2); try done; [by rewrite Hvm|].
  destruct (handle_error_run (Some vm) msg true _ s s2 v vs _ Hr2 Hd2 Hsup2)
    as (s' & Hr' & Hd'); [by rewrite Hg2|by apply (serves_upd _ s)|].
  exists s'. by split.
Qed.

(** An error at the very end shuts the container down twice. When the server
    refuses the finished request of a session that went well until then, the
    exception comes after the container was shut down, and the handler shuts it
    down once more before it deletes it; the process returns 1 with the reason in
    the close message. *)
Theorem finished_refused_spec (vmMaker : run_of (option SWIGVM)) (vm : SWIGVM)
  (I : vm_invariant) (Start : Global → Prop) (mk : call) (rds : list round)
  (run_w done_w finished_w v_end v_fin v_close : wire)
  (r : exascript_response) (fuel : nat) (s : machine) :
  ContainerContract vmMaker vm I Start mk rds → default_shutdown vm → Forall round_answered rds →
  requests (connection_id (params (glob s))) run_w done_w finished_w →
  answered MT_CLEANUP v_end → parse v_fin = Some r → rp_type r ≠ MT_FINISHED →
  serves (cl_replies mk ++ session_replies rds v_end v_fin ++ [v_close]) s →
  Start (glob (initSwigParams s).2) → singleCallMode (glob s) = false → length rds + total_calls rds < fuel →
  ∃ s' msg, serve fuel vmMaker s = (Ret 1%Z, s') ∧
    did s s'
      ([ev_vm_make; ev_vm_shutdown; ev_vm_shutdown; ev_vm_delete] ++ stop_events (sup s))
      (cl_requests mk ++ session_requests run_w done_w finished_w rds
         ++ [close_wire (connection_id (params (glob s))) ("F-UDF-CL-LIB-1129: " +:+ c_str msg)])
      (cl_replies mk ++ session_replies rds v_end v_fin ++ [v_close]).
Proof.
  intros Hc Hdef Hans [Hrw Hdw Hfw] Hend Hp Ht Hsrv Hst Hmode Hf.
  unfold session_replies in Hsrv. rewrite <-app_assoc in Hsrv.
  pose proof (initSwigParams_run s) as Hini.
  match type of Hini with _ = (_, ?x) => set (s1 := x) in Hini end.
  pose (s2 := s1 <| chan := (chan s1) <| c_trace := c_trace (chan s1) ++ [ev_vm_make] |> |>
                 <| vmf := mkVmFields "" "" |>).
  destruct (made (concat (round_replies <$> rds) ++ [v_end; v_fin; v_close]) s2)
    as (s3 & Hr3 & Ht3 & Hsrv3 & Hh3); [by apply (serves_upd _ s)|done|done|].
  assert (connection_id (params (glob s3)) = connection_id (params (glob s))) as Hid3
    by by rewrite (tn_id _ _ _ _ Ht3).
  destruct (vm_session_to_finish vmMaker vm I Start mk rds run_w done_w v_end
    [v_fin; v_close] fuel s3) as (s4 & Hr4 & Hsrv4 & Hsup4 & _ & Hid4 & Hd4);
    try done; try (by rewrite Hid3); [by rewrite (tn_mode _ _ _ _ Ht3)|].
  assert (connection_id (params (glob s4)) = connection_id (params (glob s))) as Hid
    by congruence.
  destruct (send_finished_run finished_w v_fin r [v_close] s4 Hsrv4 Hp)
    as (s5 & Hio5 & Hsrv5 & [[? _]|[_ [msg Hr5]]]); [by rewrite Hid|done|].
  destruct (handle_error_default vm ("F-UDF-CL-LIB-1129: " +:+ c_str msg) v_close [] s5 Hdef Hsrv5)
    as (s6 & Hr6 & Hd6).
  exists s6, msg. split.
  - unfold serve. rewrite (run_bind _ _ _ _ _ Hini).
    assert (make_vm vmMaker s1 = (Ret (Some vm), s3)) as Hmk.
    { unfold make_vm, log, upd_chan, upd_vmf. run_simpl. exact Hr3. }
    rewrite (run_bind _ _ _ _ _ (attempt_ret _ _ _ _ Hmk)). unfold get_exception_msg. run_simpl.
    destruct Hh3 as [_ Hemp]. rewrite Hemp. simpl.
    assert (vm_session fuel vm s3 = (Throw (SwigException msg), s5)) as Hthrow
      by by rewrite Hr4; apply run_bind_throw.
    by rewrite (run_bind _ _ _ _ _ (attempt_throw _ _ _ _ Hthrow)).
  - pose proof (io_frame _ _ _ _ Hio5) as Hfr.
    rewrite (sbc_glob _ _ Hfr), (sbc_sup _ _ Hfr), Hid, Hsup4, (tn_sup _ _ _ _ Ht3) in Hd6.
    simpl in Hd6.
    pose proof (did_trans _ _ _ _ _ _ _ _ _ (did_trans _ _ _ _ _ _ _ _ _
      (did_trans _ _ _ _ _ _ _ _ _ (did_trans _ _ _ _ _ _ _ _ _
        (did_step s s2 ev_vm_make eq_refl eq_refl) (turn_did _ _ _ _ Ht3)) Hd4)
      (turn_did _ _ _ _ (io_turn _ _ _ _ Hio5))) Hd6) as Hd.
    unfold session_requests, session_replies. simpl in Hd.
    rewrite <-!app_assoc in Hd. rewrite <-!app_assoc. exact Hd.
Qed.

(** An exception of [run] is reported late. [run_] turns a [SWIGVM::exception]
    into the end of the work: the client tells the server that the round is done,
    and only after the clean-up and the shutdown does it send the message of the
    exception in the close message, and return 1. *)
Theorem run_exception_spec (vm : SWIGVM) (b : bool) (e : string)
  (run_w done_w v_run v_done v_close : wire) (fuel : nat) (s : machine) :
  vm_useZmqSocketLocks vm = mret b → default_shutdown vm →
  (∀ s0, vm_run vm s0 = (Throw (SwigException e), s0)) → c_str e ≠ "" →
  serialize (mkRequest MT_RUN (connection_id (params (glob s))) body_none) = Some run_w →
  serialize (mkRequest MT_DONE (connection_id (params (glob s))) body_none) = Some done_w →
  answered MT_RUN v_run → answered MT_CLEANUP v_done →
  serves [v_run; v_done; v_close] s → singleCallMode (glob s) = false → 1 < fuel →
  ∃ s', vm_session fuel vm s = (Ret (Some 1%Z), s') ∧
    did s s' ([ev_vm_shutdown; ev_vm_delete] ++ stop_events (sup s))
      [run_w; done_w;
       close_wire (connection_id (params (glob s))) ("F-UDF-CL-LIB-1128: " +:+ c_str e)]
      [v_run; v_done; v_close].
Proof.
  intros Hb Hdef Hrun He Hrw Hdw (r1 & Hp1 & Ht1) (r2 & Hp2 & Ht2) Hsrv Hmode Hf.
  pose (s0 := s <| chan := (chan s) <| use_zmq_socket_locks := b |> |>).
  destruct (exchange_go ex_run run_w v_run r1 [v_done; v_close] s0 true)
    as (s1 & Hr1 & Hio1 & Hsrv1);
    [by apply (serves_upd _ s)|done|done|by intros _; rewrite Ht1|by simpl; rewrite Ht1|].
  pose (s2 := s1 <| glob := (glob s1)
      <| params := (params (glob s1)) <| inp_force_finish := false |> |> |>
      <| vmf := (vmf s1) <| exception_msg := c_str e |> |>).
  pose proof (io_frame _ _ _ _ Hio1) as Hfr1.
  destruct (exchange_go ex_done done_w v_done r2 [v_close] s2 false)
    as (s3 & Hr3 & Hio3 & Hsrv3);
    [by apply (serves_upd _ s1)|simpl; by rewrite (sbc_glob _ _ Hfr1)|done|done
    |by simpl; rewrite Ht2|].
  pose proof (io_frame _ _ _ _ Hio3) as Hfr3.
  pose (s4 := s3 <| chan := (chan s3) <| c_trace := c_trace (chan s3) ++ [ev_vm_shutdown] |> |>).
  pose (s5 := s4 <| chan := (chan s4) <| c_trace := c_trace (chan s4) ++ [ev_vm_delete] |> |>).
  assert (connection_id (params (glob s4)) = connection_id (params (glob s))) as Hid
    by by simpl; rewrite (sbc_glob _ _ Hfr3); simpl; rewrite (sbc_glob _ _ Hfr1).
  assert (sup s4 = sup s) as Hsup
    by by simpl; rewrite (sbc_sup _ _ Hfr3); simpl; rewrite (sbc_sup _ _ Hfr1).
  destruct (handle_error_run (Some vm) ("F-UDF-CL-LIB-1128: " +:+ c_str e) false
    ("F-UDF-CL-LIB-1128: " +:+ c_str e) s4 s5 v_close [] [ev_vm_delete])
    as (s6 & Hr6 & Hd6); [done|by apply did_step|done|done|by apply (serves_upd _ s3)|].
  exists s6. split.
  - unfold vm_session, init, upd_chan, shutdown, log, upd_chan, get_exception_msg. rewrite Hb.
    run_simpl. fold s0. rewrite Hmode. simpl. destruct fuel as [|[|fuel]]; [lia..|].
    assert (run_loop (S (S fuel)) vm s0 = (Ret None, s3)) as Hloop.
    { simpl. simpl in Hr1, Hr3. rewrite (run_bind _ _ _ _ _ Hr1). unfold upd_params. run_simpl.
      unfold run_ at 1. unfold try_catch at 1. rewrite bind_run, Hrun. run_simpl.
      unfold set_exception_msg, upd_vmf. run_simpl. fold s2.
      by rewrite (run_bind _ _ _ _ _ Hr3). }
    rewrite (run_bind _ _ _ _ _ Hloop). unfold default_shutdown in Hdef. rewrite Hdef.
    run_simpl. rewrite (sbc_vmf _ _ Hfr3). simpl.
    destruct (str_empty (c_str e)) eqn:Hse; [by apply str_empty_true in Hse|]. simpl.
    by rewrite (run_bind _ _ _ _ _ Hr6).
  - rewrite Hid, Hsup in Hd6.
    pose proof (did_trans _ _ _ _ _ _ _ _ _ (did_trans _ _ _ _ _ _ _ _ _ (did_trans _ _ _ _ _ _ _ _ _
      (turn_did _ _ _ _ (io_turn _ _ _ _ Hio1)) (turn_did _ _ _ _ (io_turn _ _ _ _ Hio3)))
      (did_step s3 s4 ev_vm_shutdown eq_refl eq_refl)) Hd6) as Hd.
    by simpl in Hd.
Qed.
End exceptions.

(** ** Single calls *)
Section single_calls.
Context `{Codec}.

(** The argument a call message stands for, if it is accepted and not empty *)
Definition call_argument (sc : exascript_single_call_rep) : option script_dto :=
  match sc_fn sc with
  | SC_FN_NIL => None
  | SC_FN_DEFAULT_OUTPUT_COLUMNS => Some dto_empty
  | SC_FN_GENERATE_SQL_FOR_IMPORT_SPEC =>
      rep ← sc_import_specification sc;
      if import_rep_ok rep then Some (dto_import (import_of_rep rep)) else None
  | SC_FN_GENERATE_SQL_FOR_EXPORT_SPEC =>
      rep ← sc_export_specification sc;
      if export_rep_ok rep then Some (dto_export (export_of_rep rep)) else None
  | SC_FN_VIRTUAL_SCHEMA_ADAPTER_CALL =>
      json ← sc_json_arg sc; Some (dto_string (mkStringDTO json))
  end.

(** What the loop does with the argument after the call *)
Definition reset_argument (fn : single_call_function_id_e) : run_of unit :=
  match fn with
  | SC_FN_GENERATE_SQL_FOR_IMPORT_SPEC => reset_import_arg
  | SC_FN_GENERATE_SQL_FOR_EXPORT_SPEC => reset_export_arg
  | _ => mret tt
  end.

Lemma accept_call_run sc dto s :
  call_argument sc = Some dto →
  ∃ s1, accept_call sc s = (Ret tt, s1) ∧ chan s1 = chan s ∧ sup s1 = sup s ∧
    vmf s1 = vmf s ∧ params (glob s1) = params (glob s) ∧
    singleCallMode (glob s1) = singleCallMode (glob s) ∧
    singleCallFunction (glob s1) = sc_fn sc ∧ sc_fn sc ≠ SC_FN_NIL ∧
    ∀ vm, dispatch_call vm (sc_fn sc) s1 =
      (r ← vm_singleCall vm (sc_fn sc) dto; reset_argument (sc_fn sc);; mret r) s1.
Proof.
  assert (∀ (m : run_of (option string)) s, m s = (r ← m; mret tt;; mret r) s) as Hret.
  { intros m s0. rewrite bind_run. unfold bind_outcome. by destruct (m s0) as [[] ?]. }
  unfold call_argument, accept_call, upd_glob. run_simpl.
  destruct (sc_fn sc); intros Ha.
  - done.
  - injection Ha as <-. eexists. split_and!; try done.
  - destruct (sc_json_arg sc) as [json|]; [|done]. injection Ha as <-. run_simpl.
    eexists. split_and!; try done. intros vm. simpl. run_simpl. apply Hret.
  - destruct (sc_import_specification sc) as [rep|]; [|done]. simpl in Ha. run_simpl.
    unfold on_import. pose proof (import_spec_calls_run rep) as Hi.
    destruct (import_rep_ok rep); [|done]. injection Ha as <-. simpl. rewrite Hi.
    eexists. split_and!; try done.
  - destruct (sc_export_specification sc) as [rep|]; [|done]. simpl in Ha. run_simpl.
    unfold on_export. pose proof (export_spec_calls_run rep) as Hi.
    destruct (export_rep_ok rep); [|done]. injection Ha as <-. simpl. rewrite Hi.
    eexists. split_and!; try done.
Qed.

(** How the container ends a single call *)
Inductive call_ending : Type :=
  | ends_result (result : string)
  | ends_undefined (fn : string)
  | ends_throwing (e : exn).

Definition ending_outcome (oc : call_ending) : outcome exn (option string) :=
  match oc with
  | ends_result r => Ret (Some r)
  | ends_undefined _ => Ret None
  | ends_throwing e => Throw e
  end.
Definition ending_undefined (oc : call_ending) : string :=
  match oc with ends_undefined fn => fn | _ => "" end.

(** The contract of a single call with the argument [dto]: what the container sends
    and is answered meanwhile, and how it ends *)
Definition single_call_kept (vm : SWIGVM) (fn : single_call_function_id_e)
  (dto : script_dto) (c : call) (oc : call_ending) : Prop :=
  ∀ vs s, serves (cl_replies c ++ vs) s →
    exception_msg (vmf s) = "" → calledUndefinedSingleCall (vmf s) = "" →
    ∃ s', vm_singleCall vm fn dto s = (ending_outcome oc, s') ∧
      turn s s' (cl_requests c) (cl_replies c) ∧ serves vs s' ∧
      vmf s' = mkVmFields "" (ending_undefined oc).

(** The exchanges that report the end of a call, and their proper replies *)
Definition ending_exchanges (oc : call_ending) : list (exchange * message_type) :=
  match oc with
  | ends_result r => [(ex_return r, MT_RETURN); (ex_done, MT_DONE)]
  | ends_undefined fn => [(ex_undefined_call fn, MT_UNDEFINED_CALL); (ex_done, MT_DONE)]
  | ends_throwing _ => []
  end.

(** The requests [ws] of the exchanges [xs] under the connection id [id] and proper
    replies [vs] to them *)
Inductive exchanged (id : Z) :
  list (exchange * message_type) → list wire → list wire → Prop :=
  | exchanged_nil : exchanged id [] [] []
  | exchanged_cons x t xs w ws v vs :
      serialize (mkRequest (exchange_request x).1 id (exchange_request x).2) = Some w →
      answered t v → exchanged id xs ws vs →
      exchanged id ((x, t) :: xs) (w :: ws) (v :: vs).

(** The report of a call that did not throw *)
Definition report (oc : call_ending) : run_of loop_exit :=
  match oc with
  | ends_result r => send_return (Some r);; mret tt
  | ends_undefined u => send_undefined_call u
  | ends_throwing _ => mret tt
  end;;
  ok ← send_done;
  mret (if (ok : bool) then sc_continue else sc_break).

Lemma report_run oc ws vs rest s :
  (∀ e, oc ≠ ends_throwing e) → serves (vs ++ rest) s →
  exchanged (connection_id (params (glob s))) (ending_exchanges oc) ws vs →
  ∃ s', report oc s = (Ret sc_continue, s') ∧ io s s' ws vs ∧ serves rest s'.
Proof.
  intros Hoc Hsrv Hex.
  assert (∃ x t, ending_exchanges oc = [(x, t); (ex_done, MT_DONE)] ∧ x ≠ ex_run ∧
    (∀ r, rp_type r = t → verdict x r = Ret true) ∧
    ∀ s s', exchange_run_ x s = (Ret true, s') →
      report oc s = (ok ← send_done; mret (if (ok : bool) then sc_continue else sc_break)) s')
    as (x & t & Hx & Hnr & Hv & Hrep).
  { destruct oc as [result|u|e]; [| |by destruct (Hoc e)]; do 2 eexists; split; try done;
      (split; [done|]); (split; [by intros r Hr; simpl; rewrite Hr|]); intros s0 s1 Hr; unfold report;
      unfold exchange_run_ in Hr; cbv beta iota in *.
    - by rewrite run_bind_bind, (run_bind _ _ _ _ _ Hr).
    - rewrite bind_run in Hr. rewrite bind_run. unfold bind_outcome in *.
      destruct (send_undefined_call u s0) as [[[]| | | |] s2]; simpl in *; try done.
      by injection Hr as ->. }
  rewrite Hx in Hex. inversion Hex as [|? ? ? w1 ws1 v1 vs1 Hw1 (r1 & Hp1 & Ht1) Hex1]; subst.
  inversion Hex1 as [|? ? ? w2 ws2 v2 vs2 Hw2 (r2 & Hp2 & Ht2) Hex2]; subst.
  inversion Hex2; subst. simpl in Hsrv.
  destruct (exchange_go x w1 v1 r1 _ s true Hsrv Hw1 Hp1) as (s1 & Hr1 & Hio1 & Hsrv1);
    [done|by apply Hv|].
  destruct (exchange_go ex_done w2 v2 r2 _ s1 true Hsrv1) as (s2 & Hr2 & Hio2 & Hsrv2);
    [by rewrite (sbc_glob _ _ (io_frame _ _ _ _ Hio1))|done|done|by simpl; rewrite Ht2|].
  exists s2. split_and!; [|by apply (io_trans s s1 s2 [w1] [w2] [v1] [v2])|done].
  rewrite (Hrep _ _ Hr1). simpl in Hr2. by rewrite (run_bind _ _ _ _ _ Hr2).
Qed.

Lemma reset_argument_run fn s :
  ∃ s', reset_argument fn s = (Ret tt, s') ∧ chan s' = chan s ∧ sup s' = sup s ∧
    vmf s' = vmf s ∧ params (glob s') = params (glob s) ∧
    singleCallMode (glob s') = singleCallMode (glob s).
Proof. by destruct fn; eexists. Qed.

(** One call and its report, inside the handler that catches everything *)
Lemma single_call_step_run vm fn dto c oc s ws vs rest :
  single_call_kept vm fn dto c oc → serves (cl_replies c ++ vs ++ rest) s →
  vmf s = mkVmFields "" "" → ending_undefined oc ≠ "" ∨ ¬ (∃ u, oc = ends_undefined u) →
  (∀ vm, dispatch_call vm fn s = (r ← vm_singleCall vm fn dto; reset_argument fn;; mret r) s) →
  exchanged (connection_id (params (glob s))) (ending_exchanges oc) ws vs →
  ∃ s', ignoring (single_call_step vm fn) sc_continue s = (Ret sc_continue, s') ∧
    turn s s' (cl_requests c ++ ws) (cl_replies c ++ vs) ∧ serves rest s' ∧
    vmf s' = mkVmFields "" (ending_undefined oc).
Proof.
  intros Hk Hsrv Hvmf Hu Hdisp Hex.
  destruct (Hk _ _ Hsrv) as (s1 & Hr1 & Ht1 & Hsrv1 & Hv1); [by rewrite Hvmf..|].
  destruct (reset_argument_run fn s1) as (s2 & Hr2 & Hc2 & Hsup2 & Hv2 & Hp2 & Hm2).
  assert (turn s s2 (cl_requests c) (cl_replies c)) as Ht2.
  { destruct Ht1 as [(tr & Htr & Htr') ? ? ?]. split; [|congruence..].
    exists tr. by rewrite Hc2. }
  destruct (decide (ending_exchanges oc = [])) as [Hnil|Hnil].
  { destruct oc as [| |e]; try done. inversion Hex; subst. exists s1. simpl in *.
    rewrite !app_nil_r. split_and!; try done.
    unfold ignoring. erewrite run_catch_throw; [done|].
    unfold single_call_step. apply run_bind_throw. rewrite Hdisp. by apply run_bind_throw. }
  assert (∀ e, oc ≠ ends_throwing e) as Hoc by by intros e ->.
  destruct (report_run oc ws vs rest s2 Hoc) as (s3 & Hr3 & Hio3 & Hsrv3).
  { by apply (serves_chan _ s1). }
  { by rewrite (tn_id _ _ _ _ Ht2). }
  exists s3. split_and!.
  - unfold ignoring. apply run_catch_ret. unfold single_call_step.
    rewrite bind_run, Hdisp, bind_run, Hr1. simpl.
    destruct oc as [result|u|e]; simpl in *; [| |by destruct (Hoc e)];
      rewrite (run_bind _ _ _ _ _ Hr2); unfold get_exception_msg; run_simpl;
      rewrite Hv2, Hv1; simpl; run_simpl; rewrite Hv2, Hv1; simpl.
    + exact Hr3.
    + destruct u as [|a u]; [naive_solver|]. exact Hr3.
  - by apply (turn_trans s s2 s3); [|apply io_turn].
  - done.
  - rewrite (sbc_vmf _ _ (io_frame _ _ _ _ Hio3)). by rewrite Hv2.
Qed.

(** C25. A single call. The server answers the run request with a call. The container
    is called with exactly the argument the message carries; what it returns goes
    back in one return message, or the name of the function in one undefined-call
    message when it has none, followed by the done request, and the client asks
    for the next call. A call that throws, whatever it throws, is forgotten: the
    client asks for the next call without having answered this one. *)
Theorem single_call_round_spec (vm : SWIGVM) (r : exascript_response) (dto : script_dto)
  (c : call) (oc : call_ending) (run_w v_call : wire) (ws vs rest : list wire)
  (fuel : nat) (s : machine) :
  singleCallMode (glob s) = true → vmf s = mkVmFields "" "" →
  parse v_call = Some r → rp_type r = MT_CALL → call_argument (rp_call r) = Some dto →
  single_call_kept vm (sc_fn (rp_call r)) dto c oc →
  ending_undefined oc ≠ "" ∨ ¬ (∃ u, oc = ends_undefined u) →
  serialize (mkRequest MT_RUN (connection_id (params (glob s))) body_none) = Some run_w →
  exchanged (connection_id (params (glob s))) (ending_exchanges oc) ws vs →
  serves (v_call :: cl_replies c ++ vs ++ rest) s →
  ∃ s', single_call_loop (S fuel) vm s = single_call_loop fuel vm s' ∧
    turn s s' (run_w :: cl_requests c ++ ws) (v_call :: cl_replies c ++ vs) ∧
    serves rest s' ∧ vmf s' = mkVmFields "" (ending_undefined oc).
Proof.
  intros Hmode Hvmf Hp Ht Harg Hk Hu Hrw Hex Hsrv.
  destruct (serves_exchange run_w v_call _ s Hsrv) as (s0 & s1 & Hr0 & Hr1 & Hio1 & Hsrv1).
  pose proof (io_frame _ _ _ _ Hio1) as Hfr.
  destruct (accept_call_run (rp_call r) dto s1 Harg)
    as (s2 & Hr2 & Hc2 & Hsup2 & Hv2 & Hp2 & Hm2 & Hfn & Hnil & Hdisp).
  assert (turn s s2 [run_w] [v_call]) as Ht2.
  { destruct (io_turn _ _ _ _ Hio1) as [(tr & Htr & Htr') ? ? ?]. split; [|congruence..].
    exists tr. by rewrite Hc2. }
  destruct (single_call_step_run vm (sc_fn (rp_call r)) dto c oc s2 ws vs rest)
    as (s3 & Hr3 & Ht3 & Hsrv3 & Hv3); try done.
  { by apply (serves_chan _ s1). }
  { by rewrite Hv2, (sbc_vmf _ _ Hfr). }
  { by rewrite (tn_id _ _ _ _ Ht2). }
  assert (send_run s = (Ret true, s2)) as Hrun.
  { unfold send_run, request_or_throw, make_request, get_params, response_or_throw,
      receive_response. run_simpl. rewrite Hrw, (run_bind _ _ _ _ _ Hr0). run_simpl.
    rewrite (run_bind _ _ _ _ _ Hr1). run_simpl. rewrite Hp. run_simpl.
    rewrite (sbc_glob _ _ Hfr), Hmode, bool_decide_true by done. simpl.
    by rewrite (run_bind _ _ _ _ _ Hr2). }
  exists s3. split_and!; [|by apply (turn_trans s s2 s3 [run_w] _ [v_call] _)|done|done].
  simpl. rewrite (run_bind _ _ _ _ _ Hrun). run_simpl. rewrite Hfn.
  rewrite bool_decide_true by done. simpl. run_simpl. by rewrite (run_bind _ _ _ _ _ Hr3).
Qed.
End single_calls.

(** ** Witnesses *)
Section witnesses.
#[local] Existing Instance plain_codec.

(** A container that has nothing to do in any round *)
Definition idle_vm (run : run_of bool) : SWIGVM :=
  mkSWIGVM run (λ _ _, mret (Some "ok")) (mret tt) (mret false).
Definition idle_invariant : vm_invariant := λ _ _ _ _ _, True.
Definition no_call : call := mkCall [] [].
Definition reply_of (t : message_type) : @wire plain_codec := plain_reply (response_plain t 0).
Definition idle_round : round := mkRound (reply_of MT_RUN) [no_call] (reply_of MT_DONE).

Lemma idle_contract :
  ContainerContract (mret (Some (idle_vm (mret true)))) (idle_vm (mret true)) idle_invariant
    (λ _, True) no_call [idle_round].
Proof.
  split.
  - intros vs s Hs He _. exists s. split_and!; [done|apply turn_refl|done|by split].
  - by exists false.
  - done.
  - split; [|done]. intros vs s Hs Hh. exists s. split_and!; [done|apply turn_refl|done|].
    by destruct Hh.
  - intros s [_ He]. by exists s.
Qed.

Lemma requests_now id :
  requests id (plain_request MT_RUN id body_none) (plain_request MT_DONE id body_none)
    (plain_request MT_FINISHED id body_none).
Proof. by split. Qed.
Lemma answered_now t : answered t (reply_of t).
Proof. by exists (response_plain t 0). Qed.
Lemma idle_round_answered : Forall round_answered [idle_round].
Proof. repeat constructor; apply answered_now. Qed.

(** The replies of a session with one round *)
Definition idle_replies (v_fin : wire) : list wire :=
  session_replies [idle_round] (reply_of MT_CLEANUP) v_fin.

Lemma exaudfclient_main_session_witness :
  ∃ s' limits, exaudfclient_main 4 (mret (Some (idle_vm (mret true)))) "ipc:///tmp/s"
    (machine_init (prompt (plain_reply sample_info :: plain_reply sample_meta
       :: idle_replies (reply_of MT_FINISHED)))) = (Ret 0%Z, s') ∧
    lifecycle (c_trace (chan s')) = ev_socket_open :: limits ++
      [ev_vm_make; ev_vm_shutdown; ev_vm_delete; ev_socket_close; ev_unlink "/tmp/s"].
Proof.
  destruct (exaudfclient_main_session "ipc:///tmp/s" _ _ _ _ sample_info sample_meta _ _
    (mret (Some (idle_vm (mret true)))) (idle_vm (mret true)) idle_invariant (λ _, True) no_call
    [idle_round] _ _ _ (reply_of MT_CLEANUP) (reply_of MT_FINISHED) 4 _ eq_refl
    (handshake_now "ipc:///tmp/s" sample_info sample_meta
      [mkColumntype INT32 "DECIMAL(4,0)" 0 4 0] [mkColumntype STRING "VARCHAR(9)" 9 0 0]
      (idle_replies (reply_of MT_FINISHED)) eq_refl eq_refl eq_refl eq_refl) eq_refl
    idle_contract (λ _ _, I) idle_round_answered (requests_now 77) (answered_now MT_CLEANUP)
    (answered_now MT_FINISHED) ltac:(vm_compute; lia))
    as (s' & limits & Hr & _ & tr & Ht & Hl & _).
  exists s', limits. split; [exact Hr|]. rewrite Ht. exact Hl.
Defined.

Lemma handle_error_spec_witness :
  let s := machine_init (prompt [reply_of MT_CLOSE]) in
  ∃ s', handle_error (Some (idle_vm (mret true))) "broken" true s = (Ret 1%Z, s') ∧
    sent (c_trace (chan s')) = [close_wire 0 "broken"].
Proof.
  intros s. destruct (handle_error_spec (idle_vm (mret true)) "broken" (Ret tt)
    (reply_of MT_CLOSE) [] s (shutdown_state s) eq_refl I eq_refl eq_refl eq_refl
    (serves_now _)) as (s' & Hr & tr & Ht & _ & Hs & _).
  exists s'. split; [exact Hr|]. rewrite Ht. exact Hs.
Defined.

Lemma finished_refused_spec_witness :
  let s := machine_init (prompt (idle_replies (reply_of MT_DONE) ++ [reply_of MT_CLOSE])) in
  ∃ s', serve 3 (mret (Some (idle_vm (mret true)))) s = (Ret 1%Z, s') ∧
    lifecycle (c_trace (chan s')) = [ev_vm_make; ev_vm_shutdown; ev_vm_shutdown; ev_vm_delete;
      ev_socket_close; ev_unlink ""].
Proof.
  intros s. destruct (finished_refused_spec (mret (Some (idle_vm (mret true))))
    (idle_vm (mret true)) idle_invariant (λ _, True) no_call [idle_round] _ _ _
    (reply_of MT_CLEANUP) (reply_of MT_DONE) (reply_of MT_CLOSE) (response_plain MT_DONE 0) 3 s
    idle_contract eq_refl idle_round_answered (requests_now 0) (answered_now MT_CLEANUP)
    eq_refl ltac:(discriminate) (serves_now _) I eq_refl ltac:(vm_compute; lia))
    as (s' & msg & Hr & tr & Ht & Hl & _).
  exists s'. split; [exact Hr|]. rewrite Ht. exact Hl.
Defined.

Lemma run_exception_spec_witness :
  let s := machine_init (prompt [reply_of MT_RUN; reply_of MT_CLEANUP; reply_of MT_CLOSE]) in
  ∃ s', vm_session 2 (idle_vm (throw (SwigException "no data"))) s = (Ret (Some 1%Z), s') ∧
    sent (c_trace (chan s')) = [plain_request MT_RUN 0 body_none; plain_request MT_DONE 0 body_none;
      plain_request MT_CLOSE 0 (body_close (Some "F-UDF-CL-LIB-1128: no data"))].
Proof.
  intros s. destruct (run_exception_spec (idle_vm (throw (SwigException "no data"))) false
    "no data" _ _ (reply_of MT_RUN) (reply_of MT_CLEANUP) (reply_of MT_CLOSE) 2 s eq_refl eq_refl
    (λ _, eq_refl) ltac:(discriminate) (req_run _ _ _ _ (requests_now 0))
    (req_done _ _ _ _ (requests_now 0)) (answered_now MT_RUN) (answered_now MT_CLEANUP)
    (serves_now _) eq_refl ltac:(lia)) as (s' & Hr & tr & Ht & _ & Hs & _).
  exists s'. split; [exact Hr|]. rewrite Ht. exact Hs.
Defined.

Definition sample_call : exascript_response :=
  (response_plain MT_CALL 0) <| rp_call :=
    mkSingleCallRep SC_FN_VIRTUAL_SCHEMA_ADAPTER_CALL None (Some "{}") None |>.

Lemma single_call_round_spec_witness :
  let vs := [plain_reply sample_call; reply_of MT_RETURN; reply_of MT_DONE] in
  let s := (machine_init (prompt vs)) <| glob := Global_init <| singleCallMode := true |> |> in
  ∃ s', single_call_loop 2 (idle_vm (mret true)) s = single_call_loop 1 (idle_vm (mret true)) s' ∧
    sent (c_trace (chan s')) = [plain_request MT_RUN 0 body_none;
      plain_request MT_RETURN 0 (body_call_result "ok"); plain_request MT_DONE 0 body_none].
Proof.
  intros vs s. destruct (single_call_round_spec (idle_vm (mret true)) sample_call
    (dto_string (mkStringDTO "{}")) no_call (ends_result "ok")
    (plain_request MT_RUN 0 body_none) (plain_reply sample_call)
    [plain_request MT_RETURN 0 (body_call_result "ok"); plain_request MT_DONE 0 body_none]
    [reply_of MT_RETURN; reply_of MT_DONE] [] 1 s) as (s' & Hr & Htu & _); try reflexivity.
  - intros rest s0 Hs He Hu. exists s0. split_and!; [reflexivity|apply turn_refl|exact Hs|].
    destruct (vmf s0). simpl in *. by subst.
  - right. by intros [u ?].
  - econstructor; [reflexivity|apply answered_now|].
    econstructor; [reflexivity|apply answered_now|constructor].
  - apply (serves_chan _ (machine_init (prompt vs))); [reflexivity|]. apply serves_now.
  - exists s'. split; [exact Hr|]. apply (turn_sent _ _ _ _ Htu).
Defined.
End witnesses.
