(* ===== verification/SwigFactory.v ===== *)
(** * The factory functions of the library ([base/load_dynamic.cc],
    [impl/swig/swig_factory.cc], [swig_factory/swig_factory_impl.cc],
    [base/exaudflib/swig/*.h])

    A container does not construct the implementation classes itself: its three members
    are forwarding classes, whose constructors look a factory function up in the library
    that was loaded at the start, and call it. Every method of theirs forwards to the
    object it returns, so the methods of the implementation stand for both. *)
From S2P Require Import Prelude SwigCommon Protocol Dto Machine SocketLowLevel.
From S2P Require Import SocketHighLevel MetaData TableIterator ResultHandler.

Open Scope string_scope.
Open Scope list_scope.
Open Scope Z_scope.

(** [dlsym] with [dlerror] after it: the text of an error, or the address, which can
    be null *)
Inductive dl_result : Type :=
  | dl_error (what : string)
  | dl_address (p : Z).

(** The static variable of [load_dynamic.cc] and the dynamic linker *)
Record library : Type := mkLibrary { exaudflib_handle : Z; lib_dlsym : Z → string → dl_result }.

Definition set_exaudflib_handle (handle : Z) (this : library) : library :=
  if handle =? 0 then this else mkLibrary handle (lib_dlsym this).

Section factory.
Context `{Codec} (lib : library).

Definition load_dynamic (name : string) : run_of Z :=
  if exaudflib_handle lib =? 0
  then throw (SwigException "Error: exaudflib_handle is not set.")
  else match lib_dlsym lib (exaudflib_handle lib) (c_str name) with
       | dl_error what => throw (SwigException (c_str
           ("Error when trying to load function '" +:+ c_str name +:+ "': " +:+ what)))
       | dl_address p => mret p
       end.

(** A call of the function [name] of the library, which is [f]; a null address is
    called, too. *)
Definition call_symbol {A} (name : string) (f : run_of A) : run_of A :=
  create ← load_dynamic name;
  if (create =? 0 : bool) then undef else f.

(** The constructors *)
Definition SWIGMetadata : run_of swig_metadata :=
  call_symbol "create_SWIGMetaData" SWIGMetadata_Impl.
Definition SWIGTableIterator : run_of unit :=
  call_symbol "create_SWIGTableIterator" SWIGTableIterator_Impl.
Definition SWIGResultHandler : run_of unit :=
  call_symbol "create_SWIGResultHandler" SWIGResultHandler_Impl.

(** [SwigFactoryImpl] *)
Definition makeSwigMetadata : run_of swig_metadata :=
  call_symbol "create_SWIGMetaData" SWIGMetadata_Impl.

(** ** A complete library *)
Definition factory_symbols : list string :=
  ["create_SWIGMetaData"; "create_SWIGTableIterator"; "create_SWIGResultHandler"].

Class FactoryLibrary : Prop := {
  factory_handle : exaudflib_handle lib ≠ 0;
  factory_symbol name : name ∈ factory_symbols →
    ∃ p, p ≠ 0 ∧ lib_dlsym lib (exaudflib_handle lib) name = dl_address p;
}.

Lemma call_symbol_loaded {A} `{!FactoryLibrary} name (f : run_of A) s :
  name ∈ factory_symbols → c_str name = name → call_symbol name f s = f s.
Proof.
  intros Hin Hc. destruct (factory_symbol name Hin) as (p & Hp & Hsym).
  unfold call_symbol, load_dynamic. rewrite (proj2 (Z.eqb_neq _ _) factory_handle), Hc, Hsym.
  by rewrite run_bind_ret, (proj2 (Z.eqb_neq _ _) Hp).
Qed.

Lemma SWIGMetadata_loaded `{!FactoryLibrary} s : SWIGMetadata s = SWIGMetadata_Impl s.
Proof. apply call_symbol_loaded; [by left|done]. Qed.
Lemma SWIGTableIterator_loaded `{!FactoryLibrary} s : SWIGTableIterator s = SWIGTableIterator_Impl s.
Proof. apply call_symbol_loaded; [by right; left|done]. Qed.
Lemma SWIGResultHandler_loaded `{!FactoryLibrary} s : SWIGResultHandler s = SWIGResultHandler_Impl s.
Proof. apply call_symbol_loaded; [by right; right; left|done]. Qed.

(** What a missing function leaves behind: nothing *)
Lemma call_symbol_missing {A} name what (f : run_of A) s :
  exaudflib_handle lib ≠ 0 →
  lib_dlsym lib (exaudflib_handle lib) (c_str name) = dl_error what →
  call_symbol name f s = (Throw (SwigException (c_str
    ("Error when trying to load function '" +:+ c_str name +:+ "': " +:+ what))), s).
Proof.
  intros Hh Hs. unfold call_symbol, load_dynamic. by rewrite (proj2 (Z.eqb_neq _ _) Hh), Hs.
Qed.
End factory.

Arguments FactoryLibrary : clear implicits.
