(* ===== verification/TestContainer.v ===== *)
(** * The test container ([test_container/test_container.{h,cc}])

    A language container that is part of the repository: it either emits two values
    of its metadata or forwards its input. Its three members are the metadata
    object, the iterator and the handler of the machine. *)
From S2P Require Import Prelude SwigCommon Protocol Dto Machine SocketLowLevel.
From S2P Require Import SocketHighLevel MetaData RowCodec TableIterator ResultHandler.
From S2P Require Import RoundTrip ClientMain ClientRun SwigFactory.

Open Scope string_scope.
Open Scope list_scope.
Open Scope nat_scope.

Section container.
Context `{Codec}.

Definition requireStringColumn (column : Z) (input : bool) (strategy : string) :
  run_of unit :=
  type ← (if input then inputColumnType column else outputColumnType column);
  when (bool_decide (type ≠ STRING))
    (throw (SwigException (strategy +:+ " requires VARCHAR "
       +:+ (if input then "input" else "output") +:+ " columns"))).

(** [setString(col, value, strlen(value))] *)
Definition set_c_string (col : nat) (value : string) : run_of unit :=
  setString col value (Z.of_nat (String.length value)).

Definition emitMetadata (meta : swig_metadata) : run_of unit :=
  n ← outputColumnCount;
  when (negb (n =? 2)%Z)
    (throw (SwigException "emit_metadata requires exactly two VARCHAR output columns"));;
  requireStringColumn 0 false "emit_metadata";;
  requireStringColumn 1 false "emit_metadata";;
  set_c_string 0 (scopeUser meta);;
  set_c_string 1 (scriptCode meta);;
  handler_next;;
  flush.

(** The loop of [forwardInput]; the results of the two calls of [next] are not
    looked at. *)
Fixpoint forward_loop (fuel : nat) : run_of unit :=
  match fuel with
  | 0 => blocked
  | S fuel =>
      at_end ← eot;
      if (at_end : bool) then mret tt
      else
        value ← getString 0;
        null ← wasNull;
        (if (null : bool) then setNull 0
         else setString 0 value (Z.of_nat (String.length value)));;
        handler_next;;
        iterator_next;;
        forward_loop fuel
  end.

Definition forwardInput (fuel : nat) : run_of unit :=
  ins ← inputColumnCount;
  outs ← outputColumnCount;
  when (negb (ins =? 1)%Z || negb (outs =? 1)%Z)
    (throw (SwigException
      "forward_input requires exactly one VARCHAR input and output column"));;
  requireStringColumn 0 true "forward_input";;
  requireStringColumn 0 false "forward_input";;
  forward_loop fuel;;
  flush.

Definition test_run (fuel : nat) (meta : swig_metadata) : run_of bool :=
  let strategy := scriptCode meta in
  (if String.eqb strategy "emit_metadata" then emitMetadata meta
   else if String.eqb strategy "forward_input" then forwardInput fuel
   else throw (SwigException ("unsupported test strategy: " +:+ strategy)));;
  mret true.

Definition test_singleCall (fn : single_call_function_id_e) (args : script_dto) :
  run_of (option string) :=
  throw (SwigException "singleCall is not supported for the TEST language container").

(** The object; [shutdown] and [useZmqSocketLocks] *)
Definition TestVM (fuel : nat) (meta : swig_metadata) : SWIGVM := {|
  vm_run := test_run fuel meta;
  vm_singleCall := test_singleCall;
  vm_shutdown := mret tt;
  vm_useZmqSocketLocks := mret true;
|}.

(** [new TestVM(false)]: the members are built before the check. *)
Definition make_TestVM (lib : library) (fuel : nat) : run_of (option SWIGVM) :=
  meta ← SWIGMetadata lib;
  SWIGTableIterator lib;;
  SWIGResultHandler lib;;
  when (bool_decide (inputType meta ≠ MULTIPLE) || bool_decide (outputType meta ≠ MULTIPLE))
    (throw (SwigException "TEST language container only supports SET-EMITS UDFs"));;
  mret (Some (TestVM fuel meta)).
End container.

(** ** Forwarding *)
Section forwarding.
Context `{Codec}.
Context (t1 t2 : SWIGVM_columntype_t).
Hypothesis (Hin : ct_type t1 = STRING) (Hout : ct_type t2 = STRING).

(** What comes out of the rows that go in: strings up to their first NUL *)
Definition echoed (rows : list row) : list row :=
  (λ r : row, (r.1, cell_emitted <$> r.2)) <$> rows.

(** One pass of the loop is: read the cell, emit the row, move on. *)
Lemma forward_step fuel s :
  m_rows_received (it s) ≠ 0%Z → out_types (params (glob s)) = [t2] →
  forward_loop (S fuel) s =
  (x ← read_cell STRING 0; stage_cell STRING x 0;; handler_next;; iterator_next;;
   forward_loop fuel) s.
Proof.
  intros Hr Ht. simpl. unfold eot. run_simpl. rewrite (proj2 (Z.eqb_neq _ _) Hr).
  rewrite !bind_run. unfold bind_outcome. destruct (getString 0 s) as [[value| | | |] s1]; simpl;
    try done.
  unfold wasNull. run_simpl. by destruct (m_was_null (it s1)).
Qed.

Lemma emit_one x s :
  out_types (params (glob s)) = [t2] →
  emit_row [x] s = (stage_cell STRING x 0;; handler_next) s.
Proof.
  intros Ht. unfold emit_row, out_columns, get_params. run_simpl. rewrite Ht. simpl.
  rewrite Hout. by rewrite run_bind_bind.
Qed.

(** The part of the loop before the iterator moves *)
Lemma forward_row_run rows k r done_rows s :
  rows_fit [t1] rows → at_row [t1] rows k s → rows !! k = Some r →
  out_types (params (glob s)) = [t2] →
  pending done_rows (m_emit_table (rh s)) → (zlength done_rows < 2 ^ 64 - 1)%Z →
  (0 ≤ m_message_size (rh s))%Z →
  (m_message_size (rh s) + cells_size (cell_emitted <$> r.2) < SWIG_MAX_VAR_DATASIZE)%Z →
  ∃ s' b, (∀ fuel, forward_loop (S fuel) s = (iterator_next;; forward_loop fuel) s') ∧
    encodes (m_emit_table (rh s')) (done_rows ++ echoed [r]) ∧
    m_message_size (rh s') = (m_message_size (rh s) + cells_size (cell_emitted <$> r.2))%Z ∧
    td_rows_in_group (m_emit_table (rh s')) = 0%Z ∧
    rh_connection_id (rh s') = rh_connection_id (rh s) ∧
    glob s' = glob s ∧ it s' = (it s) <| m_was_null := b |> ∧ chan s' = chan s ∧
    vmf s' = vmf s ∧ sup s' = sup s.
Proof.
  intros Hfit Har Hk Ht Hp Hn Hpos Hmax.
  pose proof (rf_fits _ _ Hfit) as Hf. rewrite Forall_lookup in Hf.
  specialize (Hf _ _ Hk). unfold row_fits in Hf.
  destruct r as [n xs]. cbn [fst snd] in *.
  apply Forall2_cons_inv_l in Hf as (x & xs' & Hx & Hnil & ->).
  apply Forall2_nil_inv_l in Hnil as ->.
  destruct (read_cell_run [t1] rows k (n, [x]) 0 t1 x s Hfit Har Hk eq_refl eq_refl)
    as [b Hread].
  rewrite Hin in Hread. assert (cell_seen STRING x = x) as Hseen by by destruct x.
  rewrite Hseen in Hread.
  pose proof (ar_number _ _ _ _ Har) as Hnum. rewrite list_lookup_fmap, Hk in Hnum.
  injection Hnum as Hnum.
  destruct (emit_row_run done_rows [x] (was_null_set b s))
    as (s1 & Hr & He & Hms & Hid & Hg & Hi & Hc & Hv & Hsup & Hgrp); try done.
  { simpl. rewrite Ht. constructor; [|constructor]. unfold cell_fits in *. by rewrite Hout, <-Hin. }
  exists s1, b. split_and!; try done.
  - intros fuel. rewrite forward_step; [|rewrite (ar_received _ _ _ _ Har)|done].
    2:{ apply lookup_lt_Some in Hk. unfold zlength. lia. }
    rewrite (run_bind _ _ _ _ _ Hread).
    rewrite emit_one in Hr by done.
    pose proof (run_bind_bind (stage_cell STRING x 0) (λ _, handler_next)
      (λ _, iterator_next;; forward_loop fuel) (was_null_set b s)) as Hassoc.
    rewrite <-Hassoc. by rewrite (run_bind _ _ _ _ _ Hr).
  - simpl in He. by rewrite <-Hnum in He.
Qed.

(** The size of what is still to come *)
Definition echo_size (rows : list row) : Z := rows_size rows.*2.

Lemma echo_size_cons r rows :
  echo_size (r :: rows) = (cells_size (cell_emitted <$> r.2) + echo_size rows)%Z.
Proof. done. Qed.
Lemma echo_size_pos rows : (0 ≤ echo_size rows)%Z.
Proof. apply rows_size_pos. Qed.
(** What one or more passes of the loop do to the rest of the state *)
Record forwarded (s s' : machine) (done_rows : list row) (size : Z) : Prop := {
  fw_pending : pending done_rows (m_emit_table (rh s'));
  fw_group : td_rows_in_group (m_emit_table (rh s')) = 0%Z;
  fw_size : m_message_size (rh s') = size;
  fw_id : rh_connection_id (rh s') = rh_connection_id (rh s);
  fw_glob : glob s' = glob s;
  fw_vmf : vmf s' = vmf s;
}.

Lemma forwarded_trans s1 s2 s3 rows rows' n n' :
  forwarded s1 s2 rows n → forwarded s2 s3 rows' n' → forwarded s1 s3 rows' n'.
Proof. intros [] []. split; congruence. Qed.

(** The loop from a state of the input on, to the end of the data *)
Lemma forward_loop_run w fuel todo us rest done_rows s :
  input_state [t1] w todo us s → inp_force_finish (params (glob s)) = false →
  out_types (params (glob s)) = [t2] → serves (us ++ rest) s →
  pending done_rows (m_emit_table (rh s)) →
  td_rows_in_group (m_emit_table (rh s)) = 0%Z → (0 ≤ m_message_size (rh s))%Z →
  (m_message_size (rh s) + echo_size todo < SWIG_MAX_VAR_DATASIZE)%Z →
  (zlength done_rows + zlength todo < 2 ^ 64 - 1)%Z → length todo < fuel →
  ∃ s', forward_loop fuel s = (Ret tt, s') ∧
    forwarded s s' (done_rows ++ echoed todo) (m_message_size (rh s) + echo_size todo) ∧
    turn s s' (replicate (length us) w) us ∧ serves rest s' ∧ m_rows_received (it s') = 0%Z.
Proof.
  revert todo us done_rows s.
  induction fuel as [|fuel IH]; intros todo us done_rows s Hst Hff Ht2 Hsrv Hp Hgrp Hpos
    Hmax Hn Hfuel; [lia|].
  destruct todo as [|r todo].
  { destruct Hst as [Hrr ->]. exists s. cbn [forward_loop]. unfold eot. run_simpl.
    rewrite Hrr. simpl. rewrite app_nil_r, Z.add_0_r.
    split_and!; try done. apply turn_refl. }
  destruct (input_at_current _ _ _ _ _ _ Hst) as (rows & k & Hfit & Har & Hr).
  rewrite echo_size_cons in Hmax |- *. pose proof (echo_size_pos todo).
  unfold zlength in Hn. simpl in Hn, Hfuel.
  destruct (forward_row_run rows k r done_rows s Hfit Har Hr Ht2 Hp)
    as (s1 & b & Hstep & He & Hms & Hgrp1 & Hid & Hg & Hi & Hc & Hv & Hsup);
    [unfold zlength; lia|done|lia|].
  pose proof (cells_size_pos (cell_emitted <$> r.2)).
  destruct (iterator_advance [t1] w r todo us rest s1)
    as (s2 & us1 & us2 & -> & Hnx & Hst2 & Hmv & Htu & Hsrv2 & _);
    [by eapply (input_at_ext _ _ _ _ b s)|by rewrite Hg|by apply (serves_chan _ s)|].
  destruct Hmv as [Hog Hoid Horh Hov Hosup].
  destruct (IH todo us2 (done_rows ++ echoed [r]) s2)
    as (s3 & Hl & Hfw & Htu3 & Hsrv3 & Hrr);
    rewrite ?Hog, ?Hg, ?Horh; try done; try lia.
  { right. split; [|done]. by intros [_ ?] % app_nil. }
  { unfold zlength. rewrite length_app. simpl. lia. }
  exists s3. rewrite Hstep, (run_bind _ _ _ _ _ Hnx).
  rewrite Horh, Hms, <-app_assoc, <-Z.add_assoc in Hfw. split_and!; try done.
  - destruct Hfw as [Hfp ? ? ? ? ?]. split; [exact Hfp|congruence..].
  - rewrite length_app, replicate_add. eapply turn_trans; [|exact Htu3].
    by eapply turn_same_chan; [..|exact Htu].
Qed.
End forwarding.

(** ** A forwarding session

    The contract of the container for a script whose code is [forward_input], with
    one VARCHAR input and one VARCHAR output column; [p] is the parameter block it
    is built under, [batches] the rows of the replies [vs]. *)
Section contract.
Context `{Codec}.
Context (t1 t2 : SWIGVM_columntype_t) (p : SWIGVM_params_t).
Hypothesis (Hin : ct_type t1 = STRING) (Hout : ct_type t2 = STRING).

Record forwards : Prop := {
  fwd_info : ∃ p0 info mode, p = params_of_info p0 info mode ∧
    c_str (if_source_code info) = "forward_input";
  fwd_inputs : inp_types p = [t1];
  fwd_input_names : length (inp_names p) = 1;
  fwd_outputs : out_types p = [t2];
  fwd_output_names : length (out_names p) = 1;
  fwd_iter : inp_iter_type p = MULTIPLE ∧ out_iter_type p = MULTIPLE;
  fwd_flag : inp_force_finish p = false;
}.
Hypothesis (Hp : forwards).

(** The metadata object is determined by the parameter block. *)
Lemma metadata_made :
  ∃ meta, (∀ s, params (glob s) = p → SWIGMetadata_Impl s = (Ret meta, s)) ∧
    scriptCode meta = "forward_input" ∧ inputType meta = MULTIPLE ∧
    outputType meta = MULTIPLE.
Proof.
  destruct Hp as [(p0 & info & mode & Hpi & Hcode) _ _ _ _ [Hit Hot] _].
  exists (metadata_of_info p info). split_and!; try done.
  - intros s Hs. apply (SWIGMetadata_Impl_run _ p0 info mode); congruence.
  - unfold scriptCode, metadata_of_info. cbn [m_script_code]. by rewrite c_str_idemp.
Qed.

Context (w : wire) (batches : list (list row)) (vs : list wire) (vdone : wire).
Hypothesis (Hw : serialize (mkRequest MT_NEXT (connection_id p) body_none) = Some w).
Hypothesis (Hvs : Forall2 (carries [t1] (connection_id p)) vs batches).
Hypothesis (Hdone : ends (connection_id p) vdone).

(** The request that carries the rows, if there are any *)
Context (emit_w v_emit : wire).
Hypothesis (Hemit : serialize (mkRequest MT_EMIT (connection_id p)
  (body_emit (table_of (echoed (concat batches))))) = Some emit_w).
Hypothesis (Hsize : (echo_size (concat batches) < SWIG_MAX_VAR_DATASIZE)%Z).
Hypothesis (Hcount : (zlength (concat batches) < 2 ^ 64 - 1)%Z).

Definition if_rows (x : wire) : list wire :=
  match concat batches with [] => [] | _ => [x] end.

(** The messages while the object is built, and those of the call of [run] *)
Definition forward_make : call := mkCall [w] [hd vdone vs].
Definition forward_call : call :=
  mkCall (replicate (length vs) w ++ if_rows emit_w)
         (tl (vs ++ [vdone]) ++ if_rows v_emit).

Definition forward_invariant : vm_invariant := λ k g i h _,
  k = 0 → params g = p ∧ h = handler_init (connection_id p) ∧
    ∃ s, glob s = g ∧ it s = i ∧
      input_state [t1] w (concat batches) (tl (vs ++ [vdone])) s.

Lemma input_state_ext us s s' :
  glob s' = glob s → it s' = it s →
  input_state [t1] w (concat batches) us s → input_state [t1] w (concat batches) us s'.
Proof.
  intros Hg Hi. assert (it s' = (it s) <| m_was_null := m_was_null (it s) |>) as Hi'
    by by rewrite Hi; destruct (it s).
  destruct (concat batches); simpl; [by rewrite Hi|]. by eapply input_at_ext.
Qed.

Context (lib : library) `{!FactoryLibrary lib}.

(** Building the object fetches the first rows. *)
Lemma forward_made fuel meta rest s :
  (∀ s, params (glob s) = p → SWIGMetadata_Impl s = (Ret meta, s)) →
  inputType meta = MULTIPLE → outputType meta = MULTIPLE →
  serves (hd vdone vs :: rest) s → params (glob s) = p → exception_msg (vmf s) = "" →
  ∃ s', make_TestVM lib fuel s = (Ret (Some (TestVM fuel meta)), s') ∧
    turn s s' [w] [hd vdone vs] ∧ serves rest s' ∧
    holds forward_invariant 0 s'.
Proof.
  intros Hmeta Hmi Hmo Hsrv Hs He.
  assert (vs ++ [vdone] = hd vdone vs :: tl (vs ++ [vdone])) as Hus by by destruct vs.
  destruct (receive_next_run [t1] w batches vs vdone (hd vdone vs)
    (tl (vs ++ [vdone])) rest (iterator_constructed s))
    as (s1 & Hrec & Hst & [Hog Hoid Horh Hov Hosup] & Htu & Hsrv1 & _);
    try (unfold iterator_constructed, iterator_init; cbn -[Z.to_nat]; by rewrite Hs); try done.
  { by apply (serves_chan _ s). }
  { change (inp_types (params (glob s)) = [t1]). by rewrite Hs, (fwd_inputs Hp). }
  { change (zlength (inp_types (params (glob s))) = zlength [t1]).
    by rewrite Hs, (fwd_inputs Hp). }
  { rewrite constructed_offsets. by rewrite Hs, (fwd_inputs Hp). }
  simpl in Hog, Hoid, Horh, Hov, Hosup.
  pose (s2 := s1 <| rh := handler_init (connection_id (params (glob s1))) |>).
  exists s2. split_and!.
  - assert (SWIGTableIterator lib s = (Ret tt, s1)) as Hit by (by rewrite SWIGTableIterator_loaded).
    unfold make_TestVM.
    rewrite bind_run, SWIGMetadata_loaded, (Hmeta s Hs) by done. simpl bind_outcome.
    rewrite (run_bind _ _ _ _ _ Hit), bind_run, SWIGResultHandler_loaded, <-bind_run by done.
    unfold SWIGResultHandler_Impl, get_params, upd_rh. run_simpl.
    by rewrite Hmi, Hmo.
  - apply (turn_after s s1); try done. by eapply turn_same_chan; [..|exact Htu].
  - by apply (serves_chan _ s1).
  - split; [|by simpl; rewrite Hov]. intros _. simpl. rewrite Hog, Hs. split_and!; [done|done|].
    by exists s1.
Qed.

(** The final flush sends the rows, if there are any. *)
Lemma forward_flush_run rest s :
  pending (echoed (concat batches)) (m_emit_table (rh s)) →
  td_rows_in_group (m_emit_table (rh s)) = 0%Z → rh_connection_id (rh s) = connection_id p →
  serves (if_rows v_emit ++ rest) s →
  ∃ s', flush s = (Ret tt, s') ∧ turn s s' (if_rows emit_w) (if_rows v_emit) ∧
    serves rest s' ∧ vmf s' = vmf s.
Proof.
  intros Hpend Hgrp Hid Hsrv. unfold if_rows in *.
  destruct (concat batches) as [|r rows] eqn:Hrows.
  - destruct Hpend as [[_ Ht]|[? _]]; [|done]. exists s.
    rewrite flush_empty by by rewrite Ht. split_and!; try done. apply turn_refl.
  - pose proof (pending_some _ _ Hpend ltac:(done)) as Henc.
    pose proof (encodes_unique _ _ Henc Hgrp) as Ht.
    destruct (flush_run (echoed (r :: rows)) emit_w v_emit rest s)
      as (s' & Hf & Hsrv' & _ & _ & _ & _ & Hv & Htu & _); try done.
    { by rewrite Ht, Hid. }
    by exists s'.
Qed.

(** The call of [run] *)
Lemma forward_run_kept fuel meta :
  scriptCode meta = "forward_input" → length (concat batches) < fuel →
  call_kept (TestVM fuel meta) forward_invariant 0 forward_call true.
Proof.
  intros Hcode Hfuel rest s Hsrv [Hinv He].
  destruct (Hinv eq_refl) as (Hs & Hrh & s0 & Hg0 & Hi0 & Hst0).
  pose proof (input_state_ext _ _ _ (eq_sym Hg0) (eq_sym Hi0) Hst0) as Hst.
  simpl in Hsrv. rewrite <-app_assoc in Hsrv.
  destruct (forward_loop_run t1 t2 Hin Hout w fuel (concat batches) (tl (vs ++ [vdone]))
    (if_rows v_emit ++ rest) [] s) as (s1 & Hl & [Hpend Hgrp Hsz Hid Hg Hv] & Htu & Hsrv1 & _);
    rewrite ?Hs, ?Hrh; try done; try apply Hp; [by left|].
  destruct (forward_flush_run rest s1) as (s2 & Hfl & Htu2 & Hsrv2 & Hv2);
    [done|done|by rewrite Hid, Hrh|done|].
  assert (length (tl (vs ++ [vdone])) = length vs) as Hlen.
  { destruct vs; [done|]. simpl. rewrite length_app. simpl. lia. }
  rewrite Hlen in Htu. exists s2. split_and!; [|by eapply turn_trans|done|].
  - simpl. unfold test_run. rewrite Hcode. simpl.
    assert (forwardInput fuel s = (Ret tt, s2)) as Hfw; [|by rewrite (run_bind _ _ _ _ _ Hfw)].
    unfold forwardInput, inputColumnCount, outputColumnCount, requireStringColumn,
      inputColumnType, outputColumnType, inputColumn, outputColumn, get_params.
    rewrite !run_bind_gets, Hs. unfold zlength.
    rewrite (fwd_input_names Hp), (fwd_output_names Hp). simpl. run_simpl.
    rewrite Hs, (fwd_inputs Hp). simpl. rewrite Hin. simpl. run_simpl.
    rewrite Hs, (fwd_outputs Hp). simpl. rewrite Hout. simpl. run_simpl.
    by rewrite (run_bind _ _ _ _ _ Hl).
  - split; [done|]. congruence.
Qed.

(** The contract, with one round *)
Definition forward_round (v_run v_done : wire) : round := mkRound v_run [forward_call] v_done.

Lemma forward_contract fuel v_run v_done :
  length (concat batches) < fuel →
  ∃ vm, ContainerContract (make_TestVM lib fuel) vm forward_invariant (λ g, params g = p)
    forward_make [forward_round v_run v_done].
Proof.
  intros Hfuel. destruct metadata_made as (meta & Hmeta & Hcode & Hmi & Hmo).
  exists (TestVM fuel meta). split.
  - intros rest s Hsrv He Hst. by apply forward_made.
  - by exists true.
  - intros k g i h v Hk Hk0. destruct (Hk Hk0) as (Hs & Hh & Hst).
    rewrite force_finish_cleared_id; [done|]. rewrite Hs. apply Hp.
  - split; [|done]. by apply forward_run_kept.
  - intros s [_ He]. by exists s.
Qed.
End contract.

(** ** Properties *)
Section properties.
Context `{Codec}.

(** The messages of a script that forwards one VARCHAR column *)
Record forwarding_script (r1 r2 : exascript_response) (c1 c2 : column_definition) : Prop := {
  fs_code : c_str (if_source_code (rp_info r1)) = "forward_input";
  fs_mode : md_single_call_mode (rp_meta r2) = false;
  fs_inputs : md_input_columns (rp_meta r2) = [c1];
  fs_outputs : md_output_columns (rp_meta r2) = [c2];
  fs_input_type : cd_type c1 = PB_STRING;
  fs_output_type : cd_type c2 = PB_STRING;
  fs_input_iter : md_input_iter_type (rp_meta r2) = MULTIPLE;
  fs_output_iter : md_output_iter_type (rp_meta r2) = MULTIPLE;
}.

Definition varchar (c : column_definition) : SWIGVM_columntype_t :=
  mkColumntype STRING (cd_type_name c) (cd_size c) 0 0.

Lemma forwarding_script_forwards r1 r2 c1 c2 :
  forwarding_script r1 r2 c1 c2 →
  forwards (varchar c1) (varchar c2)
    (session_params SWIGVM_params_init r1 r2 [varchar c1] [varchar c2]).
Proof.
  intros [Hc Hm Hi Ho Hit Hot Hii Hoi]. unfold session_params.
  split; try done; [|by simpl; rewrite Hi|by simpl; rewrite Ho].
  eexists _, _, _. split; [reflexivity|]. done.
Qed.

(** A forwarding session from [exaudfclient_main] on *)
Lemma forward_input_session (lib : library) `{!FactoryLibrary lib} (argv1 : string) (w1 w2 v1 v2 : wire)
  (r1 r2 : exascript_response) (c1 c2 : column_definition) (batches : list (list row))
  (vs : list wire) (vdone w emit_w v_emit v_run v_done run_w done_w finished_w v_end v_fin : wire)
  (k fuel : nat) (s : machine) :
  let id := rp_connection_id r1 in
  let rows := concat batches in
  let if_rows (x : wire) := match rows with [] => [] | _ => [x] end in
  let replies := hd vdone vs :: v_run :: (tl (vs ++ [vdone]) ++ if_rows v_emit)
    ++ [v_done; v_end; v_fin] in
  socket_name_ok (c_str argv1) = true → params (glob s) = SWIGVM_params_init →
  handshake (c_str argv1) w1 w2 v1 v2 r1 r2 [varchar c1] [varchar c2] replies s →
  forwarding_script r1 r2 c1 c2 →
  Forall2 (carries [varchar c1] id) vs batches → ends id vdone →
  (echo_size rows < SWIG_MAX_VAR_DATASIZE)%Z → (zlength rows < 2 ^ 64 - 1)%Z →
  serialize (mkRequest MT_NEXT id body_none) = Some w →
  serialize (mkRequest MT_EMIT id (body_emit (table_of (echoed rows)))) = Some emit_w →
  requests id run_w done_w finished_w →
  answered MT_RUN v_run → answered MT_DONE v_done →
  answered MT_CLEANUP v_end → answered MT_FINISHED v_fin →
  length rows < k → 3 < fuel →
  ∃ s' limits,
    exaudfclient_main fuel (make_TestVM lib k) argv1 s = (Ret 0%Z, s') ∧
    Forall limit_event limits ∧
    did s s'
      (ev_socket_open :: limits ++ [ev_vm_make; ev_vm_shutdown; ev_vm_delete]
         ++ end_events (c_str argv1))
      ([w1; w2; w; run_w] ++ replicate (length vs) w ++ if_rows emit_w
         ++ [done_w; run_w; finished_w])
      ([v1; v2] ++ replies).
Proof.
  intros id rows emitted replies Hn Hpar Hhs Hfs Hvs Hdone Hsize Hcount Hw Hew Hreq Ha1 Ha2 Ha3
    Ha4 Hk Hfuel.
  destruct (main_start_run fuel (make_TestVM lib k) argv1 s Hn)
    as (s1 & Hr1 & Hc1 & Hg1 & Hrem & Hfile).
  destruct (forward_contract (varchar c1) (varchar c2) _ eq_refl eq_refl
    (forwarding_script_forwards r1 r2 c1 c2 Hfs) w batches vs vdone Hw Hvs Hdone emit_w v_emit
    Hew Hsize Hcount lib k v_run v_done Hk) as (vm & Hc).
  destruct (reinit_run (c_str argv1) w1 w2 v1 v2 r1 r2 [varchar c1] [varchar c2] _ _ _ _ _ _
    run_w done_w finished_w v_end v_fin fuel s1) as (s2 & limits & Hr2 & Hlim & Hd); try done.
  { assert (cl_replies (forward_make w vs vdone) ++ session_replies
      [forward_round w batches vs vdone emit_w v_emit v_run v_done] v_end v_fin = replies) as ->.
    { unfold session_replies, round_replies, call_messages, replies, emitted, rows. simpl.
      unfold if_rows. by rewrite !app_nil_r, <-!app_assoc. }
    eapply handshake_upd; [..|exact Hhs]; by rewrite Hc1. }
  { apply Hfs. }
  { intros g ->. by rewrite Hg1, Hpar. }
  { constructor; [by split|constructor]. }
  exists s2, limits. split_and!; [by rewrite Hr1|done|].
  unfold stop_events in Hd. rewrite Hrem, Hfile in Hd. unfold did in *. rewrite Hc1 in Hd.
  destruct Hd as (tr & Htr & Hl & Hsent & Hrecv). exists tr. split_and!; try done.
  - rewrite Hsent. unfold session_requests, round_requests, call_messages, emitted, rows. simpl.
    unfold if_rows. by rewrite !app_nil_r, <-!app_assoc.
  - rewrite Hrecv. unfold session_replies, round_replies, call_messages, replies, emitted, rows.
    simpl. unfold if_rows. by rewrite !app_nil_r, <-!app_assoc.
Qed.
(** The values a metadata object and all its accessors hand out are C strings. *)
Lemma set_two_run a b t1 t2 s :
  out_types (params (glob s)) = [t1; t2] → ct_type t1 = STRING → ct_type t2 = STRING →
  emit_row [CString a; CString b] s =
  (set_c_string 0 a;; set_c_string 1 b;; handler_next) s.
Proof.
  intros Ht H1 H2. unfold emit_row, out_columns, get_params. run_simpl. rewrite Ht. simpl.
  rewrite H1, H2. unfold set_c_string. rewrite run_bind_bind, !bind_run.
  destruct (setString 0 a _ s) as [[[]| | | |] s1]; simpl; try done.
  by rewrite run_bind_bind.
Qed.

(** The script [emit_metadata]. With two VARCHAR output columns and nothing
    pending, [run] sends one MT_EMIT message with one row, the scope user and the
    code of the script, under the number of the current row of the input, and
    reports the end of the work; with any other number of output columns it throws
    before anything is staged. *)
Theorem emit_metadata_spec (meta : swig_metadata) (t1 t2 : SWIGVM_columntype_t)
  (w v : wire) (vs : list wire) (fuel : nat) (s : machine) :
  let cells := [CString (scopeUser meta); CString (scriptCode meta)] in
  scriptCode meta = "emit_metadata" →
  (out_types (params (glob s)) = [t1; t2] → length (out_names (params (glob s))) = 2 →
   ct_type t1 = STRING → ct_type t2 = STRING → m_emit_table (rh s) = table_empty →
   m_message_size (rh s) = 0%Z → (cells_size cells < SWIG_MAX_VAR_DATASIZE)%Z →
   serialize (mkRequest MT_EMIT (rh_connection_id (rh s))
     (body_emit (table_of [(m_current_row (it s), cells)]))) = Some w →
   serves (v :: vs) s →
   ∃ s', test_run fuel meta s = (Ret true, s') ∧ turn s s' [w] [v] ∧ serves vs s') ∧
  ((u32 (zlength (out_names (params (glob s)))) ≠ 2)%Z →
   ∃ msg, test_run fuel meta s = (Throw (SwigException msg), s)).
Proof.
  intros cells Hcode. unfold test_run. rewrite Hcode. simpl. split.
  - intros Ht Hn H1 H2 Hem Hms Hsz Hw Hsrv.
    assert (cell_emitted <$> cells = cells) as Hcells.
    { unfold cells, scopeUser, scriptCode. simpl. by rewrite !c_str_idemp. }
    destruct (emit_row_run [] cells s) as (s1 & Hr & Henc & _ & Hid & Hg & Hi & Hc & Hv & Hsup & Hgrp).
    { rewrite Ht. unfold cell_fits.
      repeat apply Forall2_cons_2; [..|constructor]; rewrite ?H1, ?H2; simpl; eauto. }
    { by left. }
    { done. }
    { by rewrite Hms. }
    { rewrite Hms, Hcells. exact Hsz. }
    rewrite Hcells in Henc. pose proof (encodes_unique _ _ Henc Hgrp) as Htab.
    destruct (flush_run [(m_current_row (it s), cells)] w v vs s1)
      as (s2 & Hf & Hsrv2 & _ & _ & _ & _ & _ & Htu & _); [done|done|by rewrite Htab, Hid
      |by apply (serves_chan _ s)|].
    exists s2. split_and!; [|by apply (turn_same_chan s s1)|done].
    unfold cells in Hr. rewrite (set_two_run _ _ t1 t2) in Hr by done.
    assert (emitMetadata meta s = (Ret tt, s2)) as He; [|by rewrite (run_bind _ _ _ _ _ He)].
    unfold emitMetadata, outputColumnCount, requireStringColumn, outputColumnType, outputColumn,
      get_params. rewrite run_bind_gets. unfold zlength. rewrite Hn. simpl. run_simpl.
    rewrite Ht. simpl. rewrite H1. simpl. run_simpl. rewrite Ht. simpl. rewrite H2. simpl.
    run_simpl. revert Hr. rewrite !bind_run.
    destruct (set_c_string 0 (scopeUser meta) s) as [[[]| | | |] s3]; simpl; try done.
    rewrite !bind_run. destruct (set_c_string 1 (scriptCode meta) s3) as [[[]| | | |] s4]; simpl; try done.
    intros Hr. by rewrite (run_bind _ _ _ _ _ Hr).
  - intros Hn. unfold emitMetadata, outputColumnCount, get_params. rewrite run_bind_bind, run_bind_gets.
    rewrite (proj2 (Z.eqb_neq _ _) Hn). simpl. by eexists.
Qed.
End properties.

(** ** Witnesses *)
Section witnesses.
#[local] Existing Instance plain_codec.

Definition text_rows : list row := [(0%Z, [CString "ab"]); (1%Z, [CNull])].
Definition text_info : exascript_response :=
  (response_plain MT_INFO 77) <| rp_info :=
    mkInfo "db" "8" "S" "forward_input" 1 2 3 0 5 1000 "SCH" "U" "" "" |>.
Definition text_column : column_definition := mkColdef "A" PB_STRING "VARCHAR(9)" 9 0 0.
Definition text_meta : exascript_response :=
  (response_plain MT_META 77) <| rp_meta :=
    mkMetadata MULTIPLE MULTIPLE [text_column] [text_column] false |>.
Definition text_next : exascript_response :=
  (response_plain MT_NEXT 77) <| rp_next := table_of text_rows |>.
Definition text_done : exascript_response := response_plain MT_DONE 77.
Definition text_replies : list (@wire plain_codec) :=
  [plain_reply text_next; reply_of MT_RUN; plain_reply text_done; reply_of MT_EMIT;
   reply_of MT_DONE; reply_of MT_CLEANUP; reply_of MT_FINISHED].

Lemma text_carries : carries [varchar text_column] 77 (plain_reply text_next) text_rows.
Proof.
  exists text_next. split_and!; try done.
  - split; try done. by intros [].
  - split; try done. unfold text_rows, varchar, row_fits, cell_fits.
    repeat first [apply Forall_cons|apply Forall_nil|apply Forall2_cons|apply Forall2_nil
      |split]; simpl; eauto.
Qed.

Lemma emit_metadata_spec_witness :
  let meta := metadata_of_info SWIGVM_params_init 
    (mkInfo "db" "8" "S" "emit_metadata" 1 2 3 0 5 1000 "SCH" "U" "" "U") in
  let s := (machine_init (prompt [reply_of MT_EMIT])) <| glob := Global_init <| params :=
    SWIGVM_params_init <| out_types := [varchar text_column; varchar text_column] |>
      <| out_names := ["A"; "B"] |> |> |> in
  ∃ s', test_run 1 meta s = (Ret true, s') ∧
    sent (c_trace (chan s')) = [plain_request MT_EMIT 0 (body_emit
      (table_of [(u64 (-1), [CString "U"; CString "emit_metadata"])]))].
Proof.
  intros meta s. destruct (emit_metadata_spec meta (varchar text_column) (varchar text_column)
    (plain_request MT_EMIT 0 (body_emit
      (table_of [(u64 (-1), [CString "U"; CString "emit_metadata"])])))
    (reply_of MT_EMIT) [] 1 s eq_refl) as [Hok _].
  destruct (Hok eq_refl eq_refl eq_refl eq_refl eq_refl eq_refl ltac:(reflexivity) eq_refl)
    as (s' & Hr & Htu & _).
  { apply (serves_chan _ (machine_init (prompt [reply_of MT_EMIT]))); [reflexivity|].
    apply serves_now. }
  exists s'. split; [exact Hr|]. apply (turn_sent _ _ _ _ Htu).
Defined.
End witnesses.
