(* ===== verification/BenchmarkContainer.v ===== *)
(** * The benchmark container ([benchmark_container/benchmark_container.{h,cc}])

    It reads its whole input, counting zeros and empty strings row by row, and emits
    two rows. Its output to [cerr] is left out, except that a null name of a column
    must not be printed. *)
From S2P Require Import Prelude SwigCommon Protocol Dto Machine SocketLowLevel.
From S2P Require Import SocketHighLevel MetaData RowCodec TableIterator ResultHandler.
From S2P Require Import RoundTrip ClientMain ClientRun SwigFactory TestContainer.

Open Scope string_scope.
Open Scope list_scope.
Open Scope nat_scope.

Section container.
Context `{Codec}.

(** [catch (std::exception& err) { h(err.what()); }] *)
Definition catch_std (m : run_of unit) (h : string → run_of unit) : run_of unit :=
  try_catch m (λ e,
    match e with
    | SwigException what | StdException what => h (c_str what)
    | OtherException => throw OtherException
    end).

(** A double that compares equal to zero, by its bits *)
Definition is_zero_double (bits : Z) : bool := (bits =? 0)%Z || (bits =? 2 ^ 63)%Z.
Definition counted (b : bool) : Z := if b then 1 else 0.

(** The [switch] on the type of a column, and the loop over the columns *)
Definition bench_column (col : nat) : run_of Z :=
  type ← inputColumnType (Z.of_nat col);
  match type with
  | DOUBLE => v ← getDouble col; mret (counted (is_zero_double v))
  | INT32 => v ← getInt32 col; mret (counted (v =? 0)%Z)
  | INT64 => v ← getInt64 col; mret (counted (v =? 0)%Z)
  | STRING => v ← getString col; mret (counted (str_empty (c_str v)))
  | _ => mret 0%Z
  end.

Fixpoint bench_columns (n col : nat) : run_of Z :=
  match n with
  | 0 => mret 0%Z
  | S n => c ← bench_column col; rest ← bench_columns n (S col); mret (c + rest)%Z
  end.

Definition bench_iteration : run_of Z :=
  n ← inputColumnCount; bench_columns (Z.to_nat n) 0.

(** [cerr << … << inputColumnName(col) << … << inputColumnTypeName(col)] *)
Fixpoint print_columns (n col : nat) : run_of unit :=
  match n with
  | 0 => mret tt
  | S n =>
      name ← inputColumnName (Z.of_nat col); _ ← access name;
      type_name ← inputColumnTypeName (Z.of_nat col); _ ← access type_name;
      print_columns n (S col)
  end.

Definition bench_emit : run_of unit :=
  set_c_string 0 "test1";; handler_next;; set_c_string 0 "test2";; handler_next;; flush.

Definition bench_run (fuel : nat) : run_of bool :=
  n ← inputColumnCount;
  print_columns (Z.to_nat n) 0;;
  catch_std
    (catch_std (do_while bench_iteration fuel;; mret tt) set_exception_msg;;
     catch_std bench_emit set_exception_msg;;
     msg ← get_exception_msg;
     when (negb (str_empty msg)) (throw (SwigException (c_str msg))))
    set_exception_msg;;
  mret true.

Definition bench_singleCall (fn : single_call_function_id_e) (args : script_dto) :
  run_of (option string) :=
  throw (SwigException "singleCall not supported for the STREAMING language container").

Definition BenchmarkVM (fuel : nat) : SWIGVM := {|
  vm_run := bench_run fuel;
  vm_singleCall := bench_singleCall;
  vm_shutdown := mret tt;
  vm_useZmqSocketLocks := mret true;
|}.

Definition make_BenchmarkVM (lib : library) (fuel : nat) : run_of (option SWIGVM) :=
  meta ← SWIGMetadata lib;
  SWIGTableIterator lib;;
  SWIGResultHandler lib;;
  when (bool_decide (inputType meta ≠ MULTIPLE) || bool_decide (outputType meta ≠ MULTIPLE))
    (throw (SwigException "BENCHMARK language container only support SET-EMITS UDFs"));;
  mret (Some (BenchmarkVM fuel)).
End container.

(** ** Reading *)
Section reading.
Context `{Codec}.
Context (types : list SWIGVM_columntype_t).

Definition cell_counted (t : SWIGVM_datatype_e) (x : cell) : Z :=
  match t, x with
  | (DOUBLE | INT32 | INT64 | STRING), CNull => 1
  | DOUBLE, CDouble v => counted (is_zero_double v)
  | INT32, CInt32 v => counted (v =? 0)%Z
  | INT64, CInt64 v => counted (v =? 0)%Z
  | STRING, CString v => counted (str_empty (c_str v))
  | _, _ => 0
  end.

Definition row_counted (ts : list SWIGVM_columntype_t) (xs : list cell) : Z :=
  foldr Z.add 0%Z (zip_with (λ t x, cell_counted (ct_type t) x) ts xs).

Lemma bench_column_run rows k r c t x s :
  rows_fit types rows → at_row types rows k s → rows !! k = Some r →
  r.2 !! c = Some x → types !! c = Some t →
  ∃ b, bench_column c s = (Ret (cell_counted (ct_type t) x), was_null_set b s).
Proof.
  intros Hfit Har Hk Hx Ht.
  destruct (cell_of types rows Hfit k r c Hk (lookup_lt_Some _ _ _ Ht))
    as (t' & x' & ? & ? & [_ Hfx]). simplify_eq.
  unfold bench_column, inputColumnType, inputColumn, get_params. run_simpl.
  rewrite (ar_types _ _ _ _ Har), zlookup_nat, Ht. simpl.
  assert (∃ b, s = was_null_set b s) as [b Hsame].
  { exists (m_was_null (it s)). by destruct s as [? ? ? [] ? ?]. }
  destruct (ct_type t) eqn:Hty; try (exists b; rewrite <-Hsame; by destruct x);
    exists (cell_null x); unfold getDouble, getInt32, getInt64, getString.
  - edestruct (get_value_run types rows Hfit td_double CDouble st_double) as (a & Hr & Ha); try done.
    rewrite (run_bind _ _ _ _ _ Hr). by destruct Ha as [[-> ->]| ->].
  - edestruct (get_value_run types rows Hfit td_int32 CInt32 st_int32) as (a & Hr & Ha); try done.
    rewrite (run_bind _ _ _ _ _ Hr). by destruct Ha as [[-> ->]| ->].
  - edestruct (get_value_run types rows Hfit td_int64 CInt64 st_int64) as (a & Hr & Ha); try done.
    rewrite (run_bind _ _ _ _ _ Hr). by destruct Ha as [[-> ->]| ->].
  - edestruct (get_value_run types rows Hfit td_string CString st_string) as (a & Hr & Ha); try done.
    rewrite (run_bind _ _ _ _ _ Hr). by destruct Ha as [[-> ->]| ->].
Qed.

Lemma bench_columns_run rows k r n c s :
  rows_fit types rows → at_row types rows k s → rows !! k = Some r → c + n = length types →
  ∃ b, bench_columns n c s = (Ret (row_counted (drop c types) (drop c r.2)), was_null_set b s).
Proof.
  intros Hfit. revert c s. induction n as [|n IH]; intros c s Har Hk Hn; simpl.
  - exists (m_was_null (it s)). rewrite drop_ge by lia. by destruct s as [? ? ? [] ? ?].
  - destruct (cell_of types rows Hfit k r c Hk) as (t & x & Ht & Hx & _); [lia|].
    destruct (bench_column_run rows k r c t x s) as [b Hr]; try done.
    destruct (IH (S c) (was_null_set b s)) as [b' Hr']; [by apply at_row_was_null|done|lia|].
    exists b'. rewrite (run_bind _ _ _ _ _ Hr), (run_bind _ _ _ _ _ Hr').
    rewrite (drop_S _ _ _ Ht), (drop_S _ _ _ Hx). done.
Qed.

Definition names_match (g : Global) : Prop :=
  (zlength types < 2 ^ 32)%Z ∧ inp_types (params g) = types ∧
  length (inp_names (params g)) = length types.

Lemma bench_iteration_looks :
  looks types names_match bench_iteration (λ r, row_counted types r.2).
Proof.
  intros rows k r s Hfit Har Hk (Hsmall & _ & Hn).
  unfold bench_iteration, inputColumnCount, get_params. rewrite run_bind_gets.
  rewrite u32_small by (unfold zlength in *; lia). unfold zlength. rewrite Hn, Nat2Z.id.
  by apply (bench_columns_run rows k r (length types) 0 s).
Qed.

Lemma print_columns_run s n c :
  names_match (glob s) → c + n = length types → print_columns n c s = (Ret tt, s).
Proof.
  intros (Hsmall & Ht & Hn). revert c. induction n as [|n IH]; intros c Hc; [done|].
  simpl. unfold inputColumnName, inputColumnTypeName, inputColumn, get_params. run_simpl.
  destruct (lookup_lt_is_Some_2 (inp_names (params (glob s))) c) as [name Hname]; [lia|].
  destruct (lookup_lt_is_Some_2 types c) as [t Htc]; [lia|].
  rewrite zlookup_nat, Hname. simpl. run_simpl. rewrite Ht, zlookup_nat, Htc. simpl. run_simpl.
  apply IH. lia.
Qed.
End reading.

(** ** Emitting *)
Section emitting.
Context `{Codec}.

Definition bench_rows (n : Z) : list row := [(n, [CString "test1"]); (n, [CString "test2"])].

Lemma bench_emit_run t w v rest s :
  out_types (params (glob s)) = [t] → ct_type t = STRING →
  m_emit_table (rh s) = table_empty → m_message_size (rh s) = 0%Z →
  serialize (mkRequest MT_EMIT (rh_connection_id (rh s))
    (body_emit (table_of (bench_rows (m_current_row (it s)))))) = Some w →
  serves (v :: rest) s →
  ∃ s', bench_emit s = (Ret tt, s') ∧ turn s s' [w] [v] ∧ serves rest s' ∧ vmf s' = vmf s.
Proof.
  intros Ht Hty Hem Hms Hw Hsrv.
  assert (∀ a s, out_types (params (glob s)) = [t] →
    emit_row [CString a] s = (set_c_string 0 a;; handler_next) s) as Hone.
  { intros a s0 Ht0. rewrite (emit_one t) by done. done. }
  assert (Forall2 cell_fits [t] [CString "test1"] ∧ Forall2 cell_fits [t] [CString "test2"]) as [Hf1 Hf2].
  { unfold cell_fits. split; (apply Forall2_cons_2; [|constructor]); rewrite Hty; simpl; eauto. }
  destruct (emit_row_run [] [CString "test1"] s)
    as (s1 & Hr1 & He1 & Hms1 & Hid1 & Hg1 & Hi1 & Hc1 & Hv1 & Hsup1 & Hgrp1);
    [by rewrite Ht|by left|done|by rewrite Hms|by rewrite Hms|].
  destruct (emit_row_run [(m_current_row (it s), [CString "test1"])] [CString "test2"] s1)
    as (s2 & Hr2 & He2 & Hms2 & Hid2 & Hg2 & Hi2 & Hc2 & Hv2 & Hsup2 & Hgrp2);
    [by rewrite Hg1, Ht|by right|done|by rewrite Hms1, Hms|by rewrite Hms1, Hms|].
  rewrite Hi1 in He2. simpl in He2.
  pose proof (encodes_unique _ _ He2 Hgrp2) as Htab.
  destruct (flush_run (bench_rows (m_current_row (it s))) w v rest s2)
    as (s3 & Hf & Hsrv3 & _ & _ & _ & _ & Hv3 & Htu & _); try done.
  { by rewrite Hid2, Hid1, Htab. }
  { apply (serves_chan _ s); [congruence|done]. }
  rewrite Hone in Hr1, Hr2 by (rewrite ?Hg1; done).
  exists s3. split_and!; [|by apply (turn_same_chan s s2); [congruence..|]|done|congruence].
  unfold bench_emit. rewrite bind_run. rewrite bind_run in Hr1. unfold bind_outcome in *.
  destruct (set_c_string 0 "test1" s) as [[[]| | | |] s4]; simpl in *; try done.
  rewrite (run_bind _ _ _ _ _ Hr1). rewrite bind_run. rewrite bind_run in Hr2.
  unfold bind_outcome in *.
  destruct (set_c_string 0 "test2" s1) as [[[]| | | |] s5]; simpl in *; try done.
  by rewrite (run_bind _ _ _ _ _ Hr2).
Qed.

(** A round of the benchmark container. With rows to read and one VARCHAR output
    column, [run] reads the whole input over any number of messages, sends exactly
    one MT_EMIT message with the rows test1 and test2 under the same row number, and
    reports the end of the work without an error. *)
Theorem bench_run_spec (types : list SWIGVM_columntype_t) (t : SWIGVM_columntype_t)
  (w : wire) (todo : list row) (us rest : list wire) (emit_w : Z → wire) (v : wire)
  (fuel : nat) (s : machine) :
  names_match types (glob s) → input_at types w todo us s →
  inp_force_finish (params (glob s)) = false → length todo ≤ fuel →
  out_types (params (glob s)) = [t] → ct_type t = STRING →
  m_emit_table (rh s) = table_empty → m_message_size (rh s) = 0%Z →
  exception_msg (vmf s) = "" →
  (∀ n, serialize (mkRequest MT_EMIT (rh_connection_id (rh s))
    (body_emit (table_of (bench_rows n)))) = Some (emit_w n)) →
  serves (us ++ v :: rest) s →
  ∃ s' n, bench_run fuel s = (Ret true, s') ∧
    turn s s' (replicate (length us) w ++ [emit_w n]) (us ++ [v]) ∧ serves rest s' ∧
    exception_msg (vmf s') = "".
Proof.
  intros Hnm Hin Hff Hfuel Ht Hty Hem Hms He Hw Hsrv.
  destruct (do_while_run types _ bench_iteration _ w fuel todo us (v :: rest) s
    (bench_iteration_looks types) Hnm Hin Hff Hsrv Hfuel)
    as (s1 & Hloop & Htu & _ & [Hg Hid Hrh Hv Hsup] & Hsrv1).
  destruct (bench_emit_run t (emit_w (m_current_row (it s1))) v rest s1)
    as (s2 & Hr2 & Htu2 & Hsrv2 & Hv2); rewrite ?Hg, ?Hrh; try done.
  exists s2, (m_current_row (it s1)). split_and!; [|by eapply turn_trans|done|congruence].
  unfold bench_run, inputColumnCount, get_params. rewrite run_bind_gets.
  destruct Hnm as (Hsmall & Hty' & Hn).
  rewrite u32_small by (unfold zlength in *; lia). unfold zlength. rewrite Hn, Nat2Z.id.
  rewrite (run_bind _ _ _ _ _ (print_columns_run types s (length types) 0 (conj Hsmall (conj Hty' Hn)) eq_refl)).
  assert (catch_std (do_while bench_iteration fuel;; mret tt) set_exception_msg s = (Ret tt, s1)) as H1
    by by apply run_catch_ret; rewrite (run_bind _ _ _ _ _ Hloop).
  assert (catch_std bench_emit set_exception_msg s1 = (Ret tt, s2)) as H2 by by apply run_catch_ret.
  erewrite run_bind; [done|]. apply run_catch_ret.
  rewrite (run_bind _ _ _ _ _ H1), (run_bind _ _ _ _ _ H2).
  unfold get_exception_msg. run_simpl. rewrite Hv2, Hv, He. done.
Qed.
End emitting.

(** ** Witness *)
Section witnesses.
#[local] Existing Instance plain_codec.

Lemma bench_run_spec_witness :
  let types := [varchar text_column] in
  let g := Global_init <| params := SWIGVM_params_init <| inp_types := types |>
    <| inp_names := ["A"] |> <| out_types := types |> <| connection_id := 77%Z |> |> in
  let s := (machine_init (prompt [plain_reply text_next; plain_reply text_done; reply_of MT_EMIT]))
    <| glob := g |> in
  ∃ s0 s' n, SWIGTableIterator_Impl s = (Ret tt, s0) ∧ bench_run 2 s0 = (Ret true, s') ∧
    sent (c_trace (chan s')) = [plain_request MT_NEXT 77 body_none;
      plain_request MT_NEXT 77 body_none; plain_request MT_EMIT 0 (body_emit (table_of (bench_rows n)))].
Proof.
  intros types g s.
  destruct (receive_next_run types (plain_request MT_NEXT 77 body_none) [text_rows]
    [plain_reply text_next] (plain_reply text_done) (plain_reply text_next)
    [plain_reply text_done] [plain_reply text_done; reply_of MT_EMIT] (iterator_constructed s))
    as (s0 & Hr0 & Hst & [Hg Hid Hrh Hv Hsup] & Htu & Hsrv & _); try reflexivity.
  { constructor; [apply text_carries|constructor]. }
  { by exists text_done. }
  { apply (serves_chan _ (machine_init (prompt [plain_reply text_next; plain_reply text_done;
      reply_of MT_EMIT]))); [reflexivity|]. apply serves_now. }
  destruct (bench_run_spec types (varchar text_column) (plain_request MT_NEXT 77 body_none)
    text_rows [plain_reply text_done] [] (λ n, plain_request MT_EMIT 0 (body_emit (table_of (bench_rows n))))
    (reply_of MT_EMIT) 2 s0) as (s' & n & Hr & Htu' & _); try (rewrite ?Hg, ?Hrh, ?Hv; reflexivity).
  { rewrite Hg. split; [|split]; reflexivity. }
  { exact Hst. }
  { exact Hsrv. }
  exists s0, s', n. split; [exact Hr0|]. split; [exact Hr|].
  destruct (turn_sent _ _ _ _ Htu') as [-> _]. destruct (turn_sent _ _ _ _ Htu) as [-> _].
  reflexivity.
Defined.
End witnesses.
