(* ===== verification/SharedSocket.v ===== *)
(** * One socket shared by threads ([impl/socket_low_level.cc], [streamingcontainer.cc])

    The two threads of the streaming container exchange messages over the one REQ socket of
    the client. The mutex of [socket_low_level.cc] covers a single call of [send] or [recv],
    not an exchange; what keeps a reply from going to the wrong thread is that a REQ socket
    refuses a second request before the first is answered, and that a refused call is made
    again. This file is the transition system of such threads, and the theorems that their
    exchanges are nevertheless atomic and that each can always be completed.

    A thread is at a point of [socket_send] or [socket_recv]. The socket of the ZeroMQ
    library is its documented state machine: it sends only when no reply is outstanding,
    receives only when one is, and a call may fail at any time without an effect. A check
    that kills the process ends the run, and every prefix of a run is a run. *)
From S2P Require Import Prelude SwigCommon Protocol Dto Machine SocketLowLevel.

Open Scope list_scope.
Open Scope nat_scope.

(** ** Threads *)
Inductive direction : Type := sending | receiving.

#[export] Instance direction_eq_dec : EqDecision direction.
Proof. solve_decision. Defined.

Section threads.
Context `{Codec}.

(** Where a thread is: between two exchanges, or with the request [r] at the top of a loop,
    in the call of the socket, in [external_process_check] after a failed call, before the
    unlocking of the next attempt, or before the unlocking after a successful call. *)
Inductive thread_pc : Type :=
  | idle
  | locking (d : direction) (r : wire)
  | calling (d : direction) (r : wire)
  | checking (d : direction) (r : wire)
  | retrying (d : direction) (r : wire)
  | has_sent (r : wire)
  | has_received (r w : wire).

Inductive wire_event : Type :=
  | wire_request (i : nat) (r : wire)
  | wire_reply (i : nat) (w : wire).

Record socket_state : Type := mkSocketState {
  zmq_mutex : option nat;
  awaiting_reply : bool;                     (* the state of the REQ socket *)
  thread_pcs : list thread_pc;
  on_wire : list wire_event;                 (* what passed the socket, oldest first *)
  exchanges : list (nat * wire * wire);      (* finished ones: thread, request and reply *)
}.

#[global] Instance socket_state_rebuild : Rebuild socket_state := λ s,
  mkSocketState (zmq_mutex s) (awaiting_reply s) (thread_pcs s) (on_wire s) (exchanges s).

Section steps.
Context (locks : bool).   (* [use_zmq_socket_locks] *)
Implicit Types s : socket_state.

Definition goto (i : nat) (p : thread_pc) s : socket_state :=
  s <| thread_pcs := <[i := p]> (thread_pcs s) |>.
Definition take_mutex (i : nat) s : socket_state :=
  if locks then s <| zmq_mutex := Some i |> else s.
Definition drop_mutex s : socket_state := if locks then s <| zmq_mutex := None |> else s.

Inductive socket_step : socket_state → socket_state → Prop :=
  | step_begin s i r :
      thread_pcs s !! i = Some idle → socket_step s (goto i (locking sending r) s)
  | step_lock s i d r :
      thread_pcs s !! i = Some (locking d r) → (locks = true → zmq_mutex s = None) →
      socket_step s (goto i (calling d r) (take_mutex i s))
  | step_send s i r :
      thread_pcs s !! i = Some (calling sending r) → awaiting_reply s = false →
      socket_step s (goto i (has_sent r) (s <| awaiting_reply := true |>
                       <| on_wire := on_wire s ++ [wire_request i r] |>))
  | step_recv s i r w :
      thread_pcs s !! i = Some (calling receiving r) → awaiting_reply s = true →
      socket_step s (goto i (has_received r w) (s <| awaiting_reply := false |>
                       <| on_wire := on_wire s ++ [wire_reply i w] |>))
  | step_failed s i d r :
      thread_pcs s !! i = Some (calling d r) → socket_step s (goto i (checking d r) s)
  | step_checked s i d r :
      thread_pcs s !! i = Some (checking d r) → socket_step s (goto i (retrying d r) s)
  | step_retry s i d r :
      thread_pcs s !! i = Some (retrying d r) →
      socket_step s (goto i (locking d r) (drop_mutex s))
  | step_sent s i r :
      thread_pcs s !! i = Some (has_sent r) →
      socket_step s (goto i (locking receiving r) (drop_mutex s))
  | step_received s i r w :
      thread_pcs s !! i = Some (has_received r w) →
      socket_step s (goto i idle (drop_mutex s <| exchanges := exchanges s ++ [(i, r, w)] |>)).

(** [n] threads on a socket without an outstanding request *)
Definition socket_start (n : nat) : socket_state := mkSocketState None false (replicate n idle) [] [].
End steps.

(** ** Points of a thread *)

(** The thread is between [lock] and [unlock]. *)
Definition holds (p : thread_pc) : bool :=
  match p with idle | locking _ _ => false | _ => true end.

Definition in_socket (p : thread_pc) : bool := match p with calling _ _ => true | _ => false end.

(** What a thread still has to do with the socket *)
Inductive stage : Type := fresh | expecting (r : wire) | answered (r w : wire).
Definition stage_of (p : thread_pc) : stage :=
  match p with
  | locking receiving r | calling receiving r | checking receiving r | retrying receiving r
  | has_sent r => expecting r
  | has_received r w => answered r w
  | _ => fresh
  end.

(** The request of a thread that is in the middle of an exchange *)
Definition request_of (p : thread_pc) : option wire :=
  match p with
  | idle => None
  | locking _ r | calling _ r | checking _ r | retrying _ r | has_sent r | has_received r _ => Some r
  end.

Definition exchange_events (x : nat * wire * wire) : list wire_event :=
  let '(i, r, w) := x in [wire_request i r; wire_reply i w].

(** ** The invariant of the threads with the mutex *)

(** The mutex is held by the thread that is between [lock] and [unlock]. *)
Definition mutex_invariant (s : socket_state) : Prop :=
  ∀ i, zmq_mutex s = Some i ↔ ∃ p, thread_pcs s !! i = Some p ∧ holds p = true.

Definition stages (s : socket_state) : list stage := stage_of <$> thread_pcs s.

(** At most one of [n] threads is in the middle of an exchange, and the wire says which. *)
Inductive wire_invariant (n : nat) (s : socket_state) : Prop :=
  | wire_settled :
      stages s = replicate n fresh → awaiting_reply s = false →
      on_wire s = exchanges s ≫= exchange_events → wire_invariant n s
  | wire_open i r :
      stages s = <[i := expecting r]> (replicate n fresh) → i < n → awaiting_reply s = true →
      on_wire s = (exchanges s ≫= exchange_events) ++ [wire_request i r] → wire_invariant n s
  | wire_closing i r w :
      stages s = <[i := answered r w]> (replicate n fresh) → i < n → awaiting_reply s = false →
      on_wire s = (exchanges s ≫= exchange_events) ++ [wire_request i r; wire_reply i w] →
      wire_invariant n s.

Implicit Types s : socket_state.

Lemma goto_lookup s i p j q :
  thread_pcs (goto i p s) !! j = Some q →
  (j = i ∧ q = p) ∨ (j ≠ i ∧ thread_pcs s !! j = Some q).
Proof. simpl. rewrite list_lookup_insert_Some. naive_solver. Qed.

Lemma goto_here s i p q : thread_pcs s !! i = Some p → thread_pcs (goto i q s) !! i = Some q.
Proof. intros Hi. apply list_lookup_insert_eq. by eapply lookup_lt_Some. Qed.

Lemma stages_goto s i p : stages (goto i p s) = <[i := stage_of p]> (stages s).
Proof. apply list_fmap_insert. Qed.

Lemma stages_same s i p q :
  thread_pcs s !! i = Some p → stage_of q = stage_of p → stages (goto i q s) = stages s.
Proof.
  intros Hi Hq. rewrite stages_goto. apply list_insert_id. unfold stages.
  by rewrite list_lookup_fmap, Hi, Hq.
Qed.

Lemma stages_at s i p : thread_pcs s !! i = Some p → stages s !! i = Some (stage_of p).
Proof. intros Hi. unfold stages. by rewrite list_lookup_fmap, Hi. Qed.

Lemma stage_at s i x : stages s !! i = Some x → ∃ p, thread_pcs s !! i = Some p ∧ stage_of p = x.
Proof. unfold stages. rewrite list_lookup_fmap_Some. naive_solver. Qed.

(** A stage other than [fresh] is the one of the thread in the exchange. *)
Lemma only_stage n (i j : nat) (x y : stage) :
  <[i := x]> (replicate n fresh) !! j = Some y → y ≠ fresh → j = i ∧ y = x.
Proof.
  rewrite list_lookup_insert_Some. intros [(-> & -> & _)|(_ & Hj)] Hy; [done|].
  apply lookup_replicate in Hj as [-> _]. done.
Qed.

Lemma stage_reset n i (x : stage) : <[i := fresh]> (<[i := x]> (replicate n fresh)) = replicate n fresh.
Proof. by rewrite list_insert_insert_eq, insert_replicate. Qed.

(** *** The mutex *)
Lemma holder_at s i p : mutex_invariant s → thread_pcs s !! i = Some p → holds p = true ↔ zmq_mutex s = Some i.
Proof. intros Hm Hi. rewrite (Hm i), Hi. naive_solver. Qed.

Lemma mutex_at s i : mutex_invariant s → zmq_mutex s = Some i → ∃ p, thread_pcs s !! i = Some p ∧ holds p = true.
Proof. intros Hm. apply Hm. Qed.

Lemma mutex_same s s' i p q :
  thread_pcs s !! i = Some p → holds q = holds p → mutex_invariant s →
  thread_pcs s' = thread_pcs s → zmq_mutex s' = zmq_mutex s → mutex_invariant (goto i q s').
Proof.
  intros Hi Hh Hm Ht Hz j. simpl. rewrite Hz, Ht, (Hm j). destruct (decide (j = i)) as [->|Hne].
  - rewrite list_lookup_insert_eq, Hi by (by eapply lookup_lt_Some). naive_solver.
  - by rewrite list_lookup_insert_ne.
Qed.

Lemma mutex_taken s i p q :
  thread_pcs s !! i = Some p → mutex_invariant s → zmq_mutex s = None → holds q = true →
  mutex_invariant (goto i q (take_mutex true i s)).
Proof.
  intros Hi Hm Hz Hq j. simpl. pose proof (Hm j) as Hj. rewrite Hz in Hj.
  destruct (decide (j = i)) as [->|Hne].
  - rewrite list_lookup_insert_eq by (by eapply lookup_lt_Some). naive_solver.
  - rewrite list_lookup_insert_ne by done. naive_solver.
Qed.

Lemma mutex_dropped s s' i p q :
  thread_pcs s !! i = Some p → holds p = true → holds q = false → mutex_invariant s →
  thread_pcs s' = thread_pcs s → zmq_mutex s' = None → mutex_invariant (goto i q s').
Proof.
  intros Hi Hp Hq Hm Ht Hz j. simpl. rewrite Hz, Ht. split; [done|]. intros (p' & Hj & Hp').
  apply list_lookup_insert_Some in Hj as [(-> & <- & _)|(Hne & Hj)]; [congruence|].
  rewrite (holder_at _ _ _ Hm Hj) in Hp'. rewrite (holder_at _ _ _ Hm Hi) in Hp. congruence.
Qed.

Lemma step_keeps_mutex s s' : socket_step true s s' → mutex_invariant s → mutex_invariant s'.
Proof.
  intros Hs Hm. destruct Hs as [s i r Hi|s i d r Hi Hz|s i r Hi Ha|s i r w Hi Ha|s i d r Hi
    |s i d r Hi|s i d r Hi|s i r Hi|s i r w Hi];
    try (by eapply mutex_same); try (by eapply mutex_dropped).
  eapply mutex_taken; eauto.
Qed.

(** *** The wire *)
Lemma wire_same n s s' :
  wire_invariant n s → stages s' = stages s → awaiting_reply s' = awaiting_reply s →
  on_wire s' = on_wire s → exchanges s' = exchanges s → wire_invariant n s'.
Proof.
  intros Hw Hs Ha Ho He. destruct Hw; rewrite <-Hs, <-Ha, <-Ho, <-?He in *;
    [by apply wire_settled|by eapply wire_open|by eapply wire_closing].
Qed.

(** Two threads between [lock] and [unlock] are one. *)
Lemma holder_unique s i j p q :
  mutex_invariant s → thread_pcs s !! i = Some p → thread_pcs s !! j = Some q →
  holds p = true → holds q = true → i = j.
Proof. intros Hm Hi Hj Hp Hq. apply (holder_at _ _ _ Hm) in Hi, Hj. naive_solver congruence. Qed.

Lemma answered_holds p r w : stage_of p = answered r w → holds p = true.
Proof. by destruct p as [|[]| | | | |]. Qed.

Lemma step_keeps_wire n s s' :
  socket_step true s s' → mutex_invariant s → wire_invariant n s → wire_invariant n s'.
Proof.
  intros Hs Hm Hw. destruct Hs as [s i r Hi|s i d r Hi Hz|s i r Hi Ha|s i r w Hi Ha|s i d r Hi
    |s i d r Hi|s i d r Hi|s i r Hi|s i r w Hi];
    try (apply (wire_same n s); [done|by erewrite stages_same|done..]);
    pose proof (stages_at _ _ _ Hi) as Hst; simpl in Hst.
  - destruct Hw as [Hg _ Ho|j r' _ _ Hb _|j r' w Hg Hj _ _]; [|congruence|].
    + pose proof (lookup_lt_Some _ _ _ Hst) as Hlt. rewrite Hg, length_replicate in Hlt.
      apply (wire_open n _ i r); [|done|done|simpl; by rewrite Ho].
      rewrite stages_goto. by rewrite <-Hg.
    + exfalso. destruct (stage_at s j (answered r' w)) as (q & Hq & Hqs).
      { rewrite Hg, list_lookup_insert_eq; [done|by rewrite length_replicate]. }
      assert (i = j) as -> by (by eapply holder_unique; [| | | |eapply answered_holds]).
      rewrite Hi in Hq. by simplify_eq.
  - destruct Hw as [_ Hb _|j r' Hg Hj _ Ho|j r' w' _ _ Hb _]; [congruence| |congruence].
    rewrite Hg in Hst. apply only_stage in Hst as [-> [= ->]]; [|done].
    apply (wire_closing n _ j r' w); [|done|done|simpl; by rewrite Ho, <-app_assoc].
    rewrite stages_goto. simpl. change (stages _) with (stages s). by rewrite Hg, list_insert_insert_eq.
  - destruct Hw as [Hg _ _|j r' Hg _ _ _|j r' w' Hg Hj Ha Ho].
    + rewrite Hg in Hst. by apply lookup_replicate in Hst as [? _].
    + rewrite Hg in Hst. by apply only_stage in Hst as [_ ?].
    + rewrite Hg in Hst. apply only_stage in Hst as [-> [= -> ->]]; [|done].
      apply wire_settled; [|done|].
      * rewrite stages_goto. change (stages _) with (stages s). by rewrite Hg, stage_reset.
      * simpl. by rewrite Ho, bind_app.
Qed.

Lemma socket_start_invariant n : mutex_invariant (socket_start n) ∧ wire_invariant n (socket_start n).
Proof.
  split; [|apply wire_settled; [|done|done]].
  - intros i. simpl. split; [done|]. by intros (p & [-> _]%lookup_replicate & ?).
  - unfold stages. simpl. by rewrite fmap_replicate.
Qed.

Lemma socket_reachable n s :
  rtc (socket_step true) (socket_start n) s → mutex_invariant s ∧ wire_invariant n s.
Proof.
  intros Hr. pattern s. revert s Hr. apply rtc_ind_r; [apply socket_start_invariant|].
  intros s s' _ Hs [Hm Hw]. split; [by eapply step_keeps_mutex|by eapply step_keeps_wire].
Qed.

(** ** Runs of one thread *)

(** The thread [i] is where the last [goto] has put it. *)
Ltac at_pc := simpl; rewrite ?list_insert_insert_eq; apply list_lookup_insert_eq; assumption.

(** The thread [k] leaves the critical section it is in. *)
Lemma release_run s k p :
  thread_pcs s !! k = Some p → holds p = true →
  ∃ s' q more, rtc (socket_step true) s s' ∧ zmq_mutex s' = None ∧
    thread_pcs s' = <[k := q]> (thread_pcs s) ∧ exchanges s' = exchanges s ++ more ∧
    (request_of q = request_of p ∧ more = [] ∨
     ∃ r w, request_of p = Some r ∧ more = [(k, r, w)] ∧ q = idle).
Proof.
  intros Hk Hp. pose proof (lookup_lt_Some _ _ _ Hk) as Hlt.
  assert (∀ t d r, thread_pcs t = <[k := retrying d r]> (thread_pcs s) →
    exchanges t = exchanges s → rtc (socket_step true) s t → ∃ s',
    rtc (socket_step true) s s' ∧ zmq_mutex s' = None ∧
    thread_pcs s' = <[k := locking d r]> (thread_pcs s) ∧ exchanges s' = exchanges s) as Hretry.
  { intros t d r Ht He Hr. exists (goto k (locking d r) (drop_mutex true t)).
    split_and!; [|done|simpl; by rewrite Ht, list_insert_insert_eq|done].
    eapply rtc_r; [done|]. apply step_retry. rewrite Ht. by apply list_lookup_insert_eq. }
  destruct p as [|d r|d r|d r|d r|r|r w]; try done.
  - destruct (Hretry (goto k (retrying d r) (goto k (checking d r) s)) d r) as (s' & ? & ? & ? & He);
      [simpl; by rewrite list_insert_insert_eq|done| |].
    + eapply rtc_l; [by eapply step_failed|]. eapply rtc_once, step_checked. at_pc.
    + exists s', (locking d r), []. rewrite app_nil_r. split_and!; [done..|by left].
  - destruct (Hretry (goto k (retrying d r) s) d r) as (s' & ? & ? & ? & He); [done|done| |].
    + eapply rtc_once. by eapply step_checked.
    + exists s', (locking d r), []. rewrite app_nil_r. split_and!; [done..|by left].
  - destruct (Hretry s d r) as (s' & ? & ? & ? & He); [by rewrite list_insert_id|done|done|].
    exists s', (locking d r), []. rewrite app_nil_r. split_and!; [done..|by left].
  - exists (goto k (locking receiving r) (drop_mutex true s)), (locking receiving r), [].
    split_and!; [by eapply rtc_once, step_sent|done|done|by rewrite app_nil_r|by left].
  - eexists. exists idle, [(k, r, w)].
    split_and!; [by eapply rtc_once, step_received|done|done|done|right; by exists r, w].
Qed.

(** The thread [k] waits for the reply, and gets it. *)
Lemma finish_run s k r w :
  thread_pcs s !! k = Some (locking receiving r) → zmq_mutex s = None → awaiting_reply s = true →
  ∃ s', rtc (socket_step true) s s' ∧ zmq_mutex s' = None ∧ awaiting_reply s' = false ∧
    thread_pcs s' = <[k := idle]> (thread_pcs s) ∧ exchanges s' = exchanges s ++ [(k, r, w)].
Proof.
  intros Hk Hz Ha. pose proof (lookup_lt_Some _ _ _ Hk) as Hlt. eexists. split.
  - eapply rtc_l; [by apply (step_lock _ _ _ _ _ Hk)|].
    eapply rtc_l; [apply (step_recv _ _ k r w); [at_pc|done]|].
    eapply rtc_once, (step_received _ _ k r w). at_pc.
  - simpl. by rewrite !list_insert_insert_eq.
Qed.

Lemma full_exchange_run s k r w :
  thread_pcs s !! k = Some (locking sending r) → zmq_mutex s = None → awaiting_reply s = false →
  ∃ s', rtc (socket_step true) s s' ∧ thread_pcs s' = <[k := idle]> (thread_pcs s) ∧
    exchanges s' = exchanges s ++ [(k, r, w)].
Proof.
  intros Hk Hz Ha. pose proof (lookup_lt_Some _ _ _ Hk) as Hlt.
  destruct (finish_run (goto k (locking receiving r) (drop_mutex true
    (goto k (has_sent r) (goto k (calling sending r) (take_mutex true k s)
       <| awaiting_reply := true |> <| on_wire := on_wire s ++ [wire_request k r] |>)))) k r w)
    as (s' & Hr & _ & _ & Hp & He); [at_pc|done|done|].
  exists s'. split; [|by rewrite Hp, He; simpl; rewrite !list_insert_insert_eq].
  eapply rtc_l; [by apply (step_lock _ _ _ _ _ Hk)|].
  eapply rtc_l; [apply (step_send _ _ k r); [at_pc|done]|].
  eapply rtc_l; [apply (step_sent _ _ k r); at_pc|]. exact Hr.
Qed.

(** Nobody is inside a critical section; the thread [i] is still in its exchange, or done. *)
Lemma released_run n s i p r :
  rtc (socket_step true) (socket_start n) s → thread_pcs s !! i = Some p → request_of p = Some r →
  ∃ s' q more, rtc (socket_step true) s s' ∧ zmq_mutex s' = None ∧
    thread_pcs s' !! i = Some q ∧ exchanges s' = exchanges s ++ more ∧
    ((∃ d, q = locking d r) ∨ q = idle ∧ ∃ w, (i, r, w) ∈ more).
Proof.
  intros Hs Hi Hr. assert (∃ s' q more, rtc (socket_step true) s s' ∧ zmq_mutex s' = None ∧
    thread_pcs s' !! i = Some q ∧ exchanges s' = exchanges s ++ more ∧
    (request_of q = Some r ∨ q = idle ∧ ∃ w, (i, r, w) ∈ more)) as (s' & q & more & H1 & H2 & H3 & H4 & H5).
  { destruct (socket_reachable _ _ Hs) as [Hm Hw]. destruct (zmq_mutex s) as [k|] eqn:Hz.
    - apply (mutex_at _ _ Hm) in Hz as (pk & Hk & Hh).
      destruct (release_run s k pk Hk Hh) as (s' & q & more & H1 & H2 & H3 & H4 & H5).
      destruct (decide (i = k)) as [->|Hne].
      + exists s', q, more. rewrite H3, list_lookup_insert_eq by (by eapply lookup_lt_Some).
        rewrite Hi in Hk. injection Hk as <-. rewrite Hr in H5. split_and!; [done..|].
        destruct H5 as [[-> _]|(r' & w & [= <-] & -> & ->)]; [by left|right].
        split; [done|]. exists w. by left.
      + exists s', p, more. rewrite H3, list_lookup_insert_ne by done. split_and!; [done..|by left].
    - exists s, p, []. rewrite app_nil_r. split_and!; [done..|by left]. }
  exists s', q, more. split_and!; [done..|]. destruct H5 as [Hq|]; [left|by right].
  destruct (socket_reachable n s') as [Hm _]; [by etransitivity|].
  destruct (holds q) eqn:Hh; [apply (holder_at _ _ _ Hm H3) in Hh; congruence|].
  destruct q; try done. eexists. simpl in Hq. by injection Hq as ->.
Qed.

(** The thread in the middle of an exchange gets its reply when nobody holds the mutex. *)
Lemma settled_run n s :
  rtc (socket_step true) (socket_start n) s → zmq_mutex s = None →
  ∃ s' more, rtc (socket_step true) s s' ∧ zmq_mutex s' = None ∧ awaiting_reply s' = false ∧
    exchanges s' = exchanges s ++ more ∧
    ∀ i q, thread_pcs s !! i = Some q →
      thread_pcs s' !! i = Some q ∧ (∀ r, q ≠ locking receiving r) ∨
      thread_pcs s' !! i = Some idle ∧ ∃ r w, q = locking receiving r ∧ (i, r, w) ∈ more.
Proof.
  intros [Hm Hw]%socket_reachable Hz. destruct Hw as [Hg Ha _|k r Hg Hk Ha _|k r w Hg Hk _ _].
  - exists s, []. rewrite app_nil_r. split_and!; [done..|]. intros i q Hi. left. split; [done|].
    intros r ->. apply stages_at in Hi. rewrite Hg in Hi. by apply lookup_replicate in Hi as [? _].
  - destruct (stage_at s k (expecting r)) as (q & Hq & Hqs).
    { rewrite Hg, list_lookup_insert_eq; [done|by rewrite length_replicate]. }
    assert (q = locking receiving r) as ->.
    { destruct (holds q) eqn:Hh; [apply (holder_at _ _ _ Hm Hq) in Hh; congruence|].
      destruct q as [|[]| | | | |]; try done. by injection Hqs as ->. }
    destruct (finish_run s k r wire_empty Hq Hz Ha) as (s' & Hr & Hz' & Ha' & Hp & He).
    exists s', [(k, r, wire_empty)]. split_and!; [done..|]. intros i p Hi. rewrite Hp.
    destruct (decide (i = k)) as [->|Hne].
    + right. rewrite list_lookup_insert_eq by (by eapply lookup_lt_Some). split; [done|].
      exists r, wire_empty. rewrite Hq in Hi. injection Hi as <-. split; [done|by left].
    + left. rewrite list_lookup_insert_ne by done. split; [done|]. intros r' ->.
      apply stages_at in Hi. rewrite Hg in Hi. by apply only_stage in Hi as [-> _].
  - destruct (stage_at s k (answered r w)) as (q & Hq & Hqs).
    { rewrite Hg, list_lookup_insert_eq; [done|by rewrite length_replicate]. }
    apply answered_holds, (holder_at _ _ _ Hm Hq) in Hqs. congruence.
Qed.

(** C4. With the mutex, and whatever the interleaving of any number of threads: no two of
    them are inside the socket at the same time and each unlocks only what it holds; and
    every reply goes to the thread that sent the request, for the traffic on the socket is
    the sequence of the finished exchanges, followed by at most one that is under way. *)
Theorem exchanges_atomic n s :
  rtc (socket_step true) (socket_start n) s →
  (∀ i j p q, thread_pcs s !! i = Some p → thread_pcs s !! j = Some q →
     in_socket p = true → in_socket q = true → i = j) ∧
  (∀ i p, thread_pcs s !! i = Some p → holds p = true → zmq_mutex s = Some i) ∧
  (on_wire s = exchanges s ≫= exchange_events ∨
   ∃ i p r, thread_pcs s !! i = Some p ∧ request_of p = Some r ∧
     (on_wire s = (exchanges s ≫= exchange_events) ++ [wire_request i r] ∧
      stage_of p = expecting r ∨
      ∃ w, on_wire s = (exchanges s ≫= exchange_events) ++ [wire_request i r; wire_reply i w] ∧
        p = has_received r w)).
Proof.
  intros [Hm Hw]%socket_reachable. split; [|split].
  - intros i j p q Hi Hj Hp Hq. eapply holder_unique; [done..|by destruct p|by destruct q].
  - intros i p Hi Hp. by apply (holder_at _ _ _ Hm Hi).
  - destruct Hw as [_ _ Ho|k r Hg Hk _ Ho|k r w Hg Hk _ Ho]; [by left|right..];
      edestruct (stage_at s k) as (q & Hq & Hqs);
      [rewrite Hg, list_lookup_insert_eq; [done|by rewrite length_replicate]| |
       rewrite Hg, list_lookup_insert_eq; [done|by rewrite length_replicate]| ];
      exists k, q, r; (split; [done|]).
    + split; [|by left]. by destruct q as [|[]|[]|[]|[]| |]; simplify_eq/=.
    + destruct q as [|[]|[]|[]|[]| |]; simplify_eq/=. split; [done|]. right. by exists w.
Qed.

(** C13. No thread is ever stuck: from every state that can be reached, each thread in the
    middle of an exchange can finish it and learn the reply to its request, whatever the
    others were doing; no exchange that was finished is forgotten. *)
Theorem exchange_can_finish n s i p r :
  rtc (socket_step true) (socket_start n) s →
  thread_pcs s !! i = Some p → request_of p = Some r →
  ∃ s' more w, rtc (socket_step true) s s' ∧ thread_pcs s' !! i = Some idle ∧
    exchanges s' = exchanges s ++ more ∧ (i, r, w) ∈ more.
Proof.
  intros Hs Hi Hr.
  destruct (released_run n s i p r Hs Hi Hr) as (s1 & q & m1 & R1 & Z1 & P1 & E1 & [[d ->]|(-> & w & Hin)]);
    [|by exists s1, m1, w].
  destruct (settled_run n s1) as (s2 & m2 & R2 & Z2 & A2 & E2 & P2); [by etransitivity|done|].
  destruct (P2 _ _ P1) as [[P3 Hd]|(P3 & r' & w & [= -> ->] & Hin)].
  - destruct d; [|by destruct (Hd r)].
    destruct (full_exchange_run s2 i r wire_empty P3 Z2 A2) as (s3 & R3 & P4 & E3).
    exists s3, (m1 ++ m2 ++ [(i, r, wire_empty)]), wire_empty. split_and!.
    + by etransitivity; [|etransitivity].
    + rewrite P4. apply list_lookup_insert_eq. by eapply lookup_lt_Some.
    + by rewrite E3, E2, E1, !app_assoc.
    + set_solver.
  - exists s2, (m1 ++ m2), w. split_and!; [by etransitivity|done|by rewrite E2, E1, app_assoc|set_solver].
Qed.

(** Without the mutex, which is what a container gets that does not ask for it, two
    threads can be inside the socket at the same time. *)
Theorem unlocked_race (r1 r2 : wire) :
  ∃ s, rtc (socket_step false) (socket_start 2) s ∧
    thread_pcs s = [calling sending r1; calling sending r2].
Proof.
  eexists. split.
  - eapply rtc_l; [by apply (step_begin _ _ 0 r1)|]. eapply rtc_l; [by apply (step_lock _ _ 0 sending r1)|].
    eapply rtc_l; [by apply (step_begin _ _ 1 r2)|]. by eapply rtc_once, (step_lock _ _ 1 sending r2).
  - done.
Qed.

(** ** The routines as sequences of steps *)
Section routines.
Context (locks : bool).

(** A run ends in a state that is given by an equation. *)
Ltac ends_at := match goal with |- nsteps _ 0 ?t ?u => replace t with u; [constructor|] end.

(** A failed attempt leads back to the state before it. *)
Lemma failed_attempt_cycle s i d r :
  thread_pcs s !! i = Some (locking d r) → zmq_mutex s = None → nsteps (socket_step locks) 4 s s.
Proof.
  intros Hi Hz. pose proof (lookup_lt_Some _ _ _ Hi) as Hlt.
  eapply nsteps_l; [by apply (step_lock _ _ _ _ _ Hi)|].
  eapply nsteps_l; [apply (step_failed _ _ i d r); destruct locks; at_pc|].
  eapply nsteps_l; [apply (step_checked _ _ i d r); destruct locks; at_pc|].
  eapply nsteps_l; [apply (step_retry _ _ i d r); destruct locks; at_pc|]. ends_at.
  destruct s as [z aw pcs ow ex]. unfold goto, drop_mutex, take_mutex. simpl in *. subst z.
  destruct locks; unfold update, field_update; simpl;
    by rewrite !list_insert_insert_eq, list_insert_id.
Qed.

Lemma failed_attempts_cycle k s i d r :
  thread_pcs s !! i = Some (locking d r) → zmq_mutex s = None →
  nsteps (socket_step locks) (4 * k) s s.
Proof.
  intros Hi Hz. induction k as [|k IH]; [constructor|].
  replace (4 * S k) with (4 + 4 * k) by lia.
  eapply nsteps_trans; [by eapply failed_attempt_cycle|done].
Qed.

Definition request_sent (i : nat) (r : wire) (t : socket_state) : socket_state :=
  goto i (locking receiving r) t <| awaiting_reply := true |>
    <| on_wire := on_wire t ++ [wire_request i r] |>.
Definition reply_received (i : nat) (r w : wire) (t : socket_state) : socket_state :=
  goto i idle t <| awaiting_reply := false |> <| on_wire := on_wire t ++ [wire_reply i w] |>
    <| exchanges := exchanges t ++ [(i, r, w)] |>.

Lemma send_attempt t i r :
  thread_pcs t !! i = Some (locking sending r) → zmq_mutex t = None → awaiting_reply t = false →
  nsteps (socket_step locks) 3 t (request_sent i r t).
Proof.
  intros Hi Hz Ha. pose proof (lookup_lt_Some _ _ _ Hi) as Hlt.
  eapply nsteps_l; [by apply (step_lock _ _ _ _ _ Hi)|].
  eapply nsteps_l; [apply (step_send _ _ i r); [destruct locks; at_pc|by destruct locks]|].
  eapply nsteps_l; [apply (step_sent _ _ i r); destruct locks; at_pc|]. ends_at.
  destruct t as [z aw pcs ow ex]. unfold request_sent, goto, drop_mutex, take_mutex. simpl in *. subst z.
  destruct locks; unfold update, field_update; simpl; by rewrite !list_insert_insert_eq.
Qed.

Lemma recv_attempt t i r w :
  thread_pcs t !! i = Some (locking receiving r) → zmq_mutex t = None → awaiting_reply t = true →
  nsteps (socket_step locks) 3 t (reply_received i r w t).
Proof.
  intros Hi Hz Ha. pose proof (lookup_lt_Some _ _ _ Hi) as Hlt.
  eapply nsteps_l; [by apply (step_lock _ _ _ _ _ Hi)|].
  eapply nsteps_l; [apply (step_recv _ _ i r w); [destruct locks; at_pc|by destruct locks]|].
  eapply nsteps_l; [apply (step_received _ _ i r w); destruct locks; at_pc|]. ends_at.
  destruct t as [z aw pcs ow ex]. unfold reply_received, goto, drop_mutex, take_mutex. simpl in *. subst z.
  destruct locks; unfold update, field_update; simpl; by rewrite !list_insert_insert_eq.
Qed.
End routines.

(** C22. The routines are runs of the steps: a [socket_send] and a [socket_recv] that return
    are, for a thread at the top of the loop in any state in which the others are outside
    the socket, four steps for each failed attempt and three for the good one; the request
    and the reply that the thread sees are those of the routines. *)
Theorem socket_exchange_runs zmsg w (s s' : machine) (t : socket_state) i :
  (socket_send zmsg;; socket_recv false) s = (Ret (Some w), s') → mutex_free s →
  thread_pcs t !! i = Some (locking sending zmsg) → zmq_mutex t = None → awaiting_reply t = false →
  ∃ failed_sends failed_recvs,
    c_sends (chan s) = failed_sends ++ send_true :: c_sends (chan s') ∧
    c_recvs (chan s) = failed_recvs ++ recv_true w :: c_recvs (chan s') ∧
    io s s' [zmsg] [w] ∧
    let t1 := request_sent i zmsg t in
    nsteps (socket_step (use_zmq_socket_locks (chan s))) (4 * length failed_sends + 3) t t1 ∧
    nsteps (socket_step (use_zmq_socket_locks (chan s))) (4 * length failed_recvs + 3) t1
      (reply_received i zmsg w t1).
Proof.
  intros (a & s1 & Hsend & Hrecv)%run_bind_inv Hm Hi Hz Ha.
  pose proof (socket_send_run zmsg s Hm) as [Hu1 Hp1]. rewrite Hsend in Hu1, Hp1. simpl in Hu1, Hp1.
  destruct Hp1 as [Hm1 [(pre1 & r1 & e1 & Hs1 & _ & Hg1 & Hio1)|(? & _ & _ & ? & _)]]; [|done].
  destruct r1; try done. injection Hg1 as <- <-.
  pose proof (socket_recv_run false s1 Hm1) as [Hu2 Hp2]. rewrite Hrecv in Hu2, Hp2. simpl in Hu2, Hp2.
  destruct Hp2 as [_ [(pre2 & r2 & e2 & Hs2 & _ & Hg2 & Hio2)|(? & _ & _ & ? & _)]]; [|done].
  destruct r2; try done. injection Hg2 as <- ->.
  exists pre1, pre2. split; [by rewrite Hu2|]. split; [by rewrite <-Hu1|].
  split; [by eapply (io_trans _ s1 _ [zmsg] [] [] [w])|].
  pose proof (lookup_lt_Some _ _ _ Hi) as Hlt.
  split; (eapply nsteps_trans; [eapply failed_attempts_cycle; try done|]).
  - by apply send_attempt.
  - simpl. by apply list_lookup_insert_eq.
  - apply recv_attempt; [simpl; by apply list_lookup_insert_eq|done|done].
Qed.
End threads.

(** ** Witnesses

    The second thread has sent its request; the first one is in a call that the socket
    is going to refuse. *)
Section witnesses.
#[local] Existing Instance plain_codec.

Definition next_request : wire := plain_request MT_NEXT 3 body_none.
Definition emit_request : wire := plain_request MT_EMIT 3 body_none.
Definition emit_reply : wire := plain_reply (response_plain MT_EMIT 3).

Definition contended : socket_state :=
  mkSocketState (Some 0) true [calling sending next_request; locking receiving emit_request]
    [wire_request 1 emit_request] [].

Lemma contended_reachable : rtc (socket_step true) (socket_start 2) contended.
Proof.
  eapply rtc_l; [by apply (step_begin _ _ 0 next_request)|].
  eapply rtc_l; [by apply (step_begin _ _ 1 emit_request)|].
  eapply rtc_l; [by apply (step_lock _ _ 1 sending emit_request)|].
  eapply rtc_l; [by apply (step_send _ _ 1 emit_request)|].
  eapply rtc_l; [by apply (step_sent _ _ 1 emit_request)|].
  eapply rtc_l; [by apply (step_lock _ _ 0 sending next_request)|]. apply rtc_refl.
Qed.

Lemma exchanges_atomic_witness :
  zmq_mutex contended = Some 0 ∧ on_wire contended ≠ exchanges contended ≫= exchange_events ∧
  ∃ i p r, thread_pcs contended !! i = Some p ∧ request_of p = Some r.
Proof.
  destruct (exchanges_atomic 2 contended contended_reachable) as (_ & H1 & [H2|(i & p & r & Hp & Hr & _)]).
  - discriminate H2.
  - split; [exact (H1 0 _ eq_refl eq_refl)|]. split; [discriminate|]. exists i, p, r. split; [exact Hp|exact Hr].
Defined.

Lemma exchange_can_finish_witness :
  ∃ s' more w, rtc (socket_step true) contended s' ∧ thread_pcs s' !! 0 = Some idle ∧
    exchanges s' = more ∧ (0, next_request, w) ∈ more.
Proof.
  destruct (exchange_can_finish 2 contended 0 _ next_request contended_reachable eq_refl eq_refl)
    as (s' & more & w & H1 & H2 & H3 & H4).
  exists s', more, w. split; [exact H1|split; [exact H2|split; [exact H3|exact H4]]].
Defined.

(** Two failed attempts to send and one to receive *)
Definition exchange_machine : machine :=
  machine_init (channel_init [send_false; send_threw; send_true] [recv_false; recv_true emit_reply]).
Definition exchange_threads : socket_state :=
  mkSocketState None false [locking sending next_request; locking sending emit_request] [] [].

Lemma exchange_machine_run :
  ∃ s', (socket_send emit_request;; socket_recv false) exchange_machine = (Ret (Some emit_reply), s').
Proof.
  assert (supervised exchange_machine) as Hs by (by intros ?%not_elem_of_nil).
  destruct (socket_send_good emit_request exchange_machine [] eq_refl Hs)
    as (s1 & H1 & Hio & Hm & _ & Hv).
  { exists [send_false; send_threw]. split; [set_solver|done]. }
  destruct (socket_recv_good false emit_reply s1 [] Hm) as (s2 & H2 & _).
  - by eapply supervised_io.
  - rewrite Hv. exists [recv_false]. split; [set_solver|done].
  - by left.
  - exists s2. by rewrite (run_bind _ _ _ _ _ H1).
Qed.

Lemma socket_exchange_runs_witness :
  ∃ s' k, io exchange_machine s' [emit_request] [emit_reply] ∧
    nsteps (socket_step (use_zmq_socket_locks (chan exchange_machine))) k exchange_threads
      (reply_received 1 emit_request emit_reply (request_sent 1 emit_request exchange_threads)).
Proof.
  destruct exchange_machine_run as [s' Hr].
  destruct (socket_exchange_runs emit_request emit_reply exchange_machine s' exchange_threads 1
    Hr eq_refl eq_refl eq_refl eq_refl) as (f1 & f2 & _ & _ & H1 & H2 & H3).
  exists s'. eexists. split; [exact H1|]. eapply nsteps_trans; [exact H2|exact H3].
Defined.
End witnesses.
