(* ===== verification/Supervision.v ===== *)
(** * The supervision thread next to the client ([impl/check.cc], [impl/exaudflib_main.cc])

    The thread that [start_check_thread] creates looks at the socket file and at the parent
    every 100 ms, while the client serves and then cleans up in [stop_all], which removes
    that file itself. Here the two run interleaved, one system call or shared variable at a
    time, with the rest of the world removing the file and changing the parent at will.

    [pthread_cancel] has its POSIX semantics: a cancelled thread does not get past a
    cancellation point ([sleep], [usleep]), and may end at a call that may be one
    ([access], [unlink], the text on [cerr] before it aborts). *)
From S2P Require Import Prelude SwigCommon Protocol Dto Machine SocketLowLevel ClientMain.

Open Scope list_scope.
Open Scope nat_scope.

Section threads.
Context `{Codec}.

(** ** The points of the two threads *)
Inductive check_pc : Type :=
  | testing                  (* before the test of [keep_checking] *)
  | accessing                (* before [access] *)
  | lost                     (* no socket file: before [sleep] *)
  | asking                   (* before [getppid] *)
  | orphaned                 (* another parent: before [sleep] *)
  | unlinking | aborting
  | pausing                  (* before [usleep] *)
  | watch_done.

Inductive client_pc : Type := serving | stopping | cancelling | removing | client_done.

(** What the thread does at a point; together the points are [check_thread_routine]. *)
Definition check_call (p : check_pc) : option (run_of check_pc) :=
  match p with
  | testing => Some (
      keep ← gets (λ s, keep_checking (sup s));
      mret (if (keep : bool) then accessing else watch_done))
  | accessing => Some (
      remote ← get_remote_client;
      if (remote : bool) then mret asking
      else ok ← access_socket_file; mret (if (ok : bool) then asking else lost))
  | lost => Some (sleep 1;; mret aborting)
  | asking => Some (
      new_ppid ← getppid;
      first ← gets (λ s, first_ppid (sup s));
      when (first =? -1)%Z (upd_sup (λ c, c <| first_ppid := new_ppid |>));;
      first ← gets (λ s, first_ppid (sup s));
      mret (if negb (first =? new_ppid)%Z then orphaned else pausing))
  | orphaned => Some (sleep 1;; mret unlinking)
  | unlinking => Some (name ← get_socket_file_name; log (ev_unlink name);; mret aborting)
  | aborting => Some abort
  | pausing => Some (usleep 100000;; mret testing)
  | watch_done => None
  end.

(** What the client may do: while it serves, the check after a failed attempt to send or
    receive, any number of times; then [stop_all]. *)
Definition client_calls (p : client_pc) : list (run_of client_pc) :=
  match p with
  | serving => [external_process_check;; mret serving; log ev_socket_close;; mret stopping]
  | stopping => [
      stop_check_thread;;
      remote ← get_remote_client;
      if negb remote then mret cancelling else sleep 3;; mret client_done]
  | cancelling => [cancel_check_thread;; mret removing]
  | removing => [name ← get_socket_file_name; log (ev_unlink name);; mret client_done]
  | client_done => []
  end.

Definition must_be_cancelled (p : check_pc) : bool :=
  match p with lost | orphaned | pausing => true | _ => false end.
Definition may_be_cancelled (p : check_pc) : bool :=
  must_be_cancelled p || match p with accessing | unlinking | aborting => true | _ => false end.

(** ** The threads and the world *)
Record watch_state : Type := mkWatch {
  ws_machine : machine;
  ws_file : bool;          (* the socket file exists *)
  ws_parent : Z;
  ws_watcher : check_pc;
  ws_client : client_pc;
  ws_dead : bool;          (* the process was aborted *)
  ws_disturbed : bool;     (* the world took the file or the parent before the cancellation *)
}.

#[global] Instance watch_state_rebuild : Rebuild watch_state := λ st,
  mkWatch (ws_machine st) (ws_file st) (ws_parent st) (ws_watcher st) (ws_client st)
    (ws_dead st) (ws_disturbed st).

Implicit Types st : watch_state.

Definition cancelled st : bool := check_thread_cancelled (sup (ws_machine st)).

(** The machine that is going to see the world as it is *)
Definition looks st : machine :=
  (ws_machine st) <| chan := (chan (ws_machine st))
    <| c_access := [ws_file st] |> <| c_getppid := [ws_parent st] |> |>.

(** The socket file was removed between [s] and [s']. *)
Definition unlinked (s s' : machine) : bool :=
  existsb (λ e, match e with ev_unlink path => String.eqb path (socket_file_name (sup s)) | _ => false end)
    (drop (length (c_trace (chan s))) (c_trace (chan s'))).

Definition moved st (s' : machine) : watch_state :=
  st <| ws_machine := s' |> <| ws_file := ws_file st && negb (unlinked (ws_machine st) s') |>.

Definition disturbed st : watch_state :=
  st <| ws_disturbed := ws_disturbed st || negb (cancelled st) |>.

Inductive watcher_step : watch_state → watch_state → Prop :=
  | step_check st call p s' :
      ws_dead st = false → check_call (ws_watcher st) = Some call →
      must_be_cancelled (ws_watcher st) && cancelled st = false →
      call (looks st) = (Ret p, s') → watcher_step st ((moved st s') <| ws_watcher := p |>)
  | step_check_kills st call s' :
      ws_dead st = false → check_call (ws_watcher st) = Some call →
      call (looks st) = (Abort, s') → watcher_step st ((moved st s') <| ws_dead := true |>)
  | step_cancelled st :
      ws_dead st = false → may_be_cancelled (ws_watcher st) = true → cancelled st = true →
      watcher_step st (st <| ws_watcher := watch_done |>).

Inductive client_step : watch_state → watch_state → Prop :=
  | step_client st (call : run_of client_pc) p s' :
      ws_dead st = false → call ∈ client_calls (ws_client st) →
      call (looks st) = (Ret p, s') → client_step st ((moved st s') <| ws_client := p |>)
  | step_client_kills st (call : run_of client_pc) s' :
      ws_dead st = false → call ∈ client_calls (ws_client st) →
      call (looks st) = (Abort, s') → client_step st ((moved st s') <| ws_dead := true |>).

Inductive world_step : watch_state → watch_state → Prop :=
  | step_file_lost st :
      ws_dead st = false → world_step st ((disturbed st) <| ws_file := false |>)
  | step_parent st p :
      ws_dead st = false → world_step st ((disturbed st) <| ws_parent := p |>).

Inductive watch_step : watch_state → watch_state → Prop :=
  | watch_watcher st st' : watcher_step st st' → watch_step st st'
  | watch_client st st' : client_step st st' → watch_step st st'
  | watch_world st st' : world_step st st' → watch_step st st'.

(** The state behind [start_check_thread], with the socket file in place *)
Definition watch_start (parent : Z) (s : machine) : watch_state :=
  mkWatch s true parent (if check_thread_started (sup s) then testing else watch_done)
    serving false false.

(** The step of the thread, and the [n]-th one of the client, as functions *)
Definition check_next st : option watch_state :=
  if ws_dead st || must_be_cancelled (ws_watcher st) && cancelled st then None
  else
    call ← check_call (ws_watcher st);
    match call (looks st) with
    | (Ret p, s') => Some ((moved st s') <| ws_watcher := p |>)
    | (Abort, s') => Some ((moved st s') <| ws_dead := true |>)
    | _ => None
    end.

Definition client_next (n : nat) st : option watch_state :=
  if ws_dead st then None
  else
    call ← client_calls (ws_client st) !! n;
    match (call : run_of client_pc) (looks st) with
    | (Ret p, s') => Some ((moved st s') <| ws_client := p |>)
    | (Abort, s') => Some ((moved st s') <| ws_dead := true |>)
    | _ => None
    end.

Lemma check_next_step st st' : check_next st = Some st' → watcher_step st st'.
Proof.
  unfold check_next. destruct (ws_dead st) eqn:Hd; [done|]. simpl.
  destruct (_ && _) eqn:Hc; [done|]. destruct (check_call (ws_watcher st)) as [call|] eqn:Hcall; [|done].
  simpl. destruct (call (looks st)) as [[] s'] eqn:Hr; try done; intros [= <-].
  - by eapply step_check.
  - by eapply step_check_kills.
Qed.

Lemma client_next_step n st st' : client_next n st = Some st' → client_step st st'.
Proof.
  unfold client_next. destruct (ws_dead st) eqn:Hd; [done|]. 
  destruct (client_calls (ws_client st) !! n) as [call|] eqn:Hcall; [|done].
  apply list_elem_of_lookup_2 in Hcall.
  simpl. destruct (call (looks st)) as [[] s'] eqn:Hr; try done; intros [= <-].
  - by eapply step_client.
  - by eapply step_client_kills.
Qed.

(** ** The points on their own *)
Fixpoint watcher_alone (fuel : nat) (p : check_pc) : run_of unit :=
  match fuel with
  | 0 => blocked
  | S fuel =>
      match check_call p with
      | None => mret tt
      | Some call => p ← call; watcher_alone fuel p
      end
  end.

(** The client that stops at once takes the last call of each point. *)
Fixpoint client_stops (fuel : nat) (p : client_pc) : run_of unit :=
  match fuel with
  | 0 => blocked
  | S fuel =>
      match last (client_calls p) with
      | None => mret tt
      | Some call => p ← call; client_stops fuel p
      end
  end.

Lemma watcher_at k p call s :
  check_call p = Some call → watcher_alone (S k) p s = bind_outcome (watcher_alone k) (call s).
Proof. intros Hc. cbn [watcher_alone]. by rewrite Hc. Qed.

(** The two checks, from their first point to the end or past them *)
Lemma external_check_alone s :
  ∃ k, ∀ j, watcher_alone (k + j) accessing s =
    (external_process_check;; watcher_alone j asking) s.
Proof.
  destruct (remote_client (sup s)) eqn:Hr; [|destruct (c_access (chan s)) as [|[] rest] eqn:Ha];
    [exists 1|exists 1|exists 1|exists 3]; intros j; cbn [Nat.add];
    rewrite (watcher_at _ accessing _ s eq_refl);
    unfold external_process_check, get_remote_client, access_socket_file; run_simpl; rewrite Hr;
    run_simpl; rewrite ?bind_run, ?Ha; simpl; by run_simpl.
Qed.

Lemma parent_check_alone s :
  ∃ k, ∀ j, watcher_alone (k + j) asking s = (check_parent_pid;; watcher_alone j pausing) s.
Proof.
  destruct (c_getppid (chan s)) as [|p rest] eqn:Hp;
    [|destruct (first_ppid (sup s) =? -1)%Z eqn:Hf; [|destruct (first_ppid (sup s) =? p)%Z eqn:Hq]];
    [exists 1|exists 1|exists 1|exists 4]; intros j; cbn [Nat.add];
    rewrite (watcher_at _ asking _ s eq_refl), <-bind_run;
    unfold check_parent_pid, getppid, upd_sup, get_socket_file_name; run_simpl;
    rewrite !bind_run, Hp; simpl; run_simpl; rewrite ?Hf; run_simpl; rewrite ?Z.eqb_refl, ?Hq;
    by run_simpl.
Qed.

(** The points of the thread are the routine that it runs. *)
Lemma watcher_alone_routine fuel s :
  ∃ k, watcher_alone k testing s = check_thread_routine fuel s.
Proof.
  revert s. induction fuel as [|fuel IH]; intros s; [by exists 0|].
  cbn [check_thread_routine]. run_simpl. destruct (keep_checking (sup s)) eqn:Hk.
  2:{ exists 2. rewrite (watcher_at _ testing _ s eq_refl). run_simpl. by rewrite Hk. }
  assert (∀ j, watcher_alone (S j) testing s = watcher_alone j accessing s) as Htest.
  { intros j. rewrite (watcher_at _ testing _ s eq_refl). run_simpl. by rewrite Hk. }
  destruct (external_check_alone s) as [k1 H1]. setoid_rewrite bind_run in H1.
  setoid_rewrite bind_run. destruct (external_process_check s) as [o s1].
  destruct o; try (exists (S (k1 + 0)); rewrite Htest; exact (H1 0)).
  destruct (parent_check_alone s1) as [k2 H2]. setoid_rewrite bind_run in H2. simpl.
  rewrite bind_run. destruct (check_parent_pid s1) as [o s2].
  destruct o; try (exists (S (k1 + (k2 + 0))); rewrite Htest, H1; exact (H2 0)).
  simpl. destruct (IH (s2 <| chan := (chan s2) <| c_trace := c_trace (chan s2) ++ [ev_sleep 100000] |> |>))
    as [k Hk']. exists (S (k1 + (k2 + S k))). rewrite Htest, H1. simpl. rewrite H2. simpl.
  rewrite bind_run. exact Hk'.
Qed.

(** The points of the client that stops are [stop_all]. *)
Lemma client_stops_all s : client_stops 5 serving s = stop_all s.
Proof. by destruct s as [[] [kc cs cc fp [] sf su] gl i r v]. Qed.

(** ** What a call does in the world *)
Definition check_outcome st (p : check_pc) : outcome exn check_pc :=
  let c := sup (ws_machine st) in
  match p with
  | testing => Ret (if keep_checking c then accessing else watch_done)
  | accessing => Ret (if remote_client c || ws_file st then asking else lost)
  | asking =>
      Ret (if (first_ppid c =? -1)%Z || (first_ppid c =? ws_parent st)%Z then pausing else orphaned)
  | lost | unlinking => Ret aborting
  | orphaned => Ret unlinking
  | pausing => Ret testing
  | aborting | watch_done => Abort
  end.

Definition check_sup st (p : check_pc) : supervision :=
  let c := sup (ws_machine st) in
  match p with
  | asking => if (first_ppid c =? -1)%Z then c <| first_ppid := ws_parent st |> else c
  | _ => c
  end.

Lemma check_effect st p call :
  check_call p = Some call →
  ∃ s', call (looks st) = (check_outcome st p, s') ∧ sup s' = check_sup st p ∧
    unlinked (ws_machine st) s' = match p with unlinking => true | _ => false end.
Proof.
  destruct st as [[[] [kc cs cc fp rc sf su] gl i r v] file parent w c d t]. intros Hc.
  assert (unlinked_nothing : ∀ l : list event, drop (length l) l = []) by (intros l; by apply drop_ge).
  destruct p; simplify_eq/=; unfold check_sup, unlinked, looks; simpl.
  - destruct kc; eexists; (split; [reflexivity|]); simpl; by rewrite unlinked_nothing.
  - destruct rc, file; eexists; (split; [reflexivity|]); simpl; by rewrite unlinked_nothing.
  - eexists. split; [reflexivity|]. simpl. by rewrite drop_app_length.
  - destruct (fp =? -1)%Z eqn:E; simpl; eexists; (split; [
      unfold getppid, upd_sup; run_simpl; rewrite bind_run; simpl; run_simpl; rewrite E; run_simpl;
      rewrite ?Z.eqb_refl; by try destruct (fp =? parent)%Z|]); simpl; by rewrite unlinked_nothing.
  - eexists. split; [reflexivity|]. simpl. by rewrite drop_app_length.
  - eexists. split; [reflexivity|]. simpl. rewrite drop_app_length. simpl. by rewrite String.eqb_refl.
  - eexists. split; [reflexivity|]. simpl. by rewrite unlinked_nothing.
  - eexists. split; [reflexivity|]. simpl. by rewrite drop_app_length.
Qed.

Lemma client_effect st (call : run_of client_pc) o s' :
  call ∈ client_calls (ws_client st) → call (looks st) = (o, s') →
  let c := sup (ws_machine st) in
  unlinked (ws_machine st) s' = match ws_client st with removing => true | _ => false end ∧
  match ws_client st with
  | serving => sup s' = c ∧ (o = Ret serving ∨ o = Ret stopping ∨
      o = Abort ∧ remote_client c = false ∧ ws_file st = false)
  | stopping => sup s' = c <| keep_checking := false |> ∧
      o = Ret (if remote_client c then client_done else cancelling)
  | cancelling => sup s' = c <| check_thread_cancelled := true |> ∧ o = Ret removing
  | removing => sup s' = c ∧ o = Ret client_done
  | client_done => False
  end.
Proof.
  destruct st as [[[] [kc cs cc fp rc sf su] gl i r v] file parent w c d t].
  assert (unlinked_nothing : ∀ l : list event, drop (length l) l = []) by (intros l; by apply drop_ge).
  destruct c; simpl; intros Hc Hr; repeat (apply elem_of_cons in Hc as [->|Hc]);
    try by apply not_elem_of_nil in Hc.
  - destruct rc, file; injection Hr as <- <-; unfold unlinked; simpl;
      rewrite ?drop_app_length, ?unlinked_nothing; simpl; split_and!; auto 6.
  - injection Hr as <- <-. unfold unlinked. simpl. rewrite drop_app_length. simpl. auto.
  - destruct rc; injection Hr as <- <-; unfold unlinked; simpl;
      rewrite ?drop_app_length, ?unlinked_nothing; simpl; auto.
  - injection Hr as <- <-. unfold unlinked. simpl. rewrite unlinked_nothing. auto.
  - injection Hr as <- <-. unfold unlinked. simpl. rewrite drop_app_length. simpl.
    rewrite String.eqb_refl. auto.
Qed.

(** ** What holds in every interleaving

    [remote]: the client talks to another machine, and is not supervised. *)
Section invariant.
Context (remote : bool).

(** The world interfered, or the client has cancelled the thread. *)
Definition excused st : Prop := ws_disturbed st = true ∨ cancelled st = true.

Definition client_at st : Prop :=
  let keep := keep_checking (sup (ws_machine st)) in
  match ws_client st with
  | serving | stopping => keep = true ∧ cancelled st = false
  | cancelling => keep = false ∧ cancelled st = false ∧ remote = false
  | removing => keep = false ∧ cancelled st = true ∧ remote = false
  | client_done => keep = false ∧ cancelled st = negb remote ∧ (remote = false → ws_file st = false)
  end.

Definition watcher_at_point st : Prop :=
  match ws_watcher st with
  | lost | orphaned => excused st
  | aborting | unlinking => ws_disturbed st = true
  | watch_done => remote = false → ws_client st ≠ serving
  | _ => True
  end.

Record watch_invariant st : Prop := {
  wi_remote : remote_client (sup (ws_machine st)) = remote;
  wi_client : client_at st;
  wi_watcher : watcher_at_point st;
  wi_unsupervised : remote = true → ws_watcher st = watch_done;
  wi_file : remote = false → ws_file st = false → excused st;
  wi_parent : first_ppid (sup (ws_machine st)) = (-1)%Z ∨
    first_ppid (sup (ws_machine st)) = ws_parent st ∨ excused st;
  wi_dead : ws_dead st = true → remote = false ∧ ws_disturbed st = true;
}.

Ltac watch_cases :=
  split; unfold client_at, watcher_at_point, excused, moved, disturbed in *; simpl in *;
  unfold cancelled in *; simpl in *;
  repeat match goal with H : sup ?s = _ |- context [sup ?s] => rewrite H end;
  repeat match goal with H : unlinked ?m ?s = _ |- context [unlinked ?m ?s] => rewrite H end;
  simpl; rewrite ?andb_true_r, ?andb_false_r; try done; try tauto; try congruence.

Lemma watcher_kept st st' : watch_invariant st → watcher_step st st' → watch_invariant st'.
Proof.
  intros [Hr Hc Hw Hu Hf Hp Hd] Hstep.
  assert (remote = false) as Hremote.
  { destruct remote; [|done]. specialize (Hu eq_refl).
    by destruct Hstep as [? ? ? ? ? Hcall|? ? ? ? Hcall|? ? Hmay]; rewrite Hu in *. }
  destruct Hstep as [st call p s' Hal Hcall Hmust Hrun|st call s' Hal Hcall Hrun|st Hal Hmay Hcan].
  - destruct (check_effect st _ call Hcall) as (s1 & Hr1 & Hs & Hun). rewrite Hr1 in Hrun.
    injection Hrun as Ho ->. clear Hr1 Hu. destruct st as [m file parent w c d t]. destruct w; simplify_eq/=.
    + watch_cases. destruct (keep_checking (sup m)), c; simpl in *; intuition congruence.
    + rewrite Hr, Hremote in *. destruct file; watch_cases.
    + watch_cases. destruct Hw; congruence.
    + destruct (Z.eqb_spec (first_ppid (sup m)) (-1)) as [|Hn1];
        [watch_cases|destruct (Z.eqb_spec (first_ppid (sup m)) parent) as [|Hn2]; watch_cases].
    + watch_cases. destruct Hw; congruence.
    + watch_cases. destruct c; tauto.
    + watch_cases.
  - destruct (check_effect st _ call Hcall) as (s1 & Hr1 & Hs & Hun). rewrite Hr1 in Hrun.
    injection Hrun as Ho ->. clear Hr1 Hu. destruct st as [m file parent w c d t]. destruct w; simplify_eq/=.
    watch_cases.
  - destruct st as [m file parent w c d t]. unfold cancelled in Hcan. simplify_eq/=. watch_cases.
    intros _ ->. unfold client_at, cancelled in Hc. simpl in Hc. intuition congruence.
Qed.

Lemma client_kept st st' : watch_invariant st → client_step st st' → watch_invariant st'.
Proof.
  intros [Hr Hc Hw Hu Hf Hp Hd] Hstep.
  destruct Hstep as [st call p s' Hal Hcall Hrun|st call s' Hal Hcall Hrun];
    destruct (client_effect st call _ s' Hcall Hrun) as [Hun Heff]; clear Hrun Hcall;
    destruct st as [m file parent w c d t]; destruct c; simpl in *; try done;
    destruct Heff as [Hs Ho]; try done.
  - destruct Ho as [Ho|[Ho|[Ho _]]]; simplify_eq; watch_cases. by destruct w.
  - rewrite Hr in Ho. destruct remote eqn:Hre; simplify_eq; watch_cases; destruct w; try tauto;
      rewrite ?Hre; simpl; intuition (done || congruence).
  - simplify_eq. watch_cases; destruct w; try tauto; intuition (done || congruence).
  - simplify_eq. watch_cases; destruct w; try tauto; destruct Hc as (Hk & Hcan & Hre); rewrite Hre; simpl; auto.
  - destruct Ho as [Ho|[Ho|[_ [Ho Hlost]]]]; [done..|]. watch_cases. intros _. split; [congruence|].
    destruct (Hf ltac:(congruence) Hlost) as [|]; [done|]. intuition congruence.
Qed.

Lemma world_kept st st' : watch_invariant st → world_step st st' → watch_invariant st'.
Proof.
  intros [Hr Hc Hw Hu Hf Hp Hd] Hstep. destruct Hstep as [st Hal|st p Hal];
    destruct st as [m file parent w c d t]; watch_cases;
    destruct (check_thread_cancelled (sup m)), t; simpl in *; try tauto; try destruct w; try destruct c; tauto.
Qed.

Lemma watch_kept st st' : watch_invariant st → watch_step st st' → watch_invariant st'.
Proof.
  intros Hin Hstep. destruct Hstep as [? ? Hs|? ? Hs|? ? Hs];
    [exact (watcher_kept _ _ Hin Hs)|exact (client_kept _ _ Hin Hs)|exact (world_kept _ _ Hin Hs)].
Qed.
End invariant.

(** ** Where it starts *)

(** The static variables before [start_check_thread] *)
Record unstarted (s : machine) : Prop := {
  un_keep : keep_checking (sup s) = true;
  un_started : check_thread_started (sup s) = false;
  un_cancelled : check_thread_cancelled (sup s) = false;
  un_first : first_ppid (sup s) = (-1)%Z;
}.

Definition started (parent : Z) (s : machine) : watch_state :=
  watch_start parent (start_check_thread s).2.

Lemma watch_reachable parent s st :
  unstarted s → rtc watch_step (started parent s) st →
  watch_invariant (remote_client (sup s)) st.
Proof.
  intros [Hk Hst Hc Hf] Hrun. assert (watch_invariant (remote_client (sup s)) (started parent s)) as Hin.
  { destruct s as [[] [kc cs cc fp [] sf su] gl i r v]; simplify_eq/=; split; simpl; try done; by left. }
  revert Hin. induction Hrun; eauto using watch_kept.
Qed.

(** ** How long the thread goes on *)

(** Once it is cancelled *)
Definition steps_cancelled (p : check_pc) : nat :=
  match p with
  | watch_done => 0
  | testing | lost | orphaned | pausing | aborting => 1
  | asking | unlinking => 2
  | accessing => 3
  end.

Lemma cancelled_step remote st st' :
  watch_invariant remote st → cancelled st = true → watcher_step st st' →
  cancelled st' = true ∧
  (ws_dead st' = true ∨ steps_cancelled (ws_watcher st') < steps_cancelled (ws_watcher st)).
Proof.
  intros [_ Hc _ _ _ _ _] Hcan Hstep.
  assert (keep_checking (sup (ws_machine st)) = false) as Hk.
  { unfold client_at in Hc. destruct (ws_client st); intuition congruence. }
  clear Hc. unfold cancelled in *.
  destruct Hstep as [st call p s' Hal Hcall Hmust Hrun|st call s' Hal Hcall Hrun|st Hal Hmay _].
  - destruct (check_effect st _ call Hcall) as (s1 & Hr1 & Hs & Hun). rewrite Hr1 in Hrun.
    injection Hrun as Ho ->. clear Hr1. unfold cancelled in *. destruct st as [m file parent w c d t].
    destruct w; simplify_eq/=; rewrite ?Hs, ?Hk; simpl; try congruence; try (split; [done|right; lia]).
    + split; [done|right]. destruct (remote_client (sup m)), file; simpl; lia.
    + destruct (first_ppid (sup m) =? -1)%Z, (first_ppid (sup m) =? parent)%Z;
        (split; [done|right]); simpl; lia.
  - destruct (check_effect st _ call Hcall) as (s1 & Hr1 & Hs & Hun). rewrite Hr1 in Hrun.
    injection Hrun as Ho ->. split; [|by left]. destruct st as [m file parent w c d t].
    by destruct w; simplify_eq/=; rewrite Hs.
  - split; [done|right]. destruct st as [m file parent w c d t]. destruct w; simplify_eq/=; lia.
Qed.

(** With the socket file gone, or under another parent, while the client serves *)
Definition steps_to_kill st : nat :=
  match ws_watcher st, ws_file st with
  | watch_done, _ => 0
  | aborting, _ => 1
  | unlinking, _ | lost, _ => 2
  | orphaned, _ => 3
  | asking, false => 6
  | asking, true => 4
  | accessing, false => 3
  | accessing, true => 5
  | testing, false => 4
  | testing, true => 6
  | pausing, false => 5
  | pausing, true => 7
  end.

Record condemned st : Prop := {
  cd_alive : ws_dead st = false;
  cd_serving : ws_client st = serving;
  cd_lost : ws_file st = false ∨
    first_ppid (sup (ws_machine st)) ≠ (-1)%Z ∧ first_ppid (sup (ws_machine st)) ≠ ws_parent st;
}.

Lemma condemned_step st st' :
  watch_invariant false st → condemned st → watcher_step st st' →
  steps_to_kill st' < steps_to_kill st ∧ condemned st' ∨ ws_dead st' = true.
Proof.
  intros [Hr Hc Hw _ _ _ _] [Hd Hs Hl] Hstep.
  assert (cancelled st = false) as Hcan by (unfold client_at in Hc; rewrite Hs in Hc; tauto).
  assert (keep_checking (sup (ws_machine st)) = true) as Hk by (unfold client_at in Hc; rewrite Hs in Hc; tauto).
  destruct Hstep as [st call p s' Hal Hcall Hmust Hrun|st call s' Hal Hcall Hrun|st Hal Hmay ?];
    [|by right|congruence].
  left. destruct (check_effect st _ call Hcall) as (s1 & Hr1 & Hs1 & Hun). rewrite Hr1 in Hrun.
  injection Hrun as Ho ->. clear Hr1 Hc Hw Hcan. destruct st as [m file parent w c d t].
  assert (∀ p', steps_to_kill (mkWatch s' (file && negb (unlinked m s')) parent p' serving false t) <
      steps_to_kill (mkWatch m file parent w serving false t) →
    first_ppid (sup s') = first_ppid (sup m) ∨ file = false →
    steps_to_kill ((moved (mkWatch m file parent w serving false t) s') <| ws_watcher := p' |>) <
      steps_to_kill (mkWatch m file parent w serving false t) ∧
    condemned ((moved (mkWatch m file parent w serving false t) s') <| ws_watcher := p' |>)) as Hgo.
  { intros p' Hlt Hf. split; [exact Hlt|]. split; [done..|]. simpl in *.
    destruct Hl as [->|Hl]; [by left|]. destruct Hf as [->| ->]; [by right|by left]. }
  destruct w; simplify_eq/=; apply Hgo; rewrite ?Hs1, ?Hun, ?Hk, ?Hr; simpl; try (by left);
    try (destruct file; unfold steps_to_kill; simpl; lia).
  - destruct Hl as [->|[Hn1 Hn2]]; unfold steps_to_kill; simpl.
    + destruct (first_ppid (sup m) =? -1)%Z, (first_ppid (sup m) =? parent)%Z; simpl; lia.
    + rewrite (proj2 (Z.eqb_neq _ _) Hn1), (proj2 (Z.eqb_neq _ _) Hn2). destruct file; simpl; lia.
  - destruct Hl as [->|[Hn1 Hn2]]; [by right|]. left. by rewrite (proj2 (Z.eqb_neq _ _) Hn1).
Qed.

Lemma condemned_goes_on st :
  watch_invariant false st → condemned st → ∃ st', watcher_step st st'.
Proof.
  intros [Hr Hc Hw _ _ _ _] [Hd Hs Hl].
  assert (cancelled st = false) as Hcan by (unfold client_at in Hc; rewrite Hs in Hc; tauto).
  destruct (check_call (ws_watcher st)) as [call|] eqn:Hcall.
  2:{ unfold watcher_at_point in Hw. destruct (ws_watcher st); try done. by destruct (Hw eq_refl). }
  destruct (check_effect st _ call Hcall) as (s1 & Hr1 & _ & _).
  destruct (check_outcome st (ws_watcher st)) as [p|e| | |] eqn:Ho;
    [|by destruct (ws_watcher st)| |by destruct (ws_watcher st)..].
  - eexists. eapply step_check; [done|done| |done]. by rewrite Hcan, andb_false_r.
  - eexists. by eapply step_check_kills.
Qed.

Lemma steps_alive st st' : watcher_step st st' → ws_dead st = false ∧ ws_watcher st ≠ watch_done.
Proof. destruct 1 as [? ? ? ? ? Hc|? ? ? ? Hc|? ? Hm]; (split; [done|intros Hw; by rewrite Hw in *]). Qed.

(** A killed process takes no more steps. *)
Lemma dead_run k st st' : ws_dead st = true → nsteps watcher_step k st st' → k = 0.
Proof.
  intros Hd Hk. destruct Hk as [|? ? ? ? Hst]; [done|]. destruct (steps_alive _ _ Hst) as [Ha _]. congruence.
Qed.

Lemma cancelled_bound remote k st st' :
  watch_invariant remote st → cancelled st = true → nsteps watcher_step k st st' → k ≤ 3.
Proof.
  intros Hin Hcan Hk.
  enough (k ≤ steps_cancelled (ws_watcher st)) by (destruct (ws_watcher st); simpl in *; lia).
  revert Hin Hcan. induction Hk as [|k st st1 st' Hst Hk IH]; intros Hin Hcan; [lia|].
  destruct (cancelled_step _ _ _ Hin Hcan Hst) as [Hcan' [Hd|Hlt]].
  - rewrite (dead_run _ _ _ Hd Hk). destruct (steps_alive _ _ Hst) as [_ Hw].
    destruct (ws_watcher st); simpl; try done; lia.
  - specialize (IH (watcher_kept _ _ _ Hin Hst) Hcan'). lia.
Qed.

Lemma condemned_run st st' :
  watch_invariant false st → condemned st → rtc watcher_step st st' →
  (watch_invariant false st' ∧ condemned st') ∨ ws_dead st' = true.
Proof.
  intros Hin Hcd Hrun. revert Hin Hcd. induction Hrun as [|st st1 st' Hst Hrun IH]; intros Hin Hcd; [by left|].
  destruct (condemned_step _ _ Hin Hcd Hst) as [[_ Hcd']|Hd].
  - apply IH; [by eapply watcher_kept|done].
  - right. destruct Hrun as [|? ? ? Hst']; [done|]. destruct (steps_alive _ _ Hst'). congruence.
Qed.

Lemma condemned_bound k st st' :
  watch_invariant false st → condemned st → nsteps watcher_step k st st' → k ≤ 7.
Proof.
  intros Hin Hcd Hk.
  enough (k ≤ steps_to_kill st) by (unfold steps_to_kill in *; destruct (ws_watcher st), (ws_file st); lia).
  revert Hin Hcd. induction Hk as [|k st st1 st' Hst Hk IH]; intros Hin Hcd; [lia|].
  destruct (condemned_step _ _ Hin Hcd Hst) as [[Hlt Hcd']|Hd].
  - specialize (IH (watcher_kept _ _ _ Hin Hst) Hcd'). lia.
  - rewrite (dead_run _ _ _ Hd Hk). destruct (steps_alive _ _ Hst) as [_ Hw].
    unfold steps_to_kill. destruct (ws_watcher st), (ws_file st); try done; lia.
Qed.
End threads.

(** ** Properties *)
Section properties.
Context `{Codec}.

(** C15. The supervision thread and the client's clean-up, interleaved in any way with each
    other and with a world that may remove the socket file and change the parent. The
    process is killed only if it is supervised and the world interfered before the thread
    was cancelled: the client removes the socket file itself, but only after it has
    cancelled the thread, which then cannot get past the [sleep] in front of an abort. A
    cancelled thread takes three steps at most. A client that has cleaned up leaves no
    socket file behind, and a remote one has no such thread. *)
Theorem clean_up_kills_nothing (parent : Z) (s : machine) (st : watch_state) :
  unstarted s → rtc watch_step (started parent s) st →
  (ws_dead st = true → remote_client (sup s) = false ∧ ws_disturbed st = true) ∧
  (cancelled st = true → ∀ k st', nsteps watcher_step k st st' → k ≤ 3) ∧
  (ws_client st = client_done → remote_client (sup s) = false → ws_file st = false) ∧
  (remote_client (sup s) = true → ws_watcher st = watch_done).
Proof.
  intros Hs Hrun. pose proof (watch_reachable _ _ _ Hs Hrun) as Hin.
  split_and!; [apply Hin| | |apply Hin].
  - intros Hcan k st' Hk. by eapply cancelled_bound.
  - intros Hd. pose proof (wi_client _ _ Hin) as Hc. unfold client_at in Hc. rewrite Hd in Hc. apply Hc.
Qed.

(** C36. Supervision takes effect. When the socket file is gone, or the parent is another
    than the thread saw first, and the client goes on serving, the thread kills the
    process: it takes seven steps at most, and it is never stuck before. *)
Theorem watch_kills (parent : Z) (s : machine) (st : watch_state) :
  unstarted s → remote_client (sup s) = false → rtc watch_step (started parent s) st →
  condemned st →
  (∀ k st', nsteps watcher_step k st st' → k ≤ 7) ∧
  (∀ st', rtc watcher_step st st' → ws_dead st' = true ∨ ∃ st'', watcher_step st' st'').
Proof.
  intros Hs Hr Hrun Hcd. pose proof (watch_reachable _ _ _ Hs Hrun) as Hin. rewrite Hr in Hin.
  split.
  - intros k st' Hk. by eapply condemned_bound.
  - intros st' Hst'. destruct (condemned_run _ _ Hin Hcd Hst') as [[Hin' Hcd']|Hd]; [right|by left].
    by apply condemned_goes_on.
Qed.
End properties.

(** ** Witnesses *)
Section witnesses.
#[local] Existing Instance plain_codec.

Definition local_client : machine := machine_init (channel_init [] []).

Lemma local_unstarted : unstarted local_client.
Proof. by split. Qed.

#[local] Ltac by_client n :=
  eapply rtc_l; [apply watch_client, (client_next_step n); vm_compute; reflexivity|].
#[local] Ltac by_watcher :=
  eapply rtc_l; [apply watch_watcher, check_next_step; vm_compute; reflexivity|].

(** The client cleans up while the thread is in front of [access]. *)
Lemma clean_up_kills_nothing_witness :
  ∃ st, rtc watch_step (started 42 local_client) st ∧ cancelled st = true ∧ ws_watcher st = lost ∧
    ws_client st = client_done ∧ ws_file st = false ∧ ws_dead st = false ∧
    ∀ k st', nsteps watcher_step k st st' → k ≤ 3.
Proof.
  assert (∃ st, rtc watch_step (started 42 local_client) st ∧ cancelled st = true ∧
    ws_watcher st = lost ∧ ws_client st = client_done ∧ ws_dead st = false) as
    (st & Hrun & Hcan & Hw & Hc & Hd).
  { eexists. split.
    { by_watcher. by_client 1. by_client 0. by_client 0. by_client 0. by_watcher. apply rtc_refl. }
    done. }
  destruct (clean_up_kills_nothing 42 local_client st local_unstarted Hrun) as (_ & Hk & Hf & _).
  exists st. split_and!; try done; [by apply Hf|exact (Hk Hcan)].
Defined.

(** The socket file is removed while the client serves. *)
Lemma watch_kills_witness :
  ∃ st, rtc watch_step (started 42 local_client) st ∧ condemned st ∧
    ∀ k st', nsteps watcher_step k st st' → k ≤ 7.
Proof.
  assert (∃ st, rtc watch_step (started 42 local_client) st ∧ condemned st) as (st & Hrun & Hcd).
  { eexists. split.
    { by_watcher. by_watcher. by_watcher.
      eapply rtc_l; [apply watch_world, step_file_lost; reflexivity|]. apply rtc_refl. }
    split; [done|done|by left]. }
  exists st. split; [done|]. split; [done|].
  exact (proj1 (watch_kills 42 local_client st local_unstarted eq_refl Hrun Hcd)).
Defined.
End witnesses.
