(* ===== verification/StreamingContainer.v ===== *)
(** * The streaming container ([streaming_container/streamingcontainer.{h,cc}])

    It runs the code of the script as a program, writes its input to it as lines of
    comma-separated values and emits the lines it answers. This file holds the parts and
    the loops of the two threads; [run], which starts them beside each other, is in
    [StreamRun]. Text printed to [cerr] is left out. *)
From S2P Require Import Prelude SwigCommon Protocol Dto Machine SocketLowLevel.
From S2P Require Import SocketHighLevel MetaData RowCodec TableIterator ResultHandler.
From S2P Require Import RoundTrip ClientMain ClientRun SwigFactory TestContainer BenchmarkContainer.

Open Scope string_scope.
Open Scope list_scope.
Open Scope nat_scope.

Section container.
Context `{Codec}.
(** [popen] with the output and the status of [pclose], [None] when the pipe cannot be
    opened; [ostream << double] *)
Context (popen : string → option (string * Z)) (print_double : Z → string).

(** ** [mexec] *)

(** [fgets] into a buffer of 128 characters; each piece is appended as a C string. *)
Fixpoint read_chunks (room : nat) (buffer out : string) : string :=
  match out with
  | EmptyString => c_str buffer
  | String c out =>
      let buffer := buffer +:+ String c "" in
      match room with
      | S (S room) => if Ascii.eqb c "010" then c_str buffer +:+ read_chunks 127 "" out
                      else read_chunks (S room) buffer out
      | _ => c_str buffer +:+ read_chunks 127 "" out
      end
  end.

(** [WEXITSTATUS] *)
Definition exit_status (s : Z) : Z := Z.land (Z.shiftr s 8) 255.

Definition mexec (cmd_ result : string) : bool * string :=
  let cmd := c_str ("ulimit -v 500000; " +:+ cmd_ +:+ " 2>&1") in
  match popen cmd with
  | None => (false, "Cannot start command `ulimit -v 500000; " +:+ cmd_ +:+ " 2>&1`")
  | Some (out, s) =>
      let result := result +:+ read_chunks 127 "" out in
      if (s =? -1)%Z then (false, result)
      else (bool_decide (exit_status s = 0%Z), result)
  end.

(** ** Writing the input *)
Definition csvPrinters (t : SWIGVM_datatype_e) (col : nat) : run_of string :=
  match t with
  | UNSUPPORTED => throw (SwigException "Trying to serialize UNSUPPORTED datatype to CSV")
  | DOUBLE => v ← getDouble col; mret (print_double v)
  | INT32 => v ← getInt32 col; mret (to_string v)
  | INT64 => v ← getInt64 col; mret (to_string v)
  | NUMERIC => v ← getNumeric col; mret (c_str v)
  | TIMESTAMP => v ← getTimestamp col; mret (c_str v)
  | DATE => v ← getDate col; mret (c_str v)
  | STRING => v ← getString col; mret (c_str v)
  | BOOLEAN => v ← getBoolean col; mret (if (v : bool) then "true" else "false")
  | INTERVALYM => throw (SwigException "Trying to serialize INTERVALYM datatype to CSV")
  | INTERVALDS => throw (SwigException "Trying to serialize INTERVALDS datatype to CSV")
  | GEOMETRY => throw (SwigException "Trying to serialize GEOMETRY datatype to CSV")
  end.

Definition print_column (col : nat) : run_of string :=
  t ← inputColumnType (Z.of_nat col); csvPrinters t col.

Fixpoint print_columns_from (n col : nat) : run_of string :=
  match n with
  | 0 => mret ""
  | S n =>
      v ← print_column col; rest ← print_columns_from n (S col);
      mret ("," +:+ v +:+ rest)
  end.

Definition nl : string := String "010" "".

Definition inputToCSV : run_of string :=
  n ← inputColumnCount;
  match Z.to_nat n with
  | 0 => mret nl
  | S n => v ← print_column 0; rest ← print_columns_from n 1; mret (v +:+ rest +:+ nl)
  end.

(** ** Reading the output *)
Record istream : Type := mkIstream { is_rest : string; is_eof : bool }.

Fixpoint read_value (lastColumn : bool) (rest buffer : string) : run_of (string * istream) :=
  match rest with
  | EmptyString =>
      if lastColumn then mret (buffer, mkIstream "" true)
      else throw (SwigException "eof before last column")
  | String current rest =>
      if Ascii.eqb current "010" then
        if lastColumn then mret (buffer, mkIstream rest false)
        else throw (SwigException "end of line before last column")
      else if Ascii.eqb current "," then
        if lastColumn then throw (SwigException "delimiter after last column")
        else mret (buffer, mkIstream rest false)
      else read_value lastColumn rest (buffer +:+ String current "")
  end.

(** The first result is the [readBuffer]. *)
Definition readCSVValue (str : istream) (column : nat) : run_of (string * istream) :=
  n ← outputColumnCount;
  let lastColumn := (Z.of_nat column + 1 =? n)%Z in
  if is_eof str then throw (SwigException "readCSVValue after eof")
  else read_value lastColumn (is_rest str) "".

(** [csvReaders[type](readBuffer, col)]: an entry that is missing is an empty
    function. *)
Definition csvReaders (t : SWIGVM_datatype_e) (readBuffer : string) (col : nat) : run_of unit :=
  match t with
  | STRING => setString col (c_str readBuffer) (u64 (-1))
  | _ => throw (StdException "bad_function_call")
  end.

Definition read_column (str : istream) (col : nat) : run_of istream :=
  '(readBuffer, str) ← readCSVValue str col;
  t ← outputColumnType (Z.of_nat col);
  csvReaders t readBuffer col;;
  mret str.

Fixpoint read_columns_from (n : nat) (str : istream) (col : nat) : run_of istream :=
  match n with
  | 0 => mret str
  | S n => str ← read_column str col; read_columns_from n str (S col)
  end.

Definition CSVToOutput (str : istream) : run_of (bool * istream) :=
  '(readBuffer, str) ← readCSVValue str 0;
  emited ← rowsEmited;
  when (0 <? emited)%Z (handler_next;; mret tt);;
  t ← outputColumnType 0;
  csvReaders t readBuffer 0;;
  n ← outputColumnCount;
  str ← read_columns_from (Z.to_nat n - 1) str 1;
  mret (negb (is_eof str), str).

(** [while (!is.eof()) { if (!CSVToOutput(is)) break; }] *)
Fixpoint read_output (fuel : nat) (str : istream) : run_of unit :=
  match fuel with
  | 0 => blocked
  | S fuel =>
      if is_eof str then mret tt
      else
        '(more, str) ← CSVToOutput str;
        if (more : bool) then read_output fuel str else mret tt
  end.

(** ** The threads of [run]

    Each loop on its own, on an output that is complete; [StreamThreads] runs them point
    by point beside each other. The first thread: [Some] is the whole input, [None] that
    it failed before the end and left the pipe open. *)
Definition write_input (fuel : nat) : run_of (option string) :=
  try_catch
    (rows ← do_while inputToCSV fuel; mret (Some (String.concat "" rows)))
    (λ e, match e with
          | SwigException what | StdException what => set_exception_msg (c_str what);; mret None
          | OtherException => throw OtherException
          end).

(** The second thread *)
Definition read_results (out : string) : run_of unit :=
  catch_std (read_output (S (String.length out)) (mkIstream out false);; flush)
    set_exception_msg.

End container.

(** ** The input as text *)
Section input_text.
Context `{Codec} (print_double : Z → string).
Context (types : list SWIGVM_columntype_t).

(** A cell as it is printed: NULL is the placeholder of the getter. *)
Definition cell_csv (t : SWIGVM_datatype_e) (x : cell) : string :=
  match t, x with
  | DOUBLE, CDouble v => print_double v
  | DOUBLE, CNull => print_double 0
  | (INT32 | INT64), CNull => to_string 0
  | INT32, CInt32 v | INT64, CInt64 v => to_string v
  | NUMERIC, CNull => "0"
  | TIMESTAMP, CNull => "1970-01-01 00:00:00.00 0000"
  | DATE, CNull => "1970-01-01"
  | (NUMERIC | TIMESTAMP | DATE | STRING), CString v => c_str v
  | BOOLEAN, CBool true => "true"
  | BOOLEAN, CNull | BOOLEAN, CBool false => "false"
  | _, _ => ""
  end.

Fixpoint csv_rest (ts : list SWIGVM_columntype_t) (xs : list cell) : string :=
  match ts, xs with
  | t :: ts, x :: xs => "," +:+ cell_csv (ct_type t) x +:+ csv_rest ts xs
  | _, _ => ""
  end.

Definition row_csv (r : row) : string :=
  match types, r.2 with
  | t :: ts, x :: xs => cell_csv (ct_type t) x +:+ csv_rest ts xs +:+ nl
  | _, _ => nl
  end.

Lemma print_column_run rows k r c t x s :
  rows_fit types rows → at_row types rows k s → rows !! k = Some r →
  r.2 !! c = Some x → types !! c = Some t →
  ∃ b, print_column print_double c s = (Ret (cell_csv (ct_type t) x), was_null_set b s).
Proof.
  intros Hfit Har Hk Hx Ht. exists (cell_null x).
  destruct (cell_of types rows Hfit k r c Hk (lookup_lt_Some _ _ _ Ht))
    as (t' & x' & ? & ? & [[st Hst] Hfx]). simplify_eq.
  unfold print_column, inputColumnType, inputColumn, get_params. run_simpl.
  rewrite (ar_types _ _ _ _ Har), zlookup_nat, Ht. simpl.
  assert (∀ {A} (field : exascript_table_data → list A) wrap st m w o rf nl,
    (∀ t, table_cells st t = wrap <$> field t) → (∀ a, cell_storage (wrap a) = Some st) →
    storage_of (ct_type t) = Some st →
    ∃ a, get_value c (ct_type t) m w o field rf nl s = (Ret a, was_null_set (cell_null x) s) ∧
      (x = CNull ∧ a = nl ∨ x = wrap a)) as Hget.
  { intros. by eapply (get_value_run types rows Hfit). }
  destruct (ct_type t) eqn:Hty; simpl in *; try done;
    unfold getDouble, getInt32, getInt64, getNumeric, getTimestamp, getDate, getString, getBoolean.
  8: edestruct (Hget _ td_bool CBool st_bool) as (a & Hr & Ha).
  4-7: edestruct (Hget _ td_string CString st_string) as (a & Hr & Ha).
  3: edestruct (Hget _ td_int64 CInt64 st_int64) as (a & Hr & Ha).
  2: edestruct (Hget _ td_int32 CInt32 st_int32) as (a & Hr & Ha).
  1: edestruct (Hget _ td_double CDouble st_double) as (a & Hr & Ha).
  all: try done; rewrite ?run_bind_bind, (run_bind _ _ _ _ _ Hr); run_simpl;
    destruct Ha as [[-> ->]| ->]; simpl; rewrite ?c_str_idemp; try done.
Qed.

Lemma csv_columns_run rows k r n c s :
  rows_fit types rows → at_row types rows k s → rows !! k = Some r → c + n = length types →
  ∃ b, print_columns_from print_double n c s =
    (Ret (csv_rest (drop c types) (drop c r.2)), was_null_set b s).
Proof.
  intros Hfit. revert c s. induction n as [|n IH]; intros c s Har Hk Hn; simpl.
  - exists (m_was_null (it s)). rewrite drop_ge by lia. by destruct s as [? ? ? [] ? ?].
  - destruct (cell_of types rows Hfit k r c Hk) as (t & x & Ht & Hx & _); [lia|].
    destruct (print_column_run rows k r c t x s) as [b Hr]; try done.
    destruct (IH (S c) (was_null_set b s)) as [b' Hr']; [by apply at_row_was_null|done|lia|].
    exists b'. rewrite (run_bind _ _ _ _ _ Hr), (run_bind _ _ _ _ _ Hr').
    rewrite (drop_S _ _ _ Ht), (drop_S _ _ _ Hx). done.
Qed.

Lemma inputToCSV_looks : looks types (names_match types) (inputToCSV print_double) row_csv.
Proof.
  intros rows k r s Hfit Har Hk (Hsmall & _ & Hn).
  unfold inputToCSV, inputColumnCount, get_params. rewrite run_bind_gets.
  rewrite u32_small by (unfold zlength in *; lia). unfold zlength. rewrite Hn, Nat2Z.id.
  unfold row_csv.
  destruct types as [|t ts] eqn:Htypes; simpl.
  - exists (m_was_null (it s)). by destruct s as [? ? ? [] ? ?].
  - rewrite <-Htypes in *.
    destruct (cell_of types rows Hfit k r 0 Hk) as (t' & x & Ht & Hx & _); [rewrite Htypes; simpl; lia|].
    destruct (print_column_run rows k r 0 t' x s) as [b Hr]; try done.
    destruct (csv_columns_run rows k r (length ts) 1 (was_null_set b s)) as [b' Hr'];
      [done|by apply at_row_was_null|done|rewrite Htypes; done|].
    exists b'. rewrite (run_bind _ _ _ _ _ Hr), (run_bind _ _ _ _ _ Hr').
    rewrite Htypes in Ht |- *. simpl in Ht. injection Ht as <-.
    destruct r.2 as [|y ys]; [done|]. simpl in Hx. injection Hx as <-. done.
Qed.
End input_text.

(** ** The output as rows

    A line of the output is the list of its fields. *)
Fixpoint plain_field (s : string) : bool :=
  match s with
  | EmptyString => true
  | String c s => negb (Ascii.eqb c "010") && negb (Ascii.eqb c ",") && plain_field s
  end.

Fixpoint csv_line_text (fields : list string) (rest : string) : string :=
  match fields with
  | [] => rest
  | [f] => f +:+ nl +:+ rest
  | f :: fields => f +:+ "," +:+ csv_line_text fields rest
  end.

Definition lines_text (lines : list (list string)) (tail : string) : string :=
  foldr csv_line_text tail lines.

Lemma lines_text_length lines tail :
  Forall (λ l, l ≠ []) lines → length lines ≤ String.length (lines_text lines tail).
Proof.
  induction 1 as [|l lines Hl _ IH]; [simpl; lia|].
  change (lines_text (l :: lines) tail) with (csv_line_text l (lines_text lines tail)). simpl.
  assert (∀ l rest, l ≠ [] → String.length rest < String.length (csv_line_text l rest)) as Hlt.
  { clear. induction l as [|f [|f' l] IHl]; intros rest Hl; [done|..].
    - simpl. rewrite !length_append. simpl. lia.
    - change (csv_line_text (f :: f' :: l) rest) with (f +:+ "," +:+ csv_line_text (f' :: l) rest).
      rewrite !length_append. specialize (IHl rest ltac:(done)). lia. }
  specialize (Hlt l (lines_text lines tail) Hl). lia.
Qed.

Section output_text.
Context `{Codec}.
Context (types : list SWIGVM_columntype_t).
Hypothesis (Hty : Forall (λ t, ct_type t = STRING) types).

Definition varchars (p : SWIGVM_params_t) : Prop :=
  out_types p = types ∧ length (out_names p) = length types ∧ (zlength types < 2 ^ 32)%Z.

Lemma read_value_run last f c rest buffer s :
  plain_field f = true → c = (if last : bool then "010"%char else ","%char) →
  read_value last (f +:+ String c rest) buffer s = (Ret (buffer +:+ f, mkIstream rest false), s).
Proof.
  intros Hf ->. revert buffer. induction f as [|x f IH]; intros buffer; simpl in *.
  - by destruct last; simpl; rewrite append_nil_r.
  - apply andb_true_iff in Hf as [[H1 H2]%andb_true_iff Hf].
    apply negb_true_iff in H1, H2. rewrite H1, H2, IH by done.
    by rewrite <-append_assoc.
Qed.

Lemma read_value_eof f buffer s :
  plain_field f = true → read_value true f buffer s = (Ret (buffer +:+ f, mkIstream "" true), s).
Proof.
  revert buffer. induction f as [|x f IH]; intros buffer Hf; simpl in *.
  - by rewrite append_nil_r.
  - apply andb_true_iff in Hf as [[H1 H2]%andb_true_iff Hf].
    apply negb_true_iff in H1, H2. rewrite H1, H2, IH by done.
    by rewrite <-append_assoc.
Qed.

Definition line_cells (fields : list string) : list cell := (λ f, CString (c_str f)) <$> fields.

Lemma line_cells_fit fields :
  length fields = length types → Forall2 cell_fits types (line_cells fields).
Proof.
  intros Hl. apply Forall2_fmap_r. apply Forall2_same_length_lookup_2; [done|].
  intros i t f Ht _. unfold cell_fits. rewrite Forall_lookup in Hty. rewrite (Hty _ _ Ht).
  simpl. eauto.
Qed.

Lemma last_column_run p col :
  varchars p → S col ≤ length types →
  (Z.of_nat col + 1 =? u32 (zlength (out_names p)))%Z = bool_decide (S col = length types).
Proof.
  intros (_ & Hn & Hsmall) Hc. unfold zlength in *. rewrite Hn, u32_small by lia.
  case_bool_decide; [apply Z.eqb_eq|apply Z.eqb_neq]; lia.
Qed.

Lemma csvReaders_run col f s :
  varchars (params (glob s)) → col < length types →
  outputColumnType (Z.of_nat col) s = (Ret STRING, s) ∧
  csvReaders STRING f col s = stage_cell STRING (CString (c_str f)) col s.
Proof.
  intros (Ht & _) Hc. destruct (lookup_lt_is_Some_2 types col Hc) as [t Htc].
  unfold outputColumnType, outputColumn, get_params. run_simpl. rewrite Ht, zlookup_nat, Htc.
  simpl. rewrite Forall_lookup in Hty. by rewrite (Hty _ _ Htc).
Qed.

Definition after_field (col : nat) (text : string) : string :=
  String (if bool_decide (S col = length types) then "010" else ",")%char text.

Lemma readCSVValue_run f text col s :
  varchars (params (glob s)) → col < length types → plain_field f = true →
  readCSVValue (mkIstream (f +:+ after_field col text) false) col s =
    (Ret (f, mkIstream text false), s).
Proof.
  intros Hv Hc Hf. unfold readCSVValue, outputColumnCount, get_params. run_simpl.
  rewrite (last_column_run _ _ Hv) by lia.
  by apply (read_value_run _ f _ text "").
Qed.

Lemma read_column_run f text col s :
  varchars (params (glob s)) → col < length types → plain_field f = true →
  read_column (mkIstream (f +:+ after_field col text) false) col s =
    (stage_cell STRING (CString (c_str f)) col;; mret (mkIstream text false)) s.
Proof.
  intros Hv Hc Hf. unfold read_column.
  rewrite (run_bind _ _ _ _ _ (readCSVValue_run f text col s Hv Hc Hf)).
  destruct (csvReaders_run col f s Hv Hc) as [Hct Hrd].
  rewrite (run_bind _ _ _ _ _ Hct), !bind_run. by rewrite Hrd.
Qed.

(** The text of a line, field by field *)
Lemma csv_line_text_cons f fields rest col :
  col + S (length fields) = length types →
  csv_line_text (f :: fields) rest =
    f +:+ after_field col (if decide (fields = []) then rest else csv_line_text fields rest).
Proof.
  intros Hc. unfold after_field. destruct fields as [|f' fields]; simpl in *.
  - by rewrite bool_decide_true by lia.
  - by rewrite bool_decide_false by lia.
Qed.

(** Reading the columns of a line from some column on is staging its fields. *)
Lemma read_fields_run fields rest col s :
  varchars (params (glob s)) → col + length fields = length types →
  Forall (λ f, plain_field f = true) fields →
  read_columns_from (length fields)
    (mkIstream (if decide (fields = []) then rest else csv_line_text fields rest) false) col s =
  (stage_cells (drop col types) (line_cells fields) col;; mret (mkIstream rest false)) s.
Proof.
  intros Hv Hc Hf. revert col s Hv Hc.
  induction Hf as [|f fields Hpf _ IH]; intros col s Hv Hc.
  { simpl. by destruct (drop col types). }
  simpl in Hc. destruct (lookup_lt_is_Some_2 types col) as [t Ht]; [lia|].
  pose proof Hty as Hstr. rewrite Forall_lookup in Hstr. specialize (Hstr _ _ Ht).
  rewrite decide_False by done. rewrite (csv_line_text_cons f fields rest col) by lia.
  rewrite (drop_S _ _ _ Ht). cbn [line_cells fmap list_fmap stage_cells length read_columns_from].
  destruct (stage_cell_run t (CString (c_str f)) col s) as (d & Hst & _).
  { by rewrite (proj1 Hv). }
  { unfold cell_fits. rewrite Hstr. simpl. eauto. }
  rewrite run_bind_bind, (run_bind _ _ _ _ _ Hst). rewrite Hstr in Hst.
  erewrite run_bind; [|rewrite read_column_run by (done || lia); by rewrite (run_bind _ _ _ _ _ Hst)].
  apply IH; [done|lia].
Qed.
(** [CSVToOutput] up to the staging *)
Definition make_room : run_of unit :=
  emited ← rowsEmited; when (0 <? emited)%Z (handler_next;; mret tt).

Lemma first_column :
  0 < length types → ∃ t ts, types = t :: ts ∧ types !! 0 = Some t ∧ ct_type t = STRING.
Proof.
  intros Hl. assert (∃ t ts, types = t :: ts) as (t & ts & Hts)
    by (clear Hty; destruct types; [simpl in Hl; lia|by eexists _, _]).
  exists t, ts. rewrite Hts.
  split_and!; [done..|]. rewrite Forall_lookup in Hty. apply (Hty 0). by rewrite Hts.
Qed.

Definition stage_line (fields : list string) : run_of unit :=
  stage_cells types (line_cells fields) 0.

Lemma stage_line_cons t ts f fields :
  types = t :: ts → ct_type t = STRING →
  stage_line (f :: fields) =
    (stage_cell STRING (CString (c_str f)) 0;; stage_cells ts (line_cells fields) 1).
Proof. intros Hts Hstr. unfold stage_line. rewrite Hts. simpl. by rewrite Hstr. Qed.

Lemma csv_line_run fields rest s s1 :
  varchars (params (glob s)) → length fields = length types → fields ≠ [] →
  Forall (λ f, plain_field f = true) fields →
  make_room s = (Ret tt, s1) → params (glob s1) = params (glob s) →
  CSVToOutput (mkIstream (csv_line_text fields rest) false) s =
    (stage_line fields;; mret (true, mkIstream rest false)) s1.
Proof.
  intros Hv Hl Hne Hf Hroom Hp. destruct Hf as [|f fields Hpf Hf]; [done|]. simpl in Hl.
  destruct first_column as (t & ts & Hts & Ht0 & Hstr); [lia|].
  rewrite (csv_line_text_cons f fields rest 0) by lia. unfold CSVToOutput.
  erewrite run_bind; [|apply readCSVValue_run; [done|lia|done]].
  unfold make_room, rowsEmited in Hroom. rewrite run_bind_gets in Hroom. unfold rowsEmited.
  rewrite run_bind_gets. rewrite (run_bind _ _ _ _ _ Hroom).
  rewrite <-Hp in Hv. destruct (csvReaders_run 0 f s1 Hv) as [Hct Hrd]; [lia|].
  rewrite (run_bind _ _ _ _ _ Hct).
  destruct (stage_cell_run t (CString (c_str f)) 0 s1) as (d & Hst & _).
  { by rewrite (proj1 Hv). }
  { unfold cell_fits. rewrite Hstr. simpl. eauto. }
  rewrite Hstr in Hst. rewrite <-Hrd in Hst. rewrite (run_bind _ _ _ _ _ Hst).
  unfold outputColumnCount, get_params. rewrite run_bind_gets.
  destruct Hv as (Ho & Hn & Hsmall). unfold zlength in *.
  assert (params (glob (with_rowdata d s1)) = params (glob s1)) as Hd by done.
  rewrite Hd, Hn, u32_small by (unfold zlength in *; lia).
  replace (Z.to_nat (Z.of_nat (length types)) - 1) with (length fields) by lia.
  rewrite (bind_run (read_columns_from _ _ _)).
  rewrite (read_fields_run fields rest 1 (with_rowdata d s1)); [|by split_and!|lia|done].
  rewrite <-bind_run, run_bind_bind.
  rewrite (stage_line_cons _ _ _ _ Hts Hstr), run_bind_bind.
  rewrite Hrd in Hst. rewrite (run_bind _ _ _ _ _ Hst). by rewrite Hts.
Qed.

(** The last pass, over what follows the last line *)
Lemma csv_tail_one tail s s1 :
  length types = 1 → varchars (params (glob s)) → plain_field tail = true →
  make_room s = (Ret tt, s1) → params (glob s1) = params (glob s) →
  CSVToOutput (mkIstream tail false) s =
    (stage_line [tail];; mret (false, mkIstream "" true)) s1.
Proof.
  intros Hlen Hv Hpf Hroom Hp.
  destruct first_column as (t & ts & Hts & Ht0 & Hstr); [lia|].
  unfold CSVToOutput, readCSVValue, outputColumnCount, get_params.
  rewrite run_bind_bind, run_bind_gets. rewrite (last_column_run _ _ Hv) by lia.
  rewrite bool_decide_true by done. simpl is_eof. cbv iota.
  erewrite run_bind; [|by apply (read_value_eof tail "")]. cbn [fst snd].
  unfold make_room, rowsEmited in Hroom. rewrite run_bind_gets in Hroom. unfold rowsEmited.
  rewrite run_bind_gets. rewrite (run_bind _ _ _ _ _ Hroom).
  rewrite <-Hp in Hv. destruct (csvReaders_run 0 tail s1 Hv) as [Hct Hrd]; [lia|].
  rewrite (run_bind _ _ _ _ _ Hct).
  destruct (stage_cell_run t (CString (c_str tail)) 0 s1) as (d & Hst & _).
  { by rewrite (proj1 Hv). }
  { unfold cell_fits. rewrite Hstr. simpl. eauto. }
  rewrite Hstr in Hst. rewrite <-Hrd in Hst. rewrite (run_bind _ _ _ _ _ Hst).
  rewrite run_bind_gets. destruct Hv as (Ho & Hn & Hsmall). unfold zlength in *.
  assert (params (glob (with_rowdata d s1)) = params (glob s1)) as Hd by done. rewrite Hd, Hn, u32_small by lia. rewrite Hlen. simpl. run_simpl.
  rewrite (stage_line_cons _ _ _ _ Hts Hstr), run_bind_bind.
  rewrite Hrd in Hst. rewrite (run_bind _ _ _ _ _ Hst).
  by destruct ts.
Qed.

Lemma csv_tail_several s :
  1 < length types → varchars (params (glob s)) →
  CSVToOutput (mkIstream "" false) s = (Throw (SwigException "eof before last column"), s).
Proof.
  intros Hlen Hv. unfold CSVToOutput, readCSVValue, outputColumnCount, get_params.
  rewrite run_bind_bind, run_bind_gets. rewrite (last_column_run _ _ Hv) by lia.
  by rewrite bool_decide_false by lia.
Qed.
(** ** Where the loop stands

    The first call of [next] finds nothing staged: it leaves one null flag in the
    message and an exception pending. From then on the message holds that flag and
    the rows of [done]. *)
Definition stray (t : exascript_table_data) : exascript_table_data :=
  t <| td_nulls := false :: td_nulls t |>.

Definition line_rows (n : Z) (lines : list (list string)) : list row :=
  (λ l, (n, line_cells l)) <$> lines.

Definition lines_size (lines : list (list string)) : Z :=
  cells_size (concat (line_cells <$> lines)).

Record ready (s0 s : machine) (done : list (list string)) : Prop := {
  rd_table : ∃ t, m_emit_table (rh s) = stray t ∧ td_rows_in_group t = 0%Z ∧
    pending (line_rows (m_current_row (it s0)) done) t;
  rd_size : m_message_size (rh s) = lines_size done;
  rd_emited : m_rows_emited (rh s) = (2 + zlength done)%Z;
  rd_thrown : exthrowed (exchandler (glob s)) = true;
  rd_id : rh_connection_id (rh s) = rh_connection_id (rh s0);
  rd_params : params (glob s) = params (glob s0);
  rd_mode : singleCallMode (glob s) = singleCallMode (glob s0);
  rd_it : it s = it s0;
  rd_chan : chan s = chan s0;
  rd_vmf : vmf s = vmf s0;
  rd_sup : sup s = sup s0;
}.

Lemma cells_size_app xs ys : cells_size (xs ++ ys) = (cells_size xs + cells_size ys)%Z.
Proof. induction xs as [|x xs IH]; simpl; [done|]. rewrite IH. lia. Qed.

Lemma lines_size_snoc done l :
  lines_size (done ++ [l]) = (lines_size done + cells_size (line_cells l))%Z.
Proof. unfold lines_size. rewrite fmap_app, concat_app, cells_size_app. simpl. by rewrite app_nil_r. Qed.

Lemma supported : Forall (λ t, is_Some (storage_of (ct_type t))) types.
Proof. eapply Forall_impl; [exact Hty|]. intros t Ht. simpl. rewrite Ht. by eexists. Qed.

Lemma make_room_first id s :
  rh s = handler_init id → varchars (params (glob s)) → 0 < length types →
  ∃ s', make_room s = (Ret tt, s') ∧ ready s s' [].
Proof.
  intros Hrh (Ho & _) Hlen. destruct first_column as (t & ts & Hts & _ & Hstr); [done|].
  unfold make_room, rowsEmited. rewrite run_bind_gets, Hrh. simpl when.
  unfold handler_next, upd_rh at 1, out_columns, get_params.
  rewrite run_bind_bind, run_bind_modify, run_bind_bind, run_bind_gets.
  set (s1 := s <| rh := _ |>).
  assert (out_types (params (glob s1)) = t :: ts) as -> by (by rewrite <-Hts).
  destruct (append_columns_step t ts 0 s1) as (d & Hd & Hstep).
  { rewrite Hstr. by eexists. }
  { unfold s1. simpl. by rewrite Hrh. }
  unfold s1 in Hstep at 1. simpl in Hstep. rewrite Hrh in Hstep.
  replace (staged_cell (m_rowdata (handler_init id)) (ct_type t) 0) with (@None cell) in Hstep
    by by rewrite Hstr.
  destruct Hstep as [msg Hstep]. eexists. split.
  { rewrite run_bind_bind, (run_bind _ _ _ _ _ Hstep). reflexivity. }
  unfold s1. split; simpl; rewrite ?Hrh; try done. exists table_empty. split_and!; try done. by left.
Qed.

Definition fits (lines : list (list string)) : Prop :=
  (lines_size lines < SWIG_MAX_VAR_DATASIZE)%Z ∧ (zlength lines < 2 ^ 64 - 4)%Z.

Lemma make_room_next s0 s done cur :
  ready s0 s done → varchars (params (glob s)) → fits (done ++ [cur]) →
  staged_row (m_rowdata (rh s)) types 0 = Some <$> line_cells cur →
  ∃ s', make_room s = (Ret tt, s') ∧ ready s0 s' (done ++ [cur]).
Proof.
  intros [(t & Ht & Hg & Hp) Hsz Hem Hex Hid Hpar Hmode Hit Hch Hv Hsup] (Ho & _) [Hmax Hn] Hst.
  rewrite lines_size_snoc in Hmax. unfold SWIG_MAX_VAR_DATASIZE in Hmax.
  pose proof (cells_size_pos (line_cells cur)).
  assert (0 ≤ lines_size done)%Z by apply cells_size_pos.
  unfold zlength in *. rewrite length_app in Hn. simpl in Hn.
  destruct (handler_next_table (line_cells cur) s)
    as (s' & Ht' & Hsz' & _ & Hem' & Hid' & Hg' & Hit' & Hch' & (Hv' & Hsup' & Hgrp) & Hnx).
  { rewrite Ho. apply supported. }
  { rewrite Hsz. lia. }
  { rewrite Ho, Hst. apply mapM_id_some. }
  rewrite Hsz, u64_small in Hsz' by lia.
  rewrite Hsz', (proj2 (Z.leb_gt _ _)) in Hnx by (unfold SWIG_MAX_VAR_DATASIZE; lia).
  exists s'. split.
  { unfold make_room, rowsEmited. rewrite run_bind_gets, Hem.
    rewrite (proj2 (Z.ltb_lt _ _)) by lia. simpl when. by rewrite (run_bind _ _ _ _ _ Hnx). }
  split; try congruence.
  - exists (finish_row (m_current_row (it s0)) (add_cells (line_cells cur) t)). split_and!.
    + rewrite Ht', Ht, Hit. clear. revert t. induction (line_cells cur) as [|x xs IH]; intros t; [done|].
      simpl. rewrite <-IH. by destruct x.
    + done.
    + right. unfold line_rows. rewrite fmap_app. split; [by intros [_ ?]%app_nil|].
      apply pending_add_row; [done|]. unfold zlength, line_rows. rewrite length_fmap. lia.
  - by rewrite lines_size_snoc.
  - rewrite Hem', Hem, u64_small by lia. unfold zlength. rewrite length_app. simpl. lia.
Qed.

Lemma stage_line_run s0 s done cur :
  ready s0 s done → varchars (params (glob s)) → length cur = length types →
  ∃ s', stage_line cur s = (Ret tt, s') ∧ ready s0 s' done ∧
    staged_row (m_rowdata (rh s')) types 0 = Some <$> line_cells cur.
Proof.
  intros [] (Ho & _) Hlen.
  destruct (stage_cells_run types (line_cells cur) 0 s) as (d & Hr & Hst & _).
  { by rewrite Ho, drop_0. }
  { by apply line_cells_fit. }
  exists (with_rowdata d s). unfold stage_line. split_and!; [done|by split|].
  simpl. rewrite Hst. unfold line_cells. rewrite <-!list_fmap_compose. apply list_fmap_ext.
  intros _ f _. simpl. by rewrite c_str_idemp.
Qed.
(** ** The loop *)
Definition csv_line (l : list string) : Prop :=
  length l = length types ∧ Forall (λ f, plain_field f = true) l.

(** Behind some lines: the last of them is staged, the others are in the message. *)
Definition fed (s0 s : machine) (lines : list (list string)) : Prop :=
  (lines = [] ∧ s = s0) ∨
  ∃ done cur, lines = done ++ [cur] ∧ ready s0 s done ∧
    staged_row (m_rowdata (rh s)) types 0 = Some <$> line_cells cur.

Context (id : Z) (s0 : machine).
Hypothesis (Hfresh : rh s0 = handler_init id).
Hypothesis (Hv0 : varchars (params (glob s0))) (Hlen : 0 < length types).

Lemma fed_params s lines : fed s0 s lines → params (glob s) = params (glob s0).
Proof. intros [[_ ->]|(? & ? & _ & [] & _)]; done. Qed.

Lemma make_room_run s lines :
  fed s0 s lines → fits lines → ∃ s', make_room s = (Ret tt, s') ∧ ready s0 s' lines.
Proof.
  intros Hfed Hfits. pose proof (fed_params _ _ Hfed) as Hp.
  destruct Hfed as [[-> ->]|(done & cur & -> & Hrd & Hst)].
  - by eapply make_room_first.
  - apply make_room_next; [done|by rewrite Hp|done|done].
Qed.

Lemma line_step s lines cur rest :
  fed s0 s lines → fits lines → csv_line cur →
  ∃ s', CSVToOutput (mkIstream (csv_line_text cur rest) false) s =
      (Ret (true, mkIstream rest false), s') ∧ fed s0 s' (lines ++ [cur]).
Proof.
  intros Hfed Hfits [Hl Hpl]. pose proof (fed_params _ _ Hfed) as Hp.
  destruct (make_room_run s lines Hfed Hfits) as (s1 & Hroom & Hrd).
  pose proof (rd_params _ _ _ Hrd) as Hp1.
  destruct (stage_line_run s0 s1 lines cur Hrd) as (s2 & Hr & Hrd2 & Hst); [by rewrite Hp1|done|].
  exists s2. rewrite (csv_line_run cur rest s s1); [|by rewrite Hp|done| |done..|congruence].
  - rewrite (run_bind _ _ _ _ _ Hr). split; [done|]. right. by eexists _, _.
  - intros ->. simpl in Hl. lia.
Qed.

Lemma lines_loop more done tail fuel s :
  fed s0 s done → fits (done ++ more) → Forall csv_line more →
  ∃ s', read_output (length more + fuel) (mkIstream (lines_text more tail) false) s =
      read_output fuel (mkIstream tail false) s' ∧ fed s0 s' (done ++ more).
Proof.
  intros Hfed Hfits Hl. revert done s Hfed Hfits.
  induction Hl as [|l more Hl _ IH]; intros done s Hfed Hfits.
  { exists s. by rewrite app_nil_r. }
  destruct (line_step s done l (lines_text more tail) Hfed) as (s1 & Hr & Hfed1); [|done|].
  { destruct Hfits as [Hm Hn]. unfold lines_size in *. rewrite fmap_app, concat_app, cells_size_app in Hm.
    unfold zlength in *. rewrite length_app in Hn.
    pose proof (cells_size_pos (concat (line_cells <$> l :: more))).
    split; [unfold lines_size|unfold zlength]; lia. }
  destruct (IH (done ++ [l]) s1 Hfed1) as (s2 & Hloop & Hfed2); [by rewrite <-app_assoc|].
  exists s2. rewrite <-app_assoc in Hfed2. split; [|done]. rewrite <-Hloop.
  cbn [length Nat.add read_output is_eof].
  by rewrite (run_bind _ _ _ _ _ Hr).
Qed.

Lemma read_results_loop lines tail :
  Forall csv_line lines → fits lines →
  ∃ fuel s', read_output (S (String.length (lines_text lines tail)))
      (mkIstream (lines_text lines tail) false) s0 =
    read_output (S fuel) (mkIstream tail false) s' ∧ fed s0 s' lines.
Proof.
  intros Hl Hfits.
  assert (length lines ≤ String.length (lines_text lines tail)) as Hfuel.
  { apply lines_text_length. eapply Forall_impl; [exact Hl|]. intros l [Hn _] ->. simpl in Hn. lia. }
  destruct (lines_loop lines [] tail
    (S (String.length (lines_text lines tail) - length lines)) s0) as (s' & Hr & Hfed);
    [by left|done|done|].
  exists (String.length (lines_text lines tail) - length lines), s'. split; [|done].
  rewrite <-Hr. f_equal. lia.
Qed.
End output_text.

(** ** Properties *)
Section properties.
Context `{Codec}.

Lemma ready_turn s0 s done : ready s0 s done → turn s0 s [] [].
Proof.
  intros []. split; try congruence. exists []. rewrite app_nil_r. split_and!; try done; congruence.
Qed.

(** The output of a program with one column, and the rows it stands for *)
Definition column_text (lines : list string) (tail : string) : string :=
  foldr (λ l rest, l +:+ nl +:+ rest) tail lines.
Definition column_rows (n : Z) (lines : list string) : list row :=
  line_rows n ((λ l, [l]) <$> lines).

Lemma column_lines lines tail :
  lines_text ((λ l, [l]) <$> lines) tail = column_text lines tail.
Proof. induction lines as [|l lines IH]; [done|]. simpl. by rewrite <-IH. Qed.

(** The output of a program with one VARCHAR column. Every line that ends in a
    newline becomes one row, in order, and all of them are sent in one MT_EMIT
    message; what follows the last newline is dropped. The message holds one null
    flag more than it has cells, at its front, and an exception is pending: [next] is
    called before the first line is staged, since the counter of emitted rows starts
    at one. *)
Theorem stream_rows_spec (t : SWIGVM_columntype_t) (id : Z) (lines : list string)
  (tail : string) (w v : wire) (rest : list wire) (s : machine) :
  rh s = handler_init id → varchars [t] (params (glob s)) → ct_type t = STRING →
  Forall (λ l, plain_field l = true) lines → plain_field tail = true →
  fits ((λ l, [l]) <$> lines) →
  serialize (mkRequest MT_EMIT id (body_emit
    (stray (table_of (column_rows (m_current_row (it s)) lines))))) = Some w →
  serves (v :: rest) s →
  let traffic (x : wire) := if decide (lines = []) then [] else [x] in
  ∃ s', read_results (column_text lines tail) s = (Ret tt, s') ∧
    turn s s' (traffic w) (traffic v) ∧ exthrowed (exchandler (glob s')) = true ∧
    exception_msg (vmf s') = exception_msg (vmf s).
Proof.
  intros Hfresh Hv Hstr Hl Htail Hfits Hw Hsrv traffic.
  assert (Forall (λ t, ct_type t = STRING) [t]) as Hty by by constructor.
  rewrite <-column_lines. unfold read_results.
  destruct (read_results_loop [t] Hty id s Hfresh Hv Nat.lt_0_1 ((λ l, [l]) <$> lines) tail)
    as (fuel & s1 & Hloop & Hfed); [|done|].
  { apply Forall_fmap. eapply Forall_impl; [exact Hl|]. intros l Hpl. split; [done|by constructor]. }
  pose proof (fed_params _ _ _ _ Hfed) as Hp1.
  destruct (make_room_run [t] Hty id s Hfresh Hv Nat.lt_0_1 s1 _ Hfed Hfits) as (s2 & Hroom & Hrd).
  pose proof (rd_params _ _ _ Hrd) as Hp2.
  destruct (stage_line_run [t] Hty s s2 _ [tail] Hrd) as (s3 & Hst & Hrd3 & _); [by rewrite Hp2|done|].
  assert (read_output (S fuel) (mkIstream tail false) s1 = (Ret tt, s3)) as Htl.
  { cbn [read_output is_eof]. erewrite run_bind; [|erewrite (csv_tail_one [t] Hty tail s1 s2);
      [by rewrite (run_bind _ _ _ _ _ Hst)|done|by rewrite Hp1|done..|congruence]]. done. }
  rewrite Htl in Hloop.
  pose proof (ready_turn _ _ _ Hrd3) as Htu.
  destruct Hrd3 as [(t0 & Htab & Hgrp & Hpend) _ _ Hex Hid _ _ Hit Hch Hvm _]. unfold traffic. case_decide as Hnil.
  - subst lines. exists s3. split_and!; try done; [|by rewrite Hvm].
    apply run_catch_ret. rewrite (run_bind _ _ _ _ _ Hloop). apply flush_empty. rewrite Htab.
    by destruct Hpend as [[_ ->]|[]].
  - assert (line_rows (m_current_row (it s)) ((λ l, [l]) <$> lines) ≠ []) as Hne
      by by destruct lines.
    pose proof (pending_some _ _ Hpend Hne) as Henc.
    pose proof (encodes_unique _ _ Henc Hgrp) as ->.
    destruct (flush_table (zlength (column_rows (m_current_row (it s)) lines)) w v rest s3)
      as (s4 & Hfl & _ & _ & _ & _ & _ & Hv4 & Htu4 & Hg4).
    { rewrite Htab. simpl. exact (enc_rows _ _ Henc). }
    { unfold column_rows, line_rows, zlength. rewrite !length_fmap.
      destruct lines; [done|]. simpl. lia. }
    { rewrite Htab, Hid, Hfresh. exact Hw. }
    { by apply (serves_chan _ s). }
    exists s4. split_and!; [|exact (turn_trans _ _ _ _ _ _ _ Htu Htu4)| |congruence].
    + apply run_catch_ret. by rewrite (run_bind _ _ _ _ _ Hloop).
    + destruct (emit_accepted _ v); [by rewrite Hg4|done].
Qed.

(** The output of a program with several VARCHAR columns, each line ended by a
    newline. Nothing is sent: after the last line the loop goes on to read another
    one and fails on its first column, so the rows collected are never flushed. *)
Theorem stream_columns_eof (types : list SWIGVM_columntype_t) (id : Z)
  (lines : list (list string)) (s : machine) :
  rh s = handler_init id → varchars types (params (glob s)) →
  Forall (λ t, ct_type t = STRING) types → 1 < length types →
  Forall (csv_line types) lines → fits lines →
  ∃ s', read_results (lines_text lines "") s = (Ret tt, s') ∧ chan s' = chan s ∧
    exception_msg (vmf s') = "eof before last column".
Proof.
  intros Hfresh Hv Hty Hlen Hl Hfits. unfold read_results.
  assert (0 < length types) as Hpos by lia.
  destruct (read_results_loop types Hty id s Hfresh Hv Hpos lines "") as (fuel & s1 & Hloop & Hfed);
    [done..|].
  pose proof (fed_params _ _ _ _ Hfed) as Hp1.
  assert (read_output (S fuel) (mkIstream "" false) s1 =
    (Throw (SwigException "eof before last column"), s1)) as Htl.
  { cbn [read_output is_eof]. apply run_bind_throw. apply (csv_tail_several types); [done|by rewrite Hp1]. }
  rewrite Htl in Hloop. exists (set_exception_msg "eof before last column" s1).2. split; [|split].
  - unfold catch_std. by erewrite run_catch_throw; [|by apply run_bind_throw].
  - by destruct Hfed as [[_ ->]|(? & ? & _ & [] & _)].
  - done.
Qed.
End properties.

(** ** Witnesses *)
Section witnesses.
#[local] Existing Instance plain_codec.

Definition streaming_state (types : list SWIGVM_columntype_t) : machine :=
  (machine_init (prompt [reply_of MT_EMIT]))
    <| glob := Global_init <| params := SWIGVM_params_init <| out_types := types |>
         <| out_names := (λ _, "C") <$> types |> <| connection_id := 77%Z |> |> |>
    <| rh := handler_init 77 |>.

Definition text_type : SWIGVM_columntype_t := mkColumntype STRING "VARCHAR(9)" 9 0 0.

Lemma stream_rows_spec_witness :
  ∃ s', read_results ("a" +:+ nl +:+ "b" +:+ nl +:+ "lost") (streaming_state [text_type]) = (Ret tt, s') ∧
    sent (c_trace (chan s')) = [plain_request MT_EMIT 77
      (body_emit (stray (table_of (column_rows (2 ^ 64 - 1) ["a"; "b"]))))].
Proof.
  destruct (stream_rows_spec text_type 77 ["a"; "b"] "lost"
    (plain_request MT_EMIT 77 (body_emit (stray (table_of (column_rows
       (m_current_row (it (streaming_state [text_type]))) ["a"; "b"])))))
    (reply_of MT_EMIT) [] (streaming_state [text_type])) as (s' & Hr & Htu & _).
  { reflexivity. }
  { split; [|split]; reflexivity. }
  { reflexivity. }
  { repeat constructor. }
  { reflexivity. }
  { split; reflexivity. }
  { reflexivity. }
  { apply (serves_chan _ (machine_init (prompt [reply_of MT_EMIT]))); [reflexivity|].
    apply serves_now. }
  exists s'. split; [exact Hr|]. destruct (turn_sent _ _ _ _ Htu) as [-> _]. reflexivity.
Defined.

Lemma stream_columns_eof_witness :
  ∃ s', read_results ("a,b" +:+ nl) (streaming_state [text_type; text_type]) = (Ret tt, s') ∧
    exception_msg (vmf s') = "eof before last column".
Proof.
  destruct (stream_columns_eof [text_type; text_type] 77 [["a"; "b"]]
    (streaming_state [text_type; text_type])) as (s' & Hr & _ & He).
  { reflexivity. }
  { split; [|split]; reflexivity. }
  { repeat constructor. }
  { simpl. lia. }
  { repeat constructor. }
  { split; reflexivity. }
  exists s'. split; [exact Hr|exact He].
Defined.
End witnesses.
