(* ===== verification/StreamThreads.v ===== *)
(** * The two threads of the streaming container ([streamingcontainer.cc])

    [run] starts a thread that writes the input to the program and a thread that emits
    what the program answers. Here they are interleaved, call by call, with each other
    and with the program behind the pipes. A thread moves from one point to the next by
    one call of the library, whose exchange with the server is atomic ([SharedSocket]);
    what the two share is the machine, of which they use different parts, except that
    the reader looks at the row number of the iterator.

    The program is any relation between what it was given and what it has written so far.
    The pipes are bounded. *)
From S2P Require Import Prelude SwigCommon Protocol Dto Machine SocketLowLevel.
From S2P Require Import SocketHighLevel MetaData RowCodec TableIterator ResultHandler.
From S2P Require Import RoundTrip ClientMain ClientRun SwigFactory TestContainer BenchmarkContainer.
From S2P Require Import StreamingContainer.

Open Scope string_scope.
Open Scope list_scope.
Open Scope nat_scope.

Section threads.
Context `{Codec} (print_double : Z → string).

(** ** The points of the threads *)
Inductive writer_pc : Type := printing | advancing | closing | writer_done | writer_failed.

Inductive reader_pc : Type :=
  | at_value (col : nat)                  (* before [readCSVValue] *)
  | at_room (readBuffer : string)         (* before [rowsEmited] and [next] *)
  | at_store (col : nat) (readBuffer : string)
  | at_flush | reader_done | reader_failed.

#[export] Instance writer_pc_eq_dec : EqDecision writer_pc.
Proof. solve_decision. Defined.
#[export] Instance reader_pc_eq_dec : EqDecision reader_pc.
Proof. solve_decision. Defined.

(** What a thread does at a point: the text it writes, or what is left of the text it
    reads, and where it is then. [None] at the end of the thread. *)
Definition writer_call (p : writer_pc) : option (run_of (string * writer_pc)) :=
  match p with
  | printing => Some (text ← inputToCSV print_double; mret (text, advancing))
  | advancing =>
      Some (more ← iterator_next; mret ("", if (more : bool) then printing else closing))
  | closing => Some (mret ("", writer_done))
  | writer_done | writer_failed => None
  end.

Definition reader_call (str : istream) (p : reader_pc) :
  option (run_of (istream * reader_pc)) :=
  match p with
  | at_value col => Some (
      if (col =? 0) && is_eof str then mret (str, at_flush)
      else '(readBuffer, str) ← readCSVValue str col;
           mret (str, if col =? 0 then at_room readBuffer else at_store col readBuffer))
  | at_room readBuffer => Some (make_room;; mret (str, at_store 0 readBuffer))
  | at_store col readBuffer => Some (
      t ← outputColumnType (Z.of_nat col);
      csvReaders t readBuffer col;;
      n ← outputColumnCount;
      mret (str, if (Z.of_nat col + 1 <? n)%Z then at_value (S col)
                 else if is_eof str then at_flush else at_value 0))
  | at_flush => Some (flush;; mret (str, reader_done))
  | reader_done | reader_failed => None
  end.

(** The [catch] block of a thread *)
Definition guarded {A} (failed : A) (m : run_of A) : run_of A :=
  try_catch m (λ e, match e with
    | SwigException what | StdException what => set_exception_msg (c_str what);; mret failed
    | OtherException => throw OtherException
    end).

(** ** A thread on its own

    Run without the other one, on a program that has already ended, the points of the
    reader are the loop of [read_results]. *)
Fixpoint reader_alone (fuel : nat) (str : istream) (p : reader_pc) : run_of unit :=
  match fuel with
  | 0 => blocked
  | S fuel =>
      match reader_call str p with
      | None => mret tt
      | Some call => '(str, p) ← call; reader_alone fuel str p
      end
  end.

(** [writer_alone] collects what is written, from the point on. *)
Fixpoint writer_alone (fuel : nat) (p : writer_pc) : run_of string :=
  match fuel with
  | 0 => blocked
  | S fuel =>
      match writer_call p with
      | None => mret ""
      | Some call => '(text, p) ← call; rest ← writer_alone fuel p; mret (text +:+ rest)
      end
  end.

Lemma reader_alone_step fuel str p call :
  reader_call str p = Some call →
  reader_alone (S fuel) str p = ('(str, p) ← call; reader_alone fuel str p).
Proof. intros Hc. cbn [reader_alone]. by rewrite Hc. Qed.

(** The names of the output columns stay, whatever a thread does. *)
Definition same_names (s s' : machine) : Prop :=
  out_names (params (glob s')) = out_names (params (glob s)).

#[global] Instance same_names_preorder : PreOrder same_names.
Proof. split; [by intros ?|]. intros s1 s2 s3. unfold same_names. congruence. Qed.

Lemma names_chan f : keeps same_names (upd_chan f). Proof. by intros s. Qed.
Lemma names_rh f : keeps same_names (upd_rh f). Proof. by intros s. Qed.
Lemma names_glob m : keeps same_names (set_exception m). Proof. by intros s. Qed.
Lemma names_access : keeps same_names access_socket_file.
Proof. intros s. unfold access_socket_file. by destruct (c_access _). Qed.
Lemma names_blocked {A} : keeps same_names (blocked : run_of A). Proof. by intros s. Qed.
Lemma names_params (f : SWIGVM_params_t → SWIGVM_params_t) :
  (∀ p, out_names (f p) = out_names p) → keeps same_names (upd_params f).
Proof. intros Hf s. apply Hf. Qed.
#[local] Hint Resolve names_chan names_rh names_glob names_access names_blocked : keeps.

Lemma names_lock : keeps same_names lock_if_used.
Proof. unfold lock_if_used, lock_mutex. keeps_auto. Qed.
Lemma names_unlock : keeps same_names unlock_if_used.
Proof. unfold unlock_if_used, unlock_mutex. keeps_auto. Qed.
Lemma names_check : keeps same_names external_process_check.
Proof. unfold external_process_check, get_remote_client, sleep, log. keeps_auto. Qed.
#[local] Hint Resolve names_lock names_unlock names_check : keeps.

Lemma names_send w : keeps same_names (socket_send w).
Proof.
  apply keeps_bind; [apply _|apply keeps_gets; apply _|]. intros script.
  induction script as [|[] script IH]; cbn [socket_send_loop]; unfold usleep, log; keeps_auto.
Qed.
Lemma names_recv roe : keeps same_names (socket_recv roe).
Proof.
  apply keeps_bind; [apply _|apply keeps_gets; apply _|]. intros script.
  induction script as [|[] script IH]; cbn [socket_recv_loop]; unfold usleep, log; keeps_auto.
Qed.
#[local] Hint Resolve names_send names_recv : keeps.

Lemma names_flush : keeps same_names flush.
Proof. unfold flush, accept_emit. keeps_auto. Qed.
#[local] Hint Resolve names_flush : keeps.

Lemma names_append types col : keeps same_names (append_columns types col).
Proof.
  revert col. induction types as [|t types IH]; intros col; cbn [append_columns];
    unfold null_flag, append_column, append_value, add_message_size, upd_table, upd_rowdata;
    keeps_auto.
Qed.
#[local] Hint Resolve names_append : keeps.

Lemma names_room : keeps same_names make_room.
Proof.
  unfold make_room, rowsEmited, handler_next, out_columns, get_params, upd_table, upd_rowdata.
  keeps_auto. by apply names_params.
Qed.
Lemma names_readers t b col : keeps same_names (csvReaders t b col).
Proof.
  destruct t; simpl; keeps_auto.
  unfold setString, set_value, out_columns, get_params, upd_rowdata. keeps_auto.
Qed.

(** What a thread does first is what the loop does first. *)
Lemma alone_bind {A} (m : run_of A) (f : A → istream * reader_pc) (g : A → run_of unit) str p call s :
  reader_call str p = Some call → call ≡ (a ← m; mret (f a)) →
  (∀ a s', m s = (Ret a, s') → ∃ k, reader_alone k (f a).1 (f a).2 s' = g a s') →
  ∃ k, reader_alone k str p s = (m ≫= g) s.
Proof.
  intros Hc Hm Hk. assert (∀ k, reader_alone (S k) str p s =
    (m ≫= λ a, reader_alone k (f a).1 (f a).2) s) as Hs.
  { intros k. cbn [reader_alone]. rewrite Hc, bind_run, Hm, <-bind_run, run_bind_bind.
    rewrite !(bind_run m). unfold bind_outcome. destruct (m s) as [[a| | | |] s']; try done.
    cbn [fst snd]. rewrite run_bind_ret. by destruct (f a). }
  destruct (m s) as [[a| | | |] s'] eqn:Hr; [|exists 1; by rewrite Hs, !bind_run, Hr..].
  destruct (Hk a s' eq_refl) as [k Hg]. exists (S k). rewrite Hs.
  by rewrite !(run_bind _ _ _ _ _ Hr).
Qed.

Lemma alone_flush str s : ∃ k, reader_alone k str at_flush s = flush s.
Proof.
  exists 2. cbn [reader_alone reader_call]. rewrite run_bind_bind, bind_run. unfold bind_outcome.
  by destruct (flush s) as [[[]| | | |] s'].
Qed.

Definition row_end (str : istream) : reader_pc := if is_eof str then at_flush else at_value 0.

(** The loop from the store of a column on; [again] is the rest of the loop. *)
Definition loop_from (again : istream → run_of unit) (str : istream) : run_of unit :=
  if is_eof str then flush else again str.

Definition stored (col : nat) (buf : string) : run_of unit :=
  t ← outputColumnType (Z.of_nat col); csvReaders t buf col.

Definition out_columns_are (n : nat) (s : machine) : Prop :=
  u32 (zlength (out_names (params (glob s)))) = Z.of_nat n.

Lemma columns_kept n s s' : same_names s s' → out_columns_are n s → out_columns_are n s'.
Proof. unfold same_names, out_columns_are. by intros ->. Qed.

Lemma stored_columns n col buf s s' :
  stored col buf s = (Ret tt, s') → out_columns_are n s → out_columns_are n s'.
Proof.
  unfold stored, outputColumnType, outputColumn, get_params. rewrite run_bind_gets.
  intros Hs. apply columns_kept. exact (keeps_run _ _ _ _ _ (names_readers _ _ _) Hs).
Qed.

Lemma room_columns n s s' : make_room s = (Ret tt, s') → out_columns_are n s → out_columns_are n s'.
Proof. intros Hs. apply columns_kept. exact (keeps_run _ _ _ _ _ names_room Hs). Qed.

Lemma store_next again n m col buf str s :
  out_columns_are n s →
  (∀ s', out_columns_are n s' →
     ∃ k, reader_alone k str (if S col <? n then at_value (S col) else row_end str) s' =
       (str ← read_columns_from m str (S col); loop_from again str) s') →
  ∃ k, reader_alone k str (at_store col buf) s =
    (stored col buf;; str ← read_columns_from m str (S col); loop_from again str) s.
Proof.
  intros Hn Hk. set (g := str ← read_columns_from m str (S col); loop_from again str).
  destruct (alone_bind (stored col buf;; outputColumnCount) (λ n, (str,
      if (Z.of_nat col + 1 <? n)%Z then at_value (S col) else row_end str)) (λ _, g)
      str (at_store col buf) _ s eq_refl) as [k Hr].
  - intros s0. unfold stored. by rewrite !run_bind_bind.
  - intros a s' ([] & s1 & Hst & Hc)%run_bind_inv.
    unfold outputColumnCount, get_params in Hc. injection Hc as <- <-.
    pose proof (stored_columns n _ _ _ _ Hst Hn) as Hn1. cbn [fst snd]. rewrite Hn1.
    destruct (Hk s1 Hn1) as [k Hk1]. exists k. unfold g. rewrite <-Hk1. f_equal.
    destruct (Nat.ltb_spec (S col) n); [rewrite (proj2 (Z.ltb_lt _ _)) by lia
      |rewrite (proj2 (Z.ltb_ge _ _)) by lia]; done.
  - exists k. rewrite Hr, run_bind_bind, !(bind_run (stored col buf)). unfold bind_outcome.
    by destruct (stored col buf s) as [[]].
Qed.

Lemma readCSVValue_state str col s : (readCSVValue str col s).2 = s.
Proof.
  unfold readCSVValue, outputColumnCount, get_params. rewrite run_bind_gets.
  destruct (is_eof str); [done|]. generalize "". induction (is_rest str) as [|c rest IH]; intros b; simpl.
  - by destruct (_ =? _)%Z.
  - destruct (Ascii.eqb c "010"); [by destruct (_ =? _)%Z|].
    destruct (Ascii.eqb c ","); [by destruct (_ =? _)%Z|apply IH].
Qed.

(** A value, and the step behind it *)
Lemma value_alone n (next : string → reader_pc) again col str s :
  reader_call str (at_value col) = Some ('(buf, str) ← readCSVValue str col; mret (str, next buf)) →
  out_columns_are n s →
  (∀ buf str, ∃ k, reader_alone k str (next buf) s = again buf str s) →
  ∃ k, reader_alone k str (at_value col) s = ('(buf, str) ← readCSVValue str col; again buf str) s.
Proof.
  intros Hc Hn Hk.
  apply (alone_bind _ (λ '(buf, str), (str, next buf)) _ _ _ _ _ Hc).
  - f_equiv. by intros [].
  - intros [buf str'] s' Hr. pose proof (readCSVValue_state str col s) as Hs.
    rewrite Hr in Hs. simpl in Hs. subst s'. apply Hk.
Qed.

Lemma store_alone again n m col buf str s :
  (∀ str s, out_columns_are n s → ∃ k, reader_alone k str (at_value 0) s = again str s) →
  out_columns_are n s → S col + m = n →
  ∃ k, reader_alone k str (at_store col buf) s =
    (stored col buf;; str ← read_columns_from m str (S col); loop_from again str) s.
Proof.
  intros Hagain. revert col buf str s. induction m as [|m IH]; intros col buf str s Hn Hm;
    apply (store_next again n); try done; intros s' Hn'.
  - rewrite (proj2 (Nat.ltb_ge _ _)) by lia. cbn [read_columns_from]. rewrite run_bind_ret.
    unfold row_end, loop_from. destruct (is_eof str); [apply alone_flush|by apply Hagain].
  - rewrite (proj2 (Nat.ltb_lt _ _)) by lia. cbn [read_columns_from]. unfold read_column.
    destruct (value_alone n (at_store (S col)) (λ buf str,
      stored (S col) buf;; str ← read_columns_from m str (S (S col)); loop_from again str)
      (S col) str s' eq_refl Hn') as [k Hk]; [intros; apply IH; [done|lia]|].
    exists k. rewrite Hk, !run_bind_bind. apply run_bind_ext. intros [buf' str'] s1 _.
    unfold stored. rewrite !run_bind_bind. apply run_bind_ext. intros t s2 _.
    by rewrite run_bind_bind.
Qed.

(** [CSVToOutput] by its points *)
Lemma CSVToOutput_points str :
  CSVToOutput str ≡ ('(buf, str) ← readCSVValue str 0; make_room;; stored 0 buf;;
    n ← outputColumnCount; str ← read_columns_from (Z.to_nat n - 1) str 1;
    mret (negb (is_eof str), str)).
Proof.
  intros s. apply run_bind_ext. intros [buf str'] s' _. unfold make_room, stored.
  by rewrite !run_bind_bind.
Qed.

(** The loop around [CSVToOutput] *)
Lemma line_alone again n str s :
  (∀ str s, out_columns_are n s → ∃ k, reader_alone k str (at_value 0) s = again str s) →
  out_columns_are n s → 0 < n → is_eof str = false →
  ∃ k, reader_alone k str (at_value 0) s =
    ('(more, str) ← CSVToOutput str; if (more : bool) then again str else flush) s.
Proof.
  intros Hagain Hn Hpos He.
  destruct (value_alone n at_room (λ buf str, make_room;; stored 0 buf;;
    str ← read_columns_from (n - 1) str 1; loop_from again str) 0 str s) as [k Hk]; [|done| |].
  - cbn [reader_call]. by rewrite He.
  - intros buf str'.
    eapply (alone_bind make_room (λ _, (str', at_store 0 buf))); [done|done|].
    intros [] s' Hr. cbn [fst snd]. apply (store_alone again n); [done|by eapply room_columns|lia].
  - exists k. rewrite Hk, (bind_run (CSVToOutput str)), CSVToOutput_points, <-bind_run.
    rewrite run_bind_bind. apply run_bind_ext.
    intros [buf str'] s1 Hv. pose proof (readCSVValue_state str 0 s) as Hs. rewrite Hv in Hs.
    simpl in Hs. subst s1. rewrite run_bind_bind. apply run_bind_ext. intros [] s1 Hr.
    rewrite run_bind_bind. apply run_bind_ext. intros [] s2 Hst.
    apply (room_columns n _ _ Hr), (stored_columns n _ _ _ _ Hst) in Hn.
    unfold outputColumnCount, get_params. rewrite !run_bind_bind, run_bind_gets, Hn, Nat2Z.id.
    rewrite run_bind_bind. apply run_bind_ext. intros str2 s3 _. rewrite run_bind_ret.
    unfold loop_from. by destruct (is_eof str2).
Qed.

Lemma loop_alone n fuel str s :
  out_columns_are n s → 0 < n →
  ∃ k, reader_alone k str (at_value 0) s = (read_output fuel str;; flush) s.
Proof.
  intros Hn Hpos. revert str s Hn. induction fuel as [|fuel IH]; intros str s Hn; [by exists 0|].
  cbn [read_output]. destruct (is_eof str) eqn:He.
  - eapply (alone_bind (mret tt) (λ _, (str, at_flush)) (λ _, flush)); [done| |].
    + cbn [Nat.eqb andb]. rewrite He. intros s0. by rewrite run_bind_ret.
    + intros [] s' [= <-]. apply alone_flush.
  - destruct (line_alone (λ str, read_output fuel str;; flush) n str s IH Hn Hpos He) as [k Hk].
    exists k. rewrite Hk, run_bind_bind. apply run_bind_ext. by intros [[] str'] s'.
Qed.

(** The writer likewise *)
Lemma writer_bind {A} (m : run_of A) (f : A → string * writer_pc) (g : A → run_of string) p call s :
  writer_call p = Some call → call ≡ (a ← m; mret (f a)) →
  (∀ a s', m s = (Ret a, s') →
     ∃ k, (rest ← writer_alone k (f a).2; mret ((f a).1 +:+ rest)) s' = g a s') →
  ∃ k, writer_alone k p s = (m ≫= g) s.
Proof.
  intros Hc Hm Hk. assert (∀ k, writer_alone (S k) p s =
    (m ≫= λ a, rest ← writer_alone k (f a).2; mret ((f a).1 +:+ rest)) s) as Hs.
  { intros k. cbn [writer_alone]. rewrite Hc, bind_run, Hm, <-bind_run, run_bind_bind.
    apply run_bind_ext. intros a s' _. rewrite run_bind_ret. by destruct (f a). }
  destruct (m s) as [[a| | | |] s'] eqn:Hr; [|exists 1; by rewrite Hs, !bind_run, Hr..].
  destruct (Hk a s' eq_refl) as [k Hg]. exists (S k). rewrite Hs.
  by rewrite !(run_bind _ _ _ _ _ Hr).
Qed.

Lemma concat_text_cons (x : string) xs : String.concat "" (x :: xs) = x +:+ String.concat "" xs.
Proof. destruct xs; simpl; [by rewrite append_nil_r|done]. Qed.

Lemma rows_alone fuel s :
  ∃ k, writer_alone k printing s =
    (rows ← do_while (inputToCSV print_double) fuel; mret (String.concat "" rows)) s.
Proof.
  revert s. induction fuel as [|fuel IH]; intros s; [by exists 0|]. cbn [do_while].
  destruct (writer_bind (inputToCSV print_double) (λ text, (text, advancing)) (λ text,
    more ← iterator_next;
    rest ← (if (more : bool) then
       rows ← do_while (inputToCSV print_double) fuel; mret (String.concat "" rows) else mret "");
    mret (text +:+ rest)) printing _ s eq_refl (reflexivity _)) as [k Hk].
  - intros text s1 _. cbn [fst snd].
    destruct (writer_bind iterator_next (λ more, ("", if (more : bool) then printing else closing))
      (λ more, if (more : bool) then
         rows ← do_while (inputToCSV print_double) fuel; mret (String.concat "" rows) else mret "")
      advancing _ s1 eq_refl (reflexivity _)) as [k Hk].
    + intros [] s2 _; cbn [fst snd].
      * destruct (IH s2) as [k Hk]. exists k. rewrite bind_run, Hk, <-bind_run.
        rewrite run_bind_bind. apply run_bind_ext. by intros rows s3 _.
      * by exists 2.
    + exists k. rewrite bind_run, Hk, <-bind_run. by rewrite run_bind_bind.
  - exists k. rewrite Hk, run_bind_bind. apply run_bind_ext. intros text s1 _.
    rewrite run_bind_bind. apply run_bind_ext. intros [] s2 _; [|by rewrite !run_bind_ret; simpl; rewrite append_nil_r].
    rewrite !run_bind_bind. apply run_bind_ext. intros rows s3 _. rewrite !run_bind_ret.
    by rewrite concat_text_cons.
Qed.

(** ** The threads, the pipes and the program

    The writer's stream keeps some text back before it goes into the pipe; a pipe holds
    [pipe_size] bytes and makes who writes to it wait; nobody reads the error output
    before both threads have ended. *)
Record stream_threads : Type := mkStreamThreads {
  th_writer : writer_pc;
  th_written : string;    (* what the writer has written, kept back or not *)
  th_piped : string;      (* what of it went into the pipe *)
  th_fed : string;        (* what of that the program has read *)
  th_out : string;        (* all that the program has written *)
  th_pipe : string;       (* what of it is in the pipe *)
  th_err : string;        (* the error output *)
  th_exited : bool;
  th_stream : istream;    (* what the reader took from the pipe and has not consumed *)
  th_reader : reader_pc;
}.

#[global] Instance stream_threads_rebuild : Rebuild stream_threads := λ th,
  mkStreamThreads (th_writer th) (th_written th) (th_piped th) (th_fed th) (th_out th)
    (th_pipe th) (th_err th) (th_exited th) (th_stream th) (th_reader th).

Implicit Types th : stream_threads.

(** The writer closes the pipe last. *)
Definition th_ended th : bool :=
  bool_decide (th_writer th = writer_done) && String.eqb (th_fed th) (th_written th).

(** [get] returns at once: up to the next delimiter, or up to the end of the output. *)
Definition value_ready th : bool :=
  match th_reader th with
  | at_value _ => is_eof (th_stream th) || th_exited th && str_empty (th_pipe th) ||
      negb (plain_field (is_rest (th_stream th)))
  | _ => true
  end.

(** The last write has returned: all but a buffer is in the pipe, or everything when the
    stream is flushed. *)
Definition flushed (buffer_size : nat) th : bool :=
  match th_writer th with
  | closing => String.eqb (th_piped th) (th_written th)
  | _ => String.length (th_written th) <=? String.length (th_piped th) + buffer_size
  end.

(** What the program may do with the input [fed], knowing its end or not, when it has
    written [out] and [err]: read on, have more written, and exit *)
Record program : Type := mkProgram {
  p_reads : string → string → string → Prop;
  p_writes : string → bool → string → Prop;
  p_complains : string → bool → string → Prop;
  p_exits : string → bool → string → string → Prop;
  pipe_size : nat;
  buffer_size : nat;
}.

(** The pipes and the program *)
Inductive program_step (env : program) : stream_threads → stream_threads → Prop :=
  | pipe_takes th more kept :
      th_written th = th_piped th +:+ more +:+ kept →
      String.length (th_piped th +:+ more) ≤ String.length (th_fed th) + pipe_size env →
      program_step env th (th <| th_piped := th_piped th +:+ more |>)
  | pipe_broken th :     (* [EPIPE] *)
      th_exited th = true → program_step env th (th <| th_piped := th_written th |>)
  | program_reads th more rest :
      th_exited th = false → th_piped th = th_fed th +:+ more +:+ rest →
      p_reads env (th_fed th) (th_out th) (th_err th) →
      program_step env th (th <| th_fed := th_fed th +:+ more |>)
  | program_writes th ended more :
      th_exited th = false → (ended = true → th_ended th = true) →
      p_writes env (th_fed th) ended (th_out th +:+ more) →
      String.length (th_pipe th +:+ more) ≤ pipe_size env →
      program_step env th (th <| th_out := th_out th +:+ more |> <| th_pipe := th_pipe th +:+ more |>)
  | program_complains th ended more :
      th_exited th = false → (ended = true → th_ended th = true) →
      p_complains env (th_fed th) ended (th_err th +:+ more) →
      String.length (th_err th +:+ more) ≤ pipe_size env →
      program_step env th (th <| th_err := th_err th +:+ more |>)
  | program_exits th ended :
      th_exited th = false → (ended = true → th_ended th = true) →
      p_exits env (th_fed th) ended (th_out th) (th_err th) →
      program_step env th (th <| th_exited := true |>)
  | reader_pulls th more rest :
      value_ready th = false → th_pipe th = more +:+ rest →
      program_step env th (th <| th_pipe := rest |>
        <| th_stream := mkIstream (is_rest (th_stream th) +:+ more) (is_eof (th_stream th)) |>).

(** ** All of it, interleaved *)
Inductive thread : Type := writer | reader.

#[export] Instance thread_eq_dec : EqDecision thread.
Proof. solve_decision. Defined.

Record stream_state : Type := mkStream {
  st_machine : machine;
  st_inputs : list wire;            (* how the server is going to answer [MT_NEXT] *)
  st_threads : stream_threads;
  st_sent : list (thread * wire);   (* the requests, with the thread that made them *)
  st_dead : bool;                   (* the process was killed *)
}.

#[global] Instance stream_state_rebuild : Rebuild stream_state := λ st,
  mkStream (st_machine st) (st_inputs st) (st_threads st) (st_sent st) (st_dead st).

Implicit Types st : stream_state.

(** The machine as a thread finds it: the network delivers, and the server answers the
    next requests with [vs]. *)
Definition offered (vs : list wire) (s s0 : machine) : Prop :=
  (∃ sends recvs, s0 = s <| chan := (chan s) <| c_sends := sends |> <| c_recvs := recvs |> |>) ∧
  serves vs s0.

Definition exchanged (s s' : machine) (ws rs : list wire) : Prop :=
  sent (c_trace (chan s')) = sent (c_trace (chan s)) ++ ws ∧
  received (c_trace (chan s')) = received (c_trace (chan s)) ++ rs.

Definition died {A} (o : outcome exn A) : Prop :=
  match o with Ret _ | Blocked => False | _ => True end.

(** What a call leaves of the threads *)
Definition writer_at (th : stream_threads) (text : string) (p : writer_pc) : stream_threads :=
  th <| th_writer := p |> <| th_written := th_written th +:+ text |>.
Definition reader_at (th : stream_threads) (str : istream) (p : reader_pc) : stream_threads :=
  th <| th_stream := str |> <| th_reader := p |>.

Inductive stream_step (env : program) : stream_state → stream_state → Prop :=
  | step_writer st call s0 text p s' ws rs rest :
      st_dead st = false → writer_call (th_writer (st_threads st)) = Some call →
      flushed (buffer_size env) (st_threads st) = true →
      offered (st_inputs st) (st_machine st) s0 →
      guarded ("", writer_failed) call s0 = (Ret (text, p), s') →
      exchanged (st_machine st) s' ws rs → st_inputs st = rs ++ rest →
      stream_step env st (st <| st_machine := s' |> <| st_inputs := rest |>
        <| st_threads := writer_at (st_threads st) text p |>
        <| st_sent := st_sent st ++ (pair writer <$> ws) |>)
  | step_reader st call v vs s0 str p s' ws rs :
      st_dead st = false → reader_call (th_stream (st_threads st)) (th_reader (st_threads st)) = Some call →
      value_ready (st_threads st) = true → offered (v :: vs) (st_machine st) s0 →
      guarded (th_stream (st_threads st), reader_failed) call s0 = (Ret (str, p), s') →
      exchanged (st_machine st) s' ws rs →
      stream_step env st (st <| st_machine := s' |>
        <| st_threads := reader_at (st_threads st) str p |>
        <| st_sent := st_sent st ++ (pair reader <$> ws) |>)
  | step_program st th :
      st_dead st = false → program_step env (st_threads st) th →
      stream_step env st (st <| st_threads := th |>)
  | step_writer_dies st call s0 o s' :
      st_dead st = false → writer_call (th_writer (st_threads st)) = Some call →
      offered (st_inputs st) (st_machine st) s0 →
      guarded ("", writer_failed) call s0 = (o, s') → died o →
      stream_step env st (st <| st_machine := s' |> <| st_dead := true |>)
  | step_reader_dies st call v vs s0 o s' :
      st_dead st = false → reader_call (th_stream (st_threads st)) (th_reader (st_threads st)) = Some call →
      value_ready (st_threads st) = true → offered (v :: vs) (st_machine st) s0 →
      guarded (th_stream (st_threads st), reader_failed) call s0 = (o, s') → died o →
      stream_step env st (st <| st_machine := s' |> <| st_dead := true |>).

(** The start of the two threads *)
Definition threads_started : stream_threads :=
  mkStreamThreads printing "" "" "" "" "" "" false (mkIstream "" false) (at_value 0).
Definition stream_start (us : list wire) (s : machine) : stream_state :=
  mkStream s us threads_started [] false.
End threads.

Abbreviation st_writer st := (th_writer (st_threads st)).
Abbreviation st_reader st := (th_reader (st_threads st)).
Abbreviation st_written st := (th_written (st_threads st)).
Abbreviation st_out st := (th_out (st_threads st)).

(** ** Properties *)
Section properties.
Context `{Codec} (print_double : Z → string).

(** C35. A thread on its own. On an output that is complete, for any number of columns
    and whatever the fields, the points of the reader run through the loop of
    [read_results], and those of the writer through the loop of [write_input]. *)
Theorem threads_alone (n fuel : nat) (out : string) (s : machine) :
  out_columns_are n s → 0 < n →
  (∃ k, catch_std (reader_alone k (mkIstream out false) (at_value 0)) set_exception_msg s =
     read_results out s) ∧
  (∃ k, guarded None (text ← writer_alone print_double k printing; mret (Some text)) s =
     write_input print_double fuel s).
Proof.
  intros Hn Hpos. split.
  - destruct (loop_alone n (S (String.length out)) (mkIstream out false) s Hn Hpos) as [k Hk].
    exists k. unfold catch_std, read_results, try_catch. by rewrite Hk.
  - destruct (rows_alone print_double fuel s) as [k Hk]. exists k.
    unfold guarded, write_input, try_catch. rewrite bind_run, Hk, <-bind_run.
    by rewrite run_bind_bind.
Qed.
End properties.

(** ** Witnesses *)
Section witnesses.
#[local] Existing Instance plain_codec.

Lemma threads_alone_witness :
  out_columns_are 2 (streaming_state [text_type; text_type]) ∧
  ∃ k, catch_std (reader_alone k (mkIstream "a" false) (at_value 0)) set_exception_msg
      (streaming_state [text_type; text_type]) =
    read_results "a" (streaming_state [text_type; text_type]).
Proof.
  assert (out_columns_are 2 (streaming_state [text_type; text_type])) as Hn by reflexivity.
  split; [exact Hn|].
  exact (proj1 (threads_alone to_string 2 1 "a" _ Hn (Nat.lt_0_succ 1))).
Defined.
End witnesses.
