(* ===== verification/StreamInterleaving.v ===== *)
(** * What the interleaved threads of the streaming container achieve

    The invariant of [StreamThreads]: how far the writer is in the input, which lines the
    reader has taken apart, and which rows are in the messages sent and in the one being
    built. From it: what both threads have done when they end, and that they can end if the
    program does its part. *)
From S2P Require Import Prelude SwigCommon Protocol Dto Machine SocketLowLevel.
From S2P Require Import SocketHighLevel MetaData RowCodec TableIterator ResultHandler.
From S2P Require Import RoundTrip ClientMain ClientRun SwigFactory TestContainer BenchmarkContainer.
From S2P Require Import StreamingContainer StreamThreads.
From stdpp Require Import sorting.

Open Scope string_scope.
Open Scope list_scope.
Open Scope nat_scope.

(** ** What holds along the way *)
Section invariant.
Context `{Codec} (print_double : Z → string).
Context (types : list SWIGVM_columntype_t) (t : SWIGVM_columntype_t) (ps : SWIGVM_params_t).
Context (todo0 : list row) (us0 : list wire) (w : wire) (id : Z) (msg0 : string).

(** The parameters of a streaming function with one VARCHAR column of output *)
Record streaming_params : Prop := {
  sp_inputs : names_match types (Global_init <| params := ps |>);
  sp_output : varchars [t] ps;
  sp_string : ct_type t = STRING;
  sp_many : ¬ (inp_iter_type ps = EXACTLY_ONCE ∧ out_iter_type ps = EXACTLY_ONCE);
  sp_finish : inp_force_finish ps = false;
  sp_emit : ∀ tb, is_Some (serialize (mkRequest MT_EMIT id (body_emit tb)));
}.

Lemma c_str_length (l : string) : String.length (c_str l) ≤ String.length l.
Proof. induction l as [|c l IH]; simpl; [done|]. destruct (Ascii.eqb c "000"); simpl; lia. Qed.

Fixpoint no_comma (s : string) : bool :=
  match s with
  | EmptyString => true
  | String c s => negb (Ascii.eqb c ",") && no_comma s
  end.

(** The text of a program for one column: less than 2^62 bytes, and none a comma *)
Definition one_column (out : string) : Prop :=
  no_comma out = true ∧ (Z.of_nat (String.length out) < 2 ^ 62)%Z.

Definition requests (i : thread) (l : list (thread * wire)) : list wire :=
  snd <$> filter (λ x, x.1 = i) l.

Definition csv_text (rows : list row) : string :=
  String.concat "" (row_csv print_double types <$> rows).

Record wrote (pos : nat) (st : stream_state) : Prop := {
  wr_row : todo0.*1 !! pos = Some (m_current_row (it (st_machine st)));
  wr_text : st_written st =
    csv_text (take (if decide (st_writer st = printing) then pos else S pos) todo0);
  wr_input :
    match st_writer st with
    | printing | advancing => input_at types w (drop pos todo0) (st_inputs st) (st_machine st)
    | closing | writer_done => S pos = length todo0 ∧ st_inputs st = []
    | writer_failed => False
    end;
  wr_sent : ∃ used, us0 = used ++ st_inputs st ∧
    requests writer (st_sent st) = replicate (length used) w;
}.

(** *** The rows that the reader has collected

    [full] are the messages sent, [last] the rows of the next one. *)
Definition line_cell (l : string) : list cell := [CString (c_str l)].
Definition rows_bytes (rows : list row) : Z := cells_size (concat rows.*2).
Definition full_batch (rows : list row) : Prop := (SWIG_MAX_VAR_DATASIZE ≤ rows_bytes rows)%Z.

(** The rows carry the numbers of input rows, in order, up to the current one. *)
Definition numbered_upto (pos : nat) (rows : list row) : Prop :=
  ∃ ns, Forall2 (λ n (r : row), todo0.*1 !! n = Some r.1) ns rows ∧ StronglySorted le ns ∧
    Forall (λ n, n ≤ pos) ns.

(** The first message begins with the stray null flag. *)
Definition front (full : list (list row)) (tb : exascript_table_data) : exascript_table_data :=
  if decide (full = []) then stray tb else tb.

Definition emit_tables (batches : list (list row)) : list exascript_table_data :=
  match batches with
  | [] => []
  | b :: bs => stray (table_of b) :: (table_of <$> bs)
  end.

Definition emits (batches : list (list row)) (ws : list wire) : Prop :=
  Forall2 (λ tb w, serialize (mkRequest MT_EMIT id (body_emit tb)) = Some w)
    (emit_tables batches) ws.

Record gathered (pos : nat) (full : list (list row)) (last : list row) (lines : list string)
    (s : machine) : Prop := {
  co_rows : (concat full ++ last).*2 = line_cell <$> lines;
  co_numbers : numbered_upto pos (concat full ++ last);
  co_full : Forall full_batch full;
  co_table : ∃ tb, m_emit_table (rh s) = front full tb ∧ td_rows_in_group tb = 0%Z ∧
    pending last tb;
  co_size : m_message_size (rh s) = rows_bytes last;
  co_id : rh_connection_id (rh s) = id;
  co_emited : m_rows_emited (rh s) = (2 + zlength lines)%Z;
  co_thrown : exthrowed (exchandler (glob s)) = true;
}.

Definition collected (pos : nat) (full : list (list row)) (last : list row) (lines : list string)
  (s : machine) : Prop :=
  gathered pos full last lines s ∧ (rows_bytes last < SWIG_MAX_VAR_DATASIZE)%Z.

Definition staged (l : string) (s : machine) : Prop :=
  staged_row (m_rowdata (rh s)) [t] 0 = Some <$> line_cell l.

(** Before [next]: nothing happened yet, or the last line is staged. *)
Definition behind (pos : nat) (full : list (list row)) (last : list row) (lines : list string)
    (s : machine) : Prop :=
  (lines = [] ∧ full = [] ∧ last = [] ∧ rh s = handler_init id) ∨
  ∃ prev cur, lines = prev ++ [cur] ∧ collected pos full last prev s ∧ staged cur s.

(** The text that the program has written and the reader has not consumed *)
Definition unread (th : stream_threads) : string := is_rest (th_stream th) +:+ th_pipe th.

(** The text that was taken apart so far; [buf] is the value in hand. *)
Definition text_taken (lines : list string) (buf : option string) (th : stream_threads) : Prop :=
  match buf with
  | None => is_eof (th_stream th) = false ∧ th_out th = column_text lines (unread th)
  | Some buf =>
      if is_eof (th_stream th)
      then th_exited th = true ∧ th_pipe th = "" ∧ th_out th = column_text lines buf
      else th_out th = column_text (lines ++ [buf]) (unread th)
  end.

Definition read_so_far (pos : nat) (st : stream_state) : Prop :=
  ∃ full last lines,
    match st_reader st with
    | at_value 0 => text_taken lines None (st_threads st) ∧ behind pos full last lines (st_machine st) ∧
        emits full (requests reader (st_sent st))
    | at_room buf => text_taken lines (Some buf) (st_threads st) ∧ behind pos full last lines (st_machine st) ∧
        emits full (requests reader (st_sent st))
    | at_store 0 buf => text_taken lines (Some buf) (st_threads st) ∧
        collected pos full last lines (st_machine st) ∧ emits full (requests reader (st_sent st))
    | at_flush => th_exited (st_threads st) = true ∧ (∃ tail, st_out st = column_text lines tail) ∧
        collected pos full last lines (st_machine st) ∧ emits full (requests reader (st_sent st))
    | reader_done => th_exited (st_threads st) = true ∧ (∃ tail, st_out st = column_text lines tail) ∧
        (concat full ++ last).*2 = line_cell <$> lines ∧ numbered_upto pos (concat full ++ last) ∧
        Forall full_batch full ∧ (rows_bytes last < SWIG_MAX_VAR_DATASIZE)%Z ∧
        exthrowed (exchandler (glob (st_machine st))) = true ∧
        emits (full ++ if decide (last = []) then [] else [last]) (requests reader (st_sent st))
    | _ => False
    end.

Record common (st : stream_state) : Prop := {
  cm_alive : st_dead st = false;
  cm_mutex : mutex_free (st_machine st);
  cm_supervised : supervised (st_machine st);
  cm_params : params (glob (st_machine st)) = ps;
  cm_message : exception_msg (vmf (st_machine st)) = msg0;
  cm_kept : ∃ kept, st_written st = th_piped (st_threads st) +:+ kept;
  cm_fed : ∃ more, th_piped (st_threads st) = th_fed (st_threads st) +:+ more;
  cm_out : one_column (st_out st);
}.

Definition invariant_at (pos : nat) (st : stream_state) : Prop :=
  common st ∧ wrote pos st ∧ read_so_far pos st.
Definition stream_invariant (st : stream_state) : Prop := ∃ pos, invariant_at pos st.

(** ** The calls of the reader *)
Context (Hp : streaming_params).

(** What a call of the reader leaves alone *)
Record reader_frame (s s' : machine) (ws rs : list wire) : Prop := {
  rf_exchanged : exchanged s s' ws rs;
  rf_it : it s' = it s;
  rf_params : params (glob s') = params (glob s);
  rf_vmf : vmf s' = vmf s;
  rf_mutex : mutex_free s';
  rf_supervised : supervised s';
}.

Lemma frame_quiet vs s s0 s' :
  offered vs s s0 → chan s' = chan s0 → it s' = it s → params (glob s') = params (glob s) →
  vmf s' = vmf s → reader_frame s s' [] [].
Proof.
  intros [(sends & recvs & ->) [Hm Hs _ _]] Hc Hi Hps Hv.
  split; try done; unfold exchanged, mutex_free, supervised in *; rewrite Hc; [|done..].
  by rewrite !app_nil_r.
Qed.

Lemma front_row full n xs tb :
  finish_row n (add_cells xs (front full tb)) = front full (finish_row n (add_cells xs tb)).
Proof.
  unfold front. case_decide; [|done]. clear. revert tb.
  induction xs as [|x xs IH]; intros tb; [done|]. simpl. rewrite <-IH. by destruct x.
Qed.

Lemma emits_snoc full b ws v :
  emits full ws → serialize (mkRequest MT_EMIT id (body_emit (front full (table_of b)))) = Some v →
  emits (full ++ [b]) (ws ++ [v]).
Proof.
  unfold emits. intros He Hv.
  assert (emit_tables (full ++ [b]) = emit_tables full ++ [front full (table_of b)]) as ->.
  { destruct full as [|b0 full]; [done|]. unfold front. rewrite decide_False by done.
    simpl. by rewrite fmap_app. }
  apply Forall2_app; [done|]. by constructor.
Qed.

Lemma numbered_snoc pos rows r :
  numbered_upto pos rows → todo0.*1 !! pos = Some r.1 → numbered_upto pos (rows ++ [r]).
Proof.
  intros (ns & Hn & Hs & Hle) Hr. exists (ns ++ [pos]). split_and!.
  - apply Forall2_app; [done|]. by constructor.
  - apply StronglySorted_app_2; [|done|by repeat constructor].
    intros n m Hin ->%list_elem_of_singleton. by rewrite Forall_forall in Hle; apply Hle.
  - apply Forall_app. split; [done|]. by constructor.
Qed.

Lemma numbered_mono pos pos' rows : pos ≤ pos' → numbered_upto pos rows → numbered_upto pos' rows.
Proof.
  intros Hle (ns & Hn & Hs & Hall). exists ns. split_and!; try done.
  eapply Forall_impl; [exact Hall|]. simpl. lia.
Qed.

Lemma gathered_length pos full last lines s :
  gathered pos full last lines s → length last ≤ length lines.
Proof.
  intros Hco. pose proof (f_equal length (co_rows _ _ _ _ _ Hco)) as Hl.
  rewrite fmap_app, length_app, !length_fmap in Hl. lia.
Qed.

(** [flush] with rows to send, in whatever state the message was built *)
Lemma flush_rows full last v vs s s1 s2 :
  offered (v :: vs) s s1 → chan s2 = chan s1 → it s2 = it s →
  params (glob s2) = params (glob s) → vmf s2 = vmf s → last ≠ [] → rh_connection_id (rh s2) = id →
  m_emit_table (rh s2) = front full (table_of last) →
  ∃ s' ws, flush s2 = (Ret tt, s') ∧ reader_frame s s' ws [v] ∧
    rh s' = (rh s2) <| m_emit_table := table_empty |> <| m_message_size := 0%Z |> ∧
    (exthrowed (exchandler (glob s2)) = true → exthrowed (exchandler (glob s')) = true) ∧
    ∃ x, ws = [x] ∧ serialize (mkRequest MT_EMIT id (body_emit (front full (table_of last)))) = Some x.
Proof.
  intros [(sends & recvs & Hs1) Hsrv] Hc Hi Hps Hv Hne Hid Htab.
  destruct (sp_emit Hp (front full (table_of last))) as [x Hx].
  destruct (flush_table (zlength last) x v vs s2)
    as (s' & Hr & [Hm' Hsup' _ _] & _ & Hrh & Hit & Hps' & Hvm & Htu & Hacc).
  { rewrite Htab. unfold front. by case_decide. }
  { unfold zlength. destruct last; [done|simpl; lia]. }
  { by rewrite Hid, Htab. }
  { by apply (serves_chan _ s1). }
  exists s', [x]. split_and!; [done| |done| |by exists x].
  - pose proof (turn_sent _ _ _ _ Htu) as Hex. rewrite Hc, Hs1 in Hex. split; try done; congruence.
  - intros Hex. destruct (emit_accepted _ v); [by rewrite Hacc|done].
Qed.

(** The staged line becomes the last row of the message, before any flush. *)
Lemma next_gathers pos full last prev cur s s0 :
  params (glob s0) = ps → it s0 = it s → rh s0 = rh s → glob s0 = glob s →
  todo0.*1 !! pos = Some (m_current_row (it s)) →
  collected pos full last prev s → staged cur s →
  (Z.of_nat (String.length cur) < 2 ^ 62)%Z → (zlength prev < 2 ^ 62)%Z →
  ∃ s1, gathered pos full (last ++ [(m_current_row (it s), line_cell cur)]) (prev ++ [cur]) s1 ∧
    glob s1 = glob s0 ∧ it s1 = it s0 ∧ chan s1 = chan s0 ∧ vmf s1 = vmf s0 ∧
    make_room s0 =
      (if (SWIG_MAX_VAR_DATASIZE <=? m_message_size (rh s1))%Z then flush s1 else (Ret tt, s1)).
Proof.
  intros Hps0 Hi0 Hrh0 Hg0 Hpos [Hco Hsmall] Hst Hcur Hprev. set (r := (m_current_row (it s), line_cell cur)).
  pose proof (gathered_length _ _ _ _ _ Hco) as Hlen.
  destruct Hco as [Hrows Hnum Hfull (tb & Htab & Hgrp & Hpend) Hsize Hid Hem Hex].
  pose proof (cells_size_pos (concat last.*2)) as Hpz. fold (rows_bytes last) in Hpz.
  unfold SWIG_MAX_VAR_DATASIZE in Hsmall. destruct (sp_output Hp) as (Ho & _).
  destruct (handler_next_table (line_cell cur) s0)
    as (s1 & Ht1 & Hsz1 & Hrd1 & Hem1 & Hid1 & Hg1 & Hit1 & Hch1 & (Hv1 & _ & _) & Hnx).
  { rewrite Hps0, Ho. constructor; [|done]. rewrite (sp_string Hp). by eexists. }
  { rewrite Hrh0, Hsize. lia. }
  { rewrite Hps0, Hrh0, Ho. unfold staged in Hst. rewrite Hst. apply mapM_id_some. }
  assert (rows_bytes (last ++ [r]) = rows_bytes last + (4 + Z.of_nat (String.length (c_str cur))))%Z as Hby.
  { unfold rows_bytes. rewrite fmap_app, concat_app, cells_size_app. simpl. lia. }
  pose proof (c_str_length cur) as Hcs.
  exists s1. split_and!; try done.
  - split; try congruence.
    + by rewrite app_assoc, fmap_app, Hrows, fmap_app.
    + rewrite app_assoc. by apply numbered_snoc.
    + exists (finish_row r.1 (add_cells r.2 tb)). split_and!; [|done|].
      * rewrite Ht1, Hrh0, Htab, Hi0. apply front_row.
      * right. split; [by intros [_ ?]%app_nil|]. apply pending_add_row; [done|].
        unfold zlength in *. lia.
    + rewrite Hsz1, Hrh0, Hsize, Hby. simpl. rewrite u64_small; lia.
    + rewrite Hem1, Hrh0, Hem. unfold zlength in *. rewrite length_app. simpl. rewrite u64_small; lia.
  - unfold make_room, rowsEmited. rewrite run_bind_gets, Hrh0, Hem.
    rewrite (proj2 (Z.ltb_lt _ _)) by (unfold zlength; lia). simpl when.
    rewrite bind_run, Hnx. rewrite decide_False by (rewrite Hps0; apply (sp_many Hp)).
    destruct (SWIG_MAX_VAR_DATASIZE <=? _)%Z; [|done]. rewrite bind_run. unfold bind_outcome.
    by destruct (flush s1) as [[[]| | | |] s2].
Qed.

(** Making room with a line staged *)
Lemma room_next pos full last prev cur v vs s s0 :
  offered (v :: vs) s s0 → params (glob s) = ps → todo0.*1 !! pos = Some (m_current_row (it s)) →
  collected pos full last prev s → staged cur s →
  (Z.of_nat (String.length cur) < 2 ^ 62)%Z → (zlength prev < 2 ^ 62)%Z →
  ∃ s' ws rs full' last', make_room s0 = (Ret tt, s') ∧ reader_frame s s' ws rs ∧
    collected pos full' last' (prev ++ [cur]) s' ∧
    (∀ ws0, emits full ws0 → emits full' (ws0 ++ ws)).
Proof.
  intros Hoff Hps Hpos Hco Hst Hcur Hprev. pose proof Hoff as [(sends & recvs & Hs0) _].
  assert (params (glob s0) = ps ∧ rh s0 = rh s ∧ it s0 = it s ∧ vmf s0 = vmf s ∧ glob s0 = glob s)
    as (Hps0 & Hrh0 & Hi0 & Hv0 & Hg0) by by rewrite Hs0.
  destruct (next_gathers pos full last prev cur s s0) as (s1 & Hga & Hg1 & Hi1 & Hc1 & Hv1 & Hmr);
    [done..|].
  set (last1 := last ++ [_]) in *. rewrite (co_size _ _ _ _ _ Hga) in Hmr.
  assert (last1 ≠ []) as Hne by by intros [_ ?]%app_nil.
  destruct (Z.leb_spec SWIG_MAX_VAR_DATASIZE (rows_bytes last1)) as [Hbig|Hlow].
  - destruct Hga as [Hrows Hnum Hfull (tb & Htab & Hgrp & Hpend) Hsize Hid Hem Hex].
    pose proof (encodes_unique _ _ (pending_some _ _ Hpend Hne) Hgrp) as ->.
    destruct (flush_rows full last1 v vs s s0 s1) as (s2 & ws & Hr & Hfr & Hrh2 & Hex2 & x & -> & Hx);
      [done|congruence..|done|done|done|].
    exists s2, [x], [v], (full ++ [last1]), []. split_and!; [by rewrite Hmr|done| |].
    + split; [|done]. split; rewrite ?Hrh2; try done; rewrite ?concat_app; simpl;
        rewrite ?app_nil_r; try done; [|exists table_empty; split_and!; [|done|by left]|by apply Hex2].
      * apply Forall_app. by repeat constructor.
      * unfold front. rewrite decide_False; [done|]. by intros [_ ?]%app_nil.
    + intros ws0 He. by apply emits_snoc.
  - exists s1, [], [], full, last1. split_and!; [done| | |intros; by rewrite app_nil_r].
    + apply (frame_quiet _ s s0 s1 Hoff); congruence.
    + by split.
Qed.

(** *** The text of the lines *)
Lemma no_comma_app a b : no_comma (a +:+ b) = no_comma a && no_comma b.
Proof. induction a as [|c a IH]; [done|]. simpl. by rewrite IH, andb_assoc. Qed.

Lemma column_text_app lines a b : column_text lines (a +:+ b) = column_text lines a +:+ b.
Proof.
  unfold column_text. induction lines as [|l lines IH]; [done|]. simpl.
  by rewrite IH, <-!append_assoc.
Qed.

Lemma column_text_snoc lines l tail :
  column_text (lines ++ [l]) tail = column_text lines (l +:+ nl +:+ tail).
Proof. unfold column_text. by rewrite foldr_app. Qed.

Lemma column_text_length lines tail :
  length lines + String.length tail ≤ String.length (column_text lines tail).
Proof.
  induction lines as [|l lines IH]; [done|].
  change (column_text (l :: lines) tail) with (l +:+ nl +:+ column_text lines tail).
  rewrite !length_append. simpl. lia.
Qed.

Lemma no_comma_tail lines tail : no_comma (column_text lines tail) = true → no_comma tail = true.
Proof.
  intros Hn. rewrite <-(append_nil_r tail) in Hn.
  induction lines as [|l lines IH]; [by rewrite append_nil_r in Hn|].
  apply IH. simpl in Hn. rewrite no_comma_app in Hn. by apply andb_true_iff in Hn as [_ Hn].
Qed.

Lemma take_line s :
  no_comma s = true → plain_field s = false →
  ∃ f rest, s = f +:+ nl +:+ rest ∧ plain_field f = true.
Proof.
  induction s as [|c s IH]; [done|]. simpl. intros [Hc Hn]%andb_true_iff Hpl. rewrite Hc in Hpl.
  destruct (Ascii.eqb_spec c "010") as [->|Hne]; [by exists "", s|].
  destruct (IH Hn) as (f & rest & -> & Hf); [by simpl in Hpl|].
  exists (String c f), rest. split; [done|]. simpl. rewrite Hc, Hf.
  by destruct (Ascii.eqb_spec c "010").
Qed.

Lemma string_types : Forall (λ t, ct_type t = STRING) [t].
Proof. constructor; [apply (sp_string Hp)|done]. Qed.

Lemma value_line f rest s :
  params (glob s) = ps → plain_field f = true →
  readCSVValue (mkIstream (f +:+ nl +:+ rest) false) 0 s = (Ret (f, mkIstream rest false), s).
Proof.
  intros Hps Hf. apply (readCSVValue_run [t] f rest 0 s);
    [rewrite Hps; apply (sp_output Hp)|simpl; lia|done].
Qed.

Lemma value_end f s :
  params (glob s) = ps → plain_field f = true →
  readCSVValue (mkIstream f false) 0 s = (Ret (f, mkIstream "" true), s).
Proof.
  intros Hps Hf. unfold readCSVValue, outputColumnCount, get_params. rewrite run_bind_gets, Hps.
  rewrite (last_column_run [t] _ _ (sp_output Hp)) by (simpl; lia).
  by apply (read_value_eof f "").
Qed.

(** *** One call at each point *)
Lemma gathered_ext pos full last lines s s' :
  m_emit_table (rh s') = m_emit_table (rh s) → m_message_size (rh s') = m_message_size (rh s) →
  rh_connection_id (rh s') = rh_connection_id (rh s) → m_rows_emited (rh s') = m_rows_emited (rh s) →
  glob s' = glob s → gathered pos full last lines s → gathered pos full last lines s'.
Proof. intros Ht Hs Hi He Hg []. split; rewrite ?Ht, ?Hs, ?Hi, ?He, ?Hg; done. Qed.

Lemma behind_ext pos full last lines s s' :
  rh s' = rh s → glob s' = glob s → behind pos full last lines s → behind pos full last lines s'.
Proof.
  intros Hrh Hg [(-> & -> & -> & Hb)|(prev & cur & -> & [Hga Hsm] & Hst)];
    [left; by rewrite Hrh|right; exists prev, cur].
  unfold staged. rewrite Hrh. split_and!; try done. split; [|done].
  apply (gathered_ext _ _ _ _ s); congruence.
Qed.

Definition reader_moved (st : stream_state) (str : istream) (p : reader_pc) (s' : machine)
  (ws : list wire) : stream_state :=
  st <| st_machine := s' |> <| st_threads := reader_at (st_threads st) str p |>
     <| st_sent := st_sent st ++ (pair reader <$> ws) |>.

Lemma requests_same i l ws : requests i (l ++ (pair i <$> ws)) = requests i l ++ ws.
Proof.
  unfold requests. rewrite filter_app, fmap_app. f_equal.
  induction ws as [|x ws IH]; [done|]. rewrite fmap_cons, filter_cons_True by done. simpl. by f_equal.
Qed.

Lemma requests_other i j l ws : i ≠ j → requests i (l ++ (pair j <$> ws)) = requests i l.
Proof.
  intros Hne. unfold requests. rewrite filter_app, fmap_app.
  assert (filter (λ x : thread * wire, x.1 = i) (pair j <$> ws) = []) as ->; [|by rewrite app_nil_r].
  induction ws as [|x ws IH]; [done|]. by rewrite fmap_cons, filter_cons_False.
Qed.

(** What is left to read, and the calls that are left for a value *)
Definition left_to_read (str : istream) : nat :=
  String.length (is_rest str) + if is_eof str then 0 else 1.

Definition reader_measure (str : istream) (p : reader_pc) : nat :=
  4 * left_to_read str +
  match p with at_room _ => 3 | at_store _ _ => 2 | at_flush => 1 | _ => 0 end.

Lemma read_value_moves pos st s0 :
  st_reader st = at_value 0 → value_ready (st_threads st) = true → one_column (st_out st) →
  params (glob s0) = ps → rh s0 = rh (st_machine st) → glob s0 = glob (st_machine st) →
  read_so_far pos st →
  ∃ str buf, ('(readBuffer, str) ← readCSVValue (th_stream (st_threads st)) 0; mret (str, at_room readBuffer)) s0 =
      (Ret (str, at_room buf), s0) ∧ is_eof (th_stream (st_threads st)) = false ∧
    left_to_read str < left_to_read (th_stream (st_threads st)) ∧
    read_so_far pos (reader_moved st str (at_room buf) s0 []).
Proof.
  intros Hpc Hready [Hnc _] Hps Hrh Hg (full & last & lines & Hin). rewrite Hpc in Hin.
  destruct Hin as ([Heof Hout] & Hbeh & Hem).
  assert (no_comma (is_rest (th_stream (st_threads st))) = true) as Hnc'.
  { rewrite Hout in Hnc. apply no_comma_tail in Hnc. unfold unread in Hnc.
    rewrite no_comma_app in Hnc. by apply andb_true_iff in Hnc as [? _]. }
  unfold unread in Hout.
  destruct (th_stream (st_threads st)) as [rest eof] eqn:Hstr. simpl in Heof, Hout, Hnc'. subst eof.
  assert (∀ str buf, text_taken lines (Some buf) (reader_at (st_threads st) str (at_room buf)) →
    read_so_far pos (reader_moved st str (at_room buf) s0 [])) as Hnext.
  { intros str buf Htext. exists full, last, lines. simpl. split_and!; [done| |by rewrite app_nil_r].
    by apply (behind_ext _ _ _ _ (st_machine st)). }
  destruct (plain_field rest) eqn:Hpl.
  - exists (mkIstream "" true), rest. rewrite (run_bind _ _ _ _ _ (value_end rest s0 Hps Hpl)).
    split_and!; [done..|unfold left_to_read; simpl; lia|]. apply Hnext.
    unfold value_ready in Hready. rewrite Hpc, Hstr in Hready.
    simpl in *. rewrite Hpl, orb_false_r in Hready. apply andb_true_iff in Hready as [Hx Hempty].
    destruct (th_pipe (st_threads st)); [|done]. by rewrite append_nil_r in Hout.
  - destruct (take_line rest Hnc' Hpl) as (f & rest' & -> & Hf).
    exists (mkIstream rest' false), f. rewrite (run_bind _ _ _ _ _ (value_line f rest' s0 Hps Hf)).
    split_and!; [done..| |]; [unfold left_to_read; cbn [is_rest is_eof]; rewrite !length_append; simpl; lia|].
    apply Hnext. simpl. unfold unread. simpl. by rewrite column_text_snoc, Hout, <-!append_assoc.
Qed.

Lemma room_first pos v vs s s0 :
  offered (v :: vs) s s0 → params (glob s) = ps → rh s = handler_init id →
  ∃ s', make_room s0 = (Ret tt, s') ∧ reader_frame s s' [] [] ∧ collected pos [] [] [] s'.
Proof.
  intros Hoff Hps Hrh. pose proof Hoff as [(sends & recvs & Hs0) _].
  destruct (make_room_first [t] string_types id s0) as (s' & Hr & Hrd).
  { by rewrite Hs0. }
  { rewrite Hs0. simpl. rewrite Hps. apply (sp_output Hp). }
  { simpl. lia. }
  exists s'. split; [done|]. destruct Hrd. split.
  - apply (frame_quiet _ s s0 s' Hoff); rewrite Hs0 in *; simpl in *; congruence.
  - split; [|done]. rewrite Hs0 in *. simpl in *. split; try done; try congruence.
    + exists []. split_and!; [done|constructor|done].
    + by rewrite rd_id, Hrh.
Qed.

(** What was taken apart is shorter than the output. *)
Lemma taken_length prev cur buf st :
  text_taken (prev ++ [cur]) (Some buf) (st_threads st) →
  length prev + String.length cur ≤ String.length (st_out st).
Proof.
  unfold text_taken. destruct (is_eof _); [intros (_ & _ & ->)|intros ->]; rewrite !column_text_snoc;
    (etrans; [|apply column_text_length]); rewrite !length_append; lia.
Qed.

Lemma room_moves pos st buf v vs s0 :
  st_reader st = at_room buf → one_column (st_out st) → params (glob (st_machine st)) = ps →
  todo0.*1 !! pos = Some (m_current_row (it (st_machine st))) →
  offered (v :: vs) (st_machine st) s0 → read_so_far pos st →
  ∃ s' ws rs, make_room s0 = (Ret tt, s') ∧ reader_frame (st_machine st) s' ws rs ∧
    read_so_far pos (reader_moved st (th_stream (st_threads st)) (at_store 0 buf) s' ws).
Proof.
  intros Hpc [_ Hsz] Hps Hpos Hoff (full & last & lines & Hin). rewrite Hpc in Hin.
  destruct Hin as (Htext & Hbeh & Hem).
  destruct Hbeh as [(-> & -> & -> & Hrh)|(prev & cur & -> & Hco & Hst)].
  - destruct (room_first pos v vs _ s0 Hoff Hps Hrh) as (s' & Hr & Hfr & Hco).
    exists s', [], []. split_and!; [done..|]. exists [], [], []. simpl.
    split_and!; [done..|]. by rewrite app_nil_r.
  - pose proof (taken_length _ _ _ _ Htext) as Hlen.
    destruct (room_next pos full last prev cur v vs _ s0 Hoff Hps Hpos Hco Hst)
      as (s' & ws & rs & full' & last' & Hr & Hfr & Hco' & Hem'); [lia|unfold zlength; lia|].
    exists s', ws, rs. split_and!; [done..|]. exists full', last', (prev ++ [cur]). simpl.
    split_and!; [done..|]. rewrite requests_same. by apply Hem'.
Qed.

Lemma store_moves pos st buf s0 :
  st_reader st = at_store 0 buf → params (glob s0) = ps →
  rh s0 = rh (st_machine st) → glob s0 = glob (st_machine st) → read_so_far pos st →
  let p := if is_eof (th_stream (st_threads st)) then at_flush else at_value 0 in
  ∃ d, (t ← outputColumnType 0; csvReaders t buf 0;; n ← outputColumnCount;
      mret (th_stream (st_threads st), if (0 + 1 <? n)%Z then at_value 1 else p)) s0 =
    (Ret (th_stream (st_threads st), p), with_rowdata d s0) ∧
    read_so_far pos (reader_moved st (th_stream (st_threads st)) p (with_rowdata d s0) []).
Proof.
  intros Hpc Hps Hrh Hg (full & last & lines & Hin) p. rewrite Hpc in Hin.
  destruct Hin as (Htext & [Hga Hsm] & Hem). destruct (sp_output Hp) as (Ho & Hn & Hw).
  destruct (csvReaders_run [t] string_types 0 buf s0) as [Hct Hrd];
    [rewrite Hps; apply (sp_output Hp)|simpl; lia|].
  destruct (stage_cell_run t (CString (c_str buf)) 0 s0) as (d & Hst & Hsc & _).
  { by rewrite Hps, Ho. }
  { unfold cell_fits. rewrite (sp_string Hp). simpl. eauto. }
  rewrite (sp_string Hp) in Hst, Hsc. exists d. split.
  - rewrite (run_bind _ _ _ _ _ Hct). rewrite <-Hrd in Hst. rewrite (run_bind _ _ _ _ _ Hst).
    unfold outputColumnCount, get_params. rewrite run_bind_gets. simpl. rewrite Hps. unfold zlength.
    by rewrite Hn.
  - assert (gathered pos full last lines (with_rowdata d s0)) as Hga'
      by (apply (gathered_ext _ _ _ _ (st_machine st)); simpl; congruence).
    unfold p, text_taken in *. destruct (is_eof (th_stream (st_threads st))) eqn:He.
    + exists full, last, lines. simpl. rewrite app_nil_r. destruct Htext as (Hexit & Hempty & Hout).
      split_and!; try done. by exists buf.
    + exists full, last, (lines ++ [buf]). simpl. rewrite app_nil_r, He. split_and!; try done.
      right. exists lines, buf. split_and!; try done. unfold staged. simpl.
      rewrite (sp_string Hp), Hsc. simpl. by rewrite c_str_idemp.
Qed.

Lemma flush_moves pos st v vs s0 :
  st_reader st = at_flush → params (glob (st_machine st)) = ps →
  offered (v :: vs) (st_machine st) s0 → read_so_far pos st →
  ∃ s' ws rs, flush s0 = (Ret tt, s') ∧ reader_frame (st_machine st) s' ws rs ∧
    read_so_far pos (reader_moved st (th_stream (st_threads st)) reader_done s' ws).
Proof.
  intros Hpc Hps Hoff (full & last & lines & Hin). rewrite Hpc in Hin.
  destruct Hin as (Hexit & Htext & [Hga Hsm] & Hem). pose proof Hoff as [(sends & recvs & Hs0) _].
  destruct Hga as [Hrows Hnum Hfull (tb & Htab & Hgrp & Hpend) Hsize Hid Hemt Hex].
  destruct (decide (last = [])) as [->|Hne].
  - destruct Hpend as [[_ ->]|[]]; [|done].
    exists s0, [], []. split_and!.
    + apply flush_empty. rewrite Hs0. simpl. rewrite Htab. unfold front. by case_decide.
    + apply (frame_quiet _ _ s0 s0 Hoff); by rewrite Hs0.
    + exists full, [], lines. simpl. rewrite Hs0, !app_nil_r in *. by split_and!.
  - pose proof (encodes_unique _ _ (pending_some _ _ Hpend Hne) Hgrp) as ->.
    destruct (flush_rows full last v vs (st_machine st) s0 s0)
      as (s' & ws & Hr & Hfr & _ & Hex' & x & -> & Hx); try done; try by rewrite Hs0.
    exists s', [x], [v]. split_and!; [done..|]. exists full, last, lines.
    pose proof (requests_same reader (st_sent st) [x]) as Hreq. simpl in *.
    rewrite Hreq, decide_False by done. split_and!; try done.
    + apply Hex'. by rewrite Hs0.
    + by apply emits_snoc.
Qed.

Lemma reader_call_moves pos st call v vs s0 :
  common st → todo0.*1 !! pos = Some (m_current_row (it (st_machine st))) →
  read_so_far pos st → value_ready (st_threads st) = true →
  reader_call (th_stream (st_threads st)) (st_reader st) = Some call → offered (v :: vs) (st_machine st) s0 →
  ∃ str p s' ws rs, call s0 = (Ret (str, p), s') ∧ reader_frame (st_machine st) s' ws rs ∧
    reader_measure str p < reader_measure (th_stream (st_threads st)) (st_reader st) ∧
    read_so_far pos (reader_moved st str p s' ws).
Proof.
  intros Hcm Hpos Hread Hready Hc Hoff. pose proof Hoff as [(sends & recvs & Hs0) _].
  assert (params (glob s0) = ps ∧ rh s0 = rh (st_machine st) ∧ glob s0 = glob (st_machine st))
    as (Hps0 & Hrh0 & Hg0) by (rewrite Hs0; simpl; rewrite (cm_params _ Hcm); done).
  pose proof (cm_params _ Hcm) as Hps. pose proof (cm_out _ Hcm) as Hout.
  assert (reader_frame (st_machine st) s0 [] []) as Hfr0
    by (apply (frame_quiet _ _ s0 s0 Hoff); by rewrite Hs0).
  pose proof Hread as (full & last & lines & Hin).
  destruct (st_reader st) as [[|col]|buf|[|col] buf| | |] eqn:Hpc; try done;
    injection Hc as <-.
  - destruct (read_value_moves pos st s0 Hpc Hready Hout Hps0 Hrh0 Hg0 Hread)
      as (str & buf & Hr & He & Hlt & Hnext).
    exists str, (at_room buf), s0, [], []. split_and!; [by rewrite He|done|unfold reader_measure; lia|done].
  - destruct (room_moves pos st buf v vs s0 Hpc Hout Hps Hpos Hoff Hread)
      as (s' & ws & rs & Hr & Hfr & Hnext).
    exists (th_stream (st_threads st)), (at_store 0 buf), s', ws, rs. split_and!; [|done|unfold reader_measure; lia|done].
    by rewrite (run_bind _ _ _ _ _ Hr).
  - destruct (store_moves pos st buf s0 Hpc Hps0 Hrh0 Hg0 Hread) as (d & Hr & Hnext).
    eexists _, _, _, [], []. split_and!; [exact Hr| | |exact Hnext].
    + apply (frame_quiet _ _ s0 _ Hoff); by rewrite Hs0.
    + unfold reader_measure. destruct (is_eof _); lia.
  - destruct (flush_moves pos st v vs s0 Hpc Hps Hoff Hread) as (s' & ws & rs & Hr & Hfr & Hnext).
    exists (th_stream (st_threads st)), reader_done, s', ws, rs. split_and!; [|done|unfold reader_measure; lia|done].
    by rewrite (run_bind _ _ _ _ _ Hr).
Qed.

(** ** The calls of the writer *)
Record writer_frame (s s' : machine) (ws rs : list wire) : Prop := {
  wf_exchanged : exchanged s s' ws rs;
  wf_rh : rh s' = rh s;
  wf_glob : glob s' = glob s;
  wf_vmf : vmf s' = vmf s;
  wf_mutex : mutex_free s';
  wf_supervised : supervised s';
}.

Definition writer_moved (st : stream_state) (text : string) (p : writer_pc) (s' : machine)
  (ws rest : list wire) : stream_state :=
  st <| st_machine := s' |> <| st_inputs := rest |>
     <| st_threads := writer_at (st_threads st) text p |>
     <| st_sent := st_sent st ++ (pair writer <$> ws) |>.

Lemma csv_text_snoc rows r :
  csv_text (rows ++ [r]) = csv_text rows +:+ row_csv print_double types r.
Proof.
  unfold csv_text. rewrite fmap_app. generalize (row_csv print_double types <$> rows). intros l.
  cbn [fmap list_fmap]. induction l as [|x l IH]; [done|]. cbn [app].
  by rewrite !concat_text_cons, IH, append_assoc.
Qed.

Lemma take_next {A} (l : list A) n x : l !! n = Some x → take (S n) l = take n l ++ [x].
Proof. apply take_S_r. Qed.

Lemma input_at_number todo r us s :
  input_at types w (r :: todo) us s → m_current_row (it s) = r.1.
Proof.
  intros (_ & rows & k & batches & vs & vdone & Hfit & Har & Hk & Htodo & _).
  destruct (lookup_lt_is_Some_2 _ _ Hk) as [r' Hr]. rewrite (drop_S _ _ _ Hr) in Htodo.
  injection Htodo as -> _. pose proof (ar_number _ _ _ _ Har) as Hn.
  rewrite list_lookup_fmap, Hr in Hn. by injection Hn.
Qed.

Lemma writer_frame_quiet vs s s0 s' :
  offered vs s s0 → chan s' = chan s0 → rh s' = rh s → glob s' = glob s → vmf s' = vmf s →
  writer_frame s s' [] [].
Proof.
  intros [(sends & recvs & ->) [Hm Hs _ _]] Hc Hi Hps Hv.
  split; try done; unfold exchanged, mutex_free, supervised in *; rewrite Hc; [|done..].
  by rewrite !app_nil_r.
Qed.

Lemma print_moves pos st s0 :
  st_writer st = printing → params (glob (st_machine st)) = ps →
  offered (st_inputs st) (st_machine st) s0 → wrote pos st →
  ∃ text s', inputToCSV print_double s0 = (Ret text, s') ∧
    writer_frame (st_machine st) s' [] [] ∧
    wrote pos (writer_moved st text advancing s' [] (st_inputs st)).
Proof.
  intros Hpc Hps Hoff [Hrow Htext Hin Hsent]. pose proof Hoff as [(sends & recvs & Hs0) _].
  rewrite Hpc in *. rewrite decide_True in Htext by done.
  pose proof (list_lookup_fmap_Some fst todo0 pos (m_current_row (it (st_machine st)))) as Hl.
  destruct (proj1 Hl Hrow) as (r & Hn & Hr). rewrite (drop_S _ _ _ Hr) in Hin.
  assert (input_at types w (r :: drop (S pos) todo0) (st_inputs st) s0) as Hin0.
  { eapply (input_at_ext types _ _ _ (m_was_null (it s0)) (st_machine st)); rewrite ?Hs0; try done.
    simpl. by destruct (it (st_machine st)). }
  destruct (input_at_current _ _ _ _ _ _ Hin0) as (rows & k & Hfit & Har & Hk).
  destruct (inputToCSV_looks print_double types rows k r s0 Hfit Har Hk) as [b Hr0].
  { rewrite Hs0. simpl. destruct (sp_inputs Hp) as (? & ? & ?). simpl in *. by rewrite <-Hps in *. }
  exists (row_csv print_double types r), (was_null_set b s0). split_and!; [done| |].
  - apply (writer_frame_quiet _ _ s0 _ Hoff); by rewrite Hs0.
  - split; simpl.
    + by rewrite Hs0.
    + rewrite Htext, (take_next _ _ _ Hr). by rewrite csv_text_snoc.
    + rewrite (drop_S _ _ _ Hr). by eapply (input_at_ext types _ _ _ b s0).
    + by rewrite app_nil_r.
Qed.

(** The calls that are left, at the row [pos] *)
Definition writer_measure (pos : nat) (p : writer_pc) : nat :=
  match p with
  | printing => 3 * (length todo0 - pos) + 2
  | advancing => 3 * (length todo0 - pos) + 1
  | closing => 1
  | writer_done | writer_failed => 0
  end.

Lemma advance_moves pos st s0 :
  st_writer st = advancing → params (glob (st_machine st)) = ps →
  offered (st_inputs st) (st_machine st) s0 → wrote pos st →
  ∃ more s' ws rs rest pos', iterator_next s0 = (Ret more, s') ∧ st_inputs st = rs ++ rest ∧
    writer_frame (st_machine st) s' ws rs ∧ pos ≤ pos' ∧
    writer_measure pos' (if (more : bool) then printing else closing) < writer_measure pos advancing ∧
    wrote pos' (writer_moved st "" (if (more : bool) then printing else closing) s' ws rest).
Proof.
  intros Hpc Hps Hoff [Hrow Htext Hin (used & Hus & Hsent)].
  pose proof Hoff as [(sends & recvs & Hs0) Hsrv]. rewrite Hpc in *. rewrite decide_False in Htext by done.
  destruct (proj1 (list_lookup_fmap_Some fst todo0 pos _) Hrow) as (r & Hn & Hr).
  rewrite (drop_S _ _ _ Hr) in Hin.
  destruct (iterator_advance types w r (drop (S pos) todo0) (st_inputs st) [] s0)
    as (s' & us1 & us2 & Hspl & Hnx & Hst & [Hg Hid Hrh Hv Hsup] & Htu & [Hm Hsu _ _] & Hlast).
  { eapply (input_at_ext types _ _ _ (m_was_null (it s0)) (st_machine st)); rewrite ?Hs0; try done.
    simpl. by destruct (it (st_machine st)). }
  { rewrite Hs0. simpl. rewrite Hps. apply (sp_finish Hp). }
  { by rewrite app_nil_r. }
  pose proof (turn_sent _ _ _ _ Htu) as Hex.
  assert (writer_frame (st_machine st) s' (replicate (length us1) w) us1) as Hfr
    by (rewrite Hs0 in *; by split).
  assert (∀ p text, us0 = (used ++ us1) ++ us2 ∧ requests writer
    (st_sent (writer_moved st text p s' (replicate (length us1) w) us2)) =
    replicate (length (used ++ us1)) w) as Hsent'.
  { intros p text. rewrite Hus, Hspl, app_assoc. split; [done|]. unfold writer_moved. simpl.
    by rewrite requests_same, Hsent, length_app, replicate_add. }
  destruct (drop (S pos) todo0) as [|r2 todo] eqn:Hd; simpl in Hst.
  - destruct Hst as [_ ->]. assert (S pos = length todo0) as Hend.
    { apply (f_equal length) in Hd. rewrite length_drop in Hd. apply lookup_lt_Some in Hr.
      simpl in Hd. lia. }
    exists false, s', (replicate (length us1) w), us1, [], pos. split_and!; try done; [simpl; lia|].
    split; [simpl|simpl; by rewrite append_nil_r|done|by eexists].
    rewrite Hlast by done. by rewrite Hs0.
  - exists true, s', (replicate (length us1) w), us1, us2, (S pos).
    assert (todo0 !! S pos = Some r2) as Hr2.
    { pose proof (lookup_drop todo0 (S pos) 0) as Hl. rewrite Hd, Nat.add_0_r in Hl. by rewrite <-Hl. }
    pose proof (lookup_lt_Some _ _ _ Hr2). split_and!; try done; [lia|simpl; lia|].
    split; [simpl|simpl; by rewrite append_nil_r|simpl; by rewrite Hd|by eexists].
    rewrite (input_at_number _ _ _ _ Hst), list_lookup_fmap, Hr2. done.
Qed.

Lemma writer_call_moves pos st call s0 :
  common st → wrote pos st → writer_call print_double (st_writer st) = Some call →
  offered (st_inputs st) (st_machine st) s0 →
  ∃ text p s' ws rs rest pos', call s0 = (Ret (text, p), s') ∧ st_inputs st = rs ++ rest ∧
    writer_frame (st_machine st) s' ws rs ∧ pos ≤ pos' ∧
    writer_measure pos' p < writer_measure pos (st_writer st) ∧
    wrote pos' (writer_moved st text p s' ws rest).
Proof.
  intros Hcm Hwr Hc Hoff. pose proof (cm_params _ Hcm) as Hps.
  destruct (st_writer st) eqn:Hpc; try done; injection Hc as <-.
  - destruct (print_moves pos st s0 Hpc Hps Hoff Hwr) as (text & s' & Hr & Hfr & Hwr').
    exists text, advancing, s', [], [], (st_inputs st), pos. split_and!; try done; [|simpl; lia].
    by rewrite (run_bind _ _ _ _ _ Hr).
  - destruct (advance_moves pos st s0 Hpc Hps Hoff Hwr)
      as (more & s' & ws & rs & rest & pos' & Hr & Hspl & Hfr & Hle & Hlt & Hwr').
    eexists "", _, s', ws, rs, rest, pos'. split_and!; try done.
    by rewrite (run_bind _ _ _ _ _ Hr).
  - pose proof Hoff as [(sends & recvs & Hs0) _].
    exists "", writer_done, s0, [], [], (st_inputs st), pos. split_and!; try done; [|simpl; lia|].
    + apply (writer_frame_quiet _ _ s0 _ Hoff); by rewrite Hs0.
    + destruct Hwr as [Hrow Htext Hin Hsent]. rewrite Hpc in *.
      split; simpl; rewrite ?Hs0, ?app_nil_r, ?append_nil_r; try done.
Qed.

(** ** The invariant is kept *)
Lemma read_so_far_ext pos pos' st st' :
  pos ≤ pos' → st_reader st' = st_reader st → st_out st' = st_out st →
  (th_stream (st_threads st') = th_stream (st_threads st) ∧
   th_pipe (st_threads st') = th_pipe (st_threads st) ∨
   st_reader st = at_value 0 ∧ unread (st_threads st') = unread (st_threads st) ∧
   is_eof (th_stream (st_threads st')) = is_eof (th_stream (st_threads st))) →
  (th_exited (st_threads st) = true → th_exited (st_threads st') = true) →
  requests reader (st_sent st') = requests reader (st_sent st) →
  rh (st_machine st') = rh (st_machine st) → glob (st_machine st') = glob (st_machine st) →
  read_so_far pos st → read_so_far pos' st'.
Proof.
  intros Hle Hpc Hout Hstr Hexit Hreq Hrh Hg (full & last & lines & Hin).
  assert (∀ lines s, gathered pos full last lines s → gathered pos' full last lines s) as Hmono.
  { intros ls s []. split; try done. by eapply numbered_mono. }
  assert (∀ ls, gathered pos full last ls (st_machine st) →
    gathered pos' full last ls (st_machine st')) as Hga.
  { intros ls Hgt. apply Hmono. apply (gathered_ext _ _ _ _ (st_machine st)); congruence. }
  assert (text_taken lines None (st_threads st) → text_taken lines None (st_threads st')) as Htn.
  { unfold text_taken. rewrite Hout. intros [He Ho]. rewrite Ho.
    destruct Hstr as [[Hst Hpi]|(_ & Hu & Hst)]; unfold unread in *; by rewrite ?Hst, ?Hpi, ?Hu. }
  assert (st_reader st ≠ at_value 0 → ∀ buf, text_taken lines (Some buf) (st_threads st) →
    text_taken lines (Some buf) (st_threads st')) as Htx.
  { intros Hne buf. destruct Hstr as [[Hst Hpi]|[]]; [|done].
    unfold text_taken, unread. rewrite Hst, Hpi, Hout. destruct (is_eof _); [|done].
    intros (? & ? & ?). auto. }
  assert (behind pos full last lines (st_machine st) →
    behind pos' full last lines (st_machine st')) as Hbe.
  { intros [(-> & -> & -> & Hb)|(prev & cur & -> & [Hgt Hsm] & Hst)];
      [left; by rewrite Hrh|right; exists prev, cur]. unfold staged. rewrite Hrh.
    split_and!; [done| |done]. split; [by apply Hga|done]. }
  exists full, last, lines. rewrite Hpc, Hreq.
  destruct (st_reader st) as [[|col]|buf|[|col] buf| | |]; try done.
  - destruct Hin as (? & ? & ?). auto.
  - destruct Hin as (? & ? & ?). auto.
  - destruct Hin as (? & [? ?] & ?). split_and!; auto. split; auto.
  - destruct Hin as (? & ? & [? ?] & ?). rewrite Hout. split_and!; auto. split; auto.
  - destruct Hin as (? & ? & ? & ? & ? & ? & ? & ?). rewrite Hout, Hg. split_and!; auto.
    by eapply numbered_mono.
Qed.

Definition writes_one_column (env : program) : Prop :=
  ∀ fed ended out, p_writes env fed ended out → one_column out.

Lemma guarded_ret {A} (failed a : A) (m : run_of A) s s' :
  m s = (Ret a, s') → guarded failed m s = (Ret a, s').
Proof. apply run_catch_ret. Qed.

Lemma exchanged_unique s s' ws rs ws' rs' :
  exchanged s s' ws rs → exchanged s s' ws' rs' → ws = ws' ∧ rs = rs'.
Proof. intros [H1 H2] [H3 H4]. rewrite H3 in H1. rewrite H4 in H2. apply app_inv_head in H1, H2. by subst. Qed.

Lemma writer_step_keeps st text p s' ws rs rest pos pos' :
  common st → writer_frame (st_machine st) s' ws rs → pos ≤ pos' → read_so_far pos st →
  wrote pos' (writer_moved st text p s' ws rest) →
  invariant_at pos' (writer_moved st text p s' ws rest).
Proof.
  intros [Hal Hm Hsu Hps Hmsg (kept & Hkept) Hfed Hout] [Hex Hrh Hg Hv Hm' Hsu'] Hle Hread Hwr. split.
  - split; simpl; try done; try congruence. exists (kept +:+ text). by rewrite Hkept, append_assoc.
  - split; [done|]. apply (read_so_far_ext pos _ st); try done; [by left|].
    simpl. by apply requests_other.
Qed.

Lemma reader_step_keeps st str p s' ws rs pos :
  common st → reader_frame (st_machine st) s' ws rs → wrote pos st →
  read_so_far pos (reader_moved st str p s' ws) → invariant_at pos (reader_moved st str p s' ws).
Proof.
  intros [Hal Hm Hsu Hps Hmsg Hkept Hfed Hout] [Hex Hit Hps' Hv Hm' Hsu'] Hwr Hread. split.
  - split; simpl; try done; congruence.
  - split; [|done]. destruct Hwr as [Hrow Htext Hin (used & Hus & Hsent)]. split; simpl.
    + by rewrite Hit.
    + done.
    + destruct (st_writer st); try done; unfold input_at in *; rewrite Hit;
        destruct Hin as (? & rows & k & batches & vs & vdone & ? & [] & ?);
        (split; [done|]); exists rows, k, batches, vs, vdone; (split; [done|]);
        (split; [split; rewrite ?Hit, ?Hps'; done|done]).
    + exists used. by rewrite requests_other.
Qed.

Lemma out_grows pos st more :
  th_exited (st_threads st) = false → read_so_far pos st →
  read_so_far pos (st <| st_threads := (st_threads st) <| th_out := st_out st +:+ more |>
    <| th_pipe := th_pipe (st_threads st) +:+ more |> |>).
Proof.
  intros Hexit (full & last & lines & Hin). exists full, last, lines. simpl.
  assert (∀ buf, text_taken lines buf (st_threads st) → text_taken lines buf ((st_threads st)
    <| th_out := st_out st +:+ more |> <| th_pipe := th_pipe (st_threads st) +:+ more |>)) as Htx.
  { intros [buf|]; unfold text_taken, unread; simpl; rewrite ?append_assoc, ?column_text_app.
    - destruct (is_eof _); [intros [??]; congruence|by intros ->].
    - by intros [? ->]. }
  destruct (st_reader st) as [[|col]|buf|[|col] buf| | |]; try done;
    destruct Hin as [Hx Hin]; first [congruence|split; [exact (Htx _ Hx)|exact Hin]].
Qed.

(** The pipes and the program *)
Lemma program_step_keeps env pos st th :
  writes_one_column env → program_step env (st_threads st) th →
  invariant_at pos st → invariant_at pos (st <| st_threads := th |>).
Proof.
  intros Henv Hstep (Hcm & Hwr & Hread).
  assert (∀ th', th_writer th' = st_writer st → th_written th' = st_written st →
    wrote pos (st <| st_threads := th' |>)) as Hwr'.
  { intros th' H1 H2. destruct Hwr. split; simpl; by rewrite ?H1, ?H2. }
  destruct Hcm as [Hal Hm Hsu Hps Hmsg (kept & Hkept) (more0 & Hfed) Hout].
  assert (∀ th', th_out th' = st_out st → th_reader th' = st_reader st →
    th_stream th' = th_stream (st_threads st) → th_pipe th' = th_pipe (st_threads st) →
    (th_exited (st_threads st) = true → th_exited th' = true) →
    read_so_far pos (st <| st_threads := th' |>)) as Hread'.
  { intros. apply (read_so_far_ext pos _ st); try done. by left. }
  destruct st as [s us th0 ss d]. simpl in *.
  destruct Hstep as [th more kept' Hw _|th Hx|th more rest Hx Hw _|th ended more Hx _ Hw _
    |th ended more Hx _ _ _|th ended Hx _ _|th more rest Hready Hpi]; (split; [split; simpl; try done|split]);
    try (by apply Hwr'); try (by apply Hread'); try (by exists kept); try (by exists more0).
  - exists kept'. by rewrite Hw, !append_assoc.
  - exists (more0 +:+ more). by rewrite Hfed, append_assoc.
  - exists "". by rewrite append_nil_r.
  - exists (more0 +:+ kept). by rewrite Hkept, Hfed, append_assoc.
  - exists rest. by rewrite Hw, append_assoc.
  - by eapply Henv.
  - exact (out_grows pos (mkStream s us th ss d) more Hx Hread).
  - apply (read_so_far_ext pos pos (mkStream s us th ss d)); try done.
    right. unfold value_ready in Hready. simpl. destruct Hread as (? & ? & ? & Hin). simpl in Hin.
    destruct (th_reader th) as [[|col]| | | | |]; try done. unfold unread. simpl.
    by rewrite Hpi, <-append_assoc.
Qed.

Lemma stream_step_keeps env st st' :
  writes_one_column env → stream_step print_double env st st' →
  stream_invariant st → stream_invariant st'.
Proof.
  intros Henv Hstep Hinv. pose proof Hinv as (pos & Hcm & Hwr & Hread).
  destruct Hstep as [st call s0 text p s' ws rs rest _ Hc _ Hoff Hr Hex Hin
    |st call v vs s0 str p s' ws rs _ Hc Hready Hoff Hr Hex|st th _ Hst
    |st call s0 o s' _ Hc Hoff Hr Hd|st call v vs s0 o s' _ Hc Hready Hoff Hr Hd].
  - destruct (writer_call_moves pos st call s0 Hcm Hwr Hc Hoff)
      as (text1 & p1 & s1 & ws1 & rs1 & rest1 & pos' & Hr1 & Hin1 & Hfr & Hle & _ & Hwr').
    rewrite (guarded_ret _ _ _ _ _ Hr1) in Hr. injection Hr as -> -> ->.
    destruct (exchanged_unique _ _ _ _ _ _ Hex (wf_exchanged _ _ _ _ Hfr)) as [-> ->].
    rewrite Hin1 in Hin. apply app_inv_head in Hin as ->.
    exists pos'. by eapply writer_step_keeps.
  - destruct (reader_call_moves pos st call v vs s0 Hcm (wr_row _ _ Hwr) Hread Hready Hc Hoff)
      as (str1 & p1 & s1 & ws1 & rs1 & Hr1 & Hfr & _ & Hread').
    rewrite (guarded_ret _ _ _ _ _ Hr1) in Hr. injection Hr as -> -> ->.
    destruct (exchanged_unique _ _ _ _ _ _ Hex (rf_exchanged _ _ _ _ Hfr)) as [-> ->].
    exists pos. by eapply reader_step_keeps.
  - exists pos. by eapply program_step_keeps.
  - destruct (writer_call_moves pos st call s0 Hcm Hwr Hc Hoff) as (text1 & p1 & s1 & ? & ? & ? & ? & Hr1 & _).
    rewrite (guarded_ret _ _ _ _ _ Hr1) in Hr. by injection Hr as <- _.
  - destruct (reader_call_moves pos st call v vs s0 Hcm (wr_row _ _ Hwr) Hread Hready Hc Hoff)
      as (str1 & p1 & s1 & ? & ? & Hr1 & _).
    rewrite (guarded_ret _ _ _ _ _ Hr1) in Hr. by injection Hr as <- _.
Qed.

Lemma start_invariant s :
  params (glob s) = ps → exception_msg (vmf s) = msg0 → rh s = handler_init id →
  input_at types w todo0 us0 s → mutex_free s → supervised s →
  stream_invariant (stream_start us0 s).
Proof.
  intros Hps Hmsg Hrh Hin Hm Hsu. exists 0. split.
  - split; try done; by exists "".
  - assert (∃ r todo, todo0 = r :: todo) as (r & todo & Htodo).
    { destruct Hin as (_ & rows & k & batches & vs & vdone & _ & _ & Hk & -> & _).
      destruct (lookup_lt_is_Some_2 _ _ Hk) as [r Hr]. rewrite (drop_S _ _ _ Hr). by eexists _, _. }
    split.
    + split; simpl; [|done|by rewrite drop_0|by exists []].
      rewrite Htodo in *. simpl. by rewrite (input_at_number _ _ _ _ Hin).
    + exists [], [], []. simpl. split_and!; [done..| |constructor]. by left.
Qed.

Lemma stream_reachable env s st :
  writes_one_column env → params (glob s) = ps → exception_msg (vmf s) = msg0 →
  rh s = handler_init id → input_at types w todo0 us0 s → mutex_free s → supervised s →
  rtc (stream_step print_double env) (stream_start us0 s) st → stream_invariant st.
Proof.
  intros Henv Hps Hmsg Hrh Hin Hm Hsu Hrun. pattern st. revert st Hrun. apply rtc_ind_r.
  - by apply start_invariant.
  - intros st st' _ Hstep. by eapply stream_step_keeps.
Qed.

(** ** Every run can be completed

    Where a program can be, with the pipes as they are: what it has read, written and
    complained; [told] is set once it has met the end of its input. *)
Inductive gets_to (env : program) : bool → string → string → string → Prop :=
  | gets_started : gets_to env false "" "" ""
  | gets_input fed out err more :
      gets_to env false fed out err → p_reads env fed out err →
      gets_to env false (fed +:+ more) out err
  | gets_written told ended fed out err more :
      gets_to env told fed out err → p_writes env fed ended (out +:+ more) →
      gets_to env (told || ended) fed (out +:+ more) err
  | gets_complained told ended fed out err more :
      gets_to env told fed out err → p_complains env fed ended (err +:+ more) →
      String.length (err +:+ more) ≤ pipe_size env →
      gets_to env (told || ended) fed out (err +:+ more).

(** It can end from there, with [rest] still to come: the error output has to stay within
    one pipe, since nobody reads it, and nothing else is asked of what it reads or writes. *)
Inductive can_end (env : program) : string → string → string → string → Prop :=
  | end_now ended rest fed out err :
      (ended = true → rest = "") → p_exits env fed ended out err → can_end env rest fed out err
  | end_reads more rest fed out err :
      p_reads env fed out err → String.length more ≤ pipe_size env →
      can_end env rest (fed +:+ more) out err → can_end env (more +:+ rest) fed out err
  | end_writes ended more rest fed out err :
      (ended = true → rest = "") → p_writes env fed ended (out +:+ more) →
      String.length more ≤ pipe_size env →
      can_end env rest fed (out +:+ more) err → can_end env rest fed out err
  | end_complains ended more rest fed out err :
      (ended = true → rest = "") → p_complains env fed ended (err +:+ more) →
      String.length (err +:+ more) ≤ pipe_size env →
      can_end env rest fed out (err +:+ more) → can_end env rest fed out err.

(** Whatever it has done, it can end. *)
Definition well_behaved (env : program) : Prop :=
  ∀ told fed out err rest, gets_to env told fed out err → (told = true → rest = "") →
    can_end env rest fed out err.

Lemma offered_exists vs s : mutex_free s → supervised s → ∃ s0, offered vs s s0.
Proof.
  intros Hm Hs. exists (s <| chan := (chan s) <| c_sends := replicate (length vs) send_true |>
    <| c_recvs := recv_true <$> vs |> |>).
  split; [by eexists _, _|]. split; [done|done| |]; simpl.
  - clear. induction vs as [|v vs IH]; [done|]. simpl. eexists. split; [|exact IH].
    exists []. split; [by intros ?%elem_of_nil|done].
  - clear. induction vs as [|v vs IH]; [done|]. simpl. eexists. split; [|exact IH].
    exists []. split; [by intros ? ?%elem_of_nil|done].
Qed.

Lemma prefix_cut (a b c d : string) :
  a +:+ b = c +:+ d → String.length a ≤ String.length c → ∃ m, c = a +:+ m ∧ b = m +:+ d.
Proof.
  revert c. induction a as [|x a IH]; intros c Heq Hle; [by exists c|].
  destruct c as [|y c]; simpl in *; [lia|]. injection Heq as -> Heq.
  destruct (IH c Heq) as (m & -> & ->); [lia|]. by exists m.
Qed.

(** The whole input of the program, and what the writer has of it *)
Definition whole_text : string := csv_text todo0.

Lemma csv_text_app a b : csv_text (a ++ b) = csv_text a +:+ csv_text b.
Proof.
  induction b as [|r b IH] using rev_ind; [by rewrite app_nil_r, append_nil_r|].
  by rewrite app_assoc, !csv_text_snoc, IH, append_assoc.
Qed.

Lemma wrote_part pos st : wrote pos st → ∃ tl, whole_text = st_written st +:+ tl.
Proof.
  intros Hwr. rewrite (wr_text _ _ Hwr). set (n := if decide _ then _ else _).
  exists (csv_text (drop n todo0)). by rewrite <-csv_text_app, take_drop.
Qed.

Lemma wrote_all pos st : wrote pos st → st_writer st = writer_done → st_written st = whole_text.
Proof.
  intros Hwr Hd. pose proof (wr_input _ _ Hwr) as Hin. rewrite (wr_text _ _ Hwr).
  rewrite Hd in *. destruct Hin as [Hn _]. rewrite decide_False by done.
  by rewrite firstn_all2 by lia.
Qed.

(** Only the writer and its pipe move, or only the reader and its pipe. *)
Definition writer_only (st st' : stream_state) : Prop :=
  ∃ p written piped, st_threads st' = (st_threads st) <| th_writer := p |>
    <| th_written := written |> <| th_piped := piped |>.
Definition reader_only (st st' : stream_state) : Prop :=
  ∃ p str pipe, st_threads st' = (st_threads st) <| th_reader := p |>
    <| th_stream := str |> <| th_pipe := pipe |>.

Lemma writer_only_refl st : writer_only st st.
Proof. exists (st_writer st), (st_written st), (th_piped (st_threads st)). by destruct (st_threads st). Qed.
Lemma writer_only_trans a b c : writer_only a b → writer_only b c → writer_only a c.
Proof. intros (p & x & y & Hb) (p' & x' & y' & Hc). exists p', x', y'. by rewrite Hc, Hb. Qed.
Lemma reader_only_refl st : reader_only st st.
Proof.
  exists (st_reader st), (th_stream (st_threads st)), (th_pipe (st_threads st)).
  by destruct (st_threads st).
Qed.
Lemma reader_only_trans a b c : reader_only a b → reader_only b c → reader_only a c.
Proof. intros (p & x & y & Hb) (p' & x' & y' & Hc). exists p', x', y'. by rewrite Hc, Hb. Qed.

Section completion.
Context (env : program) (Henv : writes_one_column env).

Notation steps := (rtc (stream_step print_double env)).

Lemma moves_program pos st th :
  invariant_at pos st → program_step env (st_threads st) th →
  steps st (st <| st_threads := th |>) ∧ invariant_at pos (st <| st_threads := th |>).
Proof.
  intros Hinv Hst. split; [|by eapply program_step_keeps].
  apply rtc_once, step_program; [apply Hinv|done].
Qed.

(** The writer makes its next call: the pipe takes what was written before. *)
Lemma writer_goes pos st :
  invariant_at pos st → st_writer st ≠ writer_done →
  th_exited (st_threads st) = true ∨
    String.length (st_written st) ≤ String.length (th_fed (st_threads st)) + pipe_size env →
  ∃ st' pos', steps st st' ∧ invariant_at pos' st' ∧ writer_only st st' ∧
    writer_measure pos' (st_writer st') < writer_measure pos (st_writer st).
Proof.
  intros Hinv Hnd Hroom. pose proof Hinv as (Hcm & Hwr & Hread).
  set (st1 := st <| st_threads := (st_threads st) <| th_piped := st_written st |> |>).
  assert (program_step env (st_threads st) (st_threads st1)) as Hpipe.
  { destruct Hroom as [Hx|Hroom]; [by apply pipe_broken|]. destruct (cm_kept _ Hcm) as [kept Hk].
    unfold st1. cbn [st_threads]. rewrite Hk. apply (pipe_takes env _ kept ""); [|by rewrite <-Hk].
    by rewrite append_nil_r. }
  destruct (moves_program pos st _ Hinv Hpipe) as [Hrun1 (Hcm1 & Hwr1 & Hread1)].
  destruct (writer_call print_double (st_writer st)) as [call|] eqn:Hc.
  2:{ pose proof (wr_input _ _ Hwr) as Hin. by destruct (st_writer st). }
  destruct (offered_exists (st_inputs st) _ (cm_mutex _ Hcm) (cm_supervised _ Hcm)) as [s0 Hoff].
  destruct (writer_call_moves pos st1 call s0 Hcm1 Hwr1 Hc Hoff)
    as (text & p & s' & ws & rs & rest & pos' & Hr & Hin & Hfr & Hle & Hlt & Hwr').
  exists (writer_moved st1 text p s' ws rest), pos'. split_and!.
  - etrans; [exact Hrun1|]. apply rtc_once.
    apply (step_writer print_double env st1 call s0 text p s' ws rs rest); try done; [apply Hcm1| |by apply guarded_ret|apply Hfr].
    unfold flushed. simpl. destruct (th_writer _); first [apply String.eqb_refl|apply Nat.leb_le; lia].
  - by eapply writer_step_keeps.
  - by eexists _, _, _.
  - done.
Qed.

(** It writes to the end, when the program is gone or has all of it but one pipe. *)
Lemma writer_ends n pos st :
  invariant_at pos st → writer_measure pos (st_writer st) ≤ n →
  th_exited (st_threads st) = true ∨
    String.length whole_text ≤ String.length (th_fed (st_threads st)) + pipe_size env →
  ∃ st' pos', steps st st' ∧ invariant_at pos' st' ∧ writer_only st st' ∧
    st_writer st' = writer_done.
Proof.
  revert pos st. induction n as [n IH] using lt_wf_ind. intros pos st Hinv Hn Hroom.
  destruct (decide (st_writer st = writer_done)) as [Hd|Hd].
  { exists st, pos. split_and!; [apply rtc_refl|done|apply writer_only_refl|done]. }
  destruct (writer_goes pos st Hinv Hd) as (st1 & pos1 & Hrun & Hinv1 & Hon & Hlt).
  { destruct Hroom as [?|Hroom]; [by left|right]. destruct Hinv as (_ & Hwr & _).
    destruct (wrote_part _ _ Hwr) as [tl Htl]. apply (f_equal String.length) in Htl.
    rewrite length_append in Htl. lia. }
  destruct (IH _ (Nat.lt_le_trans _ _ _ Hlt Hn) pos1 st1 Hinv1 (le_n _)) as (st2 & pos2 & Hrun2 & Hinv2 & Hon2 & Hd2).
  { destruct Hon as (p & x & y & ->). done. }
  exists st2, pos2. split_and!; [by etrans|done|by eapply writer_only_trans|done].
Qed.

(** The program gets the next piece of its input. *)
Lemma writer_feeds n pos st more rest :
  invariant_at pos st → writer_measure pos (st_writer st) ≤ n →
  whole_text = th_fed (st_threads st) +:+ more +:+ rest → String.length more ≤ pipe_size env →
  ∃ st' pos' kept, steps st st' ∧ invariant_at pos' st' ∧ writer_only st st' ∧
    th_piped (st_threads st') = th_fed (st_threads st) +:+ more +:+ kept.
Proof.
  revert pos st. induction n as [n IH] using lt_wf_ind. intros pos st Hinv Hn Htext Hle.
  pose proof Hinv as (Hcm & Hwr & _). set (fed := th_fed (st_threads st)) in *.
  destruct (wrote_part _ _ Hwr) as [tl Htl]. rewrite Htl, append_assoc in Htext.
  destruct (le_lt_dec (String.length (fed +:+ more)) (String.length (st_written st))) as [Hlong|Hshort].
  - destruct (prefix_cut _ _ _ _ (eq_sym Htext) Hlong) as (later & Hw & _).
    destruct (cm_kept _ Hcm) as [kept Hk]. rewrite Hw in Hk.
    destruct (le_lt_dec (String.length (fed +:+ more)) (String.length (th_piped (st_threads st)))) as [Hl|Hl].
    + destruct (prefix_cut _ _ _ _ Hk Hl) as (m & Hm & _). rewrite <-append_assoc in Hm.
      exists st, pos, m. split_and!; [apply rtc_refl|done|apply writer_only_refl|done].
    + destruct (prefix_cut _ _ _ _ (eq_sym Hk)) as (m & Hm & _); [lia|].
      destruct (moves_program pos st ((st_threads st) <| th_piped := th_piped (st_threads st) +:+ m |>) Hinv)
        as [Hrun Hinv'].
      { apply (pipe_takes env _ m later); [by rewrite Hw, Hm, append_assoc|].
        rewrite <-Hm, length_append. unfold fed. lia. }
      eexists _, pos, "". split_and!; [exact Hrun|exact Hinv'| |].
      * by eexists (st_writer st), (st_written st), _.
      * simpl. by rewrite <-Hm, append_nil_r.
  - assert (st_writer st ≠ writer_done) as Hd.
    { intros Hd. pose proof (wrote_all _ _ Hwr Hd) as Hall. apply (f_equal String.length) in Htext.
      rewrite <-Htl, <-Hall, !length_append in Htext. rewrite length_append in Hshort. lia. }
    destruct (writer_goes pos st Hinv Hd) as (st1 & pos1 & Hrun & Hinv1 & Hon & Hlt).
    { right. rewrite length_append in Hshort. unfold fed in Hshort. lia. }
    assert (th_fed (st_threads st1) = fed) as Hfed by (destruct Hon as (p & x & y & ->); done).
    destruct (IH _ (Nat.lt_le_trans _ _ _ Hlt Hn) pos1 st1 Hinv1 (le_n _))
      as (st2 & pos2 & kept & Hrun2 & Hinv2 & Hon2 & Hp2); [|done|].
    { rewrite Hfed, append_assoc, <-Htext, <-Htl. done. }
    exists st2, pos2, kept. rewrite <-Hfed. split_and!; [by etrans|done|by eapply writer_only_trans|done].
Qed.

(** The reader makes its calls as long as it can, and then empties its pipe. *)
Lemma reader_goes pos st :
  invariant_at pos st → st_reader st ≠ reader_done → value_ready (st_threads st) = true →
  ∃ st', steps st st' ∧ invariant_at pos st' ∧ reader_only st st' ∧
    th_pipe (st_threads st') = th_pipe (st_threads st) ∧
    reader_measure (th_stream (st_threads st')) (st_reader st') <
    reader_measure (th_stream (st_threads st)) (st_reader st).
Proof.
  intros (Hcm & Hwr & Hread) Hnd Hready.
  destruct (reader_call (th_stream (st_threads st)) (st_reader st)) as [call|] eqn:Hc.
  2:{ destruct Hread as (full & last & lines & Hin). by destruct (st_reader st). }
  destruct (offered_exists [wire_empty] _ (cm_mutex _ Hcm) (cm_supervised _ Hcm)) as [s0 Hoff].
  destruct (reader_call_moves pos st call _ _ s0 Hcm (wr_row _ _ Hwr) Hread Hready Hc Hoff)
    as (str & p & s' & ws & rs & Hr & Hfr & Hlt & Hread').
  exists (reader_moved st str p s' ws). split_and!; [|by eapply reader_step_keeps| |done|done].
  - apply rtc_once. eapply step_reader; try done; [apply Hcm|by apply guarded_ret|apply Hfr].
  - exists p, str, (th_pipe (st_threads st)). unfold reader_moved, reader_at. simpl. by destruct (st_threads st).
Qed.

Lemma reader_drains n pos st :
  invariant_at pos st → reader_measure (th_stream (st_threads st)) (st_reader st) ≤ n →
  ∃ st', steps st st' ∧ invariant_at pos st' ∧ reader_only st st' ∧
    (th_pipe (st_threads st') = "" ∨ st_reader st' = reader_done).
Proof.
  revert st. induction n as [n IH] using lt_wf_ind. intros st Hinv Hn.
  destruct (decide (st_reader st = reader_done)) as [Hd|Hd].
  { exists st. split_and!; [apply rtc_refl|done|apply reader_only_refl|by right]. }
  destruct (value_ready (st_threads st)) eqn:Hready.
  - destruct (reader_goes pos st Hinv Hd Hready) as (st1 & Hrun & Hinv1 & Hon & _ & Hlt).
    destruct (IH _ (Nat.lt_le_trans _ _ _ Hlt Hn) st1 Hinv1 (le_n _)) as (st2 & Hrun2 & Hinv2 & Hon2 & Hend).
    exists st2. split_and!; [by etrans|done|by eapply reader_only_trans|done].
  - destruct (moves_program pos st _ Hinv (reader_pulls env _ (th_pipe (st_threads st)) "" Hready
      (eq_sym (append_nil_r _)))) as [Hrun Hinv1].
    eexists. split_and!; [exact Hrun|exact Hinv1| |by left].
    exists (st_reader st), (mkIstream (is_rest (th_stream (st_threads st)) +:+ th_pipe (st_threads st))
      (is_eof (th_stream (st_threads st)))), "". by destruct (st_threads st).
Qed.

Lemma reader_ends n pos st :
  invariant_at pos st → th_exited (st_threads st) = true → th_pipe (st_threads st) = "" →
  reader_measure (th_stream (st_threads st)) (st_reader st) ≤ n →
  ∃ st', steps st st' ∧ reader_only st st' ∧ st_reader st' = reader_done.
Proof.
  revert st. induction n as [n IH] using lt_wf_ind. intros st Hinv Hx Hpipe Hn.
  destruct (decide (st_reader st = reader_done)) as [Hd|Hd].
  { exists st. split_and!; [apply rtc_refl|apply reader_only_refl|done]. }
  destruct (reader_goes pos st Hinv Hd) as (st1 & Hrun & Hinv1 & Hon & Hp1 & Hlt).
  { unfold value_ready. rewrite Hx, Hpipe, orb_true_r. by destruct (st_reader st). }
  destruct (IH _ (Nat.lt_le_trans _ _ _ Hlt Hn) st1 Hinv1) as (st2 & Hrun2 & Hon2 & Hend); try done.
  { destruct Hon as (p & str & pipe & ->). done. }
  { by rewrite Hp1. }
  exists st2. split_and!; [by etrans|by eapply reader_only_trans|done].
Qed.

(** ** The program, once it can end *)
Lemma input_ends ended rest pos st :
  invariant_at pos st → whole_text = th_fed (st_threads st) +:+ rest → (ended = true → rest = "") →
  ∃ st' pos', steps st st' ∧ invariant_at pos' st' ∧ writer_only st st' ∧
    (ended = true → th_ended (st_threads st') = true).
Proof.
  intros Hinv Hall Hended. destruct ended.
  2:{ exists st, pos. split_and!; [apply rtc_refl|done|apply writer_only_refl|done]. }
  rewrite (Hended eq_refl), append_nil_r in Hall.
  destruct (writer_ends _ pos st Hinv (le_n _)) as (st1 & pos1 & Hrun & Hinv1 & Hon & Hd).
  { right. rewrite Hall. lia. }
  exists st1, pos1. split_and!; try done. intros _. unfold th_ended.
  rewrite bool_decide_true by done. destruct Hinv1 as (_ & Hwr & _).
  rewrite (wrote_all _ _ Hwr Hd), Hall. destruct Hon as (p & x & y & ->). apply String.eqb_refl.
Qed.

Lemma not_exited_done pos st : invariant_at pos st → th_exited (st_threads st) = false →
  st_reader st ≠ reader_done.
Proof.
  intros (_ & _ & full & last & lines & Hin) Hx Hd. rewrite Hd in Hin. destruct Hin. congruence.
Qed.

Lemma program_ends rest fed out err :
  can_end env rest fed out err → ∀ pos st,
  invariant_at pos st → th_exited (st_threads st) = false → th_fed (st_threads st) = fed →
  st_out st = out → th_err (st_threads st) = err → whole_text = fed +:+ rest →
  ∃ st' pos', steps st st' ∧ invariant_at pos' st' ∧ th_exited (st_threads st') = true.
Proof.
  induction 1 as [ended rest fed out err Hended Hexit|more rest fed out err Hreads Hle _ IH
    |ended more rest fed out err Hended Hw Hle _ IH|ended more rest fed out err Hended Hc Hle _ IH];
    intros pos st Hinv Hx <- <- <- Hall.
  - destruct (input_ends ended rest pos st Hinv Hall Hended) as (st1 & pos1 & Hrun & Hinv1 & (p & x & y & Hth) & He).
    destruct (moves_program pos1 st1 ((st_threads st1) <| th_exited := true |>) Hinv1) as [Hrun2 Hinv2].
    { apply (program_exits env _ ended); rewrite ?Hth in *; done. }
    eexists _, pos1. split_and!; [etrans; [exact Hrun|exact Hrun2]|exact Hinv2|done].
  - destruct (writer_feeds _ pos st more rest Hinv (le_n _) Hall Hle)
      as (st1 & pos1 & kept & Hrun & Hinv1 & (p & x & y & Hth) & Hp1).
    destruct (moves_program pos1 st1 ((st_threads st1) <| th_fed := th_fed (st_threads st1) +:+ more |>) Hinv1)
      as [Hrun2 Hinv2].
    { apply (program_reads env _ more kept); rewrite ?Hth in *; done. }
    destruct (IH pos1 _ Hinv2) as (st3 & pos3 & Hrun3 & Hinv3 & Hx3); simpl; rewrite ?Hth; try done.
    { by rewrite <-append_assoc. }
    exists st3, pos3. split_and!; [etrans; [exact Hrun|by etrans]|done|done].
  - destruct (input_ends ended rest pos st Hinv Hall Hended) as (st1 & pos1 & Hrun & Hinv1 & (p & x & y & Hth) & He).
    destruct (reader_drains _ pos1 st1 Hinv1 (le_n _)) as (st2 & Hrun2 & Hinv2 & (p2 & x2 & y2 & Hth2) & Hpipe).
    assert (th_exited (st_threads st2) = false) as Hx2 by (rewrite Hth2, Hth; done).
    destruct Hpipe as [Hpipe|Hd]; [|by destruct (not_exited_done _ _ Hinv2 Hx2)].
    destruct (moves_program pos1 st2 ((st_threads st2) <| th_out := st_out st2 +:+ more |>
      <| th_pipe := th_pipe (st_threads st2) +:+ more |>) Hinv2) as [Hrun3 Hinv3].
    { apply (program_writes env _ ended); rewrite ?Hpipe; try done; rewrite Hth2 in *; simpl in *; try done; rewrite ?Hth in *; done. }
    destruct (IH pos1 _ Hinv3) as (st4 & pos4 & Hrun4 & Hinv4 & Hx4); simpl; try done; try (by rewrite Hth2; simpl; rewrite Hth).
    exists st4, pos4. split_and!; [|done|done].
    etrans; [exact Hrun|etrans; [exact Hrun2|etrans; [exact Hrun3|exact Hrun4]]].
  - destruct (input_ends ended rest pos st Hinv Hall Hended) as (st1 & pos1 & Hrun & Hinv1 & (p & x & y & Hth) & He).
    destruct (moves_program pos1 st1 ((st_threads st1) <| th_err := th_err (st_threads st1) +:+ more |>) Hinv1)
      as [Hrun2 Hinv2].
    { apply (program_complains env _ ended); rewrite ?Hth in *; done. }
    destruct (IH pos1 _ Hinv2) as (st3 & pos3 & Hrun3 & Hinv3 & Hx3); simpl; rewrite ?Hth; try done.
    exists st3, pos3. split_and!; [etrans; [exact Hrun|by etrans]|done|done].
Qed.

(** The program is where it can get to. *)
Definition in_step (th : stream_threads) : Prop :=
  th_exited th = true ∨ ∃ told, gets_to env told (th_fed th) (th_out th) (th_err th) ∧
    (told = true → th_ended th = true).

Lemma ended_split told ended th :
  (told = true → th_ended th = true) → (ended = true → th_ended th = true) →
  told || ended = true → th_ended th = true.
Proof. by destruct told, ended; auto. Qed.

Lemma program_in_step th th' :
  (∃ kept, th_written th = th_piped th +:+ kept) →
  program_step env th th' → in_step th → in_step th'.
Proof.
  intros [kept Hk] Hstep Hac.
  destruct Hac as [Hx|(told & Hgets & Htold)].
  { destruct Hstep; try (by left); congruence. }
  destruct Hstep as [th more kept' Hw _|th Hx|th more rest Hx Hw Hr|th ended more Hx He Hw _
    |th ended more Hx He Hw Hle|th ended Hx _ _|th more rest Hready Hpi]; try (by left).
  - right. by exists told.
  - right. destruct told.
    + exists true. unfold th_ended in *. simpl. specialize (Htold eq_refl).
      apply andb_true_iff in Htold as [Hd Heq]. apply String.eqb_eq in Heq.
      assert (more = "") as ->.
      { rewrite Hk, Hw, <-!append_assoc in Heq. apply (f_equal String.length) in Heq.
        rewrite !length_append in Heq. destruct more; [done|simpl in Heq; lia]. }
      rewrite append_nil_r, Hd. split; [done|]. intros _. by apply String.eqb_eq.
    + exists false. split; [by constructor|done].
  - right. exists (told || ended). split; [by constructor|]. by apply (ended_split told ended th).
  - right. exists (told || ended). split; [by constructor|]. by apply (ended_split told ended th).
  - right. by exists told.
Qed.

Lemma stream_in_step st st' :
  stream_invariant st → stream_step print_double env st st' →
  in_step (st_threads st) → in_step (st_threads st').
Proof.
  intros (pos & Hcm & _) Hstep Hac.
  destruct Hstep as [st call s0 text p s' ws rs rest _ Hc| |st th _ Hst| |]; try exact Hac.
  - destruct Hac as [Hx|(told & Hgets & Htold)]; [by left|right]. exists told. split; [done|].
    intros Ht. specialize (Htold Ht). unfold th_ended in Htold.
    apply andb_true_iff in Htold as [Hd _]. apply bool_decide_eq_true in Hd. by rewrite Hd in Hc.
  - eapply program_in_step; [|done..]. apply (cm_kept _ Hcm).
Qed.

Lemma stream_reachable_in_step s st :
  params (glob s) = ps → exception_msg (vmf s) = msg0 →
  rh s = handler_init id → input_at types w todo0 us0 s → mutex_free s → supervised s →
  steps (stream_start us0 s) st → in_step (st_threads st).
Proof.
  intros Hps Hmsg Hrh Hin Hm Hsu Hrun.
  assert (stream_invariant st ∧ in_step (st_threads st)) as [_ Hst]; [|done].
  pattern st. revert st Hrun. apply rtc_ind_r.
  - split; [by apply start_invariant|right]. exists false. split; [constructor|done].
  - intros st st' _ Hstep [Hinv Hac]. split; [by eapply stream_step_keeps|by eapply stream_in_step].
Qed.

(** Both threads end. *)
Lemma streams_finish st :
  well_behaved env → stream_invariant st → in_step (st_threads st) →
  ∃ st', steps st st' ∧ st_writer st' = writer_done ∧ st_reader st' = reader_done.
Proof.
  intros Hwell (pos & Hinv) Hac.
  assert (∃ st1 pos1, steps st st1 ∧ invariant_at pos1 st1 ∧ th_exited (st_threads st1) = true)
    as (st1 & pos1 & Hrun1 & Hinv1 & Hx1).
  { destruct Hac as [Hx|(told & Hgets & Htold)]; [by exists st, pos; split_and!; [apply rtc_refl|..]|].
    destruct (th_exited (st_threads st)) eqn:Hx; [by exists st, pos; split_and!; [apply rtc_refl|..]|].
    pose proof Hinv as (Hcm & Hwr & _). destruct (wrote_part _ _ Hwr) as [tl Htl].
    destruct (cm_kept _ Hcm) as [kept Hk]. destruct (cm_fed _ Hcm) as [more Hf].
    eapply (program_ends (more +:+ kept +:+ tl)); try done.
    - eapply Hwell; [done|]. intros Ht. specialize (Htold Ht). unfold th_ended in Htold.
      apply andb_true_iff in Htold as [Hd Heq]. apply bool_decide_eq_true in Hd.
      apply String.eqb_eq in Heq. rewrite <-(wrote_all _ _ Hwr Hd), Hk, Hf in Htl.
      apply (f_equal String.length) in Htl. rewrite Hk, Hf in Heq. apply (f_equal String.length) in Heq.
      rewrite !length_append in *. destruct more, kept, tl; simpl in *; try done; lia.
    - by rewrite Htl, Hk, Hf, !append_assoc. }
  destruct (writer_ends _ pos1 st1 Hinv1 (le_n _)) as (st2 & pos2 & Hrun2 & Hinv2 & (p & x & y & Hth2) & Hw2);
    [by left|].
  assert (th_exited (st_threads st2) = true) as Hx2 by (rewrite Hth2; done).
  destruct (reader_drains _ pos2 st2 Hinv2 (le_n _)) as (st3 & Hrun3 & Hinv3 & (p3 & x3 & y3 & Hth3) & Hend).
  assert (st_writer st3 = writer_done) as Hw3 by (rewrite Hth3; done).
  destruct Hend as [Hpipe|Hd].
  2:{ exists st3. split_and!; [|done|done]. etrans; [exact Hrun1|by etrans]. }
  destruct (reader_ends (reader_measure (th_stream (st_threads st3)) (st_reader st3)) pos2 st3 Hinv3) as (st4 & Hrun4 & (p4 & x4 & y4 & Hth4) & Hd4); [|done|done|].
  { rewrite Hth3. done. }
  exists st4. split_and!; [|by rewrite Hth4|done].
  etrans; [exact Hrun1|etrans; [exact Hrun2|by etrans]].
Qed.

End completion.

End invariant.

(** ** Properties *)
Section properties.
Context `{Codec} (print_double : Z → string).

(** The machine when the threads start: rows to read, and a fresh result handler *)
Record streams (types : list SWIGVM_columntype_t) (t : SWIGVM_columntype_t) (todo : list row)
    (us : list wire) (w : wire) (s : machine) : Prop := {
  ss_params : streaming_params types t (params (glob s)) (rh_connection_id (rh s));
  ss_handler : rh s = handler_init (rh_connection_id (rh s));
  ss_input : input_at types w todo us s;
  ss_mutex : mutex_free s;
  ss_supervised : supervised s;
}.

Lemma streams_invariant types t todo us w s env st :
  streams types t todo us w s → writes_one_column env →
  rtc (stream_step print_double env) (stream_start us s) st →
  stream_invariant print_double types t (params (glob s)) todo us w (rh_connection_id (rh s))
    (exception_msg (vmf s)) st.
Proof. intros [Hps Hrh Hin Hm Hsu] Henv Hrun. by eapply stream_reachable. Qed.


(** C14. No deadlock, for a program that does its part. For a function with one VARCHAR
    output column and a program that writes no comma, with pipes that hold [pipe_size]
    bytes, a writer that waits for the pipe, a program that waits for both of its outputs
    and a reader that waits for the next delimiter: if the program, from wherever it can
    get to, has some way to its exit that reads and writes as it likes and keeps what it
    writes to the error output within one pipe, then from whatever point the threads and
    the program have come to, and whatever the server has answered to what was emitted,
    there is a way on in which both threads end. *)
Theorem streams_can_finish (types : list SWIGVM_columntype_t) (t : SWIGVM_columntype_t)
  (todo : list row) (us : list wire) (w : wire) (s : machine) (env : program) (st : stream_state) :
  streams types t todo us w s → writes_one_column env → well_behaved env →
  rtc (stream_step print_double env) (stream_start us s) st →
  ∃ st', rtc (stream_step print_double env) st st' ∧
    st_writer st' = writer_done ∧ st_reader st' = reader_done.
Proof.
  intros Hs Henv Hwell Hrun. pose proof (streams_invariant _ _ _ _ _ _ _ _ Hs Henv Hrun) as Hinv.
  eapply (streams_finish print_double); [apply Hs|done|done|exact Hinv|].
  destruct Hs as [Hps Hrh Hin Hm Hsu]. by eapply (stream_reachable_in_step print_double).
Qed.

(** Nobody reads the error output before both threads have ended: a program that writes
    more than a pipe of it before it exits never exits, and the reader never ends. *)
Lemma error_output_deadlock types t todo us w s env st :
  streams types t todo us w s → writes_one_column env →
  (∀ fed ended out err, p_exits env fed ended out err → pipe_size env < String.length err) →
  rtc (stream_step print_double env) (stream_start us s) st →
  th_exited (st_threads st) = false ∧ st_reader st ≠ reader_done.
Proof.
  intros Hs Henv Hmuch Hrun.
  assert (th_exited (st_threads st) = false) as Hx.
  { assert (th_exited (st_threads st) = false ∧
      String.length (th_err (st_threads st)) ≤ pipe_size env) as [? _]; [|done].
    pattern st. revert st Hrun. apply rtc_ind_r; [split; simpl; [done|lia]|].
    intros st st' _ Hstep [Hx Hle]. destruct Hstep as [| |st th _ Hst| |]; try done.
    destruct Hst as [| | | |th ended more ? ? ? ?|th ended ? ? Hexit|]; try done.
    apply Hmuch in Hexit. simpl in *. lia. }
  split; [done|]. destruct (streams_invariant _ _ _ _ _ _ _ _ Hs Henv Hrun) as [pos Hinv].
  by eapply not_exited_done.
Qed.

End properties.

(** ** Witnesses *)
Section witnesses.
#[local] Existing Instance plain_codec.

(** A program that writes the same text whatever its input, bit by bit and at any time,
    over pipes of [size] bytes *)
Definition fixed_program (text : string) (size : nat) : program :=
  mkProgram (λ _ _ _, True) (λ _ _ out, ∃ rest, text = out +:+ rest) (λ _ _ _, False)
    (λ _ ended out _, ended = true ∧ out = text) size size.

Lemma fixed_one_column text size : one_column text → writes_one_column (fixed_program text size).
Proof.
  intros [Hn Hl] fed ended out [rest ->]. rewrite no_comma_app in Hn.
  apply andb_true_iff in Hn as [Hn _]. rewrite length_append in Hl. split; [done|lia].
Qed.

Lemma fixed_gets_to text size told fed out err :
  gets_to (fixed_program text size) told fed out err → ∃ rest, text = out +:+ rest.
Proof. induction 1 as [| |? ? ? ? ? ? ? ? [rest ->]|]; [by exists text|done|by exists rest|done]. Qed.

Lemma fixed_well_behaved text size : 0 < size → well_behaved (fixed_program text size).
Proof.
  intros Hsize told fed out err rest Hgets _. revert fed out Hgets.
  intros fed out [left ->]%fixed_gets_to. revert fed.
  induction rest as [|c rest IH]; intros fed.
  - revert out. induction left as [|c left IH]; intros out.
    + apply (end_now _ true); [done|]. split; [done|]. by rewrite append_nil_r.
    + apply (end_writes _ true (String c "")); [done| |simpl; lia|].
      * exists left. by rewrite <-append_assoc.
      * replace (out +:+ String c left) with ((out +:+ String c "") +:+ left)
          by by rewrite <-append_assoc. apply IH.
  - apply (end_reads _ (String c "") rest); [done|simpl; lia|apply IH].
Qed.

Definition echo_lines : string := "a" +:+ nl +:+ "b" +:+ nl +:+ "lost".
Definition stream_params : SWIGVM_params_t :=
  SWIGVM_params_init <| inp_types := [varchar text_column] |> <| inp_names := ["A"] |>
    <| out_types := [text_type] |> <| out_names := ["C"] |> <| connection_id := 77%Z |>
    <| inp_iter_type := MULTIPLE |> <| out_iter_type := MULTIPLE |>.

(** Two rows to read, the second of them NULL *)
Lemma streams_sample :
  ∃ s, streams [varchar text_column] text_type text_rows [plain_reply text_done]
    (plain_request MT_NEXT 77 body_none) s.
Proof.
  pose (s := (machine_init (prompt [plain_reply text_next; plain_reply text_done]))
    <| glob := Global_init <| params := stream_params |> |>).
  destruct (receive_next_run [varchar text_column] (plain_request MT_NEXT 77 body_none) [text_rows]
    [plain_reply text_next] (plain_reply text_done) (plain_reply text_next)
    [plain_reply text_done] [plain_reply text_done] (iterator_constructed s))
    as (s0 & Hr0 & Hst & [Hg Hid Hrh Hv Hsup] & Htu & [Hm Hsu _ _] & _); try reflexivity.
  { constructor; [apply text_carries|constructor]. }
  { by exists text_done. }
  { apply (serves_chan _ (machine_init (prompt [plain_reply text_next; plain_reply text_done])));
      [reflexivity|]. apply serves_now. }
  exists s0. split; try done.
  - rewrite Hg. split; try done. by intros [? _].
  - by rewrite Hrh.
Qed.


Lemma streams_can_finish_witness :
  ∃ s st', rtc (stream_step to_string (fixed_program echo_lines 1)) (stream_start [plain_reply text_done] s) st' ∧
    st_writer st' = writer_done ∧ st_reader st' = reader_done.
Proof.
  destruct streams_sample as [s Hs]. exists s.
  apply (streams_can_finish to_string _ _ _ _ _ s _ (stream_start [plain_reply text_done] s) Hs
    (fixed_one_column echo_lines 1 ltac:(split; [reflexivity|reflexivity])) (fixed_well_behaved _ 1 Nat.lt_0_1)).
  apply rtc_refl.
Defined.
End witnesses.
