(* ===== verification/StreamRun.v ===== *)
(** * The run of the streaming container ([StreamingVM::run], [streamingcontainer.cc])

    [run] starts the writer and the reader as threads beside each other, waits for both,
    reads the error output of the program and waits for its exit. Which thread runs when,
    what the pipes take and what the program does is a list of moves that the environment
    [shell] chooses; a move that is not possible at its time does nothing, and when the
    moves are used up the process waits for ever. The points of the threads, the pipes and
    what is possible are those of [StreamThreads]. The start of the program ([pipe],
    [fork], [execvp]) succeeds, and so does [waitpid]. *)
From S2P Require Import Prelude SwigCommon Protocol Dto Machine SocketLowLevel.
From S2P Require Import SocketHighLevel MetaData RowCodec TableIterator ResultHandler.
From S2P Require Import RoundTrip ClientMain ClientRun SwigFactory TestContainer BenchmarkContainer.
From S2P Require Import StreamingContainer StreamThreads.

Open Scope string_scope.
Open Scope list_scope.
Open Scope nat_scope.

(** The first [n] characters, and the rest *)
Fixpoint split_at (n : nat) (s : string) : string * string :=
  match n, s with
  | S n, String c s => let (a, b) := split_at n s in (String c a, b)
  | _, _ => ("", s)
  end.

(** ** The moves of the environment *)
Inductive move : Type :=
  | go_writer                     (* the next call of the writer *)
  | go_reader
  | go_take (n : nat)             (* the pipe takes [n] bytes of what was written *)
  | go_break                      (* nobody reads the pipe any more *)
  | go_read (n : nat)             (* the program reads [n] bytes *)
  | go_write (more : string)
  | go_complain (more : string)
  | go_exit
  | go_pull (n : nat).            (* the stream of the reader takes [n] bytes from its pipe *)

Section moves.
Context (pipe_size : nat).
Implicit Types th : stream_threads.

(** What the pipes and the program do, if it is possible *)
Definition program_move (mv : move) th : option stream_threads :=
  match mv with
  | go_writer | go_reader => None
  | go_take n =>
      let more := (split_at n (split_at (String.length (th_piped th)) (th_written th)).2).1 in
      if String.length (th_piped th +:+ more) <=? String.length (th_fed th) + pipe_size
      then Some (th <| th_piped := th_piped th +:+ more |>) else None
  | go_break => if th_exited th then Some (th <| th_piped := th_written th |>) else None
  | go_read n =>
      let more := (split_at n (split_at (String.length (th_fed th)) (th_piped th)).2).1 in
      if th_exited th then None else Some (th <| th_fed := th_fed th +:+ more |>)
  | go_write more =>
      if negb (th_exited th) && (String.length (th_pipe th +:+ more) <=? pipe_size)
      then Some (th <| th_out := th_out th +:+ more |> <| th_pipe := th_pipe th +:+ more |>)
      else None
  | go_complain more =>
      if negb (th_exited th) && (String.length (th_err th +:+ more) <=? pipe_size)
      then Some (th <| th_err := th_err th +:+ more |>) else None
  | go_exit => if th_exited th then None else Some (th <| th_exited := true |>)
  | go_pull n =>
      let (more, rest) := split_at n (th_pipe th) in
      if value_ready th then None
      else Some (th <| th_pipe := rest |>
        <| th_stream := mkIstream (is_rest (th_stream th) +:+ more) (is_eof (th_stream th)) |>)
  end.

Definition after_move (mv : move) th : stream_threads := default th (program_move mv th).
End moves.

(** ** The moves are the steps

    Each move is a step of the relation on which the theorems about the interleaved
    threads rest, for a program that may do anything, and each step of any program is a
    move. *)
Definition any_program (pipe_size buffer_size : nat) : program :=
  mkProgram (λ _ _ _, True) (λ _ _ _, True) (λ _ _ _, True) (λ _ _ _ _, True)
    pipe_size buffer_size.

Record in_order (th : stream_threads) : Prop := {
  io_kept : ∃ kept, th_written th = th_piped th +:+ kept;
  io_fed : ∃ more, th_piped th = th_fed th +:+ more;
}.

Lemma split_at_app n s : (split_at n s).1 +:+ (split_at n s).2 = s.
Proof.
  revert n. induction s as [|c s IH]; intros [|n]; simpl; try done.
  specialize (IH n). destruct (split_at n s). simpl in *. rewrite <-IH. done.
Qed.
Lemma split_at_length a b : split_at (String.length a) (a +:+ b) = (a, b).
Proof. induction a as [|c a IH]; simpl; [by destruct b|by rewrite IH]. Qed.

Lemma split_prefix (a s : string) n :
  (∃ b, s = a +:+ b) →
  ∃ rest, s = a +:+ (split_at n (split_at (String.length a) s).2).1 +:+ rest.
Proof. intros [b ->]. rewrite split_at_length. simpl. eexists. by rewrite split_at_app. Qed.

Lemma program_move_step pipe_size buffer_size mv th th' :
  in_order th → program_move pipe_size mv th = Some th' →
  program_step (any_program pipe_size buffer_size) th th'.
Proof.
  intros [Hkept Hfed] Hmv. destruct mv as [| |n| |n|more|more| |n]; simpl in Hmv; try done.
  - destruct (split_prefix _ _ n Hkept) as [rest Hw]. case_match eqn:Hle; [|done].
    injection Hmv as <-. apply Nat.leb_le in Hle. by eapply pipe_takes.
  - case_match eqn:Hx; [|done]. injection Hmv as <-. by apply pipe_broken.
  - destruct (split_prefix _ _ n Hfed) as [rest Hw]. case_match eqn:Hx; [done|].
    injection Hmv as <-. by eapply program_reads.
  - case_match eqn:Hg; [|done]. injection Hmv as <-.
    apply andb_true_iff in Hg as [Hx%negb_true_iff Hle%Nat.leb_le].
    by apply (program_writes _ _ false).
  - case_match eqn:Hg; [|done]. injection Hmv as <-.
    apply andb_true_iff in Hg as [Hx%negb_true_iff Hle%Nat.leb_le].
    by apply (program_complains _ _ false).
  - case_match eqn:Hx; [done|]. injection Hmv as <-. by apply (program_exits _ _ false).
  - pose proof (split_at_app n (th_pipe th)) as Hs. destruct (split_at n (th_pipe th)) as [more rest].
    case_match eqn:Hr; [done|]. injection Hmv as <-. by apply reader_pulls.
Qed.

Lemma program_step_order env th th' : program_step env th th' → in_order th → in_order th'.
Proof.
  intros Hst [[kept Hk] [more0 Hf]].
  destruct Hst as [th more kept' Hw _|th Hx|th more rest Hx Hw _| | | |]; split; simpl; eauto.
  - exists kept'. by rewrite Hw, !append_assoc.
  - exists (more0 +:+ more). by rewrite Hf, append_assoc.
  - exists "". by rewrite append_nil_r.
  - exists (more0 +:+ kept). by rewrite Hk, Hf, append_assoc.
  - exists rest. by rewrite Hw, append_assoc.
Qed.

Lemma program_step_move env th th' :
  program_step env th th' → ∃ mv, program_move (pipe_size env) mv th = Some th'.
Proof.
  destruct 1 as [th more kept Hw Hle|th Hx|th more rest Hx Hw _|th ended more Hx _ _ Hle
    |th ended more Hx _ _ Hle|th ended Hx _ _|th more rest Hready Hpi].
  - exists (go_take (String.length more)). simpl. rewrite Hw, split_at_length. simpl.
    rewrite split_at_length. simpl. by rewrite (proj2 (Nat.leb_le _ _) Hle).
  - exists go_break. simpl. by rewrite Hx.
  - exists (go_read (String.length more)). simpl. rewrite Hw, split_at_length. simpl.
    by rewrite split_at_length, Hx.
  - exists (go_write more). simpl. by rewrite Hx, (proj2 (Nat.leb_le _ _) Hle).
  - exists (go_complain more). simpl. by rewrite Hx, (proj2 (Nat.leb_le _ _) Hle).
  - exists go_exit. simpl. by rewrite Hx.
  - exists (go_pull (String.length more)). simpl. by rewrite Hpi, split_at_length, Hready.
Qed.

(** The thread has returned from its function. *)
Definition writer_over (p : writer_pc) : bool :=
  match p with writer_done | writer_failed => true | _ => false end.
Definition reader_over (p : reader_pc) : bool :=
  match p with reader_done | reader_failed => true | _ => false end.

Section shell.
Context `{Codec}.

(** What leaves the process: [popen]; the moves in a run that starts in a state, for the
    code of a program; the bytes that a pipe and the stream buffer of the writer hold *)
Record shell : Type := mkShell {
  sh_popen : string → option (string * Z);
  sh_moves : machine → string → list move;
  sh_pipe : nat;
  sh_buffer : nat;
}.

Context (env : shell) (print_double : Z → string).

(** ** The threads beside each other *)

(** One call of a thread; an exception that leaves the thread terminates the process. *)
Definition thread_call {A} (m : run_of A) : run_of A := try_catch m (λ _, abort).

(** Until both threads have returned ([t1.join(); t2.join()]); what is left of the moves *)
Fixpoint run_threads (moves : list move) (th : stream_threads) :
  run_of (list move * stream_threads) :=
  if writer_over (th_writer th) && reader_over (th_reader th) then mret (moves, th)
  else match moves with
  | [] => blocked
  | go_writer :: moves =>
      match writer_call print_double (th_writer th) with
      | Some call =>
          if flushed (sh_buffer env) th then
            '(text, p) ← thread_call (guarded ("", writer_failed) call);
            when (writer_over p) (log ev_thread_end);;
            run_threads moves (writer_at th text p)
          else run_threads moves th
      | None => run_threads moves th
      end
  | go_reader :: moves =>
      match reader_call (th_stream th) (th_reader th) with
      | Some call =>
          if value_ready th then
            '(str, p) ← thread_call (guarded (th_stream th, reader_failed) call);
            when (reader_over p) (log ev_thread_end);;
            run_threads moves (reader_at th str p)
          else run_threads moves th
      | None => run_threads moves th
      end
  | mv :: moves => run_threads moves (after_move (sh_pipe env) mv th)
  end.

(** ** After the threads *)

(** The error output, up to 1000 characters or its end: [readBuffer], and whether the end
    was met *)
Fixpoint read_errors (moves : list move) (th : stream_threads) (readBuffer : string) :
  run_of (list move * stream_threads * string * bool) :=
  let (more, rest) := split_at (1000 - String.length readBuffer) (th_err th) in
  let readBuffer := readBuffer +:+ more in
  let th := th <| th_err := rest |> in
  if negb (String.length readBuffer <? 1000) then mret (moves, th, readBuffer, false)
  else if th_exited th then mret (moves, th, readBuffer, true)
  else match moves with
  | [] => blocked
  | mv :: moves => read_errors moves (after_move (sh_pipe env) mv th) readBuffer
  end.

Definition error_output (readBuffer : string) (eof : bool) : string :=
  if negb eof && negb (str_empty readBuffer) then readBuffer +:+ "..." else readBuffer.

(** [waitpid(pproc_pid, NULL, 0)] *)
Fixpoint wait_exit (moves : list move) (th : stream_threads) : run_of unit :=
  if th_exited th then mret tt
  else match moves with
  | [] => blocked
  | mv :: moves => wait_exit moves (after_move (sh_pipe env) mv th)
  end.

(** ** [run] *)
Definition start_thread : run_of unit :=
  locks ← gets (λ s, use_zmq_socket_locks (chan s)); log (ev_thread_start locks).

Definition stream_run (meta : swig_metadata) : run_of bool :=
  catch_std
    (moves ← gets (λ s, sh_moves env s (scriptCode meta));
     start_thread;;
     start_thread;;
     '(moves, th) ← run_threads moves threads_started;
     msg ← get_exception_msg;
     '(moves, th, readBuffer) ←
       (if str_empty msg then
          '(moves, th, readBuffer, eof) ← read_errors moves th "";
          mret (moves, th, error_output readBuffer eof)
        else mret (moves, th, ""));
     wait_exit moves th;;
     when (negb (str_empty msg)) (throw (SwigException (c_str msg)));;
     when (negb (str_empty readBuffer))
       (throw (SwigException (c_str ("Error output during script execution:" +:+ nl
          +:+ readBuffer)))))
    set_exception_msg;;
  mret true.

Definition stream_singleCall (fn : single_call_function_id_e) (args : script_dto) :
  run_of (option string) :=
  throw (SwigException "singleCall not supported for the STREAMING language container").

Definition StreamingVM (meta : swig_metadata) : SWIGVM := {|
  vm_run := stream_run meta;
  vm_singleCall := stream_singleCall;
  vm_shutdown := mret tt;
  vm_useZmqSocketLocks := mret true;
|}.

Definition make_StreamingVM (lib : library) : run_of (option SWIGVM) :=
  meta ← SWIGMetadata lib;
  SWIGTableIterator lib;;
  SWIGResultHandler lib;;
  when (bool_decide (inputType meta ≠ MULTIPLE) || bool_decide (outputType meta ≠ MULTIPLE))
    (throw (SwigException "STREAMING language container only support SET-EMITS UDFs"));;
  let (ok, res) := mexec (sh_popen env) "chmod +x /tmp/program" "" in
  when (negb ok)
    (throw (SwigException (c_str ("Error when making script code executable: " +:+ res))));;
  mret (Some (StreamingVM meta)).
End shell.
