(* ===== verification/ClientStart.v ===== *)
(** * The start of the process ([exa_udf_client.cc], [exa_vm_factory.cc], [exa_udf_base.cc])

    From [main] to the call of [exaudfclient_main]: the checks of the arguments, the
    choice of the parser, the library and its symbols, the environment, the factory of
    the language container. What the C library answers is the record [host]; the
    preprocessor symbols are the record [build]. Text on [cerr] is left out. *)
From S2P Require Import Prelude SwigCommon Protocol Dto Machine SocketLowLevel.
From S2P Require Import SocketHighLevel MetaData RowCodec TableIterator ResultHandler.
From S2P Require Import RoundTrip ClientMain ClientRun TestContainer BenchmarkContainer.
From S2P Require Import SwigFactory StreamingContainer StreamThreads StreamRun.

Open Scope string_scope.
Open Scope list_scope.
Open Scope nat_scope.

(** ** The environment *)

Record host : Type := mkHost {
  getenv : string → option string;
  dlmopen : string → Z;             (* 0 when the library cannot be loaded *)
  dlsym : Z → string → dl_result;
  setenv_home : bool;               (* setenv("HOME", …) succeeds *)
  setlocale : bool;                 (* setlocale(LC_ALL, "en_US.utf8") != nullptr *)
}.

Record build : Type := mkBuild {
  ENABLE_STREAMING_VM : bool;
  ENABLE_BENCHMARK_VM : bool;
  ENABLE_TEST_VM : bool;
  CUSTOM_LIBEXAUDFLIB_PATH : option string;
}.

(** How the process ends: by [exit], or with the result of [main] *)
Inductive process_end : Type :=
  | exited (status : Z)
  | returned (status : Z).

(** ** Arguments *)
Record ExaUdfClient : Type := mkClient { m_languageArg : string; m_useCtpgParser : bool }.

Definition validate_arguments (argv : list string) : bool :=
  let argc := length argv in
  let arg i := default "" (argv !! i) in
  if (argc <? 3) || (4 <? argc) then false
  else if (argc =? 4) && negb (String.eqb (arg 3) "scriptOptionsParserVersion=1")
          && negb (String.eqb (arg 3) "scriptOptionsParserVersion=2") then false
  else String.eqb (arg 2) "lang=streaming" || String.eqb (arg 2) "lang=benchmark"
       || String.eqb (arg 2) "lang=test".

Definition parse_arguments (h : host) (argv : list string) : option ExaUdfClient :=
  lang ← argv !! 2;
  if bool_decide (getenv h "SCRIPT_OPTIONS_PARSER_VERSION" = Some "2")
  then Some (mkClient lang true)
  else if length argv =? 4 then
    parse_option ← argv !! 3;
    Some (mkClient lang (String.eqb parse_option "scriptOptionsParserVersion=2"))
  else Some (mkClient lang false).

(** ** The library *)
Definition load_library (h : host) (stdLibPath : string) : Z :=
  if str_empty stdLibPath then 0%Z else dlmopen h (c_str stdLibPath).

Definition load_symbol (h : host) (handle : Z) (symbol_name : string) : Z :=
  if (handle =? 0)%Z then 0%Z
  else match dlsym h handle symbol_name with
       | dl_error _ => 0%Z
       | dl_address p => p
       end.

Section start.
Context `{Codec} (h : host) (b : build).
Context (env : shell) (print_double : Z → string).

Definition setup_environment : run_of unit :=
  when (negb (setenv_home h)) (throw (SwigException "Failed to set HOME directory"));;
  when (negb (setlocale h)) (throw (SwigException "Failed to set locale")).

(** ** The factory *)
Definition create_vm (lib : library) (fuel : nat) (argv_lang : string) (use_ctpg_options_parser : bool) :
  run_of (run_of (option SWIGVM)) :=
  if String.eqb argv_lang "lang=streaming" then
    if ENABLE_STREAMING_VM b then mret (make_StreamingVM env print_double lib)
    else throw (SwigException "this exaudfclient has been compilied without Streaming support")
  else if String.eqb argv_lang "lang=benchmark" then
    if ENABLE_BENCHMARK_VM b then mret (make_BenchmarkVM lib fuel)
    else throw (SwigException "this exaudfclient has been compilied without Benchmark support")
  else if String.eqb argv_lang "lang=test" then
    if ENABLE_TEST_VM b then mret (make_TestVM lib fuel)
    else throw (SwigException "this exaudfclient has been compiled without test VM support")
  else throw (SwigException "unsupported language specified in argv").

(** [SWIGVM_params = new SWIGVM_params_t(true); set_SWIGVM_params(SWIGVM_params)] *)
Definition set_SWIGVM_params : run_of unit := upd_params (λ _, SWIGVM_params_init).

(** ** [startClientBase]

    A [std::string] from the null pointer that [getenv] can return, and a call through
    a symbol that was not found, are undefined. *)
Definition startClientBase (fuel : nat) (argv : list string) : run_of process_end :=
  if negb (validate_arguments argv) then mret (exited 1)
  else
    client ← access (parse_arguments h argv);
    libexaudflibPath ← match CUSTOM_LIBEXAUDFLIB_PATH b with
                       | Some path => mret path
                       | None => access (getenv h "LIBEXAUDFLIB_PATH")
                       end;
    let handle := load_library h libexaudflibPath in
    if (handle =? 0)%Z then mret (exited 1)
    else
      let lib := set_exaudflib_handle handle (mkLibrary 0 (dlsym h)) in
      let main_fun := load_symbol h handle "exaudfclient_main" in
      let set_params := load_symbol h handle "set_SWIGVM_params" in
      setup_environment;;
      vmMaker ← create_vm lib fuel (m_languageArg client) (m_useCtpgParser client);
      (if (set_params =? 0)%Z then undef else set_SWIGVM_params);;
      if (main_fun =? 0)%Z then undef
      else
        socket ← access (argv !! 1);
        code ← exaudfclient_main fuel vmMaker socket;
        mret (returned code).

(** [main]: an exception that leaves it terminates the process. *)
Definition main (fuel : nat) (argv : list string) : run_of process_end :=
  try_catch (startClientBase fuel argv) (λ _, abort).
End start.

(** ** The cases of a start *)
Inductive language : Type := streaming | benchmark | test.

#[global] Instance language_eq_dec : EqDecision language.
Proof. solve_decision. Defined.

Definition lang_arg (l : language) : string :=
  match l with
  | streaming => "lang=streaming"
  | benchmark => "lang=benchmark"
  | test => "lang=test"
  end.

Definition lang_enabled (b : build) (l : language) : bool :=
  match l with
  | streaming => ENABLE_STREAMING_VM b
  | benchmark => ENABLE_BENCHMARK_VM b
  | test => ENABLE_TEST_VM b
  end.

Definition versions : list (list string) :=
  [[]; ["scriptOptionsParserVersion=1"]; ["scriptOptionsParserVersion=2"]].

Record arguments (argv : list string) (sock : string) (l : language) (version : list string) :
  Prop := {
  ar_version : version ∈ versions;
  ar_form : ∃ program, argv = program :: sock :: lang_arg l :: version;
}.

Lemma lang_test_true x :
  String.eqb x "lang=streaming" || String.eqb x "lang=benchmark" || String.eqb x "lang=test" = true
  ↔ ∃ l, x = lang_arg l.
Proof.
  rewrite !orb_true_iff, !String.eqb_eq. split.
  - intros [[->| ->]| ->]; [by exists streaming|by exists benchmark|by exists test].
  - intros [[] ->]; auto.
Qed.

Lemma validate_arguments_true argv :
  validate_arguments argv = true ↔ ∃ sock l version, arguments argv sock l version.
Proof.
  unfold validate_arguments. split.
  - destruct argv as [|p [|sock [|lang [|v [|? ?]]]]]; try done.
    + intros Hl%lang_test_true. destruct Hl as [l Hl]. simpl in Hl. subst lang. exists sock, l, [].
      split; [left|by exists p].
    + cbn [length Nat.ltb Nat.leb Nat.eqb orb andb].
      change (default "" ([p; sock; lang; v] !! 3)) with v.
      change (default "" ([p; sock; lang; v] !! 2)) with lang.
      destruct (String.eqb_spec v "scriptOptionsParserVersion=1") as [->|];
        [|destruct (String.eqb_spec v "scriptOptionsParserVersion=2") as [->|]; [|done]];
        (intros [l ->]%lang_test_true); eexists sock, l, _; (split; [|by exists p]);
        [right; left|right; right; left].
  - intros (sock & l & version & [Hv (p & ->)]).
    repeat (apply elem_of_cons in Hv as [->|Hv]); [by destruct l..|by apply elem_of_nil in Hv].
Qed.

Section started.
Context `{Codec} (h : host) (b : build).
Context (env : shell) (print_double : Z → string).

Definition lang_maker (lib : library) (fuel : nat) (l : language) : run_of (option SWIGVM) :=
  match l with
  | streaming => make_StreamingVM env print_double lib
  | benchmark => make_BenchmarkVM lib fuel
  | test => make_TestVM lib fuel
  end.

Lemma create_vm_run lib fuel l ctpg s :
  ∃ what, create_vm b env print_double lib fuel (lang_arg l) ctpg s =
    if lang_enabled b l then (Ret (lang_maker lib fuel l), s) else (Throw (SwigException what), s).
Proof.
  destruct l; unfold create_vm; simpl;
    [destruct (ENABLE_STREAMING_VM b)|destruct (ENABLE_BENCHMARK_VM b)|destruct (ENABLE_TEST_VM b)];
    first [by exists ""|by eexists].
Qed.

(** The path of the library *)
Definition lib_path : option string :=
  match CUSTOM_LIBEXAUDFLIB_PATH b with
  | Some path => Some path
  | None => getenv h "LIBEXAUDFLIB_PATH"
  end.

(** The library and its handle *)
Definition the_library (path : string) : library :=
  set_exaudflib_handle (load_library h path) (mkLibrary 0 (dlsym h)).

(** The library is at [path] with its two main symbols, and the environment can be set. *)
Record host_ready (path : string) : Prop := {
  hr_path : lib_path = Some path;
  hr_library : load_library h path ≠ 0%Z;
  hr_main : load_symbol h (load_library h path) "exaudfclient_main" ≠ 0%Z;
  hr_params : load_symbol h (load_library h path) "set_SWIGVM_params" ≠ 0%Z;
  hr_home : setenv_home h = true;
  hr_locale : setlocale h = true;
}.

Lemma access_lib_path s :
  (match CUSTOM_LIBEXAUDFLIB_PATH b with
   | Some path => mret path
   | None => access (getenv h "LIBEXAUDFLIB_PATH")
   end : run_of string) s =
  match lib_path with Some path => (Ret path, s) | None => (Undef, s) end.
Proof.
  unfold lib_path. destruct (CUSTOM_LIBEXAUDFLIB_PATH b); [done|].
  by destruct (getenv h "LIBEXAUDFLIB_PATH").
Qed.

Lemma parse_arguments_run argv sock l version :
  arguments argv sock l version →
  parse_arguments h argv = Some (mkClient (lang_arg l)
    (bool_decide (getenv h "SCRIPT_OPTIONS_PARSER_VERSION" = Some "2") ||
     bool_decide (version = ["scriptOptionsParserVersion=2"]))).
Proof.
  intros [Hv (p & ->)]. unfold parse_arguments. simpl.
  destruct (bool_decide (getenv h _ = _)); [done|].
  repeat (apply elem_of_cons in Hv as [->|Hv]); [done..|by apply elem_of_nil in Hv].
Qed.

(** The state in which [exaudfclient_main] starts *)
Definition with_fresh_params (s : machine) : machine :=
  s <| glob := (glob s) <| params := SWIGVM_params_init |> |>.
End started.

(** ** Properties *)
Section properties.
Context `{Codec} (h : host) (b : build).
Context (env : shell) (print_double : Z → string).

(** The run of [startClientBase] for arguments of a language, whatever the host *)
Lemma start_run fuel argv sock l version s :
  arguments argv sock l version →
  startClientBase h b env print_double fuel argv s =
    (path ← access (lib_path h b);
     if (load_library h path =? 0)%Z then mret (exited 1)
     else
       setup_environment h;;
       vmMaker ← create_vm b env print_double (the_library h path) fuel (lang_arg l)
         (bool_decide (getenv h "SCRIPT_OPTIONS_PARSER_VERSION" = Some "2") ||
          bool_decide (version = ["scriptOptionsParserVersion=2"]));
       (if (load_symbol h (load_library h path) "set_SWIGVM_params" =? 0)%Z then undef
        else set_SWIGVM_params);;
       if (load_symbol h (load_library h path) "exaudfclient_main" =? 0)%Z then undef
       else code ← exaudfclient_main fuel vmMaker sock; mret (returned code)) s.
Proof.
  intros Ha. unfold startClientBase.
  assert (validate_arguments argv = true) as -> by (apply validate_arguments_true; eauto).
  cbn [negb]. rewrite (run_bind_access _ _ _ _ (parse_arguments_run h argv sock l version Ha)).
  destruct Ha as [_ (p & ->)].
  rewrite !bind_run, access_lib_path. unfold bind_outcome. by destruct (lib_path h b).
Qed.

(** A start with everything in place. With arguments that name a language and a
    host that provides the library, its two symbols and the environment, the process
    is [exaudfclient_main] on the socket of the first argument with the container of
    that language and a fresh parameter block, and ends with its result; when the
    language is not part of the build an exception is thrown instead and nothing has
    changed. *)
Theorem start_client_spec (fuel : nat) (argv : list string) (sock : string) (l : language)
  (version : list string) (path : string) (s : machine) :
  arguments argv sock l version → host_ready h b path →
  if lang_enabled b l then
    startClientBase h b env print_double fuel argv s =
    (code ← exaudfclient_main fuel (lang_maker env print_double (the_library h path) fuel l) sock;
     mret (returned code)) (with_fresh_params s)
  else ∃ what, startClientBase h b env print_double fuel argv s = (Throw (SwigException what), s).
Proof.
  intros Ha [Hp Hlib Hmain Hset Hhome Hloc].
  rewrite (start_run _ _ _ _ _ _ Ha), (run_bind_access _ _ _ _ Hp), (proj2 (Z.eqb_neq _ _) Hlib).
  unfold setup_environment. rewrite Hhome, Hloc. simpl when. rewrite run_bind_bind, !run_bind_ret.
  destruct (create_vm_run b env print_double (the_library h path) fuel l
    (bool_decide (getenv h "SCRIPT_OPTIONS_PARSER_VERSION" = Some "2") ||
     bool_decide (version = ["scriptOptionsParserVersion=2"])) s) as [what Hvm].
  destruct (lang_enabled b l).
  - rewrite (run_bind _ _ _ _ _ Hvm), (proj2 (Z.eqb_neq _ _) Hset), (proj2 (Z.eqb_neq _ _) Hmain).
    done.
  - exists what. by apply run_bind_throw.
Qed.

(** When a status is reported. Arguments outside the language of the usage text end
    the process with status 1 before anything is done. If the process ends with the
    result of the client at all, then the arguments were in that language, the library,
    its symbols and the environment were there, and the language was part of the build:
    that the language is unknown to the factory never happens. *)
Theorem start_client_returned (fuel : nat) (argv : list string) (s : machine) :
  ((¬ ∃ sock l version, arguments argv sock l version) →
   startClientBase h b env print_double fuel argv s = (Ret (exited 1), s)) ∧
  (∀ code s', startClientBase h b env print_double fuel argv s = (Ret (returned code), s') →
   ∃ sock l version path, arguments argv sock l version ∧ host_ready h b path ∧
     lang_enabled b l = true ∧
     exaudfclient_main fuel (lang_maker env print_double (the_library h path) fuel l) sock
       (with_fresh_params s) = (Ret code, s')).
Proof.
  split.
  - intros Hn. unfold startClientBase.
    destruct (validate_arguments argv) eqn:Hv; [|done].
    by apply validate_arguments_true in Hv.
  - intros code s' Hs. destruct (validate_arguments argv) eqn:Hv;
      [|by unfold startClientBase in Hs; rewrite Hv in Hs].
    apply validate_arguments_true in Hv as (sock & l & version & Ha).
    rewrite (start_run _ _ _ _ _ _ Ha) in Hs.
    destruct (lib_path h b) as [path|] eqn:Hp; [|done].
    exists sock, l, version, path. split; [done|]. cbn [access] in Hs. rewrite run_bind_ret in Hs.
    destruct (Z.eqb_spec (load_library h path) 0) as [|Hlib]; [done|].
    unfold setup_environment in Hs.
    destruct (setenv_home h) eqn:Hhome; [|done]. destruct (setlocale h) eqn:Hloc; [|done].
    simpl when in Hs. rewrite run_bind_bind, !run_bind_ret in Hs.
    edestruct (create_vm_run b env print_double (the_library h path) fuel l) as [what Hvm].
    destruct (lang_enabled b l); [|by erewrite run_bind_throw in Hs].
    erewrite run_bind in Hs by exact Hvm.
    destruct (Z.eqb_spec (load_symbol h (load_library h path) "set_SWIGVM_params") 0); [done|].
    destruct (Z.eqb_spec (load_symbol h (load_library h path) "exaudfclient_main") 0); [done|].
    unfold set_SWIGVM_params, upd_params in Hs. rewrite run_bind_modify in Hs.
    apply run_bind_inv in Hs as (m & s1 & Hm & He). injection He as -> ->.
    by split_and!.
Qed.

(** A library without the factory functions. Each of the three containers throws the
    message of the linker before anything of it is built, and the process that made it
    goes on with nothing changed. *)
Theorem missing_factory_spec (fuel : nat) (l : language) (path what : string) (s : machine) :
  load_library h path ≠ 0%Z →
  dlsym h (load_library h path) "create_SWIGMetaData" = dl_error what →
  lang_maker env print_double (the_library h path) fuel l s =
    (Throw (SwigException (c_str
       ("Error when trying to load function 'create_SWIGMetaData': " +:+ what))), s).
Proof.
  intros Hl Hs.
  assert (the_library h path = mkLibrary (load_library h path) (dlsym h)) as Hlib
    by (unfold the_library, set_exaudflib_handle; by rewrite (proj2 (Z.eqb_neq _ _) Hl)).
  rewrite Hlib.
  pose proof (call_symbol_missing (mkLibrary (load_library h path) (dlsym h)) "create_SWIGMetaData"
    what SWIGMetadata_Impl s Hl Hs) as Hm.
  destruct l; by apply (run_bind_throw _ _ _ _ _ Hm).
Qed.

(** Which parser is selected. For valid arguments the ctpg parser is selected exactly
    when the environment variable is "2" or the argument asks for version 2: any other
    value of the variable, "1" included, does not override the argument. *)
Theorem parser_version_spec (argv : list string) (sock : string) (l : language)
  (version : list string) :
  arguments argv sock l version →
  ∃ client, parse_arguments h argv = Some client ∧ m_languageArg client = lang_arg l ∧
    (m_useCtpgParser client = true ↔
     getenv h "SCRIPT_OPTIONS_PARSER_VERSION" = Some "2" ∨
     version = ["scriptOptionsParserVersion=2"]).
Proof.
  intros Ha. eexists. split; [by eapply parse_arguments_run|]. split; [done|].
  simpl. by rewrite orb_true_iff, !bool_decide_eq_true.
Qed.
(** C1. The program end to end. Started with [lang=test], a ready host, a library with the
    factory functions and a build with the test container, the process talks to a server
    whose script is [forward_input] with one VARCHAR column on each side: whatever number of
    messages the rows come in, every row comes back, one MT_EMIT message with the values in
    order under the row numbers of the input, NULLs as NULLs and strings up to their first
    NUL byte, if they stay under 4,000,000 bytes in all (without rows nothing is emitted);
    the container is made, shut down and deleted
    once, and the process ends with status 0. *)
Theorem main_forward_session (argv : list string) (sock : string) (version : list string)
  (w1 w2 v1 v2 : wire) (r1 r2 : exascript_response) (c1 c2 : column_definition)
  (batches : list (list row)) (vs : list wire)
  (vdone w emit_w v_emit v_run v_done run_w done_w finished_w v_end v_fin : wire)
  (fuel : nat) (path : string) (s : machine) :
  let id := rp_connection_id r1 in
  let rows := concat batches in
  let if_rows (x : wire) := match rows with [] => [] | _ => [x] end in
  let replies := hd vdone vs :: v_run :: (tl (vs ++ [vdone]) ++ if_rows v_emit)
    ++ [v_done; v_end; v_fin] in
  arguments argv sock test version → host_ready h b path →
  FactoryLibrary (the_library h path) → ENABLE_TEST_VM b = true →
  socket_name_ok (c_str sock) = true →
  handshake (c_str sock) w1 w2 v1 v2 r1 r2 [varchar c1] [varchar c2] replies s →
  forwarding_script r1 r2 c1 c2 →
  Forall2 (carries [varchar c1] id) vs batches → ends id vdone →
  (echo_size rows < SWIG_MAX_VAR_DATASIZE)%Z → (zlength rows < 2 ^ 64 - 1)%Z →
  serialize (mkRequest MT_NEXT id body_none) = Some w →
  serialize (mkRequest MT_EMIT id (body_emit (table_of (echoed rows)))) = Some emit_w →
  requests id run_w done_w finished_w →
  answered MT_RUN v_run → answered MT_DONE v_done →
  answered MT_CLEANUP v_end → answered MT_FINISHED v_fin →
  3 < fuel → length rows < fuel →
  ∃ s' limits, main h b env print_double fuel argv s = (Ret (returned 0), s') ∧
    Forall limit_event limits ∧
    did s s'
      (ev_socket_open :: limits ++ [ev_vm_make; ev_vm_shutdown; ev_vm_delete]
         ++ end_events (c_str sock))
      ([w1; w2; w; run_w] ++ replicate (length vs) w ++ if_rows emit_w
         ++ [done_w; run_w; finished_w])
      ([v1; v2] ++ replies).
Proof.
  intros id rows emitted replies Ha [Hp Hlib Hmain Hset Hhome Hloc] Hfac Htest Hn Hhs
    Hfs Hvs Hdone Hsize Hcount Hw Hew Hreq Ha1 Ha2 Ha3 Ha4 Hfuel Hk.
  destruct (forward_input_session (the_library h path) sock w1 w2 v1 v2 r1 r2 c1 c2 batches vs vdone w emit_w v_emit
    v_run v_done run_w done_w finished_w v_end v_fin fuel fuel (with_fresh_params s))
    as (s' & limits & Hr & Hlim & Hd); try done.
  { by eapply handshake_upd; [..|exact Hhs]. }
  exists s', limits. split_and!; [|done|exact Hd].
  apply run_catch_ret. rewrite (start_run _ _ _ _ _ _ Ha), (run_bind_access _ _ _ _ Hp).
  rewrite (proj2 (Z.eqb_neq _ _) Hlib). unfold setup_environment. rewrite Hhome, Hloc. simpl when.
  rewrite run_bind_bind, !run_bind_ret. unfold create_vm. simpl. rewrite Htest, run_bind_ret.
  rewrite (proj2 (Z.eqb_neq _ _) Hset), (proj2 (Z.eqb_neq _ _) Hmain).
  unfold set_SWIGVM_params, upd_params. rewrite run_bind_modify. by rewrite (run_bind _ _ _ _ _ Hr).
Qed.
End properties.

(** ** Witnesses *)
Section witnesses.
#[local] Existing Instance plain_codec.

Definition sample_host : host :=
  mkHost (λ v, if String.eqb v "LIBEXAUDFLIB_PATH" then Some "/lib/libexaudflib.so"
               else if String.eqb v "SCRIPT_OPTIONS_PARSER_VERSION" then Some "1" else None)
    (λ _, 1%Z) (λ _ _, dl_address 2) true true.
Definition sample_build : build := mkBuild false true true None.
Definition sample_shell : shell := mkShell (λ _, None) (λ _ _, []) 65536 8191.
Definition sample_argv (l : language) (version : list string) : list string :=
  "exaudfclient" :: "tcp://db:9" :: lang_arg l :: version.

Lemma sample_arguments l : arguments (sample_argv l []) "tcp://db:9" l [].
Proof. split; [left|by eexists]. Qed.
Lemma sample_ready : host_ready sample_host sample_build "/lib/libexaudflib.so".
Proof. by split. Qed.
Lemma sample_factory : FactoryLibrary (the_library sample_host "/lib/libexaudflib.so").
Proof. split; [done|]. intros name _. by exists 2%Z. Qed.

Lemma start_client_spec_witness :
  ∃ what, startClientBase sample_host sample_build sample_shell to_string 9
    (sample_argv streaming []) (machine_init (prompt [])) =
    (Throw (SwigException what), machine_init (prompt [])).
Proof.
  exact (start_client_spec sample_host sample_build sample_shell to_string 9
    (sample_argv streaming []) "tcp://db:9" streaming [] "/lib/libexaudflib.so" (machine_init (prompt []))
    (sample_arguments streaming) sample_ready).
Defined.

Lemma parser_version_spec_witness :
  ∃ client, parse_arguments sample_host
      (sample_argv test ["scriptOptionsParserVersion=2"]) = Some client ∧
    m_useCtpgParser client = true.
Proof.
  destruct (parser_version_spec sample_host (sample_argv test ["scriptOptionsParserVersion=2"])
    "tcp://db:9" test ["scriptOptionsParserVersion=2"]) as (client & Hp & _ & Hv).
  - split; [right; right; left|by eexists].
  - exists client. split; [exact Hp|]. apply Hv. by right.
Defined.

Lemma main_forward_session_witness :
  let s := machine_init
    (prompt (plain_reply text_info :: plain_reply text_meta :: text_replies)) in
  ∃ s', main sample_host sample_build sample_shell to_string 4 (sample_argv test []) s =
      (Ret (returned 0), s') ∧
    plain_request MT_EMIT 77 (body_emit (table_of text_rows)) ∈ sent (c_trace (chan s')).
Proof.
  intros s. destruct (main_forward_session sample_host sample_build sample_shell to_string
    (sample_argv test []) "tcp://db:9" [] _ _ _ _ text_info text_meta text_column
    text_column [text_rows] [plain_reply text_next] (plain_reply text_done)
    (plain_request MT_NEXT 77 body_none)
    (plain_request MT_EMIT 77 (body_emit (table_of text_rows)))
    (reply_of MT_EMIT) (reply_of MT_RUN) (reply_of MT_DONE) _ _ _ (reply_of MT_CLEANUP)
    (reply_of MT_FINISHED) 4 "/lib/libexaudflib.so" s (sample_arguments test) sample_ready sample_factory
    eq_refl eq_refl
    (handshake_now "tcp://db:9" text_info text_meta _ _ text_replies eq_refl eq_refl eq_refl
      eq_refl) ltac:(by split) ltac:(constructor; [apply text_carries|constructor])
    ltac:(by exists text_done) ltac:(reflexivity) ltac:(reflexivity) eq_refl eq_refl
    (requests_now 77) (answered_now MT_RUN) (answered_now MT_DONE) (answered_now MT_CLEANUP)
    (answered_now MT_FINISHED) ltac:(lia) ltac:(simpl; lia)) as (s' & limits & Hr & _ & tr & Ht & _ & Hs & _).
  exists s'. split; [exact Hr|]. rewrite Ht. simpl. rewrite Hs. simpl.
  do 5 right. left.
Defined.
End witnesses.
