(* ===== verification/Session.v ===== *)
(** * The life cycle of the client, for every environment

    The events of the process follow an automaton: the REQ socket is opened, sends and
    receives strictly in turn and is closed; the container is made when the connection is
    up, shut down and deleted before the socket is closed; threads run only while it
    exists, with the lock of the socket in use, and have returned before it is shut down.
    The automaton is the abstract
    specification of [exaudfclient_main]; it is refined whatever the server, the operating
    system and the script do, by every container whose operations leave the socket
    between two exchanges. *)
From S2P Require Import Prelude SwigCommon Protocol Dto Machine SocketLowLevel.
From S2P Require Import SocketHighLevel MetaData RowCodec TableIterator ResultHandler.
From S2P Require Import RoundTrip ClientMain ClientRun SwigFactory TestContainer BenchmarkContainer.
From S2P Require Import StreamingContainer StreamThreads StreamRun ClientStart.

Open Scope string_scope.
Open Scope list_scope.
Open Scope nat_scope.

(** ** The automaton *)
Inductive sock_phase : Type := closed | ready | waiting.
(** A container that exists, with the number of its threads that are running *)
Inductive vm_phase : Type := no_vm | alive_with (threads : nat) | deleted.
Abbreviation alive := (alive_with 0).

Section automaton.
Context `{Codec}.

(** One event: the phases of the socket and of the container before and after it *)
Inductive step : sock_phase * vm_phase → event → sock_phase * vm_phase → Prop :=
  | step_open v : step (closed, v) ev_socket_open (ready, v)
  | step_send w v : step (ready, v) (ev_send w) (waiting, v)
  | step_recv w v : step (waiting, v) (ev_recv w) (ready, v)
  | step_close k v : k ≠ closed → step (k, v) ev_socket_close (closed, v)
  | step_limit r l : step (ready, no_vm) (ev_setrlimit r l) (ready, no_vm)
  | step_make : step (ready, no_vm) ev_vm_make (ready, alive)
  | step_shutdown : step (ready, alive) ev_vm_shutdown (ready, alive)
  | step_delete : step (ready, alive) ev_vm_delete (ready, deleted)
  | step_thread_start n :
      step (ready, alive_with n) (ev_thread_start true) (ready, alive_with (S n))
  | step_thread_end n : step (ready, alive_with (S n)) ev_thread_end (ready, alive_with n)
  | step_unlink path v : step (closed, v) (ev_unlink path) (closed, v)
  | step_sleep us p : step p (ev_sleep us) p.

Inductive run (p : sock_phase * vm_phase) : list event → sock_phase * vm_phase → Prop :=
  | run_nil : run p [] p
  | run_snoc tr q e r : run p tr q → step q e r → run p (tr ++ [e]) r.

(** In every run there is no reply without a request. *)
Definition open_requests (p : sock_phase * vm_phase) : nat :=
  match p.1 with waiting => 1 | _ => 0 end.

Lemma run_replies tr p :
  run (closed, no_vm) tr p → length (received tr) + open_requests p ≤ length (sent tr).
Proof.
  induction 1 as [|tr q e r _ IH Hs]; [done|]. rewrite received_app, sent_app, !length_app.
  revert IH. destruct Hs as [| | |[]| | | | | | | |? [[] ?]]; unfold open_requests; simpl; lia.
Qed.
End automaton.

(** ** Programs that follow it *)
Section triples.
Context `{Codec}.

(** What was there before: the events, and whether the socket is known to be locked *)
Record background : Type := mkBackground { fr_trace : list event; fr_locks : option bool }.

Context (t0 : background).

(** After the events of [t0], some run has led to the phases [p]. *)
Definition stands (p : sock_phase * vm_phase) (s : machine) : Prop :=
  (∃ tr, c_trace (chan s) = fr_trace t0 ++ tr ∧ run (closed, no_vm) tr p) ∧
  ∀ b, fr_locks t0 = Some b → use_zmq_socket_locks (chan s) = b.

(** The same, with nothing but the channel changed since [s0] *)
Definition here (s0 : machine) (p : sock_phase * vm_phase) (s : machine) : Prop :=
  stands p s ∧ same_but_chan s0 s.

(** However [m] ends its events are a run; [Q] and [R] say where it stands when it
    returns or throws. *)
Definition triple {A} (P : machine → Prop) (m : run_of A) (Q : A → machine → Prop)
  (R : machine → Prop) : Prop := ∀ s, P s →
  match m s with
  | (Ret a, s') => Q a s'
  | (Throw _, s') => R s'
  | (_, s') => ∃ p, stands p s'
  end.

Lemma triple_bind {A B} P Q1 Q R (m : run_of A) (f : A → run_of B) :
  triple P m Q1 R → (∀ a, triple (Q1 a) (f a) Q R) → triple P (m ≫= f) Q R.
Proof.
  intros Hm Hf s Hs. specialize (Hm s Hs). rewrite bind_run. unfold bind_outcome.
  destruct (m s) as [[a|e| | |] s']; try done. by apply Hf.
Qed.

Lemma triple_catch {A} P Q R1 R (m : run_of A) h :
  triple P m Q R1 → (∀ e, triple R1 (h e) Q R) → triple P (try_catch m h) Q R.
Proof.
  intros Hm Hh s Hs. specialize (Hm s Hs). unfold try_catch.
  destruct (m s) as [[a|e| | |] s'] eqn:Hr; try done. by apply Hh.
Qed.

Lemma triple_mono {A} (P P' : machine → Prop) (Q Q' : A → machine → Prop) (R R' : machine → Prop) m :
  triple P' m Q' R' → (∀ s, P s → P' s) → (∀ a s, Q' a s → Q a s) → (∀ s, R' s → R s) →
  triple P m Q R.
Proof.
  intros Hm HP HQ HR s Hs. specialize (Hm s (HP s Hs)).
  destruct (m s) as [[a|e| | |] s']; auto.
Qed.

Lemma triple_ret {A} P (R : machine → Prop) (a : A) : triple P (mret a) (λ _, P) R.
Proof. by intros s. Qed.

Lemma triple_gets {A} P (R : machine → Prop) (f : machine → A) :
  triple P (gets f) (λ _, P) R.
Proof. by intros s. Qed.

Lemma triple_log p e q (R : machine → Prop) :
  step p e q → triple (stands p) (log e) (λ _, stands q) R.
Proof.
  intros He s ((tr & Ht & Hr) & Hl). split; [|exact Hl].
  exists (tr ++ [e]). simpl. rewrite Ht, app_assoc. split; [done|]. by eapply run_snoc.
Qed.

(** [same_trace]: a routine that logs nothing *)
Lemma stands_chan p s s' :
  c_trace (chan s') = c_trace (chan s) →
  use_zmq_socket_locks (chan s') = use_zmq_socket_locks (chan s) → stands p s → stands p s'.
Proof. intros Ht Hl ((tr & Htr & Hr) & Hb). split; [exists tr; by rewrite Ht|by rewrite Hl]. Qed.

(** ** The transport *)
Definition quiet {A} (m : run_of A) : Prop :=
  ∀ s0 p, triple (here s0 p) m (λ _, here s0 p) (λ _, False).

Lemma quiet_bind {A B} (m : run_of A) (f : A → run_of B) :
  quiet m → (∀ a, quiet (f a)) → quiet (m ≫= f).
Proof. intros Hm Hf s0 p. eapply triple_bind; [apply Hm|]. intros a. apply Hf. Qed.
Lemma quiet_ret {A} (a : A) : quiet (mret a).
Proof. by intros s0 p s. Qed.
Lemma quiet_gets {A} (f : machine → A) : quiet (gets f).
Proof. by intros s0 p s. Qed.
Lemma quiet_stop {A} (o : outcome exn A) :
  match o with Ret _ | Throw _ => False | _ => True end → quiet (λ s, (o, s)).
Proof. intros Ho s0 p s [Hs _]. destruct o; try done; by exists p. Qed.
Lemma quiet_upd_chan f :
  (∀ c, c_trace (f c) = c_trace c) →
  (∀ c, use_zmq_socket_locks (f c) = use_zmq_socket_locks c) → quiet (upd_chan f).
Proof.
  intros Hf Hl s0 p s [Hs Hsame].
  split; [eapply stands_chan; [..|exact Hs]; simpl; [apply Hf|apply Hl]|].
  by destruct Hsame.
Qed.
Lemma quiet_sleep us : quiet (usleep us).
Proof.
  intros s0 p s [Hs Hsame]. split; [|by destruct Hsame].
  by apply (triple_log p (ev_sleep us) p (λ _, False) (step_sleep us p) s).
Qed.
Lemma quiet_when b m : quiet m → quiet (when b m).
Proof. destruct b; [done|]. intros _. apply quiet_ret. Qed.

Lemma quiet_check : quiet external_process_check.
Proof.
  apply quiet_bind; [apply quiet_gets|]. intros []; [apply quiet_ret|].
  apply quiet_bind; [|intros []; [apply quiet_ret|apply quiet_bind; [apply quiet_sleep|intros; by apply quiet_stop]]].
  intros s0 p s [Hs Hsame]. unfold access_socket_file.
  destruct (c_access (chan s)); (split; [by eapply stands_chan|by destruct Hsame]).
Qed.

Lemma quiet_locks : quiet lock_if_used ∧ quiet unlock_if_used.
Proof.
  split; (apply quiet_bind; [apply quiet_gets|]; intros b; apply quiet_when;
    apply quiet_bind; [apply quiet_gets|]; intros []; first [by apply quiet_stop|by apply quiet_upd_chan]).
Qed.

Lemma here_log s0 p e q (R : machine → Prop) :
  step p e q → triple (here s0 p) (log e) (λ _, here s0 q) R.
Proof.
  intros He s [Hs Hsame]. split; [|by destruct Hsame].
  by apply (triple_log p e q R He s).
Qed.

Lemma socket_send_triple s0 v w :
  triple (here s0 (ready, v)) (socket_send w) (λ _, here s0 (waiting, v)) (λ _, False).
Proof.
  eapply triple_bind; [apply triple_gets|]. intros script.
  induction script as [|answer script IH]; cbn [socket_send_loop];
    (eapply triple_bind; [apply quiet_locks|intros ?]).
  { intros s [Hs _]. by eexists. }
  eapply triple_bind; [by apply quiet_upd_chan|intros ?].
  destruct answer.
  - eapply triple_bind; [apply here_log, step_send|intros ?]. apply quiet_locks.
  - do 3 (eapply triple_bind; [first [apply quiet_check|apply quiet_locks|apply quiet_sleep]|intros ?]). done.
  - do 3 (eapply triple_bind; [first [apply quiet_check|apply quiet_locks|apply quiet_sleep]|intros ?]). done.
Qed.

Lemma socket_recv_triple s0 v roe :
  triple (here s0 (waiting, v)) (socket_recv roe)
    (λ o s, match o with
            | Some _ => here s0 (ready, v) s
            | None => roe = true ∧ here s0 (waiting, v) s
            end) (λ _, False).
Proof.
  eapply triple_bind; [apply triple_gets|]. intros script.
  induction script as [|answer script IH]; cbn [socket_recv_loop];
    (eapply triple_bind; [apply quiet_locks|intros ?]).
  { intros s [Hs _]. by eexists. }
  eapply triple_bind; [by apply quiet_upd_chan|intros ?].
  destruct answer.
  - eapply triple_bind; [apply here_log, step_recv|intros ?].
    eapply triple_bind; [apply quiet_locks|intros ?]. by intros s.
  - do 2 (eapply triple_bind; [first [apply quiet_check|apply quiet_locks]|intros ?]).
    destruct roe; [by intros s|]. eapply triple_bind; [apply quiet_sleep|intros ?]. done.
  - do 2 (eapply triple_bind; [first [apply quiet_check|apply quiet_locks]|intros ?]).
    destruct roe; [by intros s|]. eapply triple_bind; [apply quiet_sleep|intros ?]. done.
Qed.
End triples.

(** ** Polite programs

    [polite v m]: started between two exchanges, [m] ends between two exchanges, if it
    returns or throws; [waits v m]: the same for the rest of an exchange. The database
    [polite] holds what is known to be polite, and [polite_auto] walks through a program. *)
Section polite.
Context `{Codec}.

Definition polite {A} (v : vm_phase) (m : run_of A) : Prop :=
  ∀ t0, triple t0 (stands t0 (ready, v)) m (λ _, stands t0 (ready, v)) (stands t0 (ready, v)).
Definition waits {A} (v : vm_phase) (m : run_of A) : Prop :=
  ∀ t0, triple t0 (stands t0 (waiting, v)) m (λ _, stands t0 (ready, v)) (stands t0 (ready, v)).

Context (v : vm_phase).

Lemma polite_bind {A B} (m : run_of A) (f : A → run_of B) :
  polite v m → (∀ a, polite v (f a)) → polite v (m ≫= f).
Proof. intros Hm Hf t0. eapply triple_bind; [apply Hm|]. intros a. apply Hf. Qed.
Lemma polite_catch {A} (m : run_of A) h :
  polite v m → (∀ e, polite v (h e)) → polite v (try_catch m h).
Proof. intros Hm Hh t0. eapply triple_catch; [apply Hm|]. intros e. apply Hh. Qed.
Lemma polite_modify f : (∀ s, chan (f s) = chan s) → polite v (modify f).
Proof. intros Hf t0 s Hs. eapply stands_chan; [..|exact Hs]; by rewrite Hf. Qed.
Lemma polite_here {A} (o : outcome exn A) : polite v (λ s, (o, s)).
Proof. intros t0 s Hs. destruct o; try done; by eexists. Qed.
Lemma polite_when b m : polite v m → polite v (when b m).
Proof. destruct b; [done|]. intros _. apply polite_here. Qed.
Lemma polite_access {A} (o : option A) : polite v (access o).
Proof. destruct o; apply polite_here. Qed.
Lemma polite_massert b : polite v (massert b).
Proof. destruct b; apply polite_here. Qed.
Lemma polite_gets {A} (f : machine → A) : polite v (gets f).
Proof. by intros t0 s. Qed.

(** A request, then the rest of the exchange *)
Lemma polite_send {B} w (f : unit → run_of B) :
  (∀ a, waits v (f a)) → polite v (socket_send w ≫= f).
Proof.
  intros Hf t0. eapply triple_bind; [|intros a; apply Hf].
  intros s Hs. pose proof (socket_send_triple t0 s v w s) as Ht.
  specialize (Ht (conj Hs (reflexivity s))).
  destruct (socket_send w s) as [[a|e| | |] s']; [apply Ht|done|done..].
Qed.

Lemma polite_request {B} t b error (f : unit → run_of B) :
  (∀ a, waits v (f a)) → polite v (request_or_throw t b error ≫= f).
Proof.
  intros Hf t0 s Hs. unfold request_or_throw, make_request, get_params.
  rewrite run_bind_bind, run_bind_bind, run_bind_gets, run_bind_ret.
  destruct (serialize _) as [w|]; [|done]. by apply (polite_send w f Hf t0 s).
Qed.

Lemma waits_recv {B} (f : option wire → run_of B) :
  (∀ o, polite v (f o)) → waits v (socket_recv false ≫= f).
Proof.
  intros Hf t0. eapply triple_bind; [|intros a; apply Hf].
  intros s Hs. pose proof (socket_recv_triple t0 s v false s) as Ht.
  specialize (Ht (conj Hs (reflexivity s))).
  destruct (socket_recv false s) as [[[w|]|e| | |] s']; try done; [apply Ht|by destruct Ht].
Qed.

Lemma waits_modify {B} g (f : unit → run_of B) :
  (∀ s, chan (g s) = chan s) → (∀ a, waits v (f a)) → waits v (modify g ≫= f).
Proof.
  intros Hg Hf t0 s Hs. rewrite run_bind_modify. apply Hf.
  eapply stands_chan; [..|exact Hs]; by rewrite Hg.
Qed.

Lemma waits_response {B} (f : option exascript_response → run_of B) :
  (∀ o, polite v (f o)) → waits v (receive_response ≫= f).
Proof.
  intros Hf t0 s Hs. unfold receive_response. rewrite run_bind_bind.
  by apply (waits_recv (λ w, mret (parse (default wire_empty w)) ≫= f)); [intros o; apply Hf|].
Qed.

Lemma waits_response_or_throw {B} error (f : exascript_response → run_of B) :
  (∀ r, polite v (f r)) → waits v (response_or_throw error ≫= f).
Proof.
  intros Hf t0 s Hs. unfold response_or_throw. rewrite run_bind_bind.
  apply waits_response; [|done]. intros [r|]; [apply Hf|apply (polite_here (Throw _))].
Qed.
End polite.

Create HintDb polite.
#[export] Hint Resolve polite_access polite_massert polite_gets polite_when : polite.

Ltac polite_step :=
  lazymatch goal with
  | |- polite _ (socket_send _ ≫= _) => apply polite_send; intros ?
  | |- polite _ (request_or_throw _ _ _ ≫= _) => apply polite_request; intros ?
  | |- polite _ (mbind _ _) => apply polite_bind; [|intros ?]
  | |- polite _ (try_catch _ _) => apply polite_catch; [|intros ?]
  | |- polite _ (let _ := _ in _) => cbv zeta
  | |- polite _ (match ?x with _ => _ end) => destruct x
  | |- polite _ (mret ?a) => apply (polite_here _ (Ret a))
  | |- polite _ (throw ?e) => apply (polite_here _ (Throw e))
  | |- polite _ abort => apply (polite_here _ Abort)
  | |- polite _ blocked => apply (polite_here _ Blocked)
  | |- polite _ undef => apply (polite_here _ Undef)
  | |- polite _ (modify _) => by apply polite_modify
  | |- polite _ (upd_sup _) => by apply polite_modify
  | |- polite _ (upd_glob _) => by apply polite_modify
  | |- polite _ (upd_params _) => by apply polite_modify
  | |- polite _ (upd_it _) => by apply polite_modify
  | |- polite _ (upd_rh _) => by apply polite_modify
  | |- polite _ (upd_vmf _) => by apply polite_modify
  | |- polite _ (set_exception _) => by apply polite_modify
  | |- polite _ (get_params _) => apply polite_gets
  | |- polite _ (when _ _) => apply polite_when
  | |- waits _ (socket_recv false ≫= _) => apply waits_recv; intros ?
  | |- waits _ (receive_response ≫= _) => apply waits_response; intros ?
  | |- waits _ (response_or_throw _ ≫= _) => apply waits_response_or_throw; intros ?
  | |- waits _ (upd_rh _ ≫= _) => apply waits_modify; [done|intros ?]
  | |- polite _ _ => solve [eauto 2 with polite]
  end.
Ltac polite_auto := repeat polite_step.

(** ** The client library is polite *)
Section library.
Context `{Codec} (v : vm_phase).

Lemma set_exception_opt_polite m : polite v (set_exception_opt m).
Proof. unfold set_exception_opt. polite_auto. Qed.
Lemma on_import_polite m : polite v (on_import m).
Proof.
  intros t0 s Hs. unfold on_import.
  destruct (m _) as [[[]|e| | |] a]; simpl; first [by eapply stands_chan|by eexists; eapply stands_chan].
Qed.
Lemma on_export_polite m : polite v (on_export m).
Proof.
  intros t0 s Hs. unfold on_export.
  destruct (m _) as [[[]|e| | |] a]; simpl; first [by eapply stands_chan|by eexists; eapply stands_chan].
Qed.
#[local] Hint Resolve set_exception_opt_polite on_import_polite on_export_polite : polite.

(** The exchanges of a session *)
Lemma accept_reply_polite t e w r : polite v (accept_reply t e w r).
Proof. unfold accept_reply. polite_auto. Qed.
#[local] Hint Resolve accept_reply_polite : polite.

Lemma send_run_polite : polite v send_run.
Proof. unfold send_run, accept_call. polite_auto. Qed.
Lemma send_return_polite r : polite v (send_return r).
Proof. unfold send_return. polite_auto. Qed.
Lemma send_undefined_call_polite fn : polite v (send_undefined_call fn).
Proof. unfold send_undefined_call. polite_auto. Qed.
Lemma send_done_polite : polite v send_done.
Proof. unfold send_done. polite_auto. Qed.
Lemma send_finished_polite : polite v send_finished.
Proof. unfold send_finished. polite_auto. Qed.
Lemma send_close_polite msg : polite v (send_close msg).
Proof. unfold send_close, make_request. polite_auto. Qed.

(** The metadata object *)
Lemma SWIGMetadata_Impl_polite : polite v SWIGMetadata_Impl.
Proof. unfold SWIGMetadata_Impl. polite_auto. Qed.
Lemma request_import_polite m n k e1 e2 e3 : polite v (request_import m n k e1 e2 e3).
Proof. unfold request_import. polite_auto. Qed.
#[local] Hint Resolve request_import_polite : polite.
Lemma connectionInformation_polite m n : polite v (connectionInformation m n).
Proof. unfold connectionInformation. polite_auto. Qed.
Lemma moduleContent_polite m n : polite v (moduleContent m n).
Proof. unfold moduleContent. polite_auto. Qed.

(** The iterator *)
Lemma assign_col_offsets_polite types col n : polite v (assign_col_offsets types col n).
Proof.
  revert col n. induction types as [|t types IH]; intros col n; cbn [assign_col_offsets];
    unfold next_table, set_col_offset; polite_auto.
Qed.
#[local] Hint Resolve assign_col_offsets_polite : polite.
Lemma increment_col_offsets_polite b : polite v (increment_col_offsets b).
Proof. unfold increment_col_offsets, next_table, m_types. polite_auto. Qed.
#[local] Hint Resolve increment_col_offsets_polite : polite.
Lemma receive_next_data_polite b : polite v (receive_next_data b).
Proof. unfold receive_next_data, accept_table. polite_auto. Qed.
#[local] Hint Resolve receive_next_data_polite : polite.
Lemma SWIGTableIterator_Impl_polite : polite v SWIGTableIterator_Impl.
Proof. unfold SWIGTableIterator_Impl, m_types. polite_auto. Qed.
Lemma iterator_next_polite : polite v iterator_next.
Proof. unfold iterator_next. polite_auto. Qed.
Lemma iterator_reset_polite : polite v iterator_reset.
Proof. unfold iterator_reset. polite_auto. Qed.
Lemma get_value_polite {A} col t m w o (field : exascript_table_data → list A) r n :
  polite v (get_value col t m w o field r n).
Proof.
  unfold get_value, check_input, check_value, check_index, set_was_null, next_table, m_types.
  polite_auto.
Qed.

(** The handler *)
Lemma flush_polite : polite v flush.
Proof. unfold flush, accept_emit. polite_auto. Qed.
#[local] Hint Resolve flush_polite : polite.
Lemma append_value_polite {A} (staged : rowdata_t → gmap nat A) col m size add :
  polite v (append_value staged col m size add).
Proof. unfold append_value, add_message_size, upd_table. polite_auto. Qed.
#[local] Hint Resolve append_value_polite : polite.
Lemma append_columns_polite types col : polite v (append_columns types col).
Proof.
  revert col. induction types as [|t types IH]; intros col; cbn [append_columns];
    unfold null_flag, append_column, upd_table, upd_rowdata; polite_auto.
Qed.
#[local] Hint Resolve append_columns_polite : polite.
Lemma handler_next_polite : polite v handler_next.
Proof. unfold handler_next, out_columns, upd_table, upd_rowdata. polite_auto. Qed.
Lemma SWIGResultHandler_Impl_polite : polite v SWIGResultHandler_Impl.
Proof. unfold SWIGResultHandler_Impl. polite_auto. Qed.
Lemma set_value_polite col e m w stage : polite v (set_value col e m w stage).
Proof. unfold set_value, out_columns, upd_rowdata. polite_auto. Qed.
End library.

#[export] Hint Resolve set_exception_opt_polite send_run_polite send_return_polite
  send_undefined_call_polite send_done_polite send_finished_polite send_close_polite
  SWIGMetadata_Impl_polite connectionInformation_polite moduleContent_polite
  SWIGTableIterator_Impl_polite iterator_next_polite iterator_reset_polite get_value_polite
  flush_polite handler_next_polite SWIGResultHandler_Impl_polite set_value_polite : polite.

(** ** Language containers

    What the life cycle needs of a container: every operation of the object is polite,
    and so is building it; [run] has to be so only with the locks that the container asks
    for. *)
Section containers.
Context `{Codec}.

Definition asks_for (vm : SWIGVM) (locks : bool) : Prop :=
  ∃ s s', vm_useZmqSocketLocks vm s = (Ret locks, s').

Record polite_vm (vm : SWIGVM) : Prop := {
  pv_run : ∀ t0 locks, asks_for vm locks → fr_locks t0 = Some locks →
    triple t0 (stands t0 (ready, alive)) (vm_run vm) (λ _, stands t0 (ready, alive))
      (stands t0 (ready, alive));
  pv_singleCall : ∀ fn arg, polite alive (vm_singleCall vm fn arg);
  pv_shutdown : polite alive (vm_shutdown vm);
  pv_locks : polite alive (vm_useZmqSocketLocks vm);
}.

Lemma always_polite vm :
  polite alive (vm_run vm) → (∀ fn arg, polite alive (vm_singleCall vm fn arg)) →
  polite alive (vm_shutdown vm) → polite alive (vm_useZmqSocketLocks vm) → polite_vm vm.
Proof. intros Hr. split; [|done..]. intros. apply Hr. Qed.

Class PoliteContainer (vmMaker : run_of (option SWIGVM)) : Prop :=
  polite_made : ∀ t0, triple t0 (stands t0 (ready, alive)) vmMaker
    (λ o s, stands t0 (ready, alive) s ∧ ∀ vm, o = Some vm → polite_vm vm)
    (stands t0 (ready, alive)).

Lemma polite_maker {A} (m : run_of A) (f : A → run_of (option SWIGVM)) :
  polite alive m → (∀ a, PoliteContainer (f a)) → PoliteContainer (m ≫= f).
Proof. intros Hm Hf t0. eapply triple_bind; [apply Hm|]. intros a. apply Hf. Qed.

Lemma polite_object vm : polite_vm vm → PoliteContainer (mret (Some vm)).
Proof. intros Hvm t0 s Hs. split; [done|]. by intros ? [= <-]. Qed.

Lemma do_while_polite {A} v (body : run_of A) fuel :
  polite v body → polite v (do_while body fuel).
Proof.
  intros Hb. induction fuel as [|fuel IH]; simpl; polite_auto; done.
Qed.

Lemma catch_std_polite v m h :
  polite v m → (∀ w, polite v (h w)) → polite v (catch_std m h).
Proof. intros Hm Hh. unfold catch_std. polite_auto; done. Qed.
Lemma set_exception_msg_polite v msg : polite v (set_exception_msg msg).
Proof. unfold set_exception_msg. polite_auto. Qed.
#[local] Hint Resolve do_while_polite catch_std_polite set_exception_msg_polite : polite.

(** The members of the containers *)
Lemma call_symbol_polite {A} lib name (f : run_of A) :
  polite alive f → polite alive (call_symbol lib name f).
Proof. intros Hf. unfold call_symbol, load_dynamic. polite_auto; done. Qed.
Lemma SWIGMetadata_polite lib : polite alive (SWIGMetadata lib).
Proof. apply call_symbol_polite. auto with polite. Qed.
Lemma SWIGTableIterator_polite lib : polite alive (SWIGTableIterator lib).
Proof. apply call_symbol_polite. auto with polite. Qed.
Lemma SWIGResultHandler_polite lib : polite alive (SWIGResultHandler lib).
Proof. apply call_symbol_polite. auto with polite. Qed.

(** The constructors of the members come first. *)
Ltac members_polite :=
  apply polite_maker; [apply SWIGMetadata_polite|intros ?];
  apply polite_maker; [apply SWIGTableIterator_polite|intros ?];
  apply polite_maker; [apply SWIGResultHandler_polite|intros ?].

(** The test container *)
Lemma emitMetadata_polite meta : polite alive (emitMetadata meta).
Proof.
  unfold emitMetadata, requireStringColumn, set_c_string, setString, outputColumnCount,
    outputColumnType, inputColumnType, outputColumn, inputColumn. polite_auto.
Qed.
Lemma forward_loop_polite fuel : polite alive (forward_loop fuel).
Proof.
  induction fuel as [|fuel IH]; simpl;
    unfold eot, getString, wasNull, setNull, setString, upd_rowdata; polite_auto; done.
Qed.
#[local] Hint Resolve emitMetadata_polite forward_loop_polite : polite.

#[export] Instance make_TestVM_polite lib fuel : PoliteContainer (make_TestVM lib fuel).
Proof.
  unfold make_TestVM. members_polite. repeat (apply polite_maker; [polite_auto|intros ?]).
  apply polite_object, always_polite; simpl; try (intros; unfold test_singleCall; polite_auto).
  unfold test_run, forwardInput, requireStringColumn, inputColumnCount, outputColumnCount,
    outputColumnType, inputColumnType, outputColumn, inputColumn. polite_auto.
Qed.

(** The benchmark container *)
Lemma bench_columns_polite n col : polite alive (bench_columns n col).
Proof.
  revert col. induction n as [|n IH]; intros col; simpl;
    unfold bench_column, inputColumnType, inputColumn, getDouble, getInt32, getInt64, getString;
    polite_auto; done.
Qed.
Lemma bench_print_polite n col : polite alive (print_columns n col).
Proof.
  revert col. induction n as [|n IH]; intros col; simpl;
    unfold inputColumnName, inputColumnTypeName, inputColumn; polite_auto; done.
Qed.
#[local] Hint Resolve bench_columns_polite bench_print_polite : polite.
Lemma bench_iteration_polite : polite alive bench_iteration.
Proof. unfold bench_iteration, inputColumnCount. polite_auto. Qed.
Lemma bench_emit_polite : polite alive bench_emit.
Proof. unfold bench_emit, set_c_string, setString. polite_auto. Qed.
#[local] Hint Resolve bench_iteration_polite bench_emit_polite : polite.

#[export] Instance make_BenchmarkVM_polite lib fuel : PoliteContainer (make_BenchmarkVM lib fuel).
Proof.
  unfold make_BenchmarkVM. members_polite. repeat (apply polite_maker; [polite_auto|intros ?]).
  apply polite_object, always_polite; simpl; try (intros; unfold bench_singleCall; polite_auto).
  unfold bench_run, inputColumnCount, get_exception_msg. polite_auto.
  apply catch_std_polite; [|auto with polite]. polite_auto.
  - apply catch_std_polite; [|auto with polite]. polite_auto.
Qed.

(** The streaming container: both threads are polite, whatever the phase. *)
Context (env : shell) (print_double : Z → string).

Section streaming_calls.
Context (v : vm_phase).

Lemma print_column_polite col : polite v (print_column print_double col).
Proof.
  unfold print_column, csvPrinters, inputColumnType, inputColumn, getDouble, getInt32, getInt64,
    getNumeric, getTimestamp, getDate, getString, getBoolean. polite_auto.
Qed.
#[local] Hint Resolve print_column_polite : polite.
Lemma print_columns_from_polite n col : polite v (print_columns_from print_double n col).
Proof. revert col. induction n as [|n IH]; intros col; simpl; polite_auto; done. Qed.
#[local] Hint Resolve print_columns_from_polite : polite.
Lemma inputToCSV_polite : polite v (inputToCSV print_double).
Proof. unfold inputToCSV, inputColumnCount. polite_auto. Qed.
#[local] Hint Resolve inputToCSV_polite : polite.
Lemma readCSVValue_polite str col : polite v (readCSVValue str col).
Proof.
  unfold readCSVValue, outputColumnCount. polite_auto.
  generalize "" as buffer. induction (is_rest str) as [|c rest IH]; intros buffer; simpl;
    polite_auto; done.
Qed.
Lemma csvReaders_polite t buffer col : polite v (csvReaders t buffer col).
Proof. unfold csvReaders, setString. polite_auto. Qed.
#[local] Hint Resolve readCSVValue_polite csvReaders_polite : polite.
Lemma make_room_polite : polite v make_room.
Proof. unfold make_room, rowsEmited. polite_auto. Qed.
#[local] Hint Resolve make_room_polite : polite.

Lemma guarded_polite {A} (failed : A) m : polite v m → polite v (guarded failed m).
Proof. intros Hm. unfold guarded, set_exception_msg. polite_auto; done. Qed.
Lemma writer_call_polite p call : writer_call print_double p = Some call → polite v call.
Proof. destruct p; intros [= <-]; polite_auto. Qed.
Lemma reader_call_polite str p call : reader_call str p = Some call → polite v call.
Proof.
  destruct p; intros [= <-]; unfold outputColumnType, outputColumn, outputColumnCount; polite_auto.
Qed.

(** An exception does not leave the call of a thread. *)
Lemma thread_call_triple {A} t0 (m : run_of A) (R : machine → Prop) :
  polite v m → triple t0 (stands t0 (ready, v)) (thread_call m) (λ _, stands t0 (ready, v)) R.
Proof.
  intros Hm. eapply triple_catch; [apply Hm|]. intros e s Hs. by eexists.
Qed.
End streaming_calls.

(** The threads that are running *)
Definition running (th : stream_threads) : nat :=
  (if writer_over (th_writer th) then 0 else 1) + if reader_over (th_reader th) then 0 else 1.

Lemma running_writer th text p call :
  writer_call print_double (th_writer th) = Some call →
  running th = (if writer_over p then 1 else 0) + running (writer_at th text p).
Proof. unfold running. destruct (th_writer th); intros [=]; simpl; destruct (writer_over p); lia. Qed.
Lemma running_reader th str p call :
  reader_call (th_stream th) (th_reader th) = Some call →
  running th = (if reader_over p then 1 else 0) + running (reader_at th str p).
Proof. unfold running. destruct (th_reader th); intros [=]; simpl; destruct (reader_over p); lia. Qed.

Lemma after_move_running size mv th : running (after_move size mv th) = running th.
Proof.
  unfold after_move. destruct (program_move size mv th) as [th'|] eqn:Hmv; [|done].
  assert (th_writer th' = th_writer th ∧ th_reader th' = th_reader th) as [H1 H2];
    [|unfold running; simpl; by rewrite H1, H2].
  destruct mv; simpl in Hmv; repeat case_match; try done; by injection Hmv as <-.
Qed.

Lemma thread_end_triple t0 (over : bool) n (R : machine → Prop) :
  triple t0 (stands t0 (ready, alive_with ((if over then 1 else 0) + n)))
    (when over (log ev_thread_end)) (λ _, stands t0 (ready, alive_with n)) R.
Proof. destruct over; [apply triple_log, step_thread_end|apply triple_ret]. Qed.

Lemma run_threads_triple t0 moves th (R : machine → Prop) :
  triple t0 (stands t0 (ready, alive_with (running th))) (run_threads env print_double moves th)
    (λ _, stands t0 (ready, alive)) R.
Proof.
  revert th. induction moves as [|mv moves IH]; intros th; cbn [run_threads];
    destruct (writer_over _ && reader_over _) eqn:Hover;
    try (apply andb_true_iff in Hover as [H1 H2]; unfold running; rewrite H1, H2; apply triple_ret).
  { intros s Hs. by eexists. }
  pose proof (IH (after_move (sh_pipe env) mv th)) as Hmv. rewrite after_move_running in Hmv.
  destruct mv; try exact Hmv; clear Hmv.
  - destruct (writer_call _ _) as [call|] eqn:Hc; [|apply IH]. destruct (flushed _ _); [|apply IH].
    eapply triple_bind; [by eapply thread_call_triple, guarded_polite, writer_call_polite|intros [text p]].
    rewrite (running_writer th text p call Hc).
    eapply triple_bind; [apply thread_end_triple|intros ?]. apply IH.
  - destruct (reader_call _ _) as [call|] eqn:Hc; [|apply IH]. destruct (value_ready _); [|apply IH].
    eapply triple_bind; [by eapply thread_call_triple, guarded_polite, reader_call_polite|intros [str p]].
    rewrite (running_reader th str p call Hc).
    eapply triple_bind; [apply thread_end_triple|intros ?]. apply IH.
Qed.

Lemma read_errors_polite v moves th buffer : polite v (read_errors env moves th buffer).
Proof.
  revert th buffer. induction moves as [|mv moves IH]; intros th buffer; cbn [read_errors];
    polite_auto; done.
Qed.
Lemma wait_exit_polite v moves th : polite v (wait_exit env moves th).
Proof.
  revert th. induction moves as [|mv moves IH]; intros th; cbn [wait_exit]; polite_auto; done.
Qed.
#[local] Hint Resolve read_errors_polite wait_exit_polite : polite.

(** A thread is started with the lock of the socket in use. *)
Lemma start_thread_triple t0 n (R : machine → Prop) :
  fr_locks t0 = Some true →
  triple t0 (stands t0 (ready, alive_with n)) start_thread
    (λ _, stands t0 (ready, alive_with (S n))) R.
Proof.
  intros Hl s Hs. pose proof (proj2 Hs true Hl) as Hu. unfold start_thread.
  rewrite run_bind_gets, Hu. by apply (triple_log t0 _ _ _ R (step_thread_start n) s).
Qed.

Lemma stream_run_triple t0 meta :
  fr_locks t0 = Some true →
  triple t0 (stands t0 (ready, alive)) (stream_run env print_double meta)
    (λ _, stands t0 (ready, alive)) (stands t0 (ready, alive)).
Proof.
  intros Hl. unfold stream_run, catch_std.
  eapply triple_bind; [eapply triple_catch|intros ?; apply triple_ret].
  - eapply triple_bind; [apply triple_gets|intros moves].
    do 2 (eapply triple_bind; [by apply start_thread_triple|intros ?]).
    eapply triple_bind; [apply (run_threads_triple t0 moves threads_started)|intros [moves' th]].
    match goal with |- triple _ _ ?m _ _ => enough (polite alive m) as Hp by apply Hp end.
    unfold get_exception_msg. polite_auto.
  - intros []; apply polite_here || (unfold set_exception_msg; by apply polite_modify).
Qed.

#[export] Instance make_StreamingVM_polite lib :
  PoliteContainer (make_StreamingVM env print_double lib).
Proof.
  unfold make_StreamingVM. members_polite. repeat (apply polite_maker; [polite_auto|intros ?]).
  destruct (mexec _ _ _) as [ok res]. apply polite_maker; [polite_auto|intros _].
  apply polite_object. split; simpl; try (intros; unfold stream_singleCall; polite_auto).
  destruct H0 as (s & s' & [= <- _]). by apply stream_run_triple.
Qed.
End containers.

(** ** The main loop *)
Section client.
Context `{Codec} (t0 : background).

Definition somewhere (k : sock_phase) (s : machine) : Prop := ∃ v, stands t0 (k, v) s.
Definition anywhere (s : machine) : Prop := ∃ p, stands t0 p s.

Lemma triple_polite {A} v (m : run_of A) (R : machine → Prop) :
  polite v m → (∀ s, stands t0 (ready, v) s → R s) →
  triple t0 (stands t0 (ready, v)) m (λ _, stands t0 (ready, v)) R.
Proof. intros Hm HR. eapply triple_mono; [apply Hm|done..|exact HR]. Qed.

Lemma triple_modify p f (R : machine → Prop) :
  (∀ s, chan (f s) = chan s) → triple t0 (stands t0 p) (modify f) (λ _, stands t0 p) R.
Proof. intros Hf s Hs. eapply stands_chan; [..|exact Hs]; by rewrite Hf. Qed.

(** The container the clean-up acts on exists. *)
Definition acts_on (vm : option SWIGVM) (v : vm_phase) : Prop :=
  match vm with Some vm => polite_vm vm ∧ v = alive | None => True end.

Lemma delete_vm_triple vm v (R : machine → Prop) :
  acts_on vm v → triple t0 (stands t0 (ready, v)) (delete_vm vm) (λ _, somewhere ready) R.
Proof.
  destruct vm as [vm|]; simpl.
  - intros [_ ->]. eapply triple_mono; [exact (triple_log t0 _ _ _ R step_delete)|done| |done].
    intros [] s Hs. by exists deleted.
  - intros _ s Hs. by exists v.
Qed.

Lemma shutdown_triple vm (R : machine → Prop) :
  polite_vm vm → (∀ s, stands t0 (ready, alive) s → R s) →
  triple t0 (stands t0 (ready, alive)) (shutdown vm) (λ _, stands t0 (ready, alive)) R.
Proof.
  intros Hvm HR. eapply triple_bind; [apply triple_log, step_shutdown|intros ?].
  apply triple_polite; [apply Hvm|done].
Qed.

Lemma cleanup_vm_triple vm v msg b :
  acts_on vm v →
  triple t0 (stands t0 (ready, v)) (cleanup_vm vm msg b) (λ _, somewhere ready) (somewhere ready).
Proof.
  intros Ha. unfold cleanup_vm. apply triple_bind with (Q1 := λ _, stands t0 (ready, v)).
  - destruct vm as [vm|]; [|apply triple_ret]. destruct b; [|apply triple_ret].
    destruct Ha as [Hvm ->]. eapply triple_bind; [by apply triple_modify|intros ?].
    eapply triple_bind; [apply shutdown_triple; [done|]|intros ?].
    { intros s Hs. by exists alive. }
    eapply triple_bind; [apply triple_gets|intros ?]. apply triple_ret.
  - intros msg'. eapply triple_bind; [by apply delete_vm_triple|intros ?]. apply triple_ret.
Qed.

Lemma triple_somewhere {A} k (m : run_of A) Q R :
  (∀ v, triple t0 (stands t0 (k, v)) m Q R) → triple t0 (somewhere k) m Q R.
Proof. intros Hm s [v Hs]. by apply (Hm v). Qed.

Lemma triple_ignoring {A} P Q (m : run_of A) a :
  triple t0 P m (λ _, Q) Q → triple t0 P (ignoring m a) (λ _, Q) (λ _, False).
Proof.
  intros Hm. eapply triple_catch; [exact Hm|]. by intros e s.
Qed.

Lemma stop_all_triple (R : machine → Prop) :
  triple t0 (somewhere ready) stop_all (λ _, somewhere closed) R.
Proof.
  apply triple_somewhere. intros v.
  apply triple_mono with (P' := stands t0 (ready, v)) (Q' := λ _, stands t0 (closed, v)) (R' := R);
    [|done|intros a s Hs; by exists v|done].
  unfold stop_all, stop_check_thread, get_remote_client.
  eapply triple_bind; [by apply triple_log, step_close|intros ?].
  eapply triple_bind; [by apply triple_modify|intros ?].
  eapply triple_bind; [apply triple_gets|intros []]; simpl.
  - apply triple_log, step_sleep.
  - eapply triple_bind; [by apply triple_modify|intros ?].
    eapply triple_bind; [apply triple_gets|intros name]. apply triple_log, step_unlink.
Qed.

(** [handle_error] closes the socket, whatever happens, and returns 1. *)
Lemma handle_error_triple vm v msg b (R : machine → Prop) :
  acts_on vm v →
  triple t0 (stands t0 (ready, v)) (handle_error vm msg b)
    (λ code s, code = 1%Z ∧ somewhere closed s) R.
Proof.
  intros Ha. apply triple_mono with (P' := stands t0 (ready, v))
    (Q' := λ code s, code = 1%Z ∧ somewhere closed s) (R' := λ _, False); [|done..].
  unfold handle_error.
  eapply triple_bind; [by apply triple_ignoring, cleanup_vm_triple|intros msg'].
  eapply triple_bind; [apply (triple_ignoring _ (somewhere ready))|intros ?].
  { apply triple_somewhere. intros v'. apply triple_mono with (P' := stands t0 (ready, v'))
      (Q' := λ _, stands t0 (ready, v')) (R' := stands t0 (ready, v'));
      [|done|intros a s Hs; by exists v'|intros s Hs; by exists v'].
    eapply triple_bind; [apply send_close_polite|intros ?]. apply triple_log, step_sleep. }
  eapply triple_bind; [apply triple_ignoring, stop_all_triple|intros ?].
  intros s Hs. by split.
Qed.

(** ** The session *)
Definition session_post (o : option Z) (s : machine) : Prop :=
  match o with
  | Some code => code = 1%Z ∧ somewhere closed s
  | None => stands t0 (ready, alive) s
  end.
Definition up : machine → Prop := stands t0 (ready, alive).

Lemma session_error {A} (P : machine → Prop) vm msg b (f : Z → A) (Q : A → machine → Prop) R :
  polite_vm vm → (∀ code s, code = 1%Z ∧ somewhere closed s → Q (f code) s) →
  (∀ s, P s → up s) →
  triple t0 P (code ← handle_error (Some vm) msg b; mret (f code)) Q R.
Proof.
  intros Hvm HQ HP. eapply triple_mono; [|exact HP|done..|done].
  eapply triple_bind; [by apply handle_error_triple|].
  intros code s Hs. by apply HQ.
Qed.

Context (vm : SWIGVM) (Hvm : polite_vm vm).
Context (locks : bool) (Hlocks : asks_for vm locks) (Ht0 : fr_locks t0 = Some locks).

Lemma run_triple : triple t0 up (run_ vm) (λ _, up) up.
Proof.
  unfold run_, set_exception_msg. eapply triple_catch; [by eapply (pv_run vm Hvm)|].
  intros e. match goal with |- triple _ _ ?m _ _ => enough (polite alive m) as Hp by apply Hp end.
  destruct e; polite_auto.
Qed.

Lemma run_until_done_triple fuel : triple t0 up (run_until_done fuel vm) session_post up.
Proof.
  induction fuel as [|fuel IH]; simpl; [intros s Hs; by eexists|].
  eapply triple_bind; [apply run_triple|intros []]; [by intros s|].
  eapply triple_bind; [apply triple_gets|intros msg]. destruct (negb _); [|done].
  by apply session_error.
Qed.

Lemma run_loop_triple fuel : triple t0 up (run_loop fuel vm) session_post up.
Proof.
  induction fuel as [|fuel IH]; simpl; [intros s Hs; by eexists|].
  eapply triple_bind; [apply send_run_polite|intros []]; [|by intros s].
  eapply triple_bind; [by apply triple_modify|intros ?].
  eapply triple_bind; [apply run_until_done_triple|intros [code|]]; [by intros s|].
  eapply triple_bind; [apply send_done_polite|intros []]; [done|by intros s].
Qed.

Lemma dispatch_call_polite fn : polite alive (dispatch_call vm fn).
Proof.
  pose proof (pv_singleCall vm Hvm) as Hc.
  destruct fn; simpl; unfold reset_import_arg, reset_export_arg; polite_auto.
Qed.

Lemma single_call_step_triple fn :
  triple t0 up (single_call_step vm fn)
    (λ e s, match e with sc_return code => code = 1%Z ∧ somewhere closed s | _ => up s end) up.
Proof.
  eapply triple_bind; [apply dispatch_call_polite|intros result].
  eapply triple_bind; [apply triple_gets|intros msg]. destruct (negb _).
  { by apply session_error. }
  eapply triple_bind; [apply triple_gets|intros undefined].
  apply triple_bind with (Q1 := λ _, up).
  { assert (polite alive (if negb (str_empty undefined) then send_undefined_call undefined
      else send_return result;; mret tt)) as Hp by (polite_auto).
    apply Hp. }
  intros ?. eapply triple_bind; [apply send_done_polite|intros []]; by intros s.
Qed.

Lemma single_call_loop_triple fuel : triple t0 up (single_call_loop fuel vm) session_post up.
Proof.
  induction fuel as [|fuel IH]; simpl; [intros s Hs; by eexists|].
  eapply triple_bind; [apply send_run_polite|intros []]; [|by intros s].
  eapply triple_bind; [apply triple_gets|intros fn].
  eapply triple_bind; [apply (polite_massert alive)|intros ?].
  eapply triple_bind.
  - unfold ignoring. eapply triple_catch; [apply single_call_step_triple|].
    intros e. by intros s.
  - intros []; simpl; [done|by intros s..].
Qed.

End client.

Section whole.
Context `{Codec} (events : list event).
Notation t0 := (mkBackground events None).
Context (vmMaker : run_of (option SWIGVM)) {Hmaker : PoliteContainer vmMaker}.

(** Once the container has asked for the locks, or for none, this is known of the state. *)
Lemma known_stands locks p s : stands (mkBackground events (Some locks)) p s → stands t0 p s.
Proof. intros [Hr _]. by split. Qed.

Lemma triple_known {A} locks (m : run_of A) P Q Q' (R R' : machine → Prop) s :
  triple (mkBackground events (Some locks)) P m Q R → P s →
  (∀ a s', Q a s' → Q' a s') → (∀ s', R s' → R' s') →
  match m s with
  | (Ret a, s') => Q' a s'
  | (Throw _, s') => R' s'
  | (_, s') => ∃ p, stands t0 p s'
  end.
Proof.
  intros Hm Hs HQ HR. specialize (Hm s Hs). destruct (m s) as [[a|e| | |] s']; auto;
    destruct Hm as [p Hp]; exists p; by eapply known_stands.
Qed.

Lemma vm_session_triple vm fuel :
  polite_vm vm → triple t0 (up t0) (vm_session fuel vm) (session_post t0) (up t0).
Proof.
  intros Hvm s Hs. unfold vm_session. pose proof (pv_locks vm Hvm t0 s Hs) as Hl.
  rewrite bind_run. unfold bind_outcome.
  destruct (vm_useZmqSocketLocks vm s) as [[locks|e| | |] s1] eqn:Hr; [|done..].
  cbn [fst snd]. unfold init, upd_chan. rewrite run_bind_modify.
  set (s2 := s1 <| chan := _ |>). set (t1 := mkBackground events (Some locks)).
  assert (asks_for vm locks) as Hask by by exists s, s1.
  assert (stands t1 (ready, alive) s2) as Hs2 by (split; [apply Hl|by intros b [= <-]]).
  apply (triple_known locks _ (up t1) (session_post t1) (session_post t0) (up t1) (up t0) s2);
    [|done| |by apply known_stands].
  2:{ intros [code|] s'; [|by apply known_stands]. intros [-> [v Hst]]. split; [done|].
      exists v. by eapply known_stands. }
  eapply triple_bind; [apply triple_gets|intros mode].
  apply triple_bind with (Q1 := session_post t1).
  { destruct mode; [by eapply single_call_loop_triple|by eapply run_loop_triple]. }
  intros [code|]; [by intros s'|]. simpl.
  eapply triple_bind; [by apply shutdown_triple|intros ?].
  eapply triple_bind; [apply triple_gets|intros msg].
  destruct (negb _); [by apply session_error|].
  eapply triple_bind; [apply send_finished_polite|intros ?]. by intros s'.
Qed.

(** How the process ends: status 0 with the container deleted, or status 1; both times
    with the socket closed *)
Definition ended (code : Z) (s : machine) : Prop :=
  code = 0%Z ∧ stands t0 (closed, deleted) s ∨ code = 1%Z ∧ somewhere t0 closed s.

Lemma handle_error_ended vm v msg b R :
  acts_on vm v → triple t0 (stands t0 (ready, v)) (handle_error vm msg b) ended R.
Proof.
  intros Ha. eapply triple_mono; [by apply handle_error_triple|done| |done].
  intros code s Hs. by right.
Qed.

Lemma serve_triple fuel :
  triple t0 (stands t0 (ready, no_vm)) (serve fuel vmMaker) ended (anywhere t0).
Proof.
  unfold serve, initSwigParams.
  apply triple_bind with (Q1 := λ _, stands t0 (ready, no_vm)).
  { do 2 (eapply triple_bind; [apply triple_gets|intros ?]). by apply triple_modify. }
  intros _.
  apply triple_bind with (Q1 := λ r s, stands t0 (ready, alive) s ∧
    ∀ vm, r = inr (Some vm) → polite_vm vm).
  { unfold attempt, make_vm. eapply triple_catch with (R1 := stands t0 (ready, alive)).
    - eapply triple_bind with (Q1 := λ o s, stands t0 (ready, alive) s ∧ ∀ vm, o = Some vm → polite_vm vm).
      + eapply triple_bind; [apply triple_log, step_make|intros ?].
        eapply triple_bind; [by apply triple_modify|intros ?]. apply Hmaker.
      + intros o s [Hs Ho]. split; [done|]. intros vm [= ->]. by apply Ho.
    - intros e s Hs. by split. }
  intros [e|[vm|]] s [Hs Hvm].
  - by apply (handle_error_ended None alive _ _ _ I s).
  - specialize (Hvm vm eq_refl). unfold get_exception_msg. rewrite run_bind_gets.
    destruct (negb _); [by apply (handle_error_ended (Some vm) alive _ _ _ (conj Hvm eq_refl) s)|].
    revert s Hs. apply triple_bind with (Q1 := λ r s,
      match r with inl _ => stands t0 (ready, alive) s | inr o => session_post t0 o s end).
    + unfold attempt. eapply triple_catch with (R1 := stands t0 (ready, alive)).
      * eapply triple_bind; [by apply vm_session_triple|]. intros o. by intros s.
      * intros e. by intros s.
    + intros [e|[code|]]; simpl.
      * by apply handle_error_ended.
      * intros s [-> Hs]. right. by split.
      * eapply triple_bind; [apply triple_log, step_delete|intros ?].
        apply triple_bind with (Q1 := λ _, stands t0 (closed, deleted)).
        -- unfold stop_all, stop_check_thread, get_remote_client.
           eapply triple_bind; [by apply triple_log, step_close|intros ?].
           eapply triple_bind; [by apply triple_modify|intros ?].
           eapply triple_bind; [apply triple_gets|intros []]; simpl; [apply triple_log, step_sleep|].
           eapply triple_bind; [by apply triple_modify|intros ?].
           eapply triple_bind; [apply triple_gets|intros name]. apply triple_log, step_unlink.
        -- intros ? s Hs. by left.
  - by apply (handle_error_ended None alive _ _ _ I s).
Qed.

(** The test on which a refused handshake ends the process *)
Definition gives_up (s : machine) : bool :=
  negb (remote_client (sup s)) && exthrowed (exchandler (glob s)).

Lemma limit_resources_polite n : polite no_vm (limit_resources n).
Proof.
  assert (∀ r l, polite no_vm (setrlimit r l)) as Hs.
  { intros r l t1. unfold setrlimit.
    eapply triple_bind; [apply triple_log, step_limit|intros ?].
    eapply triple_bind; [apply triple_gets|intros [|b bs]]; [apply triple_ret|].
    apply triple_bind with (Q1 := λ _, stands t1 (ready, no_vm));
      [intros s Hs; by eapply stands_chan|intros ?]. apply triple_ret. }
  unfold limit_resources. polite_auto; done.
Qed.

Lemma read_columns_polite push msg cols :
  (∀ n t, polite no_vm (push n t)) → polite no_vm (read_columns push msg cols).
Proof.
  intros Hp. induction cols as [|c cols IH]; simpl; polite_auto; done.
Qed.

Lemma request_metadata_polite : polite no_vm request_metadata.
Proof.
  assert (∀ msg cols, polite no_vm (read_columns push_input msg cols)) as H1
    by (intros; apply read_columns_polite; intros; by apply polite_modify).
  assert (∀ msg cols, polite no_vm (read_columns push_output msg cols)) as H2
    by (intros; apply read_columns_polite; intros; by apply polite_modify).
  unfold request_metadata, make_request, read_metadata. polite_auto; done.
Qed.

(** The handshake ends between two exchanges, or with the request still open and then
    with no exception recorded. *)
Lemma send_init_triple name :
  triple t0 (λ s, stands t0 (ready, no_vm) s ∧ gives_up s = false) (send_init name)
    (λ ok s, stands t0 (ready, no_vm) s ∨
       ok = false ∧ gives_up s = false ∧ stands t0 (waiting, no_vm) s) (anywhere t0).
Proof.
  intros s [Hs Hg]. unfold send_init.
  destruct (serialize _) as [w|]; [|by left].
  pose proof (socket_send_triple t0 s no_vm w s (conj Hs (reflexivity s))) as Hsend.
  rewrite bind_run. unfold bind_outcome. destruct (socket_send w s) as [[[]|e| | |] s1]; try done.
  pose proof (socket_recv_triple t0 s no_vm true s1 Hsend) as Hrecv.
  cbn [fst snd]. rewrite bind_run. unfold bind_outcome.
  destruct (socket_recv true s1) as [[[v|]|e| | |] s2]; try done; cbn [fst snd].
  2:{ right. split; [done|]. destruct Hrecv as (_ & Hw & [Hsup Hgl _ _ _]).
      split; [|done]. unfold gives_up. by rewrite Hsup, Hgl. }
  destruct Hrecv as [Hr _]. destruct (parse v) as [r|]; [|by left].
  refine (triple_mono t0 (stands t0 (ready, no_vm)) (stands t0 (ready, no_vm)) _
    (λ _, stands t0 (ready, no_vm)) _ (stands t0 (ready, no_vm)) _ _ _ _ _ s2 Hr);
    [|done|by left|by eexists].
  pose proof limit_resources_polite. pose proof request_metadata_polite.
  match goal with |- triple _ _ ?m _ _ => enough (polite no_vm m) as Hp by apply Hp end.
  unfold writeScriptParams. polite_auto.
Qed.

Lemma reinit_triple fuel name :
  triple t0 (λ s, stands t0 (closed, no_vm) s ∧ gives_up s = false)
    (reinit fuel name vmMaker) ended (anywhere t0).
Proof.
  induction fuel as [|fuel IH]; simpl; [intros s [Hs _]; by eexists|].
  apply triple_bind with (Q1 := λ _ s, stands t0 (ready, no_vm) s ∧ gives_up s = false).
  { intros s [Hs Hg]. split; [|done].
    by apply (triple_log t0 _ _ _ (λ _, False) (step_open no_vm) s). }
  intros _. eapply triple_bind; [apply send_init_triple|]. intros [].
  { intros s [Hs|[? _]]; [|done]. by apply serve_triple. }
  intros s Hs. unfold get_remote_client. rewrite run_bind_gets, run_bind_gets.
  fold (gives_up s). destruct (gives_up s) eqn:Hg.
  - destruct Hs as [Hs|(_ & ? & _)]; [|done]. by apply (handle_error_ended None no_vm _ _ _ I s).
  - assert (∃ k, k ≠ closed ∧ stands t0 (k, no_vm) s) as (k & Hk & Hst)
      by (destruct Hs as [Hs|(_ & _ & Hs)]; eexists; (split; [|exact Hs]); done).
    rewrite bind_run. unfold bind_outcome. simpl. apply IH. split; [|done].
    by apply (triple_log t0 _ _ _ (λ _, False) (step_close k no_vm Hk) s).
Qed.

Lemma exaudfclient_main_triple fuel argv1 :
  triple t0 (λ s, stands t0 (closed, no_vm) s ∧ exthrowed (exchandler (glob s)) = false)
    (exaudfclient_main fuel vmMaker argv1) ended (anywhere t0).
Proof.
  pose (P s := stands t0 (closed, no_vm) s ∧ exthrowed (exchandler (glob s)) = false).
  assert (∀ f (R : machine → Prop), triple t0 P (upd_sup f) (λ _, P) R) as Hsup.
  { intros f R s [Hs He]. by split. }
  unfold exaudfclient_main, set_socket_file_name, set_socket_url, set_remote_client,
    get_socket_file_name, start_check_thread, get_remote_client.
  do 3 (eapply triple_bind; [apply Hsup|intros []]).
  apply triple_bind with (Q1 := λ _, P).
  { destruct (_ <? _); [|apply triple_ret]. intros s [Hs _]. by eexists. }
  intros _. apply triple_bind with (Q1 := λ _, P).
  { destruct (String.prefix _ _); [apply Hsup|apply triple_ret]. }
  intros _. apply triple_bind with (Q1 := λ _, P).
  { destruct (String.prefix _ _); [|apply triple_ret].
    eapply triple_bind; [apply triple_gets|intros file].
    eapply triple_bind; [|intros ?; apply Hsup].
    destruct (skip_six file); [apply triple_ret|intros s [Hs _]; by eexists]. }
  intros _. apply triple_bind with (Q1 := λ _, P).
  { eapply triple_bind; [apply triple_gets|intros []]; [apply triple_ret|apply Hsup]. }
  intros _. eapply triple_mono; [apply reinit_triple| |done..].
  intros s [Hs He]. split; [done|]. unfold gives_up. by rewrite He, andb_false_r.
Qed.
End whole.

(** ** Properties *)
Section properties.
Context `{Codec}.

(** What the automaton says about a finished or unfinished run: its events are a run of
    the automaton, no reply came without a request, and a status is only reported with
    the socket closed, 0 only with the container deleted. *)
Definition follows_life_cycle (s : machine) (status : option Z) (s' : machine) : Prop :=
  ∃ tr p, c_trace (chan s') = c_trace (chan s) ++ tr ∧ run (closed, no_vm) tr p ∧
    length (received tr) ≤ length (sent tr) ∧
    ∀ code, status = Some code →
      code = 0%Z ∧ p = (closed, deleted) ∨ code = 1%Z ∧ p.1 = closed.

Lemma stands_follows s p s' status :
  stands (mkBackground (c_trace (chan s)) None) p s' →
  (∀ code, status = Some code → code = 0%Z ∧ p = (closed, deleted) ∨ code = 1%Z ∧ p.1 = closed) →
  follows_life_cycle s status s'.
Proof.
  intros ((tr & Ht & Hr) & _) Hp. exists tr, p. split_and!; try done.
  pose proof (run_replies _ _ Hr). lia.
Qed.

Definition status_of (o : outcome exn Z) : option Z :=
  match o with Ret code => Some code | _ => None end.

Lemma client_follows fuel vmMaker `{!PoliteContainer vmMaker} argv1 s :
  exthrowed (exchandler (glob s)) = false →
  follows_life_cycle s (status_of (exaudfclient_main fuel vmMaker argv1 s).1)
    (exaudfclient_main fuel vmMaker argv1 s).2.
Proof.
  intros He. pose proof (exaudfclient_main_triple (c_trace (chan s)) vmMaker fuel argv1 s) as Ht.
  assert (stands (mkBackground (c_trace (chan s)) None) (closed, no_vm) s) as Hs.
  { split; [|done]. exists []. split; [by rewrite app_nil_r|constructor]. }
  specialize (Ht (conj Hs He)).
  destruct (exaudfclient_main fuel vmMaker argv1 s) as [[code|e| | |] s']; simpl;
    try (destruct Ht as [p Hp]; by apply (stands_follows s p)).
  destruct Ht as [[-> Hp]|[-> [v Hp]]]; apply (stands_follows _ _ _ _ Hp); intros ? [= <-]; auto.
Qed.

(** C2. The client refines the life cycle. Whatever the server, the operating system and
    the container do, as long as the operations of the container leave the socket between
    two exchanges: the events of [exaudfclient_main] are a run of the automaton, so the
    REQ socket sends and receives strictly in turn, the limits are set and the container
    is made only on an open connection, it is shut down and deleted before the socket is
    closed, and the socket file is removed last. The client reports 0 only with the
    container deleted and the socket closed, and otherwise 1 with the socket closed. *)
Theorem client_life_cycle (vmMaker : run_of (option SWIGVM)) (fuel : nat) (argv1 : string)
  (s : machine) :
  PoliteContainer vmMaker → exthrowed (exchandler (glob s)) = false →
  let r := exaudfclient_main fuel vmMaker argv1 s in
  follows_life_cycle s (status_of r.1) r.2.
Proof. intros Hp He. by apply client_follows. Qed.

(** C3. The whole process keeps the life cycle. For every command line, host, build and
    program of the user, whatever the server answers, and in whatever order the threads of
    the streaming container, the pipes and the program move: the events of [main] are a
    run of the automaton. Arguments, library, environment and factory come before the
    first event; each of the three containers keeps to the exchanges of the library; a
    thread is started only with the lock of the socket in use, and both threads have
    returned before the container is shut down or deleted. *)
Theorem process_life_cycle (h : host) (b : build) (env : shell) (print_double : Z → string)
  (fuel : nat) (argv : list string) (s : machine) :
  exthrowed (exchandler (glob s)) = false →
  let r := main h b env print_double fuel argv s in
  follows_life_cycle s
    (match r.1 with Ret (returned code) => Some code | _ => None end) r.2.
Proof.
  intros He.
  assert (∀ s', c_trace (chan s') = c_trace (chan s) → follows_life_cycle s None s') as Hnone.
  { intros s' Ht. apply (stands_follows s (closed, no_vm)); [|done]. split; [|done]. exists [].
    rewrite app_nil_r. split; [done|constructor]. }
  unfold main, try_catch. cbv zeta.
  destruct (validate_arguments argv) eqn:Hv;
    [|unfold startClientBase; rewrite Hv; by apply Hnone].
  apply validate_arguments_true in Hv as (sock & l & version & Ha).
  rewrite (start_run _ _ _ _ _ _ _ _ _ _ Ha).
  destruct (lib_path h b) as [path|]; [|by apply Hnone].
  cbn [access]. rewrite run_bind_ret. destruct (load_library h path =? 0)%Z; [by apply Hnone|].
  unfold setup_environment.
  destruct (setenv_home h); [|by apply Hnone]. destruct (setlocale h); [|by apply Hnone].
  cbn [negb when]. rewrite run_bind_bind, !run_bind_ret.
  edestruct (create_vm_run b env print_double (the_library h path) fuel l) as [what Hvm].
  destruct (lang_enabled b l); [|erewrite run_bind_throw by exact Hvm; by apply Hnone].
  erewrite run_bind by exact Hvm.
  destruct (load_symbol h (load_library h path) "set_SWIGVM_params" =? 0)%Z; [by apply Hnone|].
  unfold set_SWIGVM_params, upd_params. rewrite run_bind_modify.
  destruct (load_symbol h (load_library h path) "exaudfclient_main" =? 0)%Z; [by apply Hnone|].
  set (s1 := s <| glob := _ |>).
  assert (PoliteContainer (lang_maker env print_double (the_library h path) fuel l)) as Hp by (destruct l; apply _).
  pose proof (client_follows fuel (lang_maker env print_double (the_library h path) fuel l) sock s1 He) as Hf.
  rewrite bind_run. unfold bind_outcome.
  by destruct (exaudfclient_main fuel (lang_maker env print_double (the_library h path) fuel l) sock s1)
    as [[code|e| | |] s'].
Qed.
End properties.

(** ** Witnesses *)
Section witnesses.
#[local] Existing Instance plain_codec.

(** A server that closes the session in its first reply *)
Definition refusing : machine :=
  machine_init (prompt [plain_reply (response_plain MT_CLOSE 7); reply_of MT_FINISHED]).

Definition empty_library : library := mkLibrary 0 (λ _ _, dl_address 0).

Lemma client_life_cycle_witness :
  follows_life_cycle refusing (Some 1%Z)
    (exaudfclient_main 3 (make_TestVM empty_library 3) "ipc:///tmp/s" refusing).2.
Proof.
  exact (client_life_cycle (make_TestVM empty_library 3) 3 "ipc:///tmp/s" refusing
    (make_TestVM_polite empty_library 3) eq_refl).
Defined.

(** A run of the streaming container: the program answers two lines as soon as it is
    started, and ends when it has read the first of its input lines; the threads take
    turns. *)
Definition taking_turns : list move :=
  [go_writer; go_write ("x" +:+ nl +:+ "y" +:+ nl); go_take 1; go_pull 3; go_reader; go_writer; go_take 9;
   go_reader; go_read 3; go_writer; go_reader; go_exit; go_pull 9; go_reader; go_writer; go_break;
   go_reader; go_reader; go_writer; go_reader; go_reader; go_reader; go_reader].
Definition streaming_shell : shell := mkShell (λ _, Some ("", 0%Z)) (λ _ _, taking_turns) 65536 8191.
Definition streaming_build : build := mkBuild true false false None.
Definition streaming_server : machine :=
  machine_init (prompt (plain_reply text_info :: plain_reply text_meta :: text_replies)).

Lemma streaming_session :
  let r := main sample_host streaming_build streaming_shell to_string 4
    (sample_argv streaming []) streaming_server in
  r.1 = Ret (returned 0) ∧
  List.filter (λ e, match e with ev_setrlimit _ _ => false | _ => true end)
    (lifecycle (c_trace (chan r.2))) =
    [ev_socket_open; ev_vm_make; ev_thread_start true; ev_thread_start true; ev_thread_end;
     ev_thread_end; ev_vm_shutdown; ev_vm_delete; ev_socket_close] ∧
  plain_request MT_EMIT 77 (body_emit (stray (table_of
    [(1%Z, [CString "x"]); (1%Z, [CString "y"])]))) ∈ sent (c_trace (chan r.2)).
Proof. vm_compute. split; [done|]. split; [done|]. do 5 right. left. Qed.

Lemma process_life_cycle_witness :
  follows_life_cycle streaming_server (Some 0%Z)
    (main sample_host streaming_build streaming_shell to_string 4 (sample_argv streaming [])
       streaming_server).2.
Proof.
  exact (process_life_cycle sample_host streaming_build streaming_shell to_string 4
    (sample_argv streaming []) streaming_server eq_refl).
Defined.
End witnesses.
