(* ===== verification/LegacyOptions.v ===== *)
(** * The first script-options parser
      ([script_options_parser/legacy/script_option_lines.cc])

    [extractOptionLine] takes the first line that sets an option out of the code of
    a script. The code is the state, since the function gets a reference to it. *)
From S2P Require Import Prelude StdString.

Open Scope list_scope.
Open Scope nat_scope.

(** [OptionParserException] and the [std::out_of_range] of [substr] *)
Inductive parser_exn : Type :=
  | OptionParserException (what : text)
  | OutOfRange.

Definition crlf : text := txt "
" ++ ["013"%char].

(** The constructor of the exception is given a C string. *)
Definition c_text (s : text) : text :=
  take (default (length s) (index_of (Ascii.eqb "000") s)) s.

Definition no_values (key : text) : parser_exn :=
  OptionParserException (c_text (txt "No values found for " ++ key ++ txt " statement")).
Definition end_not_found (key : text) : parser_exn :=
  OptionParserException (c_text (txt "End of " ++ key ++ txt " statement not found")).

(** The first character on the line of [startPos] that is not white space *)
Definition first_in_line (code whitespace : text) (startPos : nat) : option nat :=
  match find_last_of code crlf startPos with
  | None => find_first_not_of code whitespace 0
  | Some column_0 => find_first_not_of code whitespace (S column_0)
  end.

Definition extractOptionLine (key whitespace lineEnd : text) :
  M text parser_exn (text * option nat) :=
  code ← gets id;
  match find code key with
  | None => mret ([], None)
  | Some startPos =>
      if bool_decide (first_in_line code whitespace startPos = Some startPos) then
        match find_first_not_of code whitespace (startPos + length key) with
        | None => throw (no_values key)
        | Some firstPos =>
            match find_first_of code (lineEnd ++ crlf) firstPos with
            | None => throw (end_not_found key)
            | Some lastPos =>
                if negb (compare_eq code lastPos (length lineEnd) lineEnd)
                then throw (end_not_found key)
                else if lastPos <=? firstPos then throw (no_values key)
                else match find_last_not_of code whitespace (lastPos - 1) with
                     | None => throw (no_values key)
                     | Some optionsEnd =>
                         if optionsEnd <? firstPos then throw (no_values key)
                         else match substr code firstPos (optionsEnd - firstPos + 1) with
                              | None => throw OutOfRange
                              | Some result =>
                                  modify (λ code, erase code startPos (lastPos - startPos + 1));;
                                  mret (result, Some startPos)
                              end
                     end
            end
        end
      else mret ([], None)
  end.

(** ** A line that sets an option *)
Section lines.
Context (key whitespace : text) (e : ascii).

(** [before] ends where a line starts. *)
Definition line_start (before : text) : Prop :=
  before = [] ∨ ∃ b c, before = b ++ [c] ∧ c ∈ crlf.

Definition blank (s : text) : Prop := Forall (λ c, c ∈ whitespace) s.

(** A value between white space and the end character *)
Record value_ok (value : text) : Prop := {
  vo_first : ∃ c v, value = c :: v ∧ c ∉ whitespace;
  vo_last : ∃ c v, value = v ++ [c] ∧ c ∉ whitespace;
  vo_chars : Forall (λ c, c ≠ e ∧ c ∉ crlf) value;
}.

(** The characters of the option name, of white space and the end of a line differ. *)
Record charset_ok : Prop := {
  co_white : Forall (λ c, c ∉ crlf) whitespace;
  co_end : e ∉ whitespace;
  co_option : ∃ c o, key = c :: o ∧ c ∉ whitespace ∧ c ∉ crlf;
}.

Lemma none_of_blank s : blank s → Forall (λ c, none_of whitespace c = false) s.
Proof.
  intros Hs. eapply Forall_impl; [exact Hs|]. intros c Hc. unfold none_of, one_of. by rewrite bool_decide_true.
Qed.

Lemma none_of_true c : c ∉ whitespace → none_of whitespace c = true.
Proof. intros Hc. unfold none_of, one_of. by rewrite bool_decide_false. Qed.

Lemma none_of_false c : none_of whitespace c = false → c ∈ whitespace.
Proof. unfold none_of, one_of. intros Hc % negb_false_iff. by apply bool_decide_eq_true in Hc. Qed.

Lemma one_of_false set s : Forall (λ c, c ∉ set) s → Forall (λ c, one_of set c = false) s.
Proof. intros Hs. eapply Forall_impl; [exact Hs|]. intros c Hc. unfold one_of. by rewrite bool_decide_false. Qed.

Hypothesis (Hco : charset_ok).

Lemma blank_no_crlf s : blank s → Forall (λ c, c ∉ crlf) s.
Proof.
  pose proof (co_white Hco) as Hw. rewrite Forall_forall in Hw.
  intros Hs. eapply Forall_impl; [exact Hs|]. auto.
Qed.

(** The option is the first thing on its line. *)
Lemma first_in_line_run before ws rest :
  line_start before → blank ws →
  first_in_line (before ++ ws ++ key ++ rest) whitespace (length (before ++ ws)) =
  Some (length (before ++ ws)).
Proof.
  intros Hb Hws. destruct (co_option Hco) as (c & o & -> & Hc & Hcr). unfold first_in_line.
  pose proof (none_of_blank _ Hws) as Hskip. simpl.
  assert (Forall (λ c, one_of crlf c = false) (ws ++ [c])) as Hno.
  { apply one_of_false, Forall_app. split; [by apply blank_no_crlf|].
    constructor; [done|constructor]. }
  unfold find_last_of, find_first_not_of. destruct Hb as [->|(b & d & -> & Hd)].
  - simpl. replace (ws ++ c :: o ++ rest) with ((ws ++ [c]) ++ o ++ rest)
      by by rewrite <-app_assoc.
    rewrite rfind_if_all; [|done|rewrite length_app; simpl; lia]. rewrite <-app_assoc.
    apply (find_if_app _ [] ws 0); [done..|by apply none_of_true].
  - replace ((b ++ [d]) ++ ws ++ c :: o ++ rest) with (b ++ d :: (ws ++ [c]) ++ o ++ rest)
      by by rewrite <-!app_assoc.
    rewrite rfind_if_app; [|done|unfold one_of; by rewrite bool_decide_true
      |rewrite !length_app; simpl; lia].
    replace (b ++ d :: (ws ++ [c]) ++ o ++ rest) with ((b ++ [d]) ++ ws ++ c :: o ++ rest)
      by by rewrite <-!app_assoc.
    rewrite !length_app. simpl.
    apply (find_if_app _ (b ++ [d]) ws); [done|rewrite ?length_app; simpl; lia..|].
    by apply none_of_true.
Qed.

(** The position of the value, of the end of the line and of the end of the value *)
Lemma value_found front ws1 value ws2 rest :
  blank ws1 → blank ws2 → value_ok value →
  let code := front ++ ws1 ++ value ++ ws2 ++ e :: rest in
  let first := length (front ++ ws1) in
  let last := length (front ++ ws1 ++ value ++ ws2) in
  find_first_not_of code whitespace (length front) = Some first ∧
  find_first_of code ([e] ++ crlf) first = Some last ∧
  find_last_not_of code whitespace (last - 1) = Some (first + length value - 1).
Proof.
  intros Hw1 Hw2 [(c & v & Hv & Hc) (d & u & Hu & Hd) Hchars] code first last.
  split_and!.
  - unfold find_first_not_of, code, first. rewrite Hv, length_app. simpl.
    apply find_if_app; [by apply none_of_blank|done|done|by apply none_of_true].
  - unfold find_first_of, code, first, last.
    replace (front ++ ws1 ++ value ++ ws2 ++ e :: rest)
      with ((front ++ ws1) ++ (value ++ ws2) ++ e :: rest) by by rewrite <-!app_assoc.
    apply find_if_app; [|done|by rewrite !length_app; lia|].
    + apply one_of_false, Forall_app. split.
      * eapply Forall_impl; [exact Hchars|]. intros x [Hx1 Hx2]. simpl. set_solver.
      * apply Forall_forall. intros x Hx. unfold blank in Hw2. rewrite Forall_forall in Hw2.
        specialize (Hw2 _ Hx). pose proof (co_end Hco).
        pose proof (co_white Hco) as Hw. rewrite Forall_forall in Hw. specialize (Hw _ Hw2).
        simpl. set_solver.
    + unfold one_of. by rewrite bool_decide_true by set_solver.
  - unfold find_last_not_of, code, last, first. rewrite Hu.
    replace (front ++ ws1 ++ (u ++ [d]) ++ ws2 ++ e :: rest)
      with ((front ++ ws1 ++ u) ++ d :: ws2 ++ e :: rest) by by rewrite <-!app_assoc.
    rewrite rfind_if_app; [|by apply none_of_blank|by apply none_of_true|].
    + f_equal. rewrite !length_app. simpl. lia.
    + rewrite !length_app. simpl. lia.
Qed.
End lines.

(** ** Properties *)

(** C18. An option line is taken out. When the first occurrence of the option is the
    first thing on its line, after white space at most, and is followed by a value
    and the end character on the same line, the result is exactly the value without
    the white space around it, the line up to the end character disappears from the
    code and nothing else does, and the position is where it was. *)
Theorem extract_option_line_spec (key whitespace : text) (e : ascii)
  (before ws ws1 value ws2 rest : text) :
  charset_ok key whitespace e → line_start before →
  blank whitespace ws → blank whitespace ws1 → blank whitespace ws2 →
  value_ok whitespace e value →
  let front := before ++ ws in
  let code := front ++ key ++ ws1 ++ value ++ ws2 ++ e :: rest in
  (∀ j u, j < length front → code ≠ take j front ++ key ++ u) →
  extractOptionLine key whitespace [e] code =
    (Ret (value, Some (length front)), front ++ rest).
Proof.
  intros Hco Hb Hw Hw1 Hw2 Hv front code Hfirst. unfold extractOptionLine. run_simpl.
  unfold id. rewrite (find_here _ _ _ Hfirst : find code key = _).
  assert (code = before ++ ws ++ key ++ ws1 ++ value ++ ws2 ++ e :: rest) as Hcode
    by by unfold code, front; rewrite <-app_assoc.
  rewrite bool_decide_true; [|rewrite Hcode; unfold front; by eapply first_in_line_run].
  destruct (value_found key whitespace e Hco (front ++ key) ws1 value ws2 rest Hw1 Hw2 Hv)
    as (H1 & H2 & H3).
  assert ((front ++ key) ++ ws1 ++ value ++ ws2 ++ e :: rest = code) as Hc
    by by unfold code; rewrite <-app_assoc.
  rewrite Hc in H1, H2, H3. rewrite length_app in H1. rewrite H1. simpl in H2. rewrite H2.
  destruct (vo_first _ _ _ Hv) as (c & v & Hcv & _).
  assert (1 ≤ length value) as Hlen by (rewrite Hcv; simpl; lia).
  assert (code = ((front ++ key) ++ ws1 ++ value ++ ws2) ++ e :: rest) as Hsplit
    by by rewrite <-Hc, <-!app_assoc.
  assert (compare_eq code (length ((front ++ key) ++ ws1 ++ value ++ ws2)) 1 [e] = true) as ->.
  { unfold compare_eq. rewrite Hsplit, drop_app_length. by rewrite bool_decide_true. }
  assert (length ((front ++ key) ++ ws1) ≤ length code) as Hin
    by (rewrite Hsplit, !length_app; lia).
  rewrite !length_app in *. cbn [negb].
  rewrite (proj2 (Nat.leb_gt _ _)) by lia. rewrite H3.
  rewrite (proj2 (Nat.ltb_ge _ _)) by lia.
  rewrite substr_inside by done. run_simpl.
  f_equal; [f_equal; f_equal|].
  - rewrite <-!length_app, <-Hc, (app_assoc (front ++ key)), drop_app_length.
    apply take_app_length'. rewrite !length_app. lia.
  - replace code with (front ++ (key ++ ws1 ++ value ++ ws2 ++ [e]) ++ rest)
      by by unfold code; rewrite <-!app_assoc.
    apply erase_middle. rewrite !length_app. simpl. lia.
Qed.

(** Whatever the code, the function never reads or cuts outside of it. It gives
    back nothing and leaves the code alone, or it throws the exception of the parser
    and leaves the code alone, or it has taken out one piece of the code that
    consists of the option, white space, the non-empty result, white space and the
    end character; so a caller that repeats the call until nothing is found comes to
    an end. *)
Theorem extract_option_line_total (key whitespace : text) (e : ascii) (code : text) :
  match extractOptionLine key whitespace [e] code with
  | (Ret (r, None), code') => r = [] ∧ code' = code
  | (Ret (r, Some p), code') => ∃ ws1 ws2 rest,
      code = take p code ++ key ++ ws1 ++ r ++ ws2 ++ e :: rest ∧
      blank whitespace ws1 ∧ blank whitespace ws2 ∧ r ≠ [] ∧
      code' = take p code ++ rest ∧ length code' < length code
  | (Throw (OptionParserException _), code') => code' = code
  | _ => False
  end.
Proof.
  unfold extractOptionLine. run_simpl. unfold id.
  destruct (find code key) as [p|] eqn:Hp; [|done].
  case_bool_decide as Hline; [|done].
  destruct (find_first_not_of code whitespace (p + length key)) as [first|] eqn:Hf; [|done].
  destruct (find_first_of code (e :: crlf) first) as [last|] eqn:Hl; [|done].
  destruct (compare_eq code last 1 [e]) eqn:Hcmp; [|done]. simpl.
  destruct (Nat.leb_spec last first) as [|Hfl]; [done|].
  destruct (find_last_not_of code whitespace (last - 1)) as [oe|] eqn:Ho; [|done].
  destruct (Nat.ltb_spec oe first) as [|Hfo]; [done|].
  apply find_if_some in Hf as (Hf1 & _ & Hf3). apply find_if_some in Hl as (Hl1 & _).
  apply rfind_if_some in Ho as (Ho1 & _ & _ & Ho4).
  rewrite substr_inside by lia. run_simpl.
  apply find_some in Hp as [[u Hu] _].
  assert (drop (p + length key) code = u) as Hd.
  { assert (p ≤ length code) by lia. rewrite <-drop_drop, Hu at 1.
    rewrite drop_app_length' by (rewrite length_take; lia). by rewrite drop_app_length. }
  unfold compare_eq in Hcmp. apply bool_decide_eq_true in Hcmp.
  assert (drop last code = e :: drop (S last) code) as He.
  { rewrite <-(take_drop 1 (drop last code)), Hcmp, drop_drop. simpl. do 2 f_equal. lia. }
  assert (code = take p code ++ key ++ part code (p + length key) first
    ++ part code first (S oe) ++ part code (S oe) last ++ e :: drop (S last) code) as Hcode.
  { rewrite <-He, <-!drop_part by lia. by rewrite Hd. }
  exists (part code (p + length key) first), (part code (S oe) last), (drop (S last) code).
  assert (take (oe - first + 1) (drop first code) = part code first (S oe)) as ->
    by (unfold part; f_equal; lia).
  assert (erase code p (last - p + 1) = take p code ++ drop (S last) code) as ->
    by (unfold erase; do 2 f_equal; lia).
  split_and!; [exact Hcode| | | |done|].
  - apply part_forall. intros k c Hk Hc. by eapply none_of_false, Hf3.
  - apply part_forall. intros k c Hk Hc. eapply none_of_false, Ho4; [|exact Hc]. lia.
  - intros Hnil. apply (f_equal length) in Hnil. rewrite part_length in Hnil; simpl in *; lia.
  - rewrite length_app, length_take, length_drop. lia.
Qed.

(** Only the first occurrence counts. When the first occurrence of the option
    stands behind something other than white space on its line, in a comment for
    example, nothing is found, whatever follows: a proper option line further down
    stays in the code. *)
Theorem extract_option_line_masked (key whitespace : text) (e c : ascii)
  (before junk rest : text) :
  charset_ok key whitespace e → line_start before →
  c ∉ whitespace → c ∉ crlf → Forall (λ c, c ∉ crlf) junk →
  let front := before ++ c :: junk in
  let code := front ++ key ++ rest in
  (∀ j u, j < length front → code ≠ take j front ++ key ++ u) →
  extractOptionLine key whitespace [e] code = (Ret ([], None), code).
Proof.
  intros Hco Hb Hc Hcr Hj front code Hfirst. unfold extractOptionLine. run_simpl. unfold id.
  rewrite (find_here _ _ _ Hfirst : find code key = _).
  rewrite bool_decide_false; [done|]. intros Hline.
  assert (find_first_not_of code whitespace (length before) = Some (length before)) as Hnw.
  { unfold code, front. rewrite <-app_assoc. simpl.
    apply (find_if_app _ before [] _ _ c); simpl; [constructor|done|lia|by apply none_of_true]. }
  destruct (co_option _ _ _ Hco) as (d & o & Hkey & Hd & Hdcr).
  assert (Forall (λ c, one_of crlf c = false) (c :: junk ++ [d])) as Hno.
  { apply one_of_false. constructor; [done|]. apply Forall_app. split; [done|].
    constructor; [done|constructor]. }
  assert (length front = length before + S (length junk)) as Hlen
    by (unfold front; rewrite length_app; simpl; lia).
  unfold first_in_line, find_last_of in Hline. destruct Hb as [->|(b & x & -> & Hx)].
  - assert (code = (c :: junk ++ [d]) ++ o ++ rest) as Hcode
      by by unfold code, front; rewrite Hkey; simpl; rewrite <-?app_assoc; simpl; rewrite <-?app_assoc.
    rewrite Hcode in Hline at 1. rewrite rfind_if_all in Hline; [|done|].
    2:{ rewrite Hlen. simpl. rewrite length_app. simpl. lia. }
    simpl in Hnw, Hlen. rewrite Hnw in Hline. injection Hline. lia.
  - assert (code = b ++ x :: (c :: junk ++ [d]) ++ o ++ rest) as Hcode
      by by unfold code, front; rewrite Hkey; simpl; rewrite <-?app_assoc; simpl; rewrite <-?app_assoc.
    rewrite Hcode in Hline at 1. rewrite length_app in Hlen, Hnw. simpl in Hlen, Hnw.
    rewrite rfind_if_app in Hline; [|done|by unfold one_of; rewrite bool_decide_true|].
    2:{ rewrite Hlen. simpl. rewrite length_app. simpl. lia. }
    replace (length b + 1) with (S (length b)) in Hnw by lia.
    rewrite Hnw in Hline. injection Hline. lia.
Qed.

(** ** Witnesses *)
Section witnesses.
Definition sample_white : text := txt " " ++ ["009"%char].
Definition sample_key : text := txt "%jar".

Lemma sample_charset : charset_ok sample_key sample_white ";".
Proof.
  split.
  - repeat constructor; vm_compute; set_solver.
  - vm_compute. set_solver.
  - exists "%"%char, (txt "jar"). split; [done|]. split; vm_compute; set_solver.
Qed.

Lemma extract_option_line_spec_witness :
  extractOptionLine sample_key sample_white (txt ";") (txt "  %jar  /a.jar ;import x") =
    (Ret (txt "/a.jar", Some 2), txt "  import x").
Proof.
  apply (extract_option_line_spec sample_key sample_white ";" [] (txt "  ") (txt "  ")
    (txt "/a.jar") (txt " ") (txt "import x")).
  - apply sample_charset.
  - by left.
  - repeat constructor; vm_compute; set_solver.
  - repeat constructor; vm_compute; set_solver.
  - repeat constructor; vm_compute; set_solver.
  - split.
    + exists "/"%char, (txt "a.jar"). split; [reflexivity|]. vm_compute. set_solver.
    + exists "r"%char, (txt "/a.ja"). split; [reflexivity|]. vm_compute. set_solver.
    + repeat constructor; vm_compute; set_solver.
  - intros j u Hj. simpl in Hj. destruct j as [|[|j]]; [..|lia]; by intros [=].
Defined.

Lemma extract_option_line_masked_witness :
  let code := txt "# %jar x" ++ txt ";" ++ crlf ++ txt "%jar /a.jar;" in
  extractOptionLine sample_key sample_white (txt ";") code = (Ret ([], None), code).
Proof.
  apply (extract_option_line_masked sample_key sample_white ";" "#" [] (txt " ")
    (txt " x" ++ txt ";" ++ crlf ++ txt "%jar /a.jar;")).
  - apply sample_charset.
  - by left.
  - vm_compute. set_solver.
  - vm_compute. set_solver.
  - repeat constructor; vm_compute; set_solver.
  - intros j u Hj. simpl in Hj. destruct j as [|[|j]]; [..|lia]; by intros [=].
Defined.
End witnesses.
