(* ===== verification/CtpgOptions.v ===== *)
(** * The second script-options parser
      ([script_options_parser/ctpg/script_option_lines_ctpg.cc])

    The grammar of a line is that of the source: one relation for each nonterminal,
    one constructor for each rule, with the value its action computes. The engine
    that runs the grammar ([ctpg.hpp], a copy of a parser library) is the parameter
    [option_parser]; what is relied on is that a value it returns is one the grammar
    derives ([engine_sound]). [getNextLine] and [parseOptions] find the lines. *)
From S2P Require Import Prelude StdString LegacyOptions.

Open Scope list_scope.
Open Scope nat_scope.

(** ** Terminals *)
Inductive term : Type :=
  | start_option_token | escape_seq | whitespace_escape_seq | whitespaces
  | end_option_token | alpha_numeric | not_semicolon.

Definition is_alnum (c : ascii) : bool :=
  let n := nat_of_ascii c in
  (48 <=? n) && (n <=? 57) || (65 <=? n) && (n <=? 90) || (97 <=? n) && (n <=? 122)
  || (n =? 95).
(** space, tab, form feed and vertical tab *)
Definition is_white (c : ascii) : bool := one_of [" "; "009"; "012"; "011"]%char c.

Definition pair_of (firsts : text) (s : text) : bool :=
  match s with [c; d] => Ascii.eqb c "\" && one_of firsts d | _ => false end.

(** The patterns of the terminals *)
Definition matches (t : term) (s : text) : bool :=
  match t with
  | start_option_token => bool_decide (s = ["%"]%char)
  | end_option_token => bool_decide (s = [";"]%char)
  | alpha_numeric => negb (bool_decide (s = [])) && forallb is_alnum s
  | not_semicolon => match s with [c] => negb (Ascii.eqb c ";") | _ => false end
  | whitespaces => negb (bool_decide (s = [])) && forallb is_white s
  | escape_seq => pair_of [";"; "n"; "r"; "\"]%char s
  | whitespace_escape_seq => pair_of [" "; "t"; "f"; "v"]%char s
  end.

(** A terminal of a line: its kind, its text and its column, from 1 *)
Record token : Type := mkToken { tok_term : term; tok_value : text; tok_column : nat }.

(** [toks] are the terminals of [line], the first of them in column [col]. *)
Inductive lexed : nat → text → list token → Prop :=
  | lexed_nil col : lexed col [] []
  | lexed_cons col t s line toks :
      matches t s = true → lexed (col + length s) line toks →
      lexed col (s ++ line) (mkToken t s col :: toks).

(** ** The actions *)
Record Option : Type := mkOption {
  op_key : text; op_value : text; op_start : nat; op_end : nat;
}.
Definition options_type : Type := list Option.

Definition empty_options : options_type := [].
Definition to_options (e : Option) : options_type := [e].
Definition to_option (key value : text) (sp_begin sp_end : nat) : Option :=
  mkOption key value sp_begin sp_end.
Definition add_option (e : Option) (ob : options_type) : options_type := ob ++ [e].

Definition convert_escape_seq (s : text) : parser_exn + text :=
  if decide (s = ["\"; ";"]%char) then inr [";"]%char
  else if decide (s = ["\"; "n"]%char) then inr ["010"]%char
  else if decide (s = ["\"; "r"]%char) then inr ["013"]%char
  else if decide (s = ["\"; "\"]%char) then inr ["\"]%char
  else inl (OptionParserException
    (txt "Internal parser error: Unexpected escape sequence " ++ s)).

Definition convert_whitespace_escape_seq (s : text) : parser_exn + text :=
  if decide (s = ["\"; " "]%char) then inr [" "]%char
  else if decide (s = ["\"; "t"]%char) then inr ["009"]%char
  else if decide (s = ["\"; "f"]%char) then inr ["012"]%char
  else if decide (s = ["\"; "v"]%char) then inr ["011"]%char
  else inl (OptionParserException
    (txt "Internal parser error: Unexpected white space escape sequence " ++ s)).

(** ** The rules *)
Inductive option_value : list token → text → Prop :=
  | ov_alpha_numeric s c : option_value [mkToken alpha_numeric s c] s
  | ov_not_semicolon s c : option_value [mkToken not_semicolon s c] s
  | ov_whitespace_escape s c v :
      convert_whitespace_escape_seq s = inr v →
      option_value [mkToken whitespace_escape_seq s c] v
  | ov_escape s c v :
      convert_escape_seq s = inr v → option_value [mkToken escape_seq s c] v
  | ov_more_not_semicolon ts ov s c :
      option_value ts ov → option_value (ts ++ [mkToken not_semicolon s c]) (ov ++ s)
  | ov_more_whitespace_escape ts ov s c :
      option_value ts ov → option_value (ts ++ [mkToken whitespace_escape_seq s c]) (ov ++ s)
  | ov_more_escape ts ov s c v :
      option_value ts ov → convert_escape_seq s = inr v →
      option_value (ts ++ [mkToken escape_seq s c]) (ov ++ v)
  | ov_more_start ts ov s c :
      option_value ts ov → option_value (ts ++ [mkToken start_option_token s c]) (ov ++ ["%"]%char)
  | ov_more_alpha_numeric ts ov s c :
      option_value ts ov → option_value (ts ++ [mkToken alpha_numeric s c]) (ov ++ s)
  | ov_more_whitespaces ts ov s c :
      option_value ts ov → option_value (ts ++ [mkToken whitespaces s c]) (ov ++ s).

Inductive option_element : list token → Option → Prop :=
  | oe_option st cst ok cok ws cws ts ov e ce :
      option_value ts ov →
      option_element
        (mkToken start_option_token st cst :: mkToken alpha_numeric ok cok
           :: mkToken whitespaces ws cws :: ts ++ [mkToken end_option_token e ce])
        (to_option ok ov cst ce)
  | oe_indented w0 c0 st cst ok cok ws cws ts ov e ce :
      option_value ts ov →
      option_element
        (mkToken whitespaces w0 c0 :: mkToken start_option_token st cst
           :: mkToken alpha_numeric ok cok :: mkToken whitespaces ws cws
           :: ts ++ [mkToken end_option_token e ce])
        (to_option ok ov cst ce).

Inductive options : list token → options_type → Prop :=
  | os_one ts e : option_element ts e → options ts (to_options e)
  | os_more ts ob ts' e :
      options ts ob → option_element ts' e → options (ts ++ ts') (add_option e ob).

Inductive rest : list token → Prop :=
  | rest_one t s c : t ≠ start_option_token → rest [mkToken t s c]
  | rest_more ts t s c : rest ts → rest (ts ++ [mkToken t s c]).

Inductive text_rule : list token → options_type → Prop :=
  | text_rest ts : rest ts → text_rule ts empty_options
  | text_options_rest ts ob ts' : options ts ob → rest ts' → text_rule (ts ++ ts') ob
  | text_options ts ob : options ts ob → text_rule ts ob.

(** ** Lines *)
Record ScriptOption : Type := mkScriptOption {
  so_value : text; idx_in_source : nat; so_size : nat;
}.
Definition options_map_t : Type := gmap text (list ScriptOption).

(** The lines are given by their start and end positions. *)
Definition getNextLine (current_pos : nat) (scriptCode : text) : option (nat * option nat) :=
  match find_first_of scriptCode ["%"]%char current_pos with
  | None => None
  | Some new_option_start_pos =>
      let line_start_pos :=
        match find_last_of scriptCode crlf new_option_start_pos with
        | None => 0
        | Some p => S p
        end in
      Some (line_start_pos, find_first_of scriptCode crlf line_start_pos)
  end.

Section parser.
(** The engine: what it writes to the error buffer, or the value of the text *)
Context (option_parser : text → text + options_type).

Definition parse (code : text) : parser_exn + options_type :=
  match option_parser code with
  | inr r => inr r
  | inl error_buffer => inl (OptionParserException error_buffer)
  end.

Definition add_entry (mStartPos : nat) (o : Option) : M options_map_t parser_exn unit :=
  let entry := mkScriptOption (op_value o) (mStartPos + op_start o - 1)
    (op_end o - op_start o + 1) in
  modify (λ result, match result !! op_key o with
                    | None => <[op_key o := [entry]]> result
                    | Some old => <[op_key o := old ++ [entry]]> result
                    end).

(** [std::count(begin, begin + pos, '\n')] *)
Definition count_newlines (code : text) (pos : nat) : nat :=
  length (filter (λ c, c = "010"%char) (take pos code)).

Definition line_error (code : text) (mStartPos : nat) (ex : parser_exn) : parser_exn :=
  match ex with
  | OptionParserException what =>
      OptionParserException (txt "Error parsing script options at line "
        ++ list_ascii_of_string (to_string (Z.of_nat (count_newlines code mStartPos)))
        ++ txt ": " ++ c_text what)
  | OutOfRange => OutOfRange
  end.

(** The loop body: the line is parsed and its options are added. *)
Definition parse_line (code : text) (mStartPos : nat) (mEndPos : option nat) :
  M options_map_t parser_exn unit :=
  match substr code mStartPos (default (length code) mEndPos - mStartPos) with
  | None => throw OutOfRange
  | Some line =>
      match parse line with
      | inl ex => throw (line_error code mStartPos ex)
      | inr parser_result => mapM_ (add_entry mStartPos) parser_result
      end
  end.

Fixpoint parse_lines (fuel : nat) (code : text) (current : option (nat * option nat)) :
  M options_map_t parser_exn unit :=
  match current with
  | None => mret tt
  | Some (mStartPos, mEndPos) =>
      match fuel with
      | 0 => blocked
      | S fuel =>
          parse_line code mStartPos mEndPos;;
          match mEndPos with
          | None => mret tt
          | Some p => parse_lines fuel code (getNextLine (S p) code)
          end
      end
  end.

Definition parseOptions (fuel : nat) (code : text) : M options_map_t parser_exn unit :=
  parse_lines fuel code (getNextLine 0 code).
End parser.

(** ** The lines of a text

    The reference: the text is split at every carriage return and line feed. *)
Fixpoint lines_from (pos start : nat) (line s : text) : list (nat * text) :=
  match s with
  | [] => [(start, line)]
  | c :: s =>
      if one_of crlf c then (start, line) :: lines_from (S pos) (S pos) [] s
      else lines_from (S pos) start (line ++ [c]) s
  end.

Definition percent_in (s : text) : bool := existsb (one_of ["%"]%char) s.
Definition has_percent (l : nat * text) : bool := percent_in l.2.

(** The lines that contain a percent sign, with their positions *)
Definition option_lines (code : text) : list (nat * text) :=
  List.filter has_percent (lines_from 0 0 [] code).

Lemma lines_from_split pos start line s :
  lines_from pos start line s =
  match index_of (one_of crlf) s with
  | None => [(start, line ++ s)]
  | Some k => (start, line ++ take k s)
      :: lines_from (pos + S k) (pos + S k) [] (drop (S k) s)
  end.
Proof.
  revert pos line. induction s as [|c s IH]; intros pos line; cbn [lines_from index_of].
  - by rewrite app_nil_r.
  - destruct (one_of crlf c).
    + rewrite app_nil_r, Nat.add_1_r. done.
    + rewrite IH. destruct (index_of (one_of crlf) s) as [k|]; simpl.
      * by rewrite <-app_assoc, !Nat.add_succ_r.
      * by rewrite <-app_assoc.
Qed.

Section next_line.
Context (code : text).

(** A position where a line begins *)
Definition line_begin (p : nat) : Prop :=
  p ≤ length code ∧ (p = 0 ∨ ∃ c, code !! (p - 1) = Some c ∧ one_of crlf c = true).

(** The end of the line that begins there, relative to it, and its text *)
Definition line_length (p : nat) : option nat := index_of (one_of crlf) (drop p code).
Definition line_text (p : nat) : text :=
  match line_length p with Some k => take k (drop p code) | None => drop p code end.

Lemma line_text_plain p j c :
  p ≤ j → j < p + length (line_text p) → code !! j = Some c → one_of crlf c = false.
Proof.
  unfold line_text, line_length. intros Hp Hj Hc.
  replace j with (p + (j - p)) in Hc by lia. rewrite <-lookup_drop in Hc.
  destruct (index_of _ _) as [k|] eqn:Hk.
  - apply index_of_some in Hk as [_ Hf]. rewrite Forall_lookup in Hf.
    rewrite length_take in Hj. apply (Hf (j - p)). rewrite lookup_take_lt; [done|lia].
  - apply index_of_none in Hk. rewrite Forall_lookup in Hk. by apply (Hk (j - p)).
Qed.

(** The line start that is searched backwards from a character of the line *)
Lemma line_start_found p j :
  line_begin p → p ≤ j < p + length (line_text p) → j < length code →
  match find_last_of code crlf j with None => 0 | Some q => S q end = p.
Proof.
  intros [Hp Hb] Hj Hlen. unfold find_last_of.
  destruct (rfind_if (one_of crlf) code j) as [q|] eqn:Hq.
  - apply rfind_if_some in Hq as (Hqj & _ & (c & Hc & Hcr) & Hno).
    destruct (decide (q < p)) as [Hlt|Hge].
    + destruct Hb as [->|(d & Hd & Hdcr)]; [lia|].
      destruct (decide (q = p - 1)) as [|Hne]; [lia|].
      specialize (Hno (p - 1) d ltac:(lia) Hd). congruence.
    + assert (one_of crlf c = false) by (eapply (line_text_plain p q); [lia|lia|done]). congruence.
  - destruct Hb as [|(d & Hd & Hdcr)]; [done|].
    destruct p as [|p]; [done|]. assert (one_of crlf d = false);
      [eapply (rfind_if_none _ _ _ (S p - 1)); [done|lia|done]|congruence].
Qed.

Lemma existsb_none (p : ascii → bool) s : existsb p s = false → Forall (λ c, p c = false) s.
Proof. induction s as [|c s IH]; simpl; [done|]. intros [? ?] % orb_false_iff. by constructor; auto. Qed.

Lemma existsb_some (p : ascii → bool) s :
  existsb p s = true → ∃ i c, s !! i = Some c ∧ p c = true.
Proof.
  induction s as [|c s IH]; simpl; [done|]. intros [Hc|Hs] % orb_true_iff.
  - by exists 0, c.
  - destruct (IH Hs) as (i & d & Hi & Hd). by exists (S i), d.
Qed.

(** The search for a percent sign, by the line at its start *)
Lemma percent_in_line p :
  line_begin p →
  if percent_in (line_text p) then
    ∃ j, find_first_of code ["%"]%char p = Some j ∧ p ≤ j < p + length (line_text p)
  else find_first_of code ["%"]%char p =
    match line_length p with
    | Some k => find_first_of code ["%"]%char (p + S k)
    | None => None
    end.
Proof.
  intros [Hp _]. unfold find_first_of, find_if, line_text, percent_in.
  destruct (existsb _ _) eqn:He.
  - destruct (line_length p) as [k|] eqn:Hk.
    + apply existsb_some in He as (i & c & Hi & Hcp).
      pose proof (lookup_lt_Some _ _ _ Hi). apply lookup_take_Some in Hi as [Hi Hik].
      destruct (index_of (one_of ["%"]%char) (drop p code)) as [m|] eqn:Hm.
      * exists (p + m). split; [done|]. split; [lia|].
        apply index_of_some in Hm as [_ Hf].
        destruct (decide (m ≤ i)) as [|Hgt]; [lia|].
        rewrite Forall_lookup in Hf. assert (one_of ["%"]%char c = false);
          [apply (Hf i); rewrite lookup_take_lt; [done|lia]|congruence].
      * apply index_of_none in Hm. rewrite Forall_lookup in Hm. specialize (Hm i c Hi). congruence.
    + apply existsb_some in He as (i & c & Hi & Hcp).
      destruct (index_of (one_of ["%"]%char) (drop p code)) as [m|] eqn:Hm.
      * exists (p + m). split; [done|]. split; [lia|]. apply index_of_length in Hm. lia.
      * apply index_of_none in Hm. rewrite Forall_lookup in Hm. specialize (Hm i c Hi). congruence.
  - apply existsb_none in He. destruct (line_length p) as [k|] eqn:Hk.
    + unfold line_length in Hk. pose proof (index_of_length _ _ _ Hk) as Hlen.
      apply index_of_some in Hk as [(c & Hc & Hcr) _].
      assert (one_of ["%"]%char c = false) as Hcp.
      { unfold one_of in *. apply bool_decide_eq_true in Hcr. apply bool_decide_eq_false.
        vm_compute in Hcr. intros ->%list_elem_of_singleton.
        repeat apply elem_of_cons in Hcr as [Hcr|Hcr]; try done. by apply elem_of_nil in Hcr. }
      rewrite <-(take_drop_middle _ _ _ Hc) at 1. rewrite index_of_app by done. simpl.
      rewrite Hcp, drop_drop.
      destruct (index_of _ (drop (p + S k) code)); simpl; [|done]. f_equal.
      rewrite length_take. lia.
    + by rewrite (proj2 (index_of_none _ _) He).
Qed.

Lemma getNextLine_run p :
  line_begin p →
  getNextLine p code =
  if percent_in (line_text p) then Some (p, (λ k, p + k) <$> line_length p)
  else match line_length p with
       | Some k => getNextLine (p + S k) code
       | None => None
       end.
Proof.
  intros Hp. pose proof (percent_in_line p Hp) as H. unfold getNextLine.
  destruct (percent_in _).
  - destruct H as (j & -> & Hj). rewrite (line_start_found p j Hp Hj).
    + done.
    + unfold line_text, line_length in Hj. destruct Hp as [Hp _].
      destruct (index_of _ _); rewrite ?length_take, length_drop in Hj; lia.
  - rewrite H. by destruct (line_length p).
Qed.

Lemma line_begin_next p k : line_begin p → line_length p = Some k → line_begin (p + S k).
Proof.
  intros [Hp _] Hk. unfold line_length in Hk. pose proof (index_of_length _ _ _ Hk) as Hlen.
  rewrite length_drop in Hlen. split; [lia|]. right.
  apply index_of_some in Hk as [(c & Hc & Hcr) _]. rewrite lookup_drop in Hc.
  exists c. split; [|done]. by replace (p + S k - 1) with (p + k) by lia.
Qed.
End next_line.

(** ** Equivalence with the reference *)
Section reference.
Context (option_parser : text → text + options_type).

(** What happens to a line of the reference *)
Definition parse_text_line (code : text) (l : nat * text) : M options_map_t parser_exn unit :=
  match parse option_parser l.2 with
  | inl ex => throw (line_error code l.1 ex)
  | inr parser_result => mapM_ (add_entry l.1) parser_result
  end.

Lemma parse_line_text code p :
  line_begin code p →
  parse_line option_parser code p ((λ k, p + k) <$> line_length code p)
  = parse_text_line code (p, line_text code p).
Proof.
  intros [Hp _]. unfold parse_line, parse_text_line. rewrite substr_inside by done.
  unfold line_text. destruct (line_length code p) as [k|]; simpl.
  - by replace (p + k - p) with k by lia.
  - by rewrite take_ge by by rewrite length_drop.
Qed.

Lemma parse_lines_reference code n p fuel :
  length code - p < n → n ≤ fuel → line_begin code p →
  parse_lines option_parser fuel code (getNextLine p code) ≡
  mapM_ (parse_text_line code) (List.filter has_percent (lines_from p p [] (drop p code))).
Proof.
  revert p fuel. induction n as [|n IH]; intros p fuel Hn Hf Hp; [lia|].
  rewrite (getNextLine_run code p Hp), lines_from_split. fold (line_length code p).
  pose proof (parse_line_text code p Hp) as Hline. revert Hline.
  pose proof (line_begin_next code p) as Hnext. revert Hnext.
  unfold line_text, has_percent. destruct (line_length code p) as [k|]; intros Hnext Hline; simpl.
  - specialize (Hnext k Hp eq_refl). pose proof (proj1 Hnext).
    rewrite drop_drop. destruct (percent_in _).
    + destruct fuel as [|fuel]; [lia|]. simpl in *. rewrite Hline. f_equiv. intros [].
      rewrite <-Nat.add_succ_r. apply IH; [lia..|done].
    + apply IH; [lia..|done].
  - destruct fuel as [|fuel]; [lia|]. destruct (percent_in _); [|done].
    simpl in *. by rewrite Hline.
Qed.

(** C12. The scan over the code is the plain one: [parseOptions] does what splitting
    the code at every line end does, looking only at the lines with a percent sign,
    in order, parsing each of them once and stopping at the first error. One more
    unit of fuel than the code has characters is enough for any code and any grammar
    engine, so the loop always ends. *)
Theorem parse_options_reference (code : text) (result : options_map_t) :
  parseOptions option_parser (S (length code)) code result =
  mapM_ (parse_text_line code) (option_lines code) result.
Proof.
  unfold parseOptions, option_lines.
  change (lines_from 0 0 [] code) with (lines_from 0 0 [] (drop 0 code)).
  apply (parse_lines_reference code (S (length code)) 0); [lia|done|].
  split; [lia|by left].
Qed.
End reference.

(** ** What the grammar says about the positions *)
Section positions.
Lemma lexed_app col line ts1 ts2 :
  lexed col line (ts1 ++ ts2) →
  ∃ l1 l2, line = l1 ++ l2 ∧ lexed col l1 ts1 ∧ lexed (col + length l1) l2 ts2.
Proof.
  revert col line. induction ts1 as [|t ts1 IH]; intros col line Hl; simpl in *.
  - exists [], line. split_and!; [done|constructor|by rewrite Nat.add_0_r].
  - inversion Hl as [|? ? s l ? Hm Hr]; subst. destruct (IH _ _ Hr) as (l1 & l2 & -> & H1 & H2).
    exists (s ++ l1), l2. rewrite <-app_assoc. split_and!; [done|by constructor|].
    by rewrite length_app, Nat.add_assoc.
Qed.

Lemma lexed_single col line t s c :
  lexed col line [mkToken t s c] → line = s ∧ c = col ∧ matches t s = true.
Proof.
  intros Hl. inversion Hl as [|? ? ? l ? Hm Hr]; subst. inversion Hr; subst.
  by rewrite app_nil_r.
Qed.

Lemma convert_escape_backslash s v : convert_escape_seq s = inr v → "\"%char ∈ s.
Proof.
  unfold convert_escape_seq. repeat case_decide; subst; try done; intros _; apply list_elem_of_here.
Qed.
Lemma convert_whitespace_backslash s v : convert_whitespace_escape_seq s = inr v → "\"%char ∈ s.
Proof.
  unfold convert_whitespace_escape_seq. repeat case_decide; subst; try done; intros _;
    apply list_elem_of_here.
Qed.

(** Without a backslash the value is the text between the white space and the
    semicolon. *)
Lemma option_value_plain ts v :
  option_value ts v → ∀ col raw, lexed col raw ts → "\"%char ∉ raw → v = raw.
Proof.
  induction 1 as [s c|s c|s c v Hv|s c v Hv|ts ov s c _ IH|ts ov s c _ IH|ts ov s c v _ IH Hv
    |ts ov s c _ IH|ts ov s c _ IH|ts ov s c _ IH]; intros col raw Hl Hb;
    try (apply lexed_single in Hl as (-> & _ & Hm));
    try (apply lexed_app in Hl as (l1 & l2 & -> & H1 & (-> & _ & Hm) % lexed_single);
         rewrite not_elem_of_app in Hb; destruct Hb as [Hb1 Hb2];
         specialize (IH _ _ H1 Hb1); subst ov).
  - done.
  - done.
  - by apply convert_whitespace_backslash in Hv.
  - by apply convert_escape_backslash in Hv.
  - done.
  - done.
  - by apply convert_escape_backslash in Hv.
  - simpl in Hm. apply bool_decide_eq_true in Hm. by subst.
  - done.
  - done.
Qed.

(** The part of a line that an option stands for, between [front] and [back] *)
Record option_at (line : text) (o : Option) : Prop := {
  oa_split : ∃ front ws raw back,
    line = front ++ ["%"]%char ++ op_key o ++ ws ++ raw ++ [";"]%char ++ back ∧
    op_start o = S (length front) ∧
    op_end o = op_start o + length (op_key o) + length ws + length raw + 1 ∧
    matches alpha_numeric (op_key o) = true ∧ matches whitespaces ws = true ∧
    ("\"%char ∉ raw → op_value o = raw);
}.

(** The core of both rules for an option *)
Lemma option_core st cst ok cok ws cws ts ov e ce col line :
  option_value ts ov →
  lexed col line (mkToken start_option_token st cst :: mkToken alpha_numeric ok cok
    :: mkToken whitespaces ws cws :: ts ++ [mkToken end_option_token e ce]) →
  cst = col ∧ ∀ front back, S (length front) = col →
    option_at (front ++ line ++ back) (to_option ok ov cst ce).
Proof.
  intros Hov Hl.
  inversion Hl as [|? ? ? l1 ? Hm1 Hl1]; subst. inversion Hl1 as [|? ? ? l2 ? Hm2 Hl2]; subst.
  inversion Hl2 as [|? ? ? l3 ? Hm3 Hl3]; subst.
  apply lexed_app in Hl3 as (raw & l4 & -> & Hraw & (-> & -> & Hm4) % lexed_single).
  split; [done|]. intros front back Hfront.
  simpl in Hm1. apply bool_decide_eq_true in Hm1 as ->.
  simpl in Hm4. apply bool_decide_eq_true in Hm4 as ->.
  split. exists front, ws, raw, back. unfold to_option. simpl. rewrite <-!app_assoc.
  split_and!; try done.
  - lia.
  - intros Hb. by eapply option_value_plain.
Qed.

Lemma option_element_at ts o col line :
  option_element ts o → lexed col line ts →
  ∀ front back, S (length front) = col → option_at (front ++ line ++ back) o.
Proof.
  intros [st cst ok cok ws cws ts0 ov e ce Hov|w0 c0 st cst ok cok ws cws ts0 ov e ce Hov] Hl
    front back Hf.
  - by eapply option_core.
  - inversion Hl as [|? ? ? l1 ? Hm1 Hl1]; subst.
    destruct (option_core _ _ _ _ _ _ _ _ _ _ _ _ Hov Hl1) as [_ Hat].
    specialize (Hat (front ++ w0) back). rewrite <-!app_assoc in Hat |- *. apply Hat.
    rewrite length_app. lia.
Qed.

Lemma options_at ts ob :
  options ts ob → ∀ col line, lexed col line ts →
  ∀ front back, S (length front) = col → Forall (option_at (front ++ line ++ back)) ob.
Proof.
  induction 1 as [ts e He|ts ob ts' e _ IH He]; intros col line Hl front back Hf.
  - constructor; [|constructor]. by eapply option_element_at.
  - apply lexed_app in Hl as (l1 & l2 & -> & H1 & H2). unfold add_option.
    rewrite <-app_assoc. apply Forall_app. split; [by eapply IH|].
    constructor; [|constructor]. rewrite app_assoc.
    eapply option_element_at; [done|exact H2|]. rewrite length_app. lia.
Qed.

Lemma text_rule_at ts ob line :
  text_rule ts ob → lexed 1 line ts → Forall (option_at line) ob.
Proof.
  intros [ts0 _|ts0 ob0 ts' Ho _|ts0 ob0 Ho] Hl; [constructor| |].
  - apply lexed_app in Hl as (l1 & l2 & -> & H1 & _).
    by apply (options_at _ _ Ho 1 l1 H1 [] l2).
  - pose proof (options_at _ _ Ho 1 line Hl [] [] eq_refl) as H. simpl in H.
    by rewrite app_nil_r in H.
Qed.
End positions.

(** ** Soundness of the result *)
Section soundness.
Context (option_parser : text → text + options_type).

(** A value the engine returns is derived by the grammar from the terminals of the
    line. Its columns have 32 bits. *)
Hypothesis engine_sound : ∀ line ob,
  (zlength line < 2 ^ 32 - 1)%Z → option_parser line = inr ob →
  ∃ toks, lexed 1 line toks ∧ text_rule toks ob.

(** What an entry of the result under [key] stands for *)
Definition entry_ok (code key : text) (o : ScriptOption) : Prop :=
  ∃ ws raw,
    take (so_size o) (drop (idx_in_source o) code)
      = ["%"]%char ++ key ++ ws ++ raw ++ [";"]%char ∧
    idx_in_source o + so_size o ≤ length code ∧
    matches alpha_numeric key = true ∧ matches whitespaces ws = true ∧
    Forall (λ c, c ∉ crlf) (take (so_size o) (drop (idx_in_source o) code)) ∧
    ("\"%char ∉ raw → so_value o = raw).

Definition result_ok (code : text) (result : options_map_t) : Prop :=
  ∀ key os, result !! key = Some os → Forall (entry_ok code key) os.

Lemma lines_from_inside code pos start line s :
  code = take start code ++ line ++ s → pos = start + length line → start ≤ length code →
  Forall (λ c, c ∉ crlf) line →
  Forall (λ l, l.1 ≤ length code ∧ (∃ back, code = take l.1 code ++ l.2 ++ back) ∧
    Forall (λ c, c ∉ crlf) l.2) (lines_from pos start line s).
Proof.
  revert pos start line. induction s as [|c s IH]; intros pos start line Hc -> Hs Hl; simpl.
  - repeat constructor; simpl; [done|by exists []|done].
  - assert (length code = start + length line + S (length s)) as Hlen.
    { rewrite Hc, !length_app, length_take. simpl. lia. }
    unfold one_of at 1. case_bool_decide as Hcr.
    + constructor; [simpl; split_and!; [done|by exists (c :: s)|done]|].
      apply IH; [|simpl; lia|lia|constructor]. simpl.
      rewrite Hc at 1. rewrite Hc at 2.
      change (take start code ++ line ++ c :: s) with (take start code ++ line ++ [c] ++ s).
      rewrite !app_assoc. rewrite (take_app_length' _ s); [by rewrite <-!app_assoc|].
      rewrite !length_app, length_take. simpl. lia.
    + apply IH; [by rewrite <-app_assoc|rewrite length_app; simpl; lia|done|].
      apply Forall_app. split; [done|]. by constructor.
Qed.

(** The entry of an option of a line *)
Lemma option_at_entry code p line back o :
  code = take p code ++ line ++ back → p ≤ length code → Forall (λ c, c ∉ crlf) line →
  option_at line o →
  entry_ok code (op_key o)
    (mkScriptOption (op_value o) (p + op_start o - 1) (op_end o - op_start o + 1)).
Proof.
  intros Hc Hp Hl [(front & ws & raw & rear & Hline & Hs & He & Hk & Hw & Hv)].
  exists ws, raw. simpl.
  set (piece := ["%"]%char ++ op_key o ++ ws ++ raw ++ [";"]%char).
  assert (length piece = op_end o - op_start o + 1) as Hlen
    by (unfold piece; rewrite !length_app; simpl; lia).
  assert (code = (take p code ++ front) ++ piece ++ rear ++ back) as Hcode.
  { rewrite Hc at 1. rewrite Hline. unfold piece. by rewrite <-!app_assoc. }
  assert (p + op_start o - 1 = length (take p code ++ front)) as Hidx
    by (rewrite length_app, length_take; lia).
  assert (take (op_end o - op_start o + 1) (drop (p + op_start o - 1) code) = piece) as Hpiece.
  { rewrite Hidx. clear Hidx. generalize dependent (take p code ++ front). intros fr ->.
    rewrite drop_app_length. by apply take_app_length'. }
  rewrite Hpiece. split_and!; try done.
  - apply (f_equal length) in Hcode. rewrite length_app, (length_app piece) in Hcode. lia.
  - rewrite Hline, !Forall_app in Hl. unfold piece. rewrite !Forall_app. naive_solver.
Qed.

Lemma add_entry_ok code p line back o m m' :
  code = take p code ++ line ++ back → p ≤ length code → Forall (λ c, c ∉ crlf) line →
  option_at line o → result_ok code m → add_entry p o m = (Ret tt, m') → result_ok code m'.
Proof.
  intros Hc Hp Hl Ho Hm Hr key os. injection Hr as <-.
  pose proof (option_at_entry _ _ _ _ _ Hc Hp Hl Ho) as He. intros Hk.
  destruct (m !! op_key o) as [old|] eqn:Hold;
    (apply lookup_insert_Some in Hk as [[<- <-]|[_ Hk]]; [|by eapply Hm]).
  - apply Forall_app. split; [by eapply Hm|]. by constructor; [|constructor].
  - by constructor; [|constructor].
Qed.

(** C29. Every option the parser reports is in the code. When the parser returns on a code
    of less than 2^32-1 bytes: under its key stands an
    entry whose position and size select, inside the code and within one line, a
    percent sign, the key, white space, some text and a semicolon; the value is this
    text when it contains no backslash. *)
Theorem parse_options_entries (code : text) (result : options_map_t) :
  (zlength code < 2 ^ 32 - 1)%Z →
  parseOptions option_parser (S (length code)) code ∅ = (Ret tt, result) →
  ∀ key os, result !! key = Some os → Forall (entry_ok code key) os.
Proof.
  intros Hlen Hr. change (result_ok code result). revert Hr. unfold parseOptions.
  rewrite (parse_lines_reference option_parser code (S (length code)) 0
    (S (length code)) ltac:(lia) ltac:(lia) ltac:(split; [lia|by left]) _). rewrite drop_0.
  pose proof (lines_from_inside code 0 0 [] code eq_refl eq_refl ltac:(lia) ltac:(constructor)) as Hin.
  apply mapM_invariant; [|by intros key os Hos%lookup_empty_Some].
  intros [p line] m m' Hl Hm Hp. apply list_elem_of_In, filter_In in Hl as [Hl _].
  rewrite Forall_forall in Hin. apply list_elem_of_In, Hin in Hl as (Hpl & [back Hc] & Hcr).
  simpl in *. unfold parse_text_line, parse in Hp. simpl in Hp.
  destruct (option_parser line) as [err|ob] eqn:Hop; [done|].
  destruct (engine_sound line ob) as (toks & Hlex & Htext); [|done|].
  { unfold zlength in *. rewrite Hc, !length_app in Hlen. lia. }
  pose proof (text_rule_at _ _ _ Htext Hlex) as Hat. rewrite Forall_forall in Hat.
  revert Hp. apply mapM_invariant; [|done]. intros o m1 m2 Ho. by eapply add_entry_ok; eauto.
Qed.
End soundness.

(** ** Errors *)
Section errors.
Context (option_parser : text → text + options_type).

Lemma mapM_until_throw {A} (f : A → M options_map_t parser_exn unit) l x k m m1 e :
  mapM_ f l m = (Ret tt, m1) → f x m1 = (Throw e, m1) →
  mapM_ f (l ++ x :: k) m = (Throw e, m1).
Proof.
  intros Hl Hx. rewrite (mapM_app f l (x :: k) m), (run_bind _ _ _ _ _ Hl). simpl.
  by apply run_bind_throw.
Qed.

(** The first line the engine refuses ends the scan: the options of the lines
    before it are in the result, nothing of it or of later lines is, and the
    exception carries the text of the engine and the number of line feeds before
    the line. *)
Theorem parse_options_error (code line buffer : text) (p : nat)
  (before after : list (nat * text)) (result result1 : options_map_t) :
  option_lines code = before ++ (p, line) :: after →
  mapM_ (parse_text_line option_parser code) before result = (Ret tt, result1) →
  option_parser line = inl buffer →
  parseOptions option_parser (S (length code)) code result =
    (Throw (OptionParserException (txt "Error parsing script options at line "
       ++ list_ascii_of_string (to_string (Z.of_nat (count_newlines code p)))
       ++ txt ": " ++ c_text buffer)), result1).
Proof.
  intros Hl Hb Hp. unfold parseOptions.
  rewrite (parse_lines_reference option_parser code (S (length code)) 0
    (S (length code)) ltac:(lia) ltac:(lia) ltac:(split; [lia|by left]) _). rewrite drop_0.
  fold (option_lines code). rewrite Hl. apply mapM_until_throw; [done|].
  unfold parse_text_line, parse. simpl. by rewrite Hp.
Qed.
End errors.

(** ** Witnesses *)
Section witnesses.
(** An engine that knows one line *)
Definition sample_line : text := txt "%jar /a;".
Definition sample_options : options_type := [mkOption (txt "jar") (txt "/a") 1 8].
Definition sample_engine (line : text) : text + options_type :=
  if decide (line = sample_line) then inr sample_options else inl (txt "[1:1] PARSE: Syntax error").

Lemma sample_engine_sound line ob :
  (zlength line < 2 ^ 32 - 1)%Z → sample_engine line = inr ob →
  ∃ toks, lexed 1 line toks ∧ text_rule toks ob.
Proof.
  unfold sample_engine. intros _. case_decide as Hl; [|done]. intros [= <-]. subst.
  exists [mkToken start_option_token (txt "%") 1; mkToken alpha_numeric (txt "jar") 2;
    mkToken whitespaces (txt " ") 5; mkToken not_semicolon (txt "/") 6;
    mkToken alpha_numeric (txt "a") 7; mkToken end_option_token (txt ";") 8].
  split.
  - apply (lexed_cons 1 start_option_token (txt "%") (txt "jar /a;")); [done|].
    apply (lexed_cons 2 alpha_numeric (txt "jar") (txt " /a;")); [done|].
    apply (lexed_cons 5 whitespaces (txt " ") (txt "/a;")); [done|].
    apply (lexed_cons 6 not_semicolon (txt "/") (txt "a;")); [done|].
    apply (lexed_cons 7 alpha_numeric (txt "a") (txt ";")); [done|].
    apply (lexed_cons 8 end_option_token (txt ";") []); [done|constructor].
  - apply text_options, os_one.
    apply (oe_option _ _ _ _ _ _ [mkToken not_semicolon (txt "/") 6; mkToken alpha_numeric (txt "a") 7]).
    apply (ov_more_alpha_numeric [mkToken not_semicolon (txt "/") 6] (txt "/")).
    constructor.
Qed.

Definition sample_code : text := txt "import x" ++ crlf ++ sample_line ++ crlf ++ txt "x = 1".

Definition sample_parse : outcome parser_exn unit * options_map_t :=
  parseOptions sample_engine (S (length sample_code)) sample_code ∅.
Lemma sample_parse_returns : sample_parse = (Ret tt, sample_parse.2).
Proof.
  assert (sample_parse.1 = Ret tt) as <- by (vm_compute; reflexivity). apply surjective_pairing.
Qed.
Lemma sample_parse_entries : sample_parse.2 !! txt "jar" = Some [mkScriptOption (txt "/a") 10 8].
Proof. vm_compute. reflexivity. Qed.

Lemma parse_options_entries_witness :
  ∃ result, parseOptions sample_engine (S (length sample_code)) sample_code ∅ = (Ret tt, result) ∧
    Forall (entry_ok sample_code (txt "jar")) [mkScriptOption (txt "/a") 10 8].
Proof.
  exists sample_parse.2. split; [exact sample_parse_returns|].
  exact (parse_options_entries sample_engine sample_engine_sound sample_code sample_parse.2
    ltac:(done) sample_parse_returns _ _ sample_parse_entries).
Defined.

Lemma parse_options_error_witness :
  ∃ what, parseOptions sample_engine (S (length (sample_code ++ crlf ++ txt "5 % 2")))
    (sample_code ++ crlf ++ txt "5 % 2") ∅ = (Throw (OptionParserException what),
      {[ txt "jar" := [mkScriptOption (txt "/a") 10 8] ]}).
Proof.
  eexists. apply (parse_options_error sample_engine _ (txt "5 % 2") (txt "[1:1] PARSE: Syntax error")
    27 [(10, sample_line)] []); vm_compute; reflexivity.
Defined.
End witnesses.
