(* ===== verification/Posix.v ===== *)
(** * The operating system behind the v2 library ([v2/posix/posix.{hpp,cc}])

    Class [Posix] is an injectable interface of system calls, and [Native] forwards each
    of them. Here a system call consumes the next answer of the environment: its result,
    the value of [errno] after it and the data it delivers. The kernel knows which
    descriptors are open: a new descriptor is one that was not open, and closing one
    that is not open is undefined (it may by now belong to somebody else). *)
From S2P Require Import Prelude.

Open Scope string_scope.
Open Scope list_scope.
Open Scope Z_scope.

(** ** Numbers of the C library on Linux *)
Definition EINTR : Z := 4.
Definition EIO : Z := 5.
Definition EBADF : Z := 9.
Definition EAGAIN : Z := 11.
Definition EINVAL : Z := 22.
Definition EPROTOTYPE : Z := 91.
Definition AF_UNIX : Z := 1.
Definition SOCK_STREAM : Z := 1.
Definition SOCK_CLOEXEC : Z := 524288.
Definition SOL_SOCKET : Z := 1.
Definition SO_TYPE : Z := 3.
Definition SO_DOMAIN : Z := 39.
Definition SHUT_RD : Z := 0.
Definition SHUT_WR : Z := 1.
Definition SHUT_RDWR : Z := 2.
Definition MSG_NOSIGNAL : Z := 16384.
Definition IOV_MAX : Z := 1024.
Definition EFD_NONBLOCK : Z := 2048.
Definition EFD_CLOEXEC : Z := 524288.
Definition EPOLL_CLOEXEC : Z := 524288.
Definition EPOLL_CTL_ADD : Z := 1.
Definition EPOLL_CTL_DEL : Z := 2.
Definition EPOLL_CTL_MOD : Z := 3.
Definition EPOLLIN : Z := 1.
Definition EPOLLOUT : Z := 4.
Definition EPOLLERR : Z := 8.
Definition EPOLLHUP : Z := 16.
Definition EPOLLRDHUP : Z := 8192.
(** [sizeof(sockaddr_un::sun_path)] and its offset *)
Definition sun_path_size : Z := 108.
Definition sun_path_offset : Z := 2.

(** ** System calls; an [iovec] is given by its size, or by its bytes when they are read *)
Inductive syscall : Type :=
  | sys_socket (domain type protocol : Z)
  | sys_eventfd (initial flags : Z)
  | sys_epoll_create1 (flags : Z)
  | sys_epoll_ctl (epoll_fd operation fd : Z) (event : option (Z * Z))
  | sys_epoll_wait (epoll_fd maximum_events timeout : Z)
  | sys_connect (fd : Z) (path : string) (address_length : Z)
  | sys_bind (fd : Z) (path : string) (address_length : Z)
  | sys_listen (fd backlog : Z)
  | sys_accept4 (fd flags : Z)
  | sys_getsockopt (fd level option_name : Z)
  | sys_shutdown (fd how : Z)
  | sys_readv (fd : Z) (sizes : list Z)
  | sys_read (fd count : Z)
  | sys_write (fd : Z) (bytes : list Z)
  | sys_sendmsg (fd : Z) (buffers : list (list Z)) (flags : Z)
  | sys_unlink (path : string)
  | sys_close (fd : Z).

#[global] Instance syscall_eq_dec : EqDecision syscall.
Proof. solve_decision. Defined.

(** [a_errno] is read only behind a failed call; [a_data] is what the call writes. *)
Record answer : Type := mkAnswer { a_result : Z; a_errno : Z; a_data : list Z }.

Record os : Type := mkOs {
  os_answers : list answer;
  os_calls : list syscall;    (* what the library asked for, oldest first *)
  os_open : gset Z;
}.

#[export] Instance os_rebuild : Rebuild os := λ s, mkOs (os_answers s) (os_calls s) (os_open s).

(** [std::system_error] with its code, and the other exceptions of the library *)
Inductive v2_exn : Type :=
  | system_error (code : Z) (what : string)
  | invalid_argument (what : string)
  | logic_error (what : string)
  | runtime_error (what : string).

Abbreviation io A := (M os v2_exn A).

Definition log_call (c : syscall) : io unit :=
  modify (λ s, s <| os_calls := os_calls s ++ [c] |>).

(** A call whose result is looked at *)
Definition invoke (c : syscall) : io answer :=
  answers ← gets os_answers;
  match answers with
  | [] => blocked
  | a :: rest =>
      modify (λ s, s <| os_answers := rest |> <| os_calls := os_calls s ++ [c] |>);;
      mret a
  end.

(** A call that makes a descriptor: an answer that no kernel gives ends the run. *)
Definition opened (a : answer) : io answer :=
  if a_result a =? -1 then mret a
  else
    open ← gets os_open;
    if bool_decide (0 ≤ a_result a ∧ a_result a ∉ open)
    then modify (λ s, s <| os_open := {[a_result a]} ∪ os_open s |>);; mret a
    else blocked.
Definition invoke_open (c : syscall) : io answer := invoke c ≫= opened.

(** [close] and [unlink], whose results the library never looks at *)
Definition close_fd (fd : Z) : io unit :=
  open ← gets os_open;
  if bool_decide (fd ∈ open)
  then modify (λ s, s <| os_open := os_open s ∖ {[fd]} |> <| os_calls := os_calls s ++ [sys_close fd] |>)
  else undef.
Definition unlink (path : string) : io unit := log_call (sys_unlink path).

(** [do { r = call } while (r == -1 && errno == EINTR)]: one round per answer *)
Definition interrupted (a : answer) : bool := (a_result a =? -1) && (a_errno a =? EINTR).

Fixpoint retry_loop (fuel : nat) (call : io answer) : io answer :=
  match fuel with
  | O => blocked
  | S fuel => a ← call; if interrupted a then retry_loop fuel call else mret a
  end.
Definition retry_call (call : io answer) : io answer :=
  answers ← gets os_answers; retry_loop (S (length answers)) call.

(** A scope with an object whose destructor has work to do, left by an exception *)
Definition on_throw {A} (cleanup : io unit) (body : io A) : io A :=
  try_catch body (λ e, cleanup;; throw e).

(** ** What the retries come to

    The interrupted answers are skipped, and the first other one is the result; the
    loop never uses up its rounds, since each of them consumes an answer. *)
Definition skipped (c : syscall) (before : list answer) (rest : list answer) (s : os) : os :=
  s <| os_answers := rest |> <| os_calls := os_calls s ++ replicate (length before) c |>.

Lemma invoke_run c a rest s :
  os_answers s = a :: rest → invoke c s = (Ret a, skipped c [a] rest s).
Proof. intros Ha. unfold invoke. run_simpl. rewrite Ha. run_simpl. done. Qed.

Lemma retry_loop_run c before a rest fuel s :
  os_answers s = before ++ a :: rest → Forall (λ a, interrupted a = true) before →
  interrupted a = false → (length before < fuel)%nat →
  retry_loop fuel (invoke c) s = (Ret a, skipped c (before ++ [a]) rest s).
Proof.
  intros Hs Hb Ha. revert fuel s Hs. induction Hb as [|b before Hb _ IH]; intros fuel s Hs Hf;
    (destruct fuel as [|fuel]; [simpl in Hf; lia|]); cbn [retry_loop]; simpl in Hs.
  - rewrite (run_bind _ _ _ _ _ (invoke_run c a rest s Hs)), Ha. done.
  - rewrite (run_bind _ _ _ _ _ (invoke_run c b (before ++ a :: rest) s Hs)), Hb.
    rewrite IH; [|done|simpl in Hf; lia]. unfold skipped. simpl.
    by rewrite <-app_assoc.
Qed.

Lemma retry_call_run c before a rest s :
  os_answers s = before ++ a :: rest → Forall (λ a, interrupted a = true) before →
  interrupted a = false →
  retry_call (invoke c) s = (Ret a, skipped c (before ++ [a]) rest s).
Proof.
  intros Hs Hb Ha. unfold retry_call. rewrite run_bind_gets. apply retry_loop_run; try done.
  rewrite Hs, length_app. lia.
Qed.

(** A call that makes a descriptor retries alike: an interrupted one made none. *)
Lemma opened_interrupted a : interrupted a = true → opened a ≡ mret a.
Proof. intros [Hr _]%andb_prop s. unfold opened. by rewrite Hr. Qed.

Lemma opened_result {B} a (f : answer → io B) s :
  (opened a ≫= f) s = (opened a ≫= λ _, f a) s.
Proof.
  unfold opened. destruct (a_result a =? -1); [done|]. rewrite !run_bind_bind, !run_bind_gets.
  by case_bool_decide.
Qed.

Lemma retry_loop_open c fuel :
  retry_loop fuel (invoke_open c) ≡ (retry_loop fuel (invoke c) ≫= opened).
Proof.
  induction fuel as [|fuel IH]; [done|]. cbn [retry_loop]. unfold invoke_open at 2.
  rewrite !bind_assoc. f_equiv. intros a s. cbn beta.
  rewrite opened_result.
  destruct (interrupted a) eqn:Ha.
  - rewrite bind_run, (opened_interrupted _ Ha). apply IH.
  - rewrite run_bind_ret. unfold opened at 1 2. destruct (a_result a =? -1); [done|].
    rewrite !run_bind_bind, !run_bind_gets. by case_bool_decide.
Qed.

Lemma retry_open c s : retry_call (invoke_open c) s = (retry_call (invoke c) ≫= opened) s.
Proof. unfold retry_call. rewrite run_bind_bind, !run_bind_gets. apply retry_loop_open. Qed.

(** ** Accounting for descriptors

    [settles P Q m]: [m] returns a value and a set of open descriptors related by [P], or
    throws with the set [Q], or waits for ever; it is never undefined. A routine is
    [settled] when it leaves the descriptors alone, and [opens] when what it returns holds
    one descriptor that was not open before. *)
Definition settles {A} (P : gset Z → A → gset Z → Prop) (Q : gset Z → gset Z → Prop)
    (m : io A) : Prop :=
  ∀ s, match m s with
       | (Ret a, s') => P (os_open s) a (os_open s')
       | (Throw _, s') => Q (os_open s) (os_open s')
       | (Blocked, _) => True
       | _ => False
       end.

Definition settled {A} (P : A → Prop) (m : io A) : Prop :=
  settles (λ F a F', P a ∧ F' = F) (λ F F', F' = F) m.
Definition opens {A} (fd : A → Z) (m : io A) : Prop :=
  settles (λ F a F', 0 ≤ fd a ∧ fd a ∉ F ∧ F' = {[fd a]} ∪ F) (λ F F', F' = F) m.

Section settles.
Context {A B : Type}.

Lemma settled_bind (P : A → Prop) (P' : B → Prop) m f :
  settled P m → (∀ a, P a → settled P' (f a)) → settled P' (m ≫= f).
Proof.
  intros Hm Hf s. specialize (Hm s). rewrite bind_run. unfold bind_outcome.
  destruct (m s) as [[a|e| | |] s1]; simpl in *; try done.
  destruct Hm as [Ha Hs]. specialize (Hf a Ha s1).
  destruct (f a s1) as [[b|e| | |] s2]; naive_solver congruence.
Qed.

Lemma settled_ret (P : A → Prop) a : P a → settled P (mret a).
Proof. by intros Ha s. Qed.
Lemma quiet_throw (P : A → Prop) e : settled P (throw e).
Proof. by intros s. Qed.
End settles.

Lemma quiet_invoke c : settled (λ _, True) (invoke c).
Proof. intros s. unfold invoke. rewrite run_bind_gets. by destruct (os_answers s). Qed.
Lemma quiet_log c : settled (λ _, True) (log_call c).
Proof. by intros s. Qed.
Lemma quiet_retry_loop c fuel : settled (λ _, True) (retry_loop fuel (invoke c)).
Proof.
  induction fuel as [|fuel IH]; [by intros s|]. cbn [retry_loop].
  apply (settled_bind _ _ _ _ (quiet_invoke c)). intros a _.
  destruct (interrupted a); [done|by apply settled_ret].
Qed.
Lemma quiet_retry c : settled (λ _, True) (retry_call (invoke c)).
Proof. intros s. unfold retry_call. rewrite run_bind_gets. apply quiet_retry_loop. Qed.

(** An answer that is not an error names a new descriptor. *)
Lemma opened_settles a :
  settles (λ F b F', b = a ∧ (a_result a = -1 ∧ F' = F ∨
                        0 ≤ a_result a ∧ a_result a ∉ F ∧ F' = {[a_result a]} ∪ F))
          (λ F F', F' = F) (opened a).
Proof.
  intros s. unfold opened. destruct (Z.eqb_spec (a_result a) (-1)); [naive_solver|].
  rewrite run_bind_gets. case_bool_decide; [|done]. rewrite run_bind_modify. naive_solver.
Qed.

(** The descriptor of a new object, after checks that may throw and then give it back *)
Lemma opens_guarded {A B} (fd : A → Z) (fd' : B → Z) m (k : A → io B) cleanup :
  opens fd m →
  (∀ a, 0 ≤ fd a → settled (λ b, fd' b = fd a) (k a)) →
  (∀ a s, 0 ≤ fd a → fd a ∈ os_open s →
     ∃ s', cleanup a s = (Ret tt, s') ∧ os_open s' = os_open s ∖ {[fd a]}) →
  opens fd' (a ← m; on_throw (cleanup a) (k a)).
Proof.
  intros Hm Hk Hc s. specialize (Hm s). rewrite bind_run. unfold bind_outcome.
  destruct (m s) as [[a|e| | |] s1]; simpl in *; try done.
  destruct Hm as (Hp & Hn & Hs1). specialize (Hk a Hp s1). unfold on_throw, try_catch.
  destruct (k a s1) as [[b|e| | |] s2]; try done.
  - destruct Hk as [-> ->]. by rewrite Hs1.
  - destruct (Hc a s2 Hp) as (s3 & Hr & H3); [set_solver|]. rewrite (run_bind _ _ _ _ _ Hr).
    simpl. rewrite H3, Hk, Hs1. set_solver.
Qed.
