(* ===== verification/UnixSocket.v ===== *)
(** * Owned descriptors and Unix sockets ([v2/socket/*.cc])

    [OwnedFileDescriptor] closes what it holds; [UnixSocket] and [UnixSocketListener] are
    built from it. An object is a record, and a destructor or a move an explicit call on
    it; [posix_pointer] is whether the shared pointer to the facade is set, which a move
    takes away. A [std::filesystem::path] is its string. The facade that a caller passes
    in is not null. *)
From S2P Require Import Prelude Posix.

Open Scope string_scope.
Open Scope list_scope.
Open Scope Z_scope.

(** ** [OwnedFileDescriptor] ([owned_file_descriptor.cc]) *)
Record OwnedFileDescriptor : Type := mkOwned { file_descriptor : Z; posix_pointer : bool }.

#[export] Instance OwnedFileDescriptor_rebuild : Rebuild OwnedFileDescriptor :=
  λ o, mkOwned (file_descriptor o) (posix_pointer o).

(** What [std::move] leaves behind *)
Definition moved_descriptor : OwnedFileDescriptor := mkOwned (-1) false.
Definition empty_descriptor (posix : bool) : OwnedFileDescriptor := mkOwned (-1) posix.

Definition adopt_native_handle (owned_fd : Z) (posix : bool) : io OwnedFileDescriptor :=
  if owned_fd <? 0 then throw (invalid_argument "adopt invalid file descriptor")
  else mret (mkOwned owned_fd posix).

Definition native_handle (o : OwnedFileDescriptor) : Z := file_descriptor o.
Definition is_open (o : OwnedFileDescriptor) : bool := negb (file_descriptor o =? -1).

(** A call through the shared pointer *)
Definition facade (posix : bool) : io unit := if posix then mret tt else undef.

Definition close (this : OwnedFileDescriptor) : io OwnedFileDescriptor :=
  let closed_fd := file_descriptor this in
  when (negb (closed_fd =? -1)) (facade (posix_pointer this);; close_fd closed_fd);;
  mret (this <| file_descriptor := -1 |>).

Definition release_native_handle (this : OwnedFileDescriptor) : Z * OwnedFileDescriptor :=
  (file_descriptor this, this <| file_descriptor := -1 |>).

(** The new object and what is left of the other one *)
Definition move_construct (other : OwnedFileDescriptor) :
  OwnedFileDescriptor * OwnedFileDescriptor := (other, moved_descriptor).

(** The assignment to a different object *)
Definition move_assign (this other : OwnedFileDescriptor) :
  io (OwnedFileDescriptor * OwnedFileDescriptor) :=
  close this;; mret (other, moved_descriptor).

Definition destroy (this : OwnedFileDescriptor) : io unit := close this;; mret tt.

(** ** Addresses and new sockets ([unix_socket_detail.cc]) *)
Definition make_socket_address (path : string) : io (string * Z) :=
  let size := Z.of_nat (String.length path) in
  if str_empty path || negb (no_nul path) || (size >=? sun_path_size)
  then throw (invalid_argument ("invalid Unix socket path: " +:+ path))
  else mret (path, sun_path_offset + size + 1).

Definition create_socket : io OwnedFileDescriptor :=
  a ← invoke_open (sys_socket AF_UNIX (Z.lor SOCK_STREAM SOCK_CLOEXEC) 0);
  if a_result a =? -1 then throw (system_error (a_errno a) "create Unix socket")
  else adopt_native_handle (a_result a) true.

(** ** [UnixSocket] ([unix_socket.cc]) *)
Record UnixSocket : Type := mkSocket { socket_descriptor : OwnedFileDescriptor }.

(** [errno] of a failed call *)
Definition check_result (a : answer) (what : string) : io Z :=
  if a_result a =? -1 then throw (system_error (a_errno a) what) else mret (a_result a).

(** The variable an option is written to starts as zero. *)
Definition option_word (a : answer) : Z := default 0 (a_data a !! 0%nat).

Definition check_unix_stream_socket (fd : Z) (posix : bool) : io unit :=
  facade posix;;
  domain ← invoke (sys_getsockopt fd SOL_SOCKET SO_DOMAIN);
  check_result domain "inspect socket domain";;
  type ← invoke (sys_getsockopt fd SOL_SOCKET SO_TYPE);
  check_result type "inspect socket type";;
  when (negb (option_word domain =? AF_UNIX) || negb (option_word type =? SOCK_STREAM))
    (throw (system_error EPROTOTYPE "expected Unix stream socket")).

(** [std::numeric_limits<ssize_t>::max()] *)
Definition ssize_max : Z := 2 ^ 63 - 1.

Section buffers.
Context {Buffer : Type} (size : Buffer → Z).

Fixpoint make_iovecs_loop (total_size : Z) (buffers : list Buffer) : io (list Buffer) :=
  match buffers with
  | [] => mret []
  | buffer :: buffers' =>
      if size buffer >? u64 (ssize_max - total_size)
      then throw (system_error EINVAL "I/O buffer size is too large")
      else
        iovecs ← make_iovecs_loop (u64 (total_size + size buffer)) buffers';
        mret (buffer :: iovecs)
  end.

Definition make_iovecs (buffers : list Buffer) : io (list Buffer) :=
  if zlength buffers >? IOV_MAX then throw (system_error EINVAL "too many I/O buffers")
  else make_iovecs_loop 0 buffers.
End buffers.

(** An enumeration is the integer below it. *)
Definition Receive : Z := 0.
Definition Send : Z := 1.
Definition Both : Z := 2.

Definition shutdown_direction (how : Z) : io Z :=
  if how =? Receive then mret SHUT_RD
  else if how =? Send then mret SHUT_WR
  else if how =? Both then mret SHUT_RDWR
  else throw (logic_error "invalid socket shutdown direction").

(** [while (connect(…) == -1) { if (errno != EINTR) throw … }]: one round per answer *)
Fixpoint connect_loop (fuel : nat) (fd : Z) (path : string) (address_length : Z) : io unit :=
  match fuel with
  | O => blocked
  | S fuel =>
      a ← invoke (sys_connect fd path address_length);
      if a_result a =? -1 then
        if negb (a_errno a =? EINTR)
        then throw (system_error (a_errno a) ("connect Unix socket '" +:+ path +:+ "'"))
        else connect_loop fuel fd path address_length
      else mret tt
  end.

Definition connect (path : string) : io UnixSocket :=
  '(address, address_length) ← make_socket_address path;
  socket_fd ← create_socket;
  on_throw (destroy socket_fd)
    (answers ← gets os_answers;
     connect_loop (S (length answers)) (native_handle socket_fd) address address_length;;
     mret (mkSocket socket_fd)).

(** The descriptor is a parameter by value, so a throw closes it. *)
Definition adopt_socket (owned_fd : OwnedFileDescriptor) : io UnixSocket :=
  on_throw (destroy owned_fd)
    (if negb (is_open owned_fd) then throw (system_error EBADF "adopt closed socket")
     else
       check_unix_stream_socket (native_handle owned_fd) (posix_pointer owned_fd);;
       mret (mkSocket owned_fd)).

Definition socket_native_handle (this : UnixSocket) : Z := native_handle (socket_descriptor this).
Definition socket_is_open (this : UnixSocket) : bool := is_open (socket_descriptor this).
Definition socket_close (this : UnixSocket) : io UnixSocket :=
  o ← close (socket_descriptor this); mret (mkSocket o).
Definition socket_destroy (this : UnixSocket) : io unit :=
  this' ← socket_close this; destroy (socket_descriptor this').
Definition socket_move_assign (this other : UnixSocket) : io (UnixSocket * UnixSocket) :=
  '(o, rest) ← move_assign (socket_descriptor this) (socket_descriptor other);
  mret (mkSocket o, mkSocket rest).

(** [noexcept]: an exception here would end the process. *)
Definition socket_release (this : UnixSocket) : io (OwnedFileDescriptor * UnixSocket) :=
  let '(released_fd, o) := release_native_handle (socket_descriptor this) in
  if released_fd =? -1 then mret (empty_descriptor (posix_pointer o), mkSocket o)
  else
    released ← try_catch (adopt_native_handle released_fd (posix_pointer o)) (λ _, abort);
    mret (released, mkSocket o).

Definition socket_shutdown (this : UnixSocket) (how : Z) : io unit :=
  facade (posix_pointer (socket_descriptor this));;
  direction ← shutdown_direction how;
  a ← invoke (sys_shutdown (socket_native_handle this) direction);
  check_result a "shutdown Unix socket";; mret tt.

(** The buffers of a read are given by their sizes; the result comes with the bytes. *)
Definition read_some (this : UnixSocket) (buffers : list Z) : io (Z * list Z) :=
  iovecs ← make_iovecs id buffers;
  if bool_decide (iovecs = []) then mret (0, [])
  else
    facade (posix_pointer (socket_descriptor this));;
    a ← retry_call (invoke (sys_readv (socket_native_handle this) iovecs));
    n ← check_result a "read from Unix socket";
    mret (u64 n, a_data a).

Definition write_some (this : UnixSocket) (buffers : list (list Z)) : io Z :=
  iovecs ← make_iovecs zlength buffers;
  if bool_decide (iovecs = []) then mret 0
  else
    facade (posix_pointer (socket_descriptor this));;
    a ← retry_call (invoke (sys_sendmsg (socket_native_handle this) iovecs MSG_NOSIGNAL));
    n ← check_result a "write to Unix socket";
    mret (u64 n).

(** [Socket::read_some] and [write_some] with one buffer ([socket.cc]) *)
Definition read_some_buffer (this : UnixSocket) (buffer : Z) : io (Z * list Z) :=
  read_some this [buffer].
Definition write_some_buffer (this : UnixSocket) (buffer : list Z) : io Z :=
  write_some this [buffer].

(** ** [UnixSocketListener] ([unix_socket_listener.cc]) *)
Record UnixSocketListener : Type := mkListener {
  listener_descriptor : OwnedFileDescriptor;
  bound_path : string;
  listener_posix : bool;
}.

#[export] Instance UnixSocketListener_rebuild : Rebuild UnixSocketListener :=
  λ l, mkListener (listener_descriptor l) (bound_path l) (listener_posix l).

Definition moved_listener : UnixSocketListener := mkListener moved_descriptor "" false.

(** The path is cleared in the variable that the caller passes. *)
Definition unlink_socket_path (path : string) (posix : bool) : io string :=
  when (negb (str_empty path)) (facade posix;; unlink (c_str path));; mret "".

Definition unlink_path (this : UnixSocketListener) : io UnixSocketListener :=
  if negb (str_empty (bound_path this)) then
    path ← unlink_socket_path (bound_path this) (listener_posix this);
    mret (this <| bound_path := path |>)
  else mret this.

Definition listener_close (this : UnixSocketListener) : io UnixSocketListener :=
  o ← close (listener_descriptor this);
  unlink_path (this <| listener_descriptor := o |>).

(** The body of the destructor, then the destructor of the descriptor *)
Definition listener_destroy (this : UnixSocketListener) : io unit :=
  this' ← listener_close this; destroy (listener_descriptor this').

Definition listener_move_construct (other : UnixSocketListener) :
  UnixSocketListener * UnixSocketListener := (other, moved_listener).

Definition listener_move_assign (this other : UnixSocketListener) :
  io (UnixSocketListener * UnixSocketListener) :=
  this' ← listener_close this;
  '(o, rest) ← move_assign (listener_descriptor this') (listener_descriptor other);
  mret (mkListener o (bound_path other) (listener_posix other), mkListener rest "" false).

(** [SocketPathCleanup] unlinks the path between a failed [listen] and the descriptor. *)
Definition listener_bind (path : string) (backlog : Z) : io UnixSocketListener :=
  '(address, address_length) ← make_socket_address path;
  socket_fd ← create_socket;
  on_throw (destroy socket_fd)
    (a ← invoke (sys_bind (native_handle socket_fd) address address_length);
     check_result a ("bind Unix socket listener '" +:+ path +:+ "'");;
     on_throw (unlink_socket_path path true;; mret tt)
       (a ← invoke (sys_listen (native_handle socket_fd) backlog);
        check_result a "listen on Unix socket";;
        mret (mkListener socket_fd path true))).

Definition listener_native_handle (this : UnixSocketListener) : Z :=
  native_handle (listener_descriptor this).
Definition listener_is_open (this : UnixSocketListener) : bool :=
  is_open (listener_descriptor this).

Definition listener_release (this : UnixSocketListener) :
  io (OwnedFileDescriptor * UnixSocketListener) :=
  let '(released_fd, o) := release_native_handle (listener_descriptor this) in
  this' ← unlink_path (this <| listener_descriptor := o |>);
  if released_fd =? -1 then mret (empty_descriptor (listener_posix this'), this')
  else
    released ← try_catch (adopt_native_handle released_fd (listener_posix this')) (λ _, abort);
    mret (released, this').

Definition accept (this : UnixSocketListener) (flags : Z) : io UnixSocket :=
  facade (listener_posix this);;
  a ← retry_call (invoke_open (sys_accept4 (listener_native_handle this) flags));
  accepted_fd ← check_result a "accept Unix socket connection";
  owned ← adopt_native_handle accepted_fd (listener_posix this);
  adopt_socket owned.

(** ** The sizes of a vectored call *)
Definition total {Buffer} (size : Buffer → Z) (buffers : list Buffer) : Z :=
  foldr (λ b n, size b + n) 0 buffers.

Lemma total_nonneg {Buffer} (size : Buffer → Z) buffers :
  Forall (λ b, 0 ≤ size b) buffers → 0 ≤ total size buffers.
Proof. induction 1; simpl; lia. Qed.

Lemma make_iovecs_loop_run {Buffer} (size : Buffer → Z) buffers n s :
  Forall (λ b, 0 ≤ size b) buffers → 0 ≤ n ≤ ssize_max →
  make_iovecs_loop size n buffers s =
    (if n + total size buffers <=? ssize_max then Ret buffers
     else Throw (system_error EINVAL "I/O buffer size is too large"), s).
Proof.
  intros Hb. revert n. induction Hb as [|b buffers Hb Hbs IH]; intros n Hn; simpl.
  - destruct (Z.leb_spec (n + 0) ssize_max); [done|lia].
  - rewrite u64_small by (unfold ssize_max in *; lia).
    pose proof (total_nonneg size _ Hbs).
    destruct (Z.gtb_spec (size b) (ssize_max - n)).
    + by destruct (Z.leb_spec (n + (size b + total size buffers)) ssize_max); [lia|].
    + rewrite u64_small by (unfold ssize_max in *; lia).
      rewrite bind_run, IH by lia. rewrite Z.add_assoc. by destruct (_ <=? _).
Qed.

Lemma make_iovecs_run {Buffer} (size : Buffer → Z) buffers s :
  Forall (λ b, 0 ≤ size b) buffers →
  make_iovecs size buffers s =
    (if zlength buffers >? IOV_MAX then Throw (system_error EINVAL "too many I/O buffers")
     else if total size buffers >? ssize_max
     then Throw (system_error EINVAL "I/O buffer size is too large")
     else Ret buffers, s).
Proof.
  intros Hb. unfold make_iovecs. destruct (_ >? IOV_MAX); [done|].
  rewrite make_iovecs_loop_run by done. rewrite Z.add_0_l, Z.gtb_ltb, Z.ltb_antisym.
  by destruct (_ <=? _).
Qed.

Lemma check_result_run a what s :
  check_result a what s =
    (if a_result a =? -1 then Throw (system_error (a_errno a) what) else Ret (a_result a), s).
Proof. unfold check_result. by destruct (a_result a =? -1). Qed.

Lemma bind_check_result {B} a what (f : Z → io B) s :
  (check_result a what ≫= f) s =
    (if a_result a =? -1 then (Throw (system_error (a_errno a) what), s) else f (a_result a) s).
Proof. rewrite bind_run, check_result_run. by destruct (a_result a =? -1). Qed.

(** ** New descriptors *)
Definition with_open (fd : Z) (s : os) : os := s <| os_open := {[fd]} ∪ os_open s |>.
Definition closed (fd : Z) (s : os) : os :=
  s <| os_open := os_open s ∖ {[fd]} |> <| os_calls := os_calls s ++ [sys_close fd] |>.

Lemma create_socket_run a rest s :
  os_answers s = a :: rest → 0 ≤ a_result a → a_result a ∉ os_open s →
  create_socket s = (Ret (mkOwned (a_result a) true),
    with_open (a_result a) (skipped (sys_socket AF_UNIX (Z.lor SOCK_STREAM SOCK_CLOEXEC) 0) [a] rest s)).
Proof.
  intros Ha Hp Hn. unfold create_socket, invoke_open. rewrite run_bind_bind.
  rewrite (run_bind _ _ _ _ _ (invoke_run _ _ _ _ Ha)). unfold opened.
  assert ((a_result a =? -1) = false) as E by (apply Z.eqb_neq; lia). rewrite E.
  rewrite run_bind_bind, run_bind_gets. rewrite bool_decide_true by done. run_simpl. rewrite E.
  unfold adopt_native_handle. by rewrite (proj2 (Z.ltb_ge _ _) Hp).
Qed.

Lemma destroy_run fd s :
  0 ≤ fd → fd ∈ os_open s → destroy (mkOwned fd true) s = (Ret tt, closed fd s).
Proof.
  intros Hp Hf. unfold destroy, close. simpl.
  rewrite (proj2 (Z.eqb_neq fd (-1))) by lia. simpl. unfold close_fd. run_simpl.
  by rewrite bool_decide_true.
Qed.

Lemma connect_loop_retry fd path n fuel :
  connect_loop fuel fd path n ≡
    (a ← retry_loop fuel (invoke (sys_connect fd path n));
     check_result a ("connect Unix socket '" +:+ path +:+ "'");; mret tt).
Proof.
  induction fuel as [|fuel IH]; [by intros s|]. cbn [connect_loop retry_loop].
  rewrite bind_assoc. f_equiv. intros a. unfold interrupted, check_result.
  destruct (a_result a =? -1) eqn:Hr; simpl; [destruct (a_errno a =? EINTR); simpl; [apply IH|]|];
    intros s; rewrite run_bind_ret, Hr; done.
Qed.

Definition valid_path (path : string) : bool :=
  negb (str_empty path) && no_nul path && (Z.of_nat (String.length path) <? sun_path_size).

Lemma make_socket_address_run path s :
  make_socket_address path s =
    (if valid_path path then Ret (path, sun_path_offset + Z.of_nat (String.length path) + 1)
     else Throw (invalid_argument ("invalid Unix socket path: " +:+ path)), s).
Proof.
  unfold make_socket_address, valid_path. rewrite Z.geb_leb, Z.ltb_antisym.
  by destruct (str_empty path), (no_nul path), (_ <=? _).
Qed.

(** ** What the operations do *)
Definition the_socket_call : syscall :=
  sys_socket AF_UNIX (Z.lor SOCK_STREAM SOCK_CLOEXEC) 0.
Definition address_size (path : string) : Z :=
  sun_path_offset + Z.of_nat (String.length path) + 1.

(** A new descriptor whose checks fail is closed, and the exception goes on. *)
Lemma on_throw_destroy_run {A} fd (body : io A) e s s' :
  body s = (Throw e, s') → 0 ≤ fd → fd ∈ os_open s' →
  on_throw (destroy (mkOwned fd true)) body s = (Throw e, closed fd s').
Proof.
  intros Hb Hp Hf. unfold on_throw. rewrite (run_catch_throw _ _ _ _ _ Hb).
  by rewrite (run_bind _ _ _ _ _ (destroy_run _ _ Hp Hf)).
Qed.

Lemma closed_with_open fd calls rest F :
  fd ∉ F → closed fd (mkOs rest calls ({[fd]} ∪ F)) = mkOs rest (calls ++ [sys_close fd]) F.
Proof. intros Hn. unfold closed, update, field_update. simpl. f_equal. set_solver. Qed.

Lemma replicate_snoc {A} (x : A) before a :
  replicate (length (before ++ [a : answer])) x = replicate (S (length before)) x.
Proof. by rewrite length_app, Nat.add_1_r. Qed.

(** [UnixSocket::connect] on a usable path makes one close-on-exec stream socket and
    asks for the connection until the call is not interrupted any more. Then it returns
    an object that holds the open descriptor, or it throws the error of the last attempt
    and the descriptor is closed again. Every attempt has the same address, whose length
    counts the terminating NUL. *)
Theorem connect_spec path s so before a rest :
  valid_path path = true →
  os_answers s = so :: before ++ a :: rest →
  0 ≤ a_result so → a_result so ∉ os_open s →
  Forall (λ a, interrupted a = true) before → interrupted a = false →
  let fd := a_result so in
  let calls := os_calls s ++ the_socket_call ::
                 replicate (S (length before)) (sys_connect fd path (address_size path)) in
  connect path s =
    if a_result a =? -1
    then (Throw (system_error (a_errno a) ("connect Unix socket '" +:+ path +:+ "'")),
          mkOs rest (calls ++ [sys_close fd]) (os_open s))
    else (Ret (mkSocket (mkOwned fd true)), mkOs rest calls ({[fd]} ∪ os_open s)).
Proof.
  intros Hv Ha Hp Hn Hb Hi fd calls. unfold connect.
  rewrite bind_run, make_socket_address_run, Hv. simpl.
  rewrite (run_bind _ _ _ _ _ (create_socket_run _ _ _ Ha Hp Hn)). fold the_socket_call fd.
  set (s1 := with_open fd _).
  assert ((answers ← gets os_answers;
           connect_loop (S (length answers)) fd path (address_size path);;
           mret (mkSocket (mkOwned fd true))) s1 =
    (if a_result a =? -1
     then Throw (system_error (a_errno a) ("connect Unix socket '" +:+ path +:+ "'"))
     else Ret (mkSocket (mkOwned fd true)), mkOs rest calls ({[fd]} ∪ os_open s))) as Hbody.
  { rewrite run_bind_gets, bind_run, connect_loop_retry.
    assert (length before < S (length (os_answers s1)))%nat as Hf
      by (simpl; rewrite length_app; lia).
    rewrite (run_bind _ _ _ _ _ (retry_loop_run _ before a rest _ s1 eq_refl Hb Hi Hf)).
    rewrite bind_check_result. unfold skipped. rewrite replicate_snoc.
    unfold calls, s1, with_open, skipped, update, field_update. simpl. rewrite <-app_assoc.
    by destruct (a_result a =? -1). }
  destruct (a_result a =? -1).
  - erewrite on_throw_destroy_run; [|exact Hbody|done|simpl; set_solver].
    by rewrite closed_with_open.
  - unfold on_throw. by erewrite run_catch_ret; [|exact Hbody].
Qed.

(** C40. [UnixSocket::write_some] limits a call to 1024 buffers of at most [SSIZE_MAX] bytes
    in total, computed without wrapping: more is [EINVAL] and nothing is asked of the
    kernel, no buffer at all is a count of zero. Otherwise the same buffers are sent, with
    [MSG_NOSIGNAL], until the call is not interrupted, and its count or error is passed on. *)
Theorem write_some_spec fd buffers s before a rest :
  os_answers s = before ++ a :: rest →
  Forall (λ a, interrupted a = true) before → interrupted a = false →
  -1 ≤ a_result a ≤ total zlength buffers →
  write_some (mkSocket (mkOwned fd true)) buffers s =
    if zlength buffers >? IOV_MAX then (Throw (system_error EINVAL "too many I/O buffers"), s)
    else if total zlength buffers >? ssize_max
    then (Throw (system_error EINVAL "I/O buffer size is too large"), s)
    else match buffers with
         | [] => (Ret 0, s)
         | _ => (if a_result a =? -1
                 then Throw (system_error (a_errno a) "write to Unix socket")
                 else Ret (a_result a),
                 skipped (sys_sendmsg fd buffers MSG_NOSIGNAL) (before ++ [a]) rest s)
         end.
Proof.
  intros Ha Hb Hi Hr. unfold write_some.
  rewrite bind_run, make_iovecs_run by (apply Forall_true; intros b; unfold zlength; lia).
  destruct (_ >? IOV_MAX); [done|].
  destruct (Z.gtb_spec (total zlength buffers) ssize_max) as [|Ht]; [done|]. simpl.
  destruct buffers as [|b buffers]; [done|]. case_bool_decide; [done|].
  rewrite run_bind_ret, (run_bind _ _ _ _ _ (retry_call_run _ _ _ _ _ Ha Hb Hi)), bind_check_result.
  destruct (Z.eqb_spec (a_result a) (-1)); [done|].
  rewrite u64_small; [done|]. unfold ssize_max in Ht. lia.
Qed.

(** [UnixSocket::read_some] keeps the same limits and retries the same way; a
    successful call gives the count of the kernel and the bytes that came with it, and
    zero stands for the end of the stream or for a call without buffers. *)
Theorem read_some_spec fd sizes s before a rest :
  Forall (λ n, 0 ≤ n) sizes →
  os_answers s = before ++ a :: rest →
  Forall (λ a, interrupted a = true) before → interrupted a = false →
  -1 ≤ a_result a ≤ total id sizes →
  read_some (mkSocket (mkOwned fd true)) sizes s =
    if zlength sizes >? IOV_MAX then (Throw (system_error EINVAL "too many I/O buffers"), s)
    else if total id sizes >? ssize_max
    then (Throw (system_error EINVAL "I/O buffer size is too large"), s)
    else match sizes with
         | [] => (Ret (0, []), s)
         | _ => (if a_result a =? -1
                 then Throw (system_error (a_errno a) "read from Unix socket")
                 else Ret (a_result a, a_data a),
                 skipped (sys_readv fd sizes) (before ++ [a]) rest s)
         end.
Proof.
  intros Hs Ha Hb Hi Hr. unfold read_some. rewrite bind_run, make_iovecs_run by done.
  destruct (_ >? IOV_MAX); [done|].
  destruct (Z.gtb_spec (total id sizes) ssize_max) as [|Ht]; [done|]. simpl.
  destruct sizes as [|b sizes]; [done|]. case_bool_decide; [done|].
  rewrite run_bind_ret, (run_bind _ _ _ _ _ (retry_call_run _ _ _ _ _ Ha Hb Hi)), bind_check_result.
  destruct (Z.eqb_spec (a_result a) (-1)); [done|].
  rewrite u64_small; [done|]. unfold ssize_max in Ht. lia.
Qed.

Lemma invoke_check {B} c a rest what (f : answer → Z → io B) s :
  os_answers s = a :: rest →
  (a ← invoke c; check_result a what ≫= f a) s =
    (if a_result a =? -1
     then (Throw (system_error (a_errno a) what), skipped c [a] rest s)
     else f a (a_result a) (skipped c [a] rest s)).
Proof. intros Ha. by rewrite (run_bind _ _ _ _ _ (invoke_run _ _ _ _ Ha)), bind_check_result. Qed.

(** C39. [UnixSocketListener::bind] creates the socket, binds it and listens. When [bind]
    fails the descriptor is closed and the path is left alone, since it may belong to
    another listener; when [listen] fails the path that was just made is removed first and
    the descriptor closed afterwards. Either error is passed on. *)
Theorem listener_bind_spec path backlog s so bi li rest :
  valid_path path = true →
  os_answers s = so :: bi :: li :: rest →
  0 ≤ a_result so → a_result so ∉ os_open s →
  let fd := a_result so in
  let bound := os_calls s ++ [the_socket_call; sys_bind fd path (address_size path)] in
  listener_bind path backlog s =
    if a_result bi =? -1
    then (Throw (system_error (a_errno bi) ("bind Unix socket listener '" +:+ path +:+ "'")),
          mkOs (li :: rest) (bound ++ [sys_close fd]) (os_open s))
    else if a_result li =? -1
    then (Throw (system_error (a_errno li) "listen on Unix socket"),
          mkOs rest (bound ++ [sys_listen fd backlog; sys_unlink path; sys_close fd]) (os_open s))
    else (Ret (mkListener (mkOwned fd true) path true),
          mkOs rest (bound ++ [sys_listen fd backlog]) ({[fd]} ∪ os_open s)).
Proof.
  intros Hv Ha Hp Hn fd bound. unfold listener_bind.
  rewrite bind_run, make_socket_address_run, Hv. simpl.
  rewrite (run_bind _ _ _ _ _ (create_socket_run _ _ _ Ha Hp Hn)). fold the_socket_call fd.
  set (s1 := with_open fd _). unfold native_handle. simpl.
  set (body := invoke _ ≫= _).
  assert (body s1 =
    if a_result bi =? -1
    then (Throw (system_error (a_errno bi) ("bind Unix socket listener '" +:+ path +:+ "'")),
          mkOs (li :: rest) bound ({[fd]} ∪ os_open s))
    else if a_result li =? -1
    then (Throw (system_error (a_errno li) "listen on Unix socket"),
          mkOs rest (bound ++ [sys_listen fd backlog; sys_unlink path]) ({[fd]} ∪ os_open s))
    else (Ret (mkListener (mkOwned fd true) path true),
          mkOs rest (bound ++ [sys_listen fd backlog]) ({[fd]} ∪ os_open s))) as Hbody.
  { unfold body. rewrite (invoke_check _ bi (li :: rest)) by done.
    unfold s1, with_open, skipped, bound, update, field_update. simpl. rewrite <-app_assoc.
    destruct (a_result bi =? -1); [done|].
    unfold on_throw, try_catch. rewrite (invoke_check _ li rest) by done.
    unfold skipped, update, field_update. simpl. destruct (a_result li =? -1); [|done].
    unfold valid_path in Hv. apply andb_prop in Hv as [[Hv1 Hv2]%andb_prop _].
    unfold unlink_socket_path. rewrite Hv1. simpl. unfold unlink. rewrite (c_str_no_nul _ Hv2).
    unfold log_call. run_simpl. unfold update, field_update. simpl. by rewrite <-!app_assoc. }
  clearbody body. destruct (a_result bi =? -1); [|destruct (a_result li =? -1)].
  - erewrite on_throw_destroy_run; [|exact Hbody|done|simpl; set_solver].
    by rewrite closed_with_open.
  - erewrite on_throw_destroy_run; [|exact Hbody|done|simpl; set_solver].
    by rewrite closed_with_open, <-app_assoc.
  - unfold on_throw. by erewrite run_catch_ret; [|exact Hbody].
Qed.

Lemma check_unix_stream_socket_run fd d t rest calls F :
  a_result d ≠ -1 → a_result t ≠ -1 →
  check_unix_stream_socket fd true (mkOs (d :: t :: rest) calls F) =
    (if (option_word d =? AF_UNIX) && (option_word t =? SOCK_STREAM) then Ret tt
     else Throw (system_error EPROTOTYPE "expected Unix stream socket"),
     mkOs rest (calls ++ [sys_getsockopt fd SOL_SOCKET SO_DOMAIN;
                          sys_getsockopt fd SOL_SOCKET SO_TYPE]) F).
Proof.
  intros Hd%Z.eqb_neq Ht%Z.eqb_neq. unfold check_unix_stream_socket. simpl.
  rewrite run_bind_ret, (invoke_check _ d (t :: rest)), Hd by done.
  unfold skipped, update, field_update. simpl. rewrite (invoke_check _ t rest), Ht by done.
  unfold skipped, update, field_update. simpl. rewrite <-app_assoc.
  by destruct (option_word d =? AF_UNIX), (option_word t =? SOCK_STREAM).
Qed.

(** [UnixSocketListener::accept] retries an interrupted call and passes on its error.
    The connection it gets is inspected: if the descriptor is not a Unix stream socket it
    is closed and the error is [EPROTOTYPE], otherwise the new object holds it. *)
Theorem accept_spec fd path flags s before a d t rest :
  os_answers s = before ++ a :: d :: t :: rest →
  Forall (λ a, interrupted a = true) before → interrupted a = false →
  a_result a = -1 ∨ 0 ≤ a_result a ∧ a_result a ∉ os_open s →
  a_result d ≠ -1 → a_result t ≠ -1 →
  let new := a_result a in
  let called := os_calls s ++ replicate (S (length before)) (sys_accept4 fd flags) in
  let inspected := called ++ [sys_getsockopt new SOL_SOCKET SO_DOMAIN;
                              sys_getsockopt new SOL_SOCKET SO_TYPE] in
  accept (mkListener (mkOwned fd true) path true) flags s =
    if new =? -1
    then (Throw (system_error (a_errno a) "accept Unix socket connection"),
          mkOs (d :: t :: rest) called (os_open s))
    else if (option_word d =? AF_UNIX) && (option_word t =? SOCK_STREAM)
    then (Ret (mkSocket (mkOwned new true)), mkOs rest inspected ({[new]} ∪ os_open s))
    else (Throw (system_error EPROTOTYPE "expected Unix stream socket"),
          mkOs rest (inspected ++ [sys_close new]) (os_open s)).
Proof.
  intros Ha Hb Hi Hnew Hd Ht new called inspected. unfold accept. simpl. rewrite run_bind_ret.
  rewrite bind_run, retry_open, (run_bind _ _ _ _ _ (retry_call_run _ _ _ _ _ Ha Hb Hi)).
  unfold skipped. rewrite replicate_snoc. unfold update, field_update. simpl.
  unfold listener_native_handle, native_handle. simpl. fold called.
  unfold opened. fold new. destruct (Z.eqb_spec new (-1)) as [Hm|Hm].
  { simpl. rewrite bind_check_result. fold new. by rewrite (proj2 (Z.eqb_eq _ _) Hm). }
  destruct Hnew as [|[Hp Hn]]; [done|]. fold new in Hp, Hn.
  rewrite run_bind_gets. simpl. rewrite bool_decide_true by done. run_simpl.
  rewrite bind_check_result. fold new. rewrite (proj2 (Z.eqb_neq _ _) Hm).
  unfold adopt_native_handle. rewrite (proj2 (Z.ltb_ge _ _) Hp). run_simpl.
  unfold update, field_update. simpl. unfold adopt_socket, is_open. simpl.
  rewrite (proj2 (Z.eqb_neq _ _) Hm). simpl. set (s1 := mkOs _ _ _).
  set (body := check_unix_stream_socket new true;; _).
  assert (body s1 =
    (if (option_word d =? AF_UNIX) && (option_word t =? SOCK_STREAM)
     then Ret (mkSocket (mkOwned new true))
     else Throw (system_error EPROTOTYPE "expected Unix stream socket"),
     mkOs rest inspected ({[new]} ∪ os_open s))) as Hbody.
  { unfold body, s1. rewrite bind_run, (check_unix_stream_socket_run _ _ _ _ _ _ Hd Ht).
    by destruct (_ && _). }
  clearbody body. destruct (_ && _).
  - unfold on_throw. by erewrite run_catch_ret; [|exact Hbody].
  - erewrite on_throw_destroy_run; [|exact Hbody|done|simpl; set_solver].
    by rewrite closed_with_open.
Qed.

(** ** Witnesses *)
Section witnesses.
Definition intr : answer := mkAnswer (-1) EINTR [].
Definition failed (code : Z) : answer := mkAnswer (-1) code [].
Definition result (n : Z) : answer := mkAnswer n 0 [].
Definition option_answer (v : Z) : answer := mkAnswer 0 0 [v].
Definition asked (answers : list answer) : os := mkOs answers [] ∅.

Lemma connect_spec_witness :
  connect "s" (asked [result 3; intr; failed 111]) =
    (Throw (system_error 111 "connect Unix socket 's'"),
     mkOs [] [the_socket_call; sys_connect 3 "s" 4; sys_connect 3 "s" 4; sys_close 3] ∅).
Proof.
  exact (connect_spec "s" (asked [result 3; intr; failed 111]) (result 3) [intr] (failed 111) []
    eq_refl eq_refl ltac:(vm_compute; discriminate) ltac:(set_solver)
    ltac:(repeat constructor) eq_refl).
Defined.

Lemma write_some_spec_witness :
  write_some (mkSocket (mkOwned 3 true)) [[7; 8]; [9]] (asked [intr; result 2]) =
    (Ret 2, skipped (sys_sendmsg 3 [[7; 8]; [9]] MSG_NOSIGNAL) [intr; result 2] []
              (asked [intr; result 2])).
Proof.
  exact (write_some_spec 3 [[7; 8]; [9]] (asked [intr; result 2]) [intr] (result 2) []
    eq_refl ltac:(repeat constructor) eq_refl ltac:(vm_compute; split; discriminate)).
Defined.

Lemma read_some_spec_witness :
  read_some (mkSocket (mkOwned 3 true)) [4; 2 ^ 63] (asked [result 1]) =
    (Throw (system_error EINVAL "I/O buffer size is too large"), asked [result 1]).
Proof.
  exact (read_some_spec 3 [4; 2 ^ 63] (asked [result 1]) [] (result 1) []
    ltac:(repeat constructor; vm_compute; discriminate) eq_refl ltac:(constructor) eq_refl
    ltac:(vm_compute; split; discriminate)).
Defined.

Lemma listener_bind_spec_witness :
  listener_bind "s" 8 (asked [result 3; result 0; failed 98]) =
    (Throw (system_error 98 "listen on Unix socket"),
     mkOs [] [the_socket_call; sys_bind 3 "s" 4; sys_listen 3 8; sys_unlink "s"; sys_close 3] ∅).
Proof.
  exact (listener_bind_spec "s" 8 (asked [result 3; result 0; failed 98]) (result 3) (result 0)
    (failed 98) [] eq_refl eq_refl ltac:(vm_compute; discriminate) ltac:(set_solver)).
Defined.

Lemma accept_spec_witness :
  accept (mkListener (mkOwned 3 true) "s" true) 0
      (asked [intr; result 4; option_answer AF_UNIX; option_answer 2]) =
    (Throw (system_error EPROTOTYPE "expected Unix stream socket"),
     mkOs [] [sys_accept4 3 0; sys_accept4 3 0; sys_getsockopt 4 SOL_SOCKET SO_DOMAIN;
              sys_getsockopt 4 SOL_SOCKET SO_TYPE; sys_close 4] ∅).
Proof.
  exact (accept_spec 3 "s" 0 (asked [intr; result 4; option_answer AF_UNIX; option_answer 2])
    [intr] (result 4) (option_answer AF_UNIX) (option_answer 2) [] eq_refl
    ltac:(repeat constructor) eq_refl
    ltac:(right; split; [vm_compute; discriminate|set_solver])
    ltac:(discriminate) ltac:(discriminate)).
Defined.
End witnesses.
