(* ===== verification/EventFd.v ===== *)
(** * Event descriptors ([v2/linux_event_fd.cc], [v2/event_fd_factory.cc])

    The interface [EventFd] of [event_fd.hpp] is a class of two operations on some state;
    [LinuxEventFd] implements it with system calls. What the kernel promises about an
    event descriptor (its manual page) is an implementation as well, [kernel_event_fd]:
    a counter that a write increments and a read returns and clears. *)
From S2P Require Import Prelude Posix UnixSocket.

Open Scope string_scope.
Open Scope list_scope.
Open Scope Z_scope.

(** ** The interface ([event_fd.hpp]) *)
Class EventFd (S : Type) : Type := {
  read_notification : M S v2_exn Z;
  write_notification : M S v2_exn unit;
}.

(** ** [LinuxEventFd] *)
Record LinuxEventFd : Type := mkEvent { event_descriptor : Z; event_posix : bool }.

Definition moved_event : LinuxEventFd := mkEvent (-1) false.

Definition LinuxEventFd_new : io LinuxEventFd :=
  a ← invoke_open (sys_eventfd 0 (Z.lor EFD_NONBLOCK EFD_CLOEXEC));
  if a_result a =? -1 then throw (system_error (a_errno a) "eventfd")
  else mret (mkEvent (a_result a) true).

Definition make_linux_event_fd : io LinuxEventFd := LinuxEventFd_new.

Definition event_destroy (this : LinuxEventFd) : io unit :=
  when (negb (event_descriptor this =? -1))
    (facade (event_posix this);; close_fd (event_descriptor this)).

Definition event_move_construct (other : LinuxEventFd) : LinuxEventFd * LinuxEventFd :=
  (other, moved_event).

(** The assignment to a different object *)
Definition event_move_assign (this other : LinuxEventFd) : io (LinuxEventFd * LinuxEventFd) :=
  event_destroy this;; mret (other, moved_event).

Definition event_native_handle (this : LinuxEventFd) : Z := event_descriptor this.

(** [sizeof(std::uint64_t)]; the value that is read is the first word of the answer. *)
Definition word_size : Z := 8.
Definition signal_bytes : list Z := [1; 0; 0; 0; 0; 0; 0; 0].

Definition linux_read_notification (this : LinuxEventFd) : io Z :=
  facade (event_posix this);;
  a ← retry_call (invoke (sys_read (event_descriptor this) word_size));
  if a_result a =? word_size then mret (default 0 (a_data a !! 0%nat))
  else if a_result a =? -1 then throw (system_error (a_errno a) "read eventfd")
  else throw (system_error EIO "short read from eventfd").

Definition linux_write_notification (this : LinuxEventFd) : io unit :=
  facade (event_posix this);;
  a ← retry_call (invoke (sys_write (event_descriptor this) signal_bytes));
  if a_result a =? word_size then mret tt
  else if a_result a =? -1 then throw (system_error (a_errno a) "write eventfd")
  else throw (system_error EIO "short write to eventfd").

Definition linux_event_fd (this : LinuxEventFd) : EventFd os :=
  {| read_notification := linux_read_notification this;
     write_notification := linux_write_notification this |}.

(** ** What the kernel promises: a counter of 64 bits that never reaches its last value *)
Definition eventfd_max : Z := 2 ^ 64 - 2.

Definition kernel_read (c : Z) : option (Z * Z) := if c =? 0 then None else Some (c, 0).
Definition kernel_write (c : Z) : option Z := if c <? eventfd_max then Some (c + 1) else None.

#[export] Instance kernel_event_fd : EventFd Z := {|
  read_notification := λ c,
    match kernel_read c with
    | Some (v, c') => (Ret v, c')
    | None => (Throw (system_error EAGAIN "read eventfd"), c)
    end;
  write_notification := λ c,
    match kernel_write c with
    | Some c' => (Ret tt, c')
    | None => (Throw (system_error EAGAIN "write eventfd"), c)
    end;
|}.

(** The answers with which the kernel serves calls on a descriptor with counter [c] *)
Definition read_answer (c : Z) : answer :=
  match kernel_read c with
  | Some (v, _) => mkAnswer word_size 0 [v]
  | None => mkAnswer (-1) EAGAIN []
  end.
Definition write_answer (c : Z) : answer :=
  match kernel_write c with
  | Some _ => mkAnswer word_size 0 []
  | None => mkAnswer (-1) EAGAIN []
  end.

Definition outcome_of {A} (r : outcome v2_exn A * Z) : outcome v2_exn A := r.1.

(** [LinuxEventFd] implements its interface: served by a kernel that keeps its promise
    about the counter, and interrupted any number of times, a read and a write end the way
    the counter says, a value, success or [EAGAIN], and change no descriptor. *)
Theorem linux_event_fd_refines fd c s before rest :
  Forall (λ a, interrupted a = true) before →
  (os_answers s = before ++ read_answer c :: rest →
   linux_read_notification (mkEvent fd true) s =
     (outcome_of (@read_notification Z kernel_event_fd c),
      skipped (sys_read fd word_size) (before ++ [read_answer c]) rest s)) ∧
  (os_answers s = before ++ write_answer c :: rest →
   linux_write_notification (mkEvent fd true) s =
     (outcome_of (@write_notification Z kernel_event_fd c),
      skipped (sys_write fd signal_bytes) (before ++ [write_answer c]) rest s)).
Proof.
  intros Hb. split; intros Ha; [unfold linux_read_notification|unfold linux_write_notification];
    simpl; rewrite run_bind_ret; erewrite run_bind; try (apply (retry_call_run _ before _ rest _ Ha Hb)).
  - unfold read_answer, kernel_read. by destruct (c =? 0).
  - unfold read_answer, kernel_read. by destruct (c =? 0).
  - unfold write_answer, kernel_write. by destruct (c <? eventfd_max).
  - unfold write_answer, kernel_write. by destruct (c <? eventfd_max).
Qed.

(** ** Witness *)
Section witnesses.
Lemma linux_event_fd_refines_witness :
  linux_read_notification (mkEvent 5 true) (mkOs [intr; read_answer 3] [] ∅) =
    (Ret 3, skipped (sys_read 5 word_size) [intr; read_answer 3] [] (mkOs [intr; read_answer 3] [] ∅)).
Proof.
  exact (proj1 (linux_event_fd_refines 5 3 (mkOs [intr; read_answer 3] [] ∅) [intr] []
    ltac:(repeat constructor)) eq_refl).
Defined.
End witnesses.
