(* ===== verification/WaitableQueue.v ===== *)
(** * Waitable queues ([v2/include/exasol/udf/v2/waitable_queue.hpp])

    A queue with an event descriptor, so that a consumer can wait for elements with epoll.
    The queues themselves are third-party code: their two operations are parameters, which
    may throw. The first part is the class as it is written; the second part interleaves
    threads that use it, each queue operation and each system call being one atomic step.
    What a queue promises is a parameter there, for the two queues differ: the SPSC queue
    documents that [try_dequeue] fails if it is empty, the MPMC queue that it is then
    "likely but not guaranteed to be empty"; and storing may throw if copying an element
    may. *)
From Stdlib Require Import Sorting.Permutation.
From S2P Require Import Prelude Posix EventFd.

Open Scope string_scope.
Open Scope list_scope.
Open Scope Z_scope.

(** ** The class *)
Record WaitableQueue (Q S : Type) : Type := mkQueue {
  queue_storage : Q;
  notification_fd : option S;   (* [None] for the null pointer that a move leaves *)
}.
Arguments mkQueue {Q S} _ _.
Arguments queue_storage {Q S} _.
Arguments notification_fd {Q S} _.

#[export] Instance WaitableQueue_rebuild Q S : Rebuild (WaitableQueue Q S) :=
  λ w, mkQueue (queue_storage w) (notification_fd w).

Section waitable_queue.
Context {S Q T : Type} `{!EventFd S}.
(** [Queue::enqueue], [Queue::try_dequeue], what a move leaves of a queue, and
    [EventFd::native_handle] *)
Context (q_enqueue : T → M Q v2_exn bool) (q_try_dequeue : M Q v2_exn (option T)).
Context (q_moved : Q → Q).
Context (event_handle : S → Z).
#[local] Notation W A := (M (WaitableQueue Q S) v2_exn A).

Definition WaitableQueue_new (queue : Q) (event_fd : option S) : v2_exn + WaitableQueue Q S :=
  match event_fd with
  | None => inl (invalid_argument "eventfd implementation must not be null")
  | Some e => inr (mkQueue queue (Some e))
  end.

Definition queue_move_construct (other : WaitableQueue Q S) :
  WaitableQueue Q S * WaitableQueue Q S :=
  (other, mkQueue (q_moved (queue_storage other)) None).

(** The assignment of a different queue also gives the event descriptor that it destroys. *)
Definition queue_move_assign (this other : WaitableQueue Q S) :
  (WaitableQueue Q S * WaitableQueue Q S) * option S :=
  (queue_move_construct other, notification_fd this).

Definition queue_native_handle (this : WaitableQueue Q S) : Z :=
  match notification_fd this with None => -1 | Some e => event_handle e end.

(** A call through [notification_fd] *)
Definition on_event {A} (m : M S v2_exn A) : W A := λ this,
  match notification_fd this with
  | None => (Undef, this)
  | Some e => let '(o, e') := m e in (o, this <| notification_fd := Some e' |>)
  end.

(** A call of the queue; what it throws is passed on. *)
Definition on_queue {A} (f : M Q v2_exn A) : W A := λ this,
  let '(o, q) := f (queue_storage this) in (o, this <| queue_storage := q |>).

(** The loops of [notify] and of [drain_notifications]: a round ends the loop, with a
    value, or asks for another one; [fuel] bounds the rounds that are interrupted. *)
Fixpoint notify (fuel : nat) : W unit :=
  match fuel with
  | O => blocked
  | Datatypes.S fuel =>
      again ← try_catch (on_event write_notification;; mret false) (λ error,
        match error with
        | system_error code _ =>
            if code =? EINTR then mret true
            else if code =? EAGAIN then mret false else throw error
        | _ => throw error
        end);
      if (again : bool) then notify fuel else mret tt
  end.

Definition enqueue (fuel : nat) (value : T) : W bool :=
  ok ← on_queue (q_enqueue value);
  if negb ok then mret false else notify fuel;; mret true.

(** [for (; first != last; ++first) …], giving the count *)
Fixpoint enqueue_loop (values : list T) : W Z :=
  match values with
  | [] => mret 0
  | value :: values' =>
      ok ← on_queue (q_enqueue value);
      if negb ok then mret 0 else n ← enqueue_loop values'; mret (u64 (n + 1))
  end.

Definition enqueue_batch (fuel : nat) (values : list T) : W Z :=
  enqueued ← enqueue_loop values;
  when (negb (enqueued =? 0)) (notify fuel);;
  mret enqueued.

Definition try_dequeue : W (option T) := on_queue q_try_dequeue.

Fixpoint drain_loop (fuel : nat) (total : Z) : W Z :=
  match fuel with
  | O => blocked
  | Datatypes.S fuel =>
      r ← try_catch (value ← on_event read_notification; mret (inl (u64 (total + value))))
        (λ error,
          match error with
          | system_error code _ =>
              if code =? EINTR then mret (inl total)
              else if code =? EAGAIN then mret (inr total) else throw error
          | _ => throw error
          end);
      match r with
      | inl total' => drain_loop fuel total'
      | inr total' => mret total'
      end
  end.
Definition drain_notifications (fuel : nat) : W Z := drain_loop fuel 0.
End waitable_queue.

(** ** Threads that share a queue

    A producer is in the middle of [enqueue] or [enqueue_batch] when it has stored
    elements since its last notification. A consumer follows the comment on
    [drain_notifications]: wait for the descriptor, drain it, dequeue until the queue is
    empty and recheck it before it waits again. *)
Inductive phase : Type := Waiting | Draining | Dequeuing | Rechecking.

#[export] Instance phase_eq_dec : EqDecision phase.
Proof. solve_decision. Defined.

(** What the queue promises: [try_dequeue] fails only on an empty queue; storing an
    element does not throw *)
Record queue_contract : Type := mkContract { q_exact : bool; q_nothrow : bool }.

Record threads (T : Type) : Type := mkThreads {
  items : list T;
  counter : Z;
  producers : list nat;      (* the elements each has stored and not notified *)
  consumers : list phase;
  stored : list T;
  delivered : list T;
}.
Arguments mkThreads {T} _ _ _ _ _ _.
Arguments items {T} _.
Arguments counter {T} _.
Arguments producers {T} _.
Arguments consumers {T} _.
Arguments stored {T} _.
Arguments delivered {T} _.

#[export] Instance threads_rebuild T : Rebuild (threads T) :=
  λ s, mkThreads (items s) (counter s) (producers s) (consumers s) (stored s) (delivered s).

(** What a notification leaves in the counter; a saturated one stays readable. *)
Definition notified (c : Z) : Z := default c (kernel_write c).

Section interleaving.
Context {T : Type} (promised : queue_contract).
Implicit Types s : threads T.

Inductive producer_step : threads T → threads T → Prop :=
  | step_store s p k x :
      producers s !! p = Some k →
      producer_step s (s <| items := items s ++ [x] |> <| stored := stored s ++ [x] |>
                         <| producers := <[p := S k]> (producers s) |>)
  | step_notify s p k :
      producers s !! p = Some (S k) →
      producer_step s (s <| counter := notified (counter s) |>
                         <| producers := <[p := 0%nat]> (producers s) |>)
  | step_throw s p k :     (* the exception leaves the call before [notify] *)
      producers s !! p = Some k → q_nothrow promised = false →
      producer_step s (s <| producers := <[p := 0%nat]> (producers s) |>).

(** When [try_dequeue] may return false *)
Definition may_miss s : Prop := q_exact promised = true → items s = [].

(** A consumer that is dequeuing, the recheck included *)
Definition looking (p : phase) : bool :=
  match p with Dequeuing | Rechecking => true | _ => false end.

Inductive consumer_step : threads T → threads T → Prop :=
  | step_wake s i :
      consumers s !! i = Some Waiting → 0 < counter s →
      consumer_step s (s <| consumers := <[i := Draining]> (consumers s) |>)
  | step_read s i v c :
      consumers s !! i = Some Draining → kernel_read (counter s) = Some (v, c) →
      consumer_step s (s <| counter := c |>)
  | step_drained s i :
      consumers s !! i = Some Draining → kernel_read (counter s) = None →
      consumer_step s (s <| consumers := <[i := Dequeuing]> (consumers s) |>)
  | step_dequeue s i p before x after :
      consumers s !! i = Some p → looking p = true → items s = before ++ x :: after →
      consumer_step s (s <| items := before ++ after |> <| delivered := delivered s ++ [x] |>
                         <| consumers := <[i := Dequeuing]> (consumers s) |>)
  | step_missed s i :
      consumers s !! i = Some Dequeuing → may_miss s →
      consumer_step s (s <| consumers := <[i := Rechecking]> (consumers s) |>)
  | step_missed_again s i :
      consumers s !! i = Some Rechecking → may_miss s →
      consumer_step s (s <| consumers := <[i := Waiting]> (consumers s) |>).

Definition threads_step s s' : Prop := producer_step s s' ∨ consumer_step s s'.

(** [m] producers and [n] consumers that wait on a new queue *)
Definition threads_start (m n : nat) : threads T :=
  mkThreads [] 0 (replicate m 0%nat) (replicate n Waiting) [] [].

(** Someone is about to notify, or to look into the queue. *)
Definition unsettled s : Prop :=
  (∃ k, S k ∈ producers s) ∨ (∃ p, p ∈ consumers s ∧ p ≠ Waiting).

Definition queue_invariant s : Prop :=
  0 ≤ counter s ≤ eventfd_max ∧
  stored s ≡ₚ delivered s ++ items s ∧
  (q_exact promised = true → q_nothrow promised = true →
   items s ≠ [] → 0 < counter s ∨ unsettled s).

Lemma notified_range c : 0 ≤ c ≤ eventfd_max → 0 < notified c ≤ eventfd_max.
Proof.
  intros Hc. unfold notified, kernel_write. destruct (Z.ltb_spec c eventfd_max); simpl;
    unfold eventfd_max in *; lia.
Qed.

Lemma producer_keeps s s' : producer_step s s' → queue_invariant s → queue_invariant s'.
Proof.
  intros Hs (Hc & Hp & Hw). destruct Hs as [s p k x Hl|s p k Hl|s p k Hl Hthrow];
    unfold queue_invariant, update, field_update; simpl;
    (split; [|split]); try done.
  - by rewrite Hp, app_assoc.
  - intros _ _ _. right. left. exists k. simpl. apply list_elem_of_lookup. exists p.
    apply list_lookup_insert_eq. by eapply lookup_lt_Some.
  - pose proof (notified_range _ Hc). lia.
  - intros _ _ _. left. by apply notified_range.
  - congruence.
Qed.

(** A consumer in a phase other than [Waiting] keeps the state unsettled. *)
Lemma unsettled_consumer s i p : consumers s !! i = Some p → p ≠ Waiting → unsettled s.
Proof. intros Hi Hp. right. exists p. split; [|done]. by eapply list_elem_of_lookup_2. Qed.

Lemma unsettled_insert s i p q :
  consumers s !! i = Some p → q ≠ Waiting →
  unsettled (s <| consumers := <[i := q]> (consumers s) |>).
Proof.
  intros Hi Hq. apply (unsettled_consumer _ i q); [|done].
  apply list_lookup_insert_eq. by eapply lookup_lt_Some.
Qed.

Lemma consumer_keeps s s' : consumer_step s s' → queue_invariant s → queue_invariant s'.
Proof.
  intros Hs (Hc & Hp & Hw).
  destruct Hs as [s i Hi Hpos|s i v c Hi Hr|s i Hi Hr|s i p before x after Hi Hl He|s i Hi He|s i Hi He];
    (split; [|split]); try done.
  - intros _ _ _. by left.
  - simpl. unfold kernel_read in Hr. by destruct (counter s =? 0); simplify_eq.
  - intros _ _ _. right. by apply (unsettled_consumer _ i Draining).
  - intros _ _ _. right. by apply (unsettled_insert s i Draining).
  - simpl. rewrite Hp, He, <-app_assoc. simpl. f_equiv. by rewrite Permutation_middle.
  - intros _ _ _. right. apply (unsettled_consumer _ i Dequeuing); [|done].
    apply list_lookup_insert_eq. by eapply lookup_lt_Some.
  - intros _ _ _. right. by apply (unsettled_insert s i Dequeuing).
  - simpl. intros Hx _ Hne. by destruct Hne; apply He.
Qed.

Lemma threads_start_invariant m n : queue_invariant (threads_start m n).
Proof. split; [by unfold eventfd_max|]. split; [done|]. done. Qed.

Lemma reachable_invariant m n s :
  rtc threads_step (threads_start m n) s → queue_invariant s.
Proof.
  intros Hr. pattern s. revert s Hr. apply rtc_ind_r; [apply threads_start_invariant|].
  intros s s' _ [Hs|Hs] IH; [by eapply producer_keeps|by eapply consumer_keeps].
Qed.

(** C8. No wake-up is lost, for any number of producers and consumers and any
    interleaving of their steps, on a queue that promises what the SPSC queue documents.
    Whatever the queue promises, the elements that were stored are the delivered ones and
    the ones in the queue. If [try_dequeue] fails only on an empty queue and storing does
    not throw: when an element is in the queue while no producer is in the middle of a call
    and every consumer waits, the descriptor is readable, so that each of them can go
    on. Without either promise this is false, see [missed_element_lost] and
    [thrown_element_lost]. *)
Theorem queue_no_lost_wakeup m n s :
  rtc threads_step (threads_start m n) s →
  stored s ≡ₚ delivered s ++ items s ∧
  (q_exact promised = true → q_nothrow promised = true →
   items s ≠ [] → Forall (λ k, k = 0%nat) (producers s) →
   Forall (λ p, p = Waiting) (consumers s) →
   ∀ i, (i < length (consumers s))%nat →
   consumer_step s (s <| consumers := <[i := Draining]> (consumers s) |>)).
Proof.
  intros (Hc & Hp & Hw)%reachable_invariant. split; [done|]. intros Hx Hnt Hi Hprod Hcons i Hlt.
  destruct (Hw Hx Hnt Hi) as [Hpos|[(k & Hk)|(p & Hin & Hne)]].
  - apply lookup_lt_is_Some in Hlt as [q Hq]. apply step_wake; [|done].
    rewrite Forall_lookup in Hcons. by rewrite Hq, (Hcons _ _ Hq).
  - rewrite Forall_forall in Hprod. by specialize (Hprod _ Hk).
  - rewrite Forall_forall in Hcons. by destruct Hne; apply Hcons.
Qed.

(** *** The consumers finish

    The steps of the consumers alone decrease a measure: a readable counter counts most,
    then the elements, then how far each consumer is in its round. *)
Definition weight (readable : bool) (p : phase) : nat :=
  match p, readable with
  | Draining, true => 1 | Waiting, true => 2 | Rechecking, true => 3 | Dequeuing, true => 4
  | Waiting, false => 0 | Rechecking, false => 1 | Dequeuing, false => 2 | Draining, false => 3
  end.
Definition weights (readable : bool) (l : list phase) : nat :=
  sum_list_with (weight readable) l.
Definition consumers_measure s : nat :=
  let readable := negb (counter s =? 0) in
  let n := (4 * length (consumers s) + 1)%nat in
  ((if readable then n else 0) + length (items s) * n + weights readable (consumers s))%nat.

Lemma weights_bound b l : (weights b l ≤ 4 * length l)%nat.
Proof. induction l as [|p l IH]; [done|]. unfold weights in *. simpl. destruct p, b; simpl; lia. Qed.

Lemma weights_insert b l i p q :
  l !! i = Some p → (weights b (<[i := q]> l) + weight b p = weights b l + weight b q)%nat.
Proof.
  revert i. induction l as [|r l IH]; intros [|i] Hi; simplify_eq/=; [lia|].
  specialize (IH i Hi). unfold weights in *. lia.
Qed.

Lemma consumer_step_decreases s s' :
  0 ≤ counter s → consumer_step s s' → (consumers_measure s' < consumers_measure s)%nat.
Proof.
  intros Hc Hs. unfold consumers_measure.
  destruct Hs as [s i Hi Hpos|s i v c Hi Hr|s i Hi Hr|s i p before x after Hi Hl He|s i Hi He|s i Hi He];
    unfold update, field_update; simpl; rewrite ?length_insert.
  - destruct (Z.eqb_spec (counter s) 0); [lia|]. simpl.
    pose proof (weights_insert true _ _ _ Draining Hi) as H. simpl in H. lia.
  - unfold kernel_read in Hr. destruct (Z.eqb_spec (counter s) 0); simplify_eq/=.
    pose proof (weights_bound false (consumers s)). lia.
  - unfold kernel_read in Hr. destruct (Z.eqb_spec (counter s) 0); simplify_eq/=.
    pose proof (weights_insert false _ _ _ Dequeuing Hi) as H. simpl in H. lia.
  - rewrite He, !length_app. simpl.
    pose proof (lookup_lt_Some _ _ _ Hi). generalize (negb (counter s =? 0)). intros b.
    pose proof (weights_insert b _ _ _ Dequeuing Hi) as H'.
    assert (weight b Dequeuing ≤ S (weight b p))%nat by (by destruct p, b; simpl in *; lia). lia.
  - destruct (counter s =? 0); simpl.
    + pose proof (weights_insert false _ _ _ Rechecking Hi) as H. simpl in H. lia.
    + pose proof (weights_insert true _ _ _ Rechecking Hi) as H. simpl in H. lia.
  - destruct (counter s =? 0); simpl.
    + pose proof (weights_insert false _ _ _ Waiting Hi) as H. simpl in H. lia.
    + pose proof (weights_insert true _ _ _ Waiting Hi) as H. simpl in H. lia.
Qed.

Lemma consumer_steps_bounded k s s' :
  nsteps consumer_step k s s' → queue_invariant s → (k + consumers_measure s' ≤ consumers_measure s)%nat.
Proof.
  induction 1 as [|k s1 s2 s3 Hs _ IH]; intros Hi; [done|].
  pose proof (consumer_step_decreases _ _ (proj1 (proj1 Hi)) Hs).
  specialize (IH (consumer_keeps _ _ Hs Hi)). lia.
Qed.

Lemma consumer_step_same s s' :
  consumer_step s s' →
  stored s' = stored s ∧ producers s' = producers s ∧ length (consumers s') = length (consumers s).
Proof. destruct 1; unfold update, field_update; simpl; by rewrite ?length_insert. Qed.

Lemma consumer_steps_same s s' :
  rtc consumer_step s s' → queue_invariant s →
  queue_invariant s' ∧ stored s' = stored s ∧ producers s' = producers s ∧
  length (consumers s') = length (consumers s).
Proof.
  induction 1 as [|s1 s2 s3 Hs _ IH]; intros Hi; [done|].
  destruct (consumer_step_same _ _ Hs) as (H1 & H2 & H3). rewrite <-H1, <-H2, <-H3.
  apply IH. by eapply consumer_keeps.
Qed.

(** Every consumer that is not waiting has a step, and so has one that can be woken. *)
Lemma consumer_can_step s i p :
  consumers s !! i = Some p → p ≠ Waiting ∨ 0 < counter s → ∃ s', consumer_step s s'.
Proof.
  intros Hi Hp. destruct p.
  - destruct Hp as [|Hpos]; [done|]. eexists. by eapply step_wake.
  - destruct (kernel_read (counter s)) as [[v c]|] eqn:Hr; eexists;
      [by eapply step_read|by eapply step_drained].
  - destruct (items s) as [|x l] eqn:He; eexists;
      [eapply step_missed; [done|by intros _]|by eapply (step_dequeue _ _ _ [])].
  - destruct (items s) as [|x l] eqn:He; eexists;
      [eapply step_missed_again; [done|by intros _]|by eapply (step_dequeue _ _ _ [])].
Qed.

(** C9. Every element that was stored is delivered, on a queue that promises what the SPSC
    queue documents. Once no producer is in the middle of a call, the consumers on their
    own take only a bounded number of steps, whatever their order and whatever the queue
    promises, and when they can go no further each of them waits and the counter is zero;
    if [try_dequeue] fails only on an empty queue and storing does not throw, the queue
    is then empty and the delivered elements are the stored ones, none twice. *)
Theorem queue_delivers m n s :
  rtc threads_step (threads_start m n) s →
  Forall (λ k, k = 0%nat) (producers s) → consumers s ≠ [] →
  (∀ k s', nsteps consumer_step k s s' → (k ≤ consumers_measure s)%nat) ∧
  (∀ s', rtc consumer_step s s' → (∀ s'', ¬ consumer_step s' s'') →
     Forall (λ p, p = Waiting) (consumers s') ∧ counter s' = 0 ∧
     (q_exact promised = true → q_nothrow promised = true →
      items s' = [] ∧ delivered s' ≡ₚ stored s)).
Proof.
  intros Hs%reachable_invariant Hprod Hne. split.
  { intros k s' Hk. pose proof (consumer_steps_bounded _ _ _ Hk Hs). lia. }
  intros s' Hr Hstuck.
  destruct (consumer_steps_same _ _ Hr Hs) as ((Hc & Hp & Hw) & Hst & Hpr & Hlen).
  assert (Forall (λ p, p = Waiting) (consumers s')) as Hall.
  { apply Forall_lookup. intros i p Hi. destruct (decide (p = Waiting)) as [|Hnw]; [done|].
    destruct (consumer_can_step s' i p Hi) as [s'' H]; [by left|]. by destruct (Hstuck s''). }
  assert (counter s' = 0) as Hzero.
  { destruct (consumers s') as [|p l] eqn:He; [by destruct (consumers s)|].
    destruct (decide (counter s' = 0)) as [|Hnz]; [done|].
    destruct (consumer_can_step s' 0%nat p) as [s'' H]; [by rewrite He|right; lia|].
    by destruct (Hstuck s''). }
  split; [done|]. split; [done|]. intros Hx Hnt.
  assert (items s' = []) as Hempty.
  { destruct (decide (items s' = [])) as [|Hit]; [done|].
    destruct (Hw Hx Hnt Hit) as [|[(k & Hk)|(p & Hin & Hn)]]; [lia| |].
    - rewrite Hpr in Hk. rewrite Forall_forall in Hprod. by specialize (Hprod _ Hk).
    - rewrite Forall_forall in Hall. by destruct Hn; apply Hall. }
  split; [done|]. by rewrite <-Hst, Hp, Hempty, app_nil_r.
Qed.
End interleaving.

(** ** The class is what the threads run

    With a first-in first-out queue that may refuse an element and the counter of the
    kernel, an operation of the class that runs undisturbed is a run of the steps above. *)
Section class_runs.
Context {T : Type} (accepts : list T → bool) (promised : queue_contract).
#[local] Notation producer_step := (producer_step promised).
#[local] Notation consumer_step := (consumer_step promised).

Definition fifo_enqueue (x : T) : M (list T) v2_exn bool := λ q,
  if accepts q then (Ret true, q ++ [x]) else (Ret false, q).
Definition fifo_dequeue : M (list T) v2_exn (option T) := λ q,
  match q with [] => (Ret None, []) | x :: q' => (Ret (Some x), q') end.

(** The object as the threads see it *)
Definition as_object (s : threads T) : WaitableQueue (list T) Z :=
  mkQueue (items s) (Some (counter s)).

Lemma notify_run fuel (q : list T) c :
  notify (S fuel) (mkQueue q (Some c)) = (Ret tt, mkQueue q (Some (notified c))).
Proof.
  cbn [notify]. unfold notified. rewrite bind_run. unfold try_catch. rewrite bind_run.
  unfold on_event. simpl. unfold kernel_write. by destruct (c <? eventfd_max).
Qed.

Lemma fifo_enqueue_run x (q : list T) (e : option Z) :
  on_queue (fifo_enqueue x) (mkQueue q e) =
    (Ret (accepts q) : outcome v2_exn bool, mkQueue (if accepts q then q ++ [x] else q) e).
Proof. unfold on_queue, fifo_enqueue. simpl. by destruct (accepts q). Qed.

Lemma enqueue_loop_run values s p k :
  producers s !! p = Some k → zlength values < 2 ^ 64 →
  ∃ n s', enqueue_loop fifo_enqueue values (as_object s) = (Ret (Z.of_nat n), as_object s') ∧
    rtc producer_step s s' ∧ (n ≤ length values)%nat ∧
    items s' = items s ++ take n values ∧ counter s' = counter s ∧
    producers s' = <[p := (k + n)%nat]> (producers s) ∧
    ((n < length values)%nat → accepts (items s') = false).
Proof.
  revert s k. induction values as [|x values IH]; intros s k Hk Hlen.
  { exists 0%nat, s. split_and!; try done; simpl; [by rewrite app_nil_r| |by intros ?%Nat.lt_irrefl].
    rewrite Nat.add_0_r. symmetry. by apply list_insert_id. }
  cbn [enqueue_loop]. rewrite (run_bind _ _ (as_object s) _ _ (fifo_enqueue_run x (items s) (Some (counter s)))).
  destruct (accepts (items s)) eqn:Ha; simpl.
  2:{ exists 0%nat, s. split_and!; try done; simpl;
        [lia|by rewrite app_nil_r|].
      rewrite Nat.add_0_r. symmetry. by apply list_insert_id. }
  set (s1 := s <| items := items s ++ [x] |> <| stored := stored s ++ [x] |>
               <| producers := <[p := S k]> (producers s) |>).
  destruct (IH s1 (S k)) as (n & s' & Hr & Hst & Hn & Hi & Hc & Hp & Hfull).
  { unfold s1, update, field_update. simpl. apply list_lookup_insert_eq.
    by eapply lookup_lt_Some. }
  { unfold zlength in *. simpl in Hlen. lia. }
  exists (S n), s'. split_and!; simpl; try done.
  - change (mkQueue _ _) with (as_object s1) at 1.
    rewrite (run_bind _ _ _ _ _ Hr). unfold zlength in Hlen. simpl in Hlen.
    rewrite u64_small by lia. rewrite run_ret. do 2 f_equal. lia.
  - eapply rtc_l; [by apply (step_store _ s p k x)|done].
  - lia.
  - rewrite Hi. unfold s1, update, field_update. simpl. by rewrite <-app_assoc.
  - rewrite Hp. unfold s1, update, field_update. simpl. rewrite list_insert_insert_eq.
    f_equal. lia.
  - intros H. apply Hfull. lia.
Qed.

(** C31. [enqueue_batch] stores the elements up to the first one the queue refuses, counts
    them, and signals the descriptor exactly once if it stored any and not at all
    otherwise; a saturated descriptor is not an error. What it does is a run of a producer
    that was idle and is idle again. *)
Theorem enqueue_batch_runs values s p fuel :
  producers s !! p = Some 0%nat → zlength values < 2 ^ 64 →
  ∃ n s', enqueue_batch fifo_enqueue (S fuel) values (as_object s) = (Ret (Z.of_nat n), as_object s') ∧
    rtc producer_step s s' ∧ producers s' = producers s ∧
    (n ≤ length values)%nat ∧ items s' = items s ++ take n values ∧
    counter s' = (if bool_decide (n = 0%nat) then counter s else notified (counter s)) ∧
    ((n < length values)%nat → accepts (items s') = false).
Proof.
  intros Hp Hlen. destruct (enqueue_loop_run values s p 0 Hp Hlen)
    as (n & s1 & Hr & Hst & Hn & Hi & Hc & Hps & Hfull).
  unfold enqueue_batch. setoid_rewrite (run_bind _ _ _ _ _ Hr). destruct n as [|n].
  { exists 0%nat, s1. rewrite bool_decide_true by done. split_and!; try done.
    rewrite Hps. by apply list_insert_id. }
  exists (S n), (s1 <| counter := notified (counter s1) |>
                    <| producers := <[p := 0%nat]> (producers s1) |>).
  rewrite bool_decide_false by done. unfold update, field_update. simpl. split_and!; try done.
  - rewrite bind_run. setoid_rewrite notify_run. done.
  - eapply rtc_r; [done|]. apply (step_notify _ s1 p n). rewrite Hps.
    apply list_lookup_insert_eq. by eapply lookup_lt_Some.
  - rewrite Hps, list_insert_insert_eq. by apply list_insert_id.
  - by rewrite Hc.
Qed.

Lemma drain_zero fuel (q : list T) total :
  drain_loop (S fuel) total (mkQueue q (Some 0)) = (Ret total, mkQueue q (Some 0)).
Proof. done. Qed.

Lemma drain_run fuel (q : list T) c :
  0 ≤ c ≤ eventfd_max →
  drain_notifications (S (S fuel)) (mkQueue q (Some c)) = (Ret c, mkQueue q (Some 0)).
Proof.
  intros Hc. unfold drain_notifications.
  destruct (decide (c = 0)) as [->|Hz]; [apply (drain_zero (S fuel))|].
  cbn [drain_loop]. rewrite bind_run. unfold try_catch. rewrite bind_run.
  unfold on_event. simpl. unfold kernel_read. rewrite (proj2 (Z.eqb_neq _ _) Hz).
  cbn -[drain_loop]. rewrite u64_small by (unfold eventfd_max in Hc; lia).
  apply (drain_zero fuel).
Qed.

(** C32. [drain_notifications] returns the accumulated count, whatever it is, and leaves the
    counter at zero; [try_dequeue] takes one element or finds the queue empty, and then a
    second one is the recheck after which the consumer waits. They are the steps of a
    consumer from its wake-up to its next wait. *)
Theorem consumer_operations_run s i fuel :
  consumers s !! i = Some Draining → 0 ≤ counter s ≤ eventfd_max →
  ∃ s', drain_notifications (S (S fuel)) (as_object s) = (Ret (counter s), as_object s') ∧
    rtc consumer_step s s' ∧ consumers s' !! i = Some Dequeuing ∧ counter s' = 0 ∧
    items s' = items s ∧
    ∃ s'', try_dequeue fifo_dequeue (as_object s') = (Ret (head (items s)), as_object s'') ∧
      consumer_step s' s'' ∧ items s'' = tail (items s) ∧
      consumers s'' !! i = Some (if bool_decide (items s = []) then Rechecking else Dequeuing) ∧
      (items s = [] → ∃ s3, try_dequeue fifo_dequeue (as_object s'') = (Ret None, as_object s3) ∧
        consumer_step s'' s3 ∧ items s3 = [] ∧ consumers s3 !! i = Some Waiting).
Proof.
  intros Hi Hc. assert (i < length (consumers s))%nat as Hlt by (by eapply lookup_lt_Some).
  set (s' := s <| counter := 0 |> <| consumers := <[i := Dequeuing]> (consumers s) |>).
  assert (consumers s' !! i = Some Dequeuing) as Hd by (by apply list_lookup_insert_eq).
  exists s'. split_and!; try done.
  - by apply drain_run.
  - destruct (decide (counter s = 0)) as [Hz|Hz].
    + apply rtc_once. unfold s'. rewrite <-Hz at 1.
      assert (s <| counter := counter s |> = s) as -> by (by destruct s).
      apply step_drained; [done|]. unfold kernel_read. by rewrite Hz.
    + eapply rtc_l; [apply (step_read _ s i (counter s) 0 Hi)|apply rtc_once].
      { unfold kernel_read. by rewrite (proj2 (Z.eqb_neq _ _) Hz). }
      assert (kernel_read (counter (s <| counter := 0 |>)) = None) as H0 by done.
      assert (consumers (s <| counter := 0 |>) !! i = Some Draining) as H1 by done.
      exact (step_drained _ _ i H1 H0).
  - destruct (items s) as [|x l] eqn:He.
    + set (s2 := s' <| consumers := <[i := Rechecking]> (consumers s') |>).
      assert (consumers s2 !! i = Some Rechecking) as H2
        by (apply list_lookup_insert_eq; simpl; by rewrite length_insert).
      exists s2. split_and!; try done.
      * unfold try_dequeue, on_queue, as_object. simpl. by rewrite He.
      * apply step_missed; [done|]. by intros _.
      * intros _. exists (s2 <| consumers := <[i := Waiting]> (consumers s2) |>). split_and!; try done.
        -- unfold try_dequeue, on_queue, as_object. simpl. by rewrite He.
        -- apply step_missed_again; [done|]. by intros _.
        -- apply list_lookup_insert_eq. simpl. by rewrite !length_insert.
    + exists (s' <| items := l |> <| delivered := delivered s' ++ [x] |>
        <| consumers := <[i := Dequeuing]> (consumers s') |>). split_and!; try done.
      * unfold try_dequeue, on_queue, as_object. simpl. by rewrite He.
      * by apply (step_dequeue _ s' i Dequeuing [] x l).
      * simpl. apply list_lookup_insert_eq. by rewrite length_insert.
Qed.
End class_runs.

(** ** Witnesses *)
Section witnesses.
(** What the SPSC queue promises for elements that are copied without an exception; a
    queue that may miss an element; and one whose elements may throw *)
Definition keeps_both : queue_contract := mkContract true true.
Definition may_miss_elements : queue_contract := mkContract false true.
Definition may_throw : queue_contract := mkContract true false.

(** One producer has enqueued 7 and notified; one consumer waits. *)
Definition one_stored : threads nat := mkThreads [7%nat] 1 [0%nat] [Waiting] [7%nat] [].

Lemma one_stored_reachable c : rtc (threads_step c) (threads_start 1 1) one_stored.
Proof.
  eapply rtc_l; [left; by apply (step_store c (threads_start 1 1) 0%nat 0%nat 7%nat)|].
  eapply rtc_l; [left; eapply (step_notify _ _ 0%nat 0%nat); reflexivity|]. reflexivity.
Qed.

Lemma queue_no_lost_wakeup_witness :
  consumer_step keeps_both one_stored (mkThreads [7%nat] 1 [0%nat] [Draining] [7%nat] []).
Proof.
  exact (proj2 (queue_no_lost_wakeup keeps_both 1 1 one_stored (one_stored_reachable _))
    eq_refl eq_refl ltac:(discriminate) ltac:(repeat constructor) ltac:(repeat constructor) 0%nat
    ltac:(vm_compute; lia)).
Defined.

Definition all_delivered : threads nat := mkThreads [] 0 [0%nat] [Waiting] [7%nat] [7%nat].

Lemma one_stored_runs : rtc (consumer_step keeps_both) one_stored all_delivered.
Proof.
  eapply rtc_l; [by apply (step_wake _ one_stored 0%nat)|].
  eapply rtc_l; [eapply (step_read _ _ 0%nat); reflexivity|].
  eapply rtc_l; [eapply (step_drained _ _ 0%nat); reflexivity|].
  eapply rtc_l; [eapply (step_dequeue _ _ 0%nat _ []); reflexivity|].
  eapply rtc_l; [eapply (step_missed _ _ 0%nat); [reflexivity|by intros _]|].
  eapply rtc_l; [eapply (step_missed_again _ _ 0%nat); [reflexivity|by intros _]|]. reflexivity.
Qed.

(** A consumer that waits with the counter at zero stays where it is. *)
Lemma waiting_stuck c (l st d : list nat) s :
  ¬ consumer_step c (mkThreads l 0 [0%nat] [Waiting] st d) s.
Proof.
  inversion 1 as [? i Hi Hc|? i ? ? Hi|? i Hi|? i p ? ? ? Hi Hl|? i Hi|? i Hi]; subst; try done;
    destruct i as [|i]; simplify_eq/=.
Qed.

Lemma queue_delivers_witness :
  Forall (λ p, p = Waiting) (consumers all_delivered) ∧ counter all_delivered = 0 ∧
  items all_delivered = [] ∧ delivered all_delivered ≡ₚ [7%nat].
Proof.
  destruct (proj2 (queue_delivers keeps_both 1 1 one_stored (one_stored_reachable _)
    ltac:(repeat constructor) ltac:(discriminate)) all_delivered one_stored_runs
    (waiting_stuck _ _ _ _)) as (H1 & H2 & H3).
  exact (conj H1 (conj H2 (H3 eq_refl eq_refl))).
Defined.

(** ** Without the promises *)
Definition lost : threads nat := mkThreads [7%nat] 0 [0%nat] [Waiting] [7%nat] [].

(** On a queue whose [try_dequeue] may fail on an element, as the MPMC queue documents, a
    consumer that follows the comment, with the recheck, goes to sleep beside it and is
    never woken. *)
Lemma missed_element_lost :
  rtc (threads_step may_miss_elements) (threads_start 1 1) lost ∧
  items lost ≠ [] ∧ Forall (λ k, k = 0%nat) (producers lost) ∧
  ∀ s, ¬ consumer_step may_miss_elements lost s.
Proof.
  split_and!; [|done|by repeat constructor|apply waiting_stuck].
  etrans; [apply one_stored_reachable|].
  eapply rtc_l; [right; by apply (step_wake _ one_stored 0%nat)|].
  eapply rtc_l; [right; eapply (step_read _ _ 0%nat); reflexivity|].
  eapply rtc_l; [right; eapply (step_drained _ _ 0%nat); reflexivity|].
  eapply rtc_l; [right; eapply (step_missed _ _ 0%nat); [reflexivity|discriminate]|].
  eapply rtc_l; [right; eapply (step_missed_again _ _ 0%nat); [reflexivity|discriminate]|]. reflexivity.
Qed.

(** An exception in the middle of [enqueue_batch] leaves what was stored before it in the
    queue, and nobody is told. *)
Lemma thrown_element_lost :
  rtc (threads_step may_throw) (threads_start 1 1) lost ∧
  items lost ≠ [] ∧ Forall (λ k, k = 0%nat) (producers lost) ∧
  ∀ s, ¬ consumer_step may_throw lost s.
Proof.
  split_and!; [|done|by repeat constructor|apply waiting_stuck].
  eapply rtc_l; [left; by apply (step_store _ (threads_start 1 1) 0%nat 0%nat 7%nat)|].
  eapply rtc_l; [left; eapply (step_throw _ _ 0%nat 1%nat); reflexivity|]. reflexivity.
Qed.

Definition room_for_two (q : list nat) : bool := (length q <? 2)%nat.

Lemma enqueue_batch_runs_witness :
  ∃ n s', enqueue_batch (fifo_enqueue room_for_two) 1 [8; 9]%nat (as_object one_stored) =
    (Ret (Z.of_nat n), as_object s') ∧
    rtc (producer_step keeps_both) one_stored s' ∧ producers s' = [0%nat] ∧
    (n ≤ 2)%nat ∧ items s' = [7%nat] ++ take n [8; 9]%nat ∧
    counter s' = (if bool_decide (n = 0%nat) then 1 else notified 1) ∧
    ((n < 2)%nat → room_for_two (items s') = false).
Proof.
  exact (enqueue_batch_runs room_for_two keeps_both [8; 9]%nat one_stored 0 0 eq_refl
    ltac:(vm_compute; reflexivity)).
Defined.

Definition one_draining : threads nat := mkThreads [7%nat] 3 [] [Draining] [7%nat] [].

Lemma consumer_operations_run_witness :
  ∃ s', drain_notifications 2 (as_object one_draining) = (Ret 3, as_object s') ∧
    rtc (consumer_step keeps_both) one_draining s' ∧ consumers s' !! 0%nat = Some Dequeuing ∧
    counter s' = 0 ∧ items s' = [7%nat] ∧
    ∃ s'', try_dequeue fifo_dequeue (as_object s') = (Ret (Some 7%nat), as_object s'') ∧
      consumer_step keeps_both s' s'' ∧ items s'' = [] ∧ consumers s'' !! 0%nat = Some Dequeuing ∧
      ([7%nat] = [] → ∃ s3, try_dequeue fifo_dequeue (as_object s'') = (Ret None, as_object s3) ∧
        consumer_step keeps_both s'' s3 ∧ items s3 = [] ∧ consumers s3 !! 0%nat = Some Waiting).
Proof.
  exact (consumer_operations_run keeps_both one_draining 0 0 eq_refl
    ltac:(vm_compute; split; discriminate)).
Defined.
End witnesses.
