(* ===== verification/QueueOnLinux.v ===== *)
(** * Waitable queues on the descriptors of Linux
    ([waitable_queue.hpp] over [linux_event_fd.cc])

    [WaitableQueue] composes the queue with the interface [EventFd], and [EventFd] the
    interface with the system calls. Here the class runs over the system calls, next to
    other threads that use the same descriptor: the history of a run gives every call it
    made, with the answer and with the counter before and after it. The kernel keeps its
    promise in each call; between two of them the counter may become anything. *)
From S2P Require Import Prelude Posix UnixSocket EventFd WaitableQueue.

Open Scope list_scope.
Open Scope Z_scope.

(** ** Histories *)
Record entry : Type := mkEntry {
  en_call : syscall;
  en_answer : answer;
  en_before : Z;
  en_after : Z;
}.

Section linux.
Context (fd : Z).

Definition read_call : syscall := sys_read fd word_size.
Definition write_call : syscall := sys_write fd signal_bytes.

(** What the kernel does in one call: an interrupted one has no effect. *)
Inductive kernel_call : entry → Prop :=
  | call_interrupted call a c : interrupted a = true → kernel_call (mkEntry call a c c)
  | call_read c v c' : kernel_read c = Some (v, c') →
      kernel_call (mkEntry read_call (read_answer c) c c')
  | call_read_empty c : kernel_read c = None →
      kernel_call (mkEntry read_call (read_answer c) c c)
  | call_write c : kernel_call (mkEntry write_call (write_answer c) c (notified c)).

(** [h] is what the library did between [s] and [s']. *)
Record happened (h : list entry) (s s' : os) : Prop := {
  hp_calls : os_calls s' = os_calls s ++ (en_call <$> h);
  hp_answers : os_answers s = (en_answer <$> h) ++ os_answers s';
  hp_kernel : Forall kernel_call h;
}.

(** The calls that had an effect, or told something *)
Definition effective (h : list entry) : list entry :=
  filter (λ x, interrupted (en_answer x) = false) h.

Definition read_entry (c : Z) : entry := mkEntry read_call (read_answer c) c 0.
Definition write_entry (c : Z) : entry := mkEntry write_call (write_answer c) c (notified c).

(** ** One call that is retried *)
Lemma retry_loop_split fuel c s o s' :
  retry_loop fuel (invoke c) s = (o, s') → o ≠ Blocked →
  ∃ before a, o = Ret a ∧ Forall (λ a, interrupted a = true) before ∧ interrupted a = false ∧
    os_answers s = before ++ a :: os_answers s' ∧
    os_calls s' = os_calls s ++ replicate (S (length before)) c.
Proof.
  revert s. induction fuel as [|fuel IH]; intros s Hr Ho; [by injection Hr as <-|].
  cbn [retry_loop] in Hr. destruct (os_answers s) as [|a rest] eqn:Ha.
  { unfold invoke in Hr. rewrite run_bind_bind, run_bind_gets, Ha in Hr. by injection Hr as <-. }
  rewrite (run_bind _ _ _ _ _ (invoke_run c a rest s Ha)) in Hr.
  destruct (interrupted a) eqn:Hi.
  - destruct (IH _ Hr Ho) as (before & a' & -> & Hb & Ha' & Hans & Hcalls).
    exists (a :: before), a'. simpl in Hans, Hcalls. split_and!; [done|by constructor|done| |].
    + by rewrite Hans.
    + by rewrite Hcalls, <-app_assoc.
  - injection Hr as <- <-. exists [], a. by split_and!.
Qed.

Lemma happened_calls h s s' pre a c :
  happened h s s' → os_answers s = pre ++ a :: os_answers s' →
  os_calls s' = os_calls s ++ replicate (S (length pre)) c →
  Forall (λ a, interrupted a = true) pre → interrupted a = false →
  ∃ x, effective h = [x] ∧ kernel_call x ∧ en_call x = c ∧ en_answer x = a.
Proof.
  intros [Hc Ha Hk] Hans Hcalls Hpre Hna.
  rewrite Hans in Ha. rewrite Hcalls in Hc. apply app_inv_head in Hc.
  assert (pre ++ [a] = en_answer <$> h) as Hal.
  { apply (app_inv_tail (os_answers s')). by rewrite <-Ha, <-app_assoc. }
  assert (∃ h1 x, h = h1 ++ [x] ∧ pre = en_answer <$> h1 ∧ a = en_answer x) as (h1 & x & -> & -> & ->).
  { destruct h as [|x h1 _] using rev_ind; [by destruct pre|]. exists h1, x.
    rewrite fmap_app in Hal. by apply app_inj_tail in Hal as [-> ->]. }
  exists x. apply Forall_app in Hk as [_ [Hk _]%Forall_cons]. split_and!; try done.
  - unfold effective. rewrite filter_app, filter_cons_True by done.
    assert (filter (λ x, interrupted (en_answer x) = false) h1 = []) as ->; [|done].
    clear -Hpre. induction h1 as [|y h1 IH]; [done|]. apply Forall_cons in Hpre as [Hy Hpre].
    rewrite filter_cons_False by congruence. by apply IH.
  - rewrite fmap_app, replicate_S_end in Hc.
    by apply (app_inj_tail _ _ c (en_call x)) in Hc as [_ ->].
Qed.

(** ** The two operations of the interface *)
Definition linux_fd : LinuxEventFd := mkEvent fd true.

(** The call behind an operation, and what the operation makes of its answer *)
Lemma operation_split {A} c (k : answer → io A) s o s' h :
  (∀ a s, (k a s).2 = s) → (retry_call (invoke c) ≫= k) s = (o, s') → o ≠ Blocked → happened h s s' →
  ∃ x, effective h = [x] ∧ kernel_call x ∧ en_call x = c ∧ interrupted (en_answer x) = false ∧
    o = (k (en_answer x) s').1.
Proof.
  intros Hk Hr Ho Hh. rewrite bind_run in Hr. unfold bind_outcome in Hr.
  destruct (retry_call (invoke c) s) as [o1 s1] eqn:Hc. unfold retry_call in Hc.
  rewrite run_bind_gets in Hc.
  destruct o1 as [a|e| | |]; simpl in Hr; try (by injection Hr as <- _);
    destruct (retry_loop_split _ _ _ _ _ Hc) as (pre & a' & [= <-] & Hpre & Hna & Hans & Hcalls); try done.
  pose proof (Hk a s1) as Hs. rewrite Hr in Hs. simpl in Hs. subst s1.
  destruct (happened_calls h s s' pre a c Hh Hans Hcalls Hpre Hna) as (x & He & Hx & Hxc & <-).
  exists x. by rewrite Hr.
Qed.

Lemma read_entries x :
  kernel_call x → en_call x = read_call → interrupted (en_answer x) = false →
  x = read_entry (en_before x).
Proof.
  intros Hx. destruct Hx as [call a c Ha|c v c' Hr|c Hr|c]; simpl; intros Hc Hna; [congruence| | |done];
    unfold read_entry, kernel_read in *; simpl.
  - destruct (c =? 0); [done|]. by simplify_eq.
  - destruct (Z.eqb_spec c 0) as [Hz|]; [by rewrite Hz|done].
Qed.

Lemma write_entries x :
  kernel_call x → en_call x = write_call → interrupted (en_answer x) = false →
  x = write_entry (en_before x).
Proof.
  intros Hx. destruct Hx as [call a c Ha|c v c' Hr|c Hr|c]; simpl; intros Hc Hna; [congruence|done..].
Qed.

Lemma read_on_linux s o s' h :
  linux_read_notification linux_fd s = (o, s') → o ≠ Blocked → happened h s s' →
  ∃ c, effective h = [read_entry c] ∧ o = outcome_of (@read_notification Z kernel_event_fd c).
Proof.
  unfold linux_read_notification. simpl. rewrite run_bind_ret. intros Hr Ho Hh.
  destruct (λ Hk, operation_split _ _ _ _ _ _ Hk Hr Ho Hh) as (x & He & Hx & Hc & Hna & Hout);
    [intros a s0; by repeat case_match|].
  pose proof (read_entries x Hx Hc Hna) as Hxe. exists (en_before x). split; [by rewrite He, <-Hxe|].
  rewrite Hout, Hxe. simpl. unfold read_answer, outcome_of. simpl.
  unfold kernel_read. by destruct (_ =? 0).
Qed.

Lemma write_on_linux s o s' h :
  linux_write_notification linux_fd s = (o, s') → o ≠ Blocked → happened h s s' →
  ∃ c, effective h = [write_entry c] ∧ o = outcome_of (@write_notification Z kernel_event_fd c).
Proof.
  unfold linux_write_notification. simpl. rewrite run_bind_ret. intros Hr Ho Hh.
  destruct (λ Hk, operation_split _ _ _ _ _ _ Hk Hr Ho Hh) as (x & He & Hx & Hc & Hna & Hout);
    [intros a s0; by repeat case_match|].
  pose proof (write_entries x Hx Hc Hna) as Hxe. exists (en_before x). split; [by rewrite He, <-Hxe|].
  rewrite Hout, Hxe. simpl. unfold write_answer, outcome_of. simpl.
  unfold kernel_write. by destruct (_ <? eventfd_max).
Qed.

(** ** Splitting a history *)
Definition extends (s s' : os) : Prop :=
  ∃ l : list (syscall * answer), os_calls s' = os_calls s ++ l.*1 ∧
    os_answers s = l.*2 ++ os_answers s'.

#[local] Instance extends_preorder : PreOrder extends.
Proof.
  split.
  - intros s. exists []. by rewrite app_nil_r.
  - intros s1 s2 s3 (l1 & Hc1 & Ha1) (l2 & Hc2 & Ha2). exists (l1 ++ l2).
    by rewrite Hc2, Hc1, Ha1, Ha2, !fmap_app, <-!app_assoc.
Qed.

Lemma extends_invoke c : keeps extends (invoke c).
Proof.
  intros s. unfold invoke. rewrite run_bind_gets. destruct (os_answers s) as [|a rest] eqn:Ha.
  - exists []. simpl. by rewrite Ha, app_nil_r.
  - exists [(c, a)]. simpl. by rewrite Ha.
Qed.

Lemma extends_retry c : keeps extends (retry_call (invoke c)).
Proof.
  intros s. unfold retry_call. rewrite run_bind_gets. generalize (S (length (os_answers s))).
  intros fuel. revert s. induction fuel as [|fuel IH]; [by intros s|]. cbn [retry_loop].
  apply keeps_bind; [apply _|apply extends_invoke|]. intros a.
  destruct (interrupted a); [exact IH|apply keeps_ret; apply _].
Qed.

Lemma extends_read : keeps extends (linux_read_notification linux_fd).
Proof. unfold linux_read_notification. simpl. keeps_auto. apply extends_retry. Qed.
Lemma extends_write : keeps extends (linux_write_notification linux_fd).
Proof. unfold linux_write_notification. simpl. keeps_auto. apply extends_retry. Qed.

Lemma happened_split h s s1 s' :
  extends s s1 → extends s1 s' → happened h s s' →
  ∃ h1 h2, h = h1 ++ h2 ∧ happened h1 s s1 ∧ happened h2 s1 s'.
Proof.
  intros (l1 & Hc1 & Ha1) (l2 & Hc2 & Ha2) [Hc Ha Hk].
  rewrite Hc2, Hc1, <-app_assoc in Hc. apply app_inv_head in Hc.
  assert (l1.*2 ++ l2.*2 = en_answer <$> h) as Ha'.
  { apply (app_inv_tail (os_answers s')). by rewrite <-app_assoc, <-Ha2, <-Ha1. }
  assert (length l1 ≤ length h)%nat as Hl.
  { apply (f_equal length) in Hc. rewrite length_app, !length_fmap in Hc. lia. }
  assert (∃ h1 h2, h = h1 ++ h2 ∧ length h1 = length l1) as (h1 & h2 & -> & Hl1).
  { exists (take (length l1) h), (drop (length l1) h). rewrite take_drop, length_take. split; [done|lia]. }
  rewrite fmap_app in Hc. rewrite fmap_app in Ha'. apply Forall_app in Hk as [Hk1 Hk2].
  apply app_inj_1 in Hc as [Hc1' Hc2'], Ha' as [Ha1' Ha2']; [|by rewrite !length_fmap..].
  exists h1, h2. split; [done|]. split; split; try done; congruence.
Qed.

(** ** The class over the system calls *)
Section queue.
Context {Q T : Type} (q_enqueue : T → M Q v2_exn bool).

#[local] Instance linux : EventFd os := linux_event_fd linux_fd.

(** What a run on the object does to the operating system *)
Definition on_system (w w' : WaitableQueue Q os) : Prop :=
  match notification_fd w, notification_fd w' with
  | Some s, Some s' => extends s s'
  | None, None => True
  | _, _ => False
  end.

#[local] Instance on_system_preorder : PreOrder on_system.
Proof.
  split.
  - intros [q [s|]]; [|done]. unfold on_system. simpl. reflexivity.
  - intros [q1 [s1|]] [q2 [s2|]] [q3 [s3|]]; unfold on_system; simpl; try done. apply transitivity.
Qed.

Lemma on_event_system {A} (m : io A) : keeps extends m → keeps on_system (on_event (Q := Q) m).
Proof.
  intros Hm [q [s|]]; unfold on_event, on_system; simpl; [|done]. specialize (Hm s).
  by destruct (m s) as [o s'].
Qed.

Lemma notify_system fuel : keeps on_system (notify (Q := Q) fuel).
Proof.
  induction fuel as [|fuel IH]; [intros w; reflexivity|]. cbn [notify].
  keeps_auto; try exact IH. apply on_event_system, extends_write.
Qed.

Lemma drain_system fuel total : keeps on_system (drain_loop (Q := Q) fuel total).
Proof.
  revert total. induction fuel as [|fuel IH]; intros total; [intros w; reflexivity|]. cbn [drain_loop].
  keeps_auto; try apply IH. apply on_event_system, extends_read.
Qed.

(** *** One notification, and draining *)
Lemma write_outcomes c :
  outcome_of (@write_notification Z kernel_event_fd c) = Ret tt ∨
  outcome_of (@write_notification Z kernel_event_fd c) = Throw (system_error EAGAIN "write eventfd").
Proof. unfold outcome_of. simpl. destruct (kernel_write c); [by left|by right]. Qed.

Lemma notify_on_linux fuel q s o q' s' h :
  notify (Q := Q) (S fuel) (mkQueue q (Some s)) = (o, mkQueue q' (Some s')) → o ≠ Blocked →
  happened h s s' → q' = q ∧ o = Ret tt ∧ ∃ c, effective h = [write_entry c].
Proof.
  intros Hr Ho Hh. cbn [notify] in Hr. rewrite bind_run in Hr. unfold try_catch in Hr.
  rewrite bind_run in Hr. unfold on_event in Hr. simpl in Hr.
  destruct (linux_write_notification linux_fd s) as [o1 s1] eqn:Hw.
  assert (∀ h1, o1 ≠ Blocked → happened h1 s s1 →
    o1 = Ret tt ∨ o1 = Throw (system_error EAGAIN "write eventfd")) as Hout.
  { intros h1 Hne Hh1. destruct (write_on_linux s o1 s1 h1 Hw Hne Hh1) as (c & _ & ->).
    apply write_outcomes. }
  assert (∀ o2 q2, (o2, mkQueue q2 (Some s1)) = (o, mkQueue q' (Some s')) → o1 ≠ Blocked →
    ∃ c, q' = q2 ∧ o = o2 ∧ effective h = [write_entry c] ∧
      (o1 = Ret tt ∨ o1 = Throw (system_error EAGAIN "write eventfd"))) as Hend.
  { intros o2 q2 [= -> -> ->] Hne. destruct (write_on_linux s o1 s' h Hw Hne Hh) as (c & He & ->).
    exists c. split_and!; try done. apply write_outcomes. }
  destruct o1 as [[]|e| | |]; simpl in Hr.
  - destruct (Hend _ _ Hr) as (c & -> & -> & He & _); [done|]. eauto.
  - destruct e as [code what|what|what|what]; simpl in Hr;
      try (destruct (Hend _ _ Hr) as (c & _ & _ & _ & [?|?]); done).
    destruct (Z.eqb_spec code EINTR) as [->|_]; simpl in Hr.
    + pose proof (keeps_run _ _ _ _ _ (notify_system fuel) Hr) as Hs. unfold on_system in Hs. simpl in Hs.
      destruct (happened_split h s s1 s' (keeps_run _ _ _ _ _ extends_write Hw) Hs Hh)
        as (h1 & h2 & -> & Hh1 & _). by destruct (Hout h1 ltac:(done) Hh1).
    + destruct (Z.eqb_spec code EAGAIN) as [->|Hne]; simpl in Hr;
        destruct (Hend _ _ Hr) as (c & -> & -> & He & Hx); try done; [eauto|].
      exfalso. destruct Hx as [|[= -> _]]; done.
  - by destruct (Hend _ _ Hr) as (c & _ & _ & _ & [?|?]).
  - injection Hr as <- _ _. done.
  - by destruct (Hend _ _ Hr) as (c & _ & _ & _ & [?|?]).
Qed.

Lemma effective_app h1 h2 : effective (h1 ++ h2) = effective h1 ++ effective h2.
Proof. apply filter_app. Qed.

Lemma read_outcomes c :
  outcome_of (@read_notification Z kernel_event_fd c) =
  if c =? 0 then Throw (system_error EAGAIN "read eventfd") else Ret c.
Proof. unfold outcome_of. simpl. unfold kernel_read. by destruct (c =? 0). Qed.

Lemma drain_on_linux fuel total q s o q' s' h :
  drain_loop (Q := Q) fuel total (mkQueue q (Some s)) = (o, mkQueue q' (Some s')) → o ≠ Blocked →
  happened h s s' →
  q' = q ∧ ∃ vs, Forall (λ v, v ≠ 0) vs ∧ effective h = (read_entry <$> vs) ++ [read_entry 0] ∧
    o = Ret (foldl (λ t v, u64 (t + v)) total vs).
Proof.
  revert total s h. induction fuel as [|fuel IH]; intros total s h Hr Ho Hh; [by injection Hr as <-|].
  cbn [drain_loop] in Hr. rewrite bind_run in Hr. unfold try_catch in Hr.
  rewrite bind_run in Hr. unfold on_event in Hr. simpl in Hr.
  destruct (linux_read_notification linux_fd s) as [o1 s1] eqn:Hw.
  assert (∀ h1, o1 ≠ Blocked → happened h1 s s1 → ∃ c, effective h1 = [read_entry c] ∧
    o1 = if c =? 0 then Throw (system_error EAGAIN "read eventfd") else Ret c) as Hout.
  { intros h1 Hne Hh1. destruct (read_on_linux s o1 s1 h1 Hw Hne Hh1) as (c & He & ->).
    exists c. by rewrite read_outcomes. }
  assert (∀ total', drain_loop (Q := Q) fuel total' (mkQueue q (Some s1)) = (o, mkQueue q' (Some s')) →
    ∃ h1 h2, h = h1 ++ h2 ∧ happened h1 s s1 ∧ happened h2 s1 s') as Hmore.
  { intros total' Hr'. pose proof (keeps_run _ _ _ _ _ (drain_system fuel total') Hr') as Hs.
    by apply (happened_split h s s1 s' (keeps_run _ _ _ _ _ extends_read Hw)). }
  destruct o1 as [v|[code what|what|what|what]| | |]; simpl in Hr;
    [| |injection Hr as <- <- <-; destruct (Hout h ltac:(done) Hh) as (c & _ & Hx);
        by destruct (c =? 0)..|by injection Hr as <-|
     injection Hr as <- <- <-; destruct (Hout h ltac:(done) Hh) as (c & _ & Hx); by destruct (c =? 0)].
  - destruct (Hmore _ Hr) as (h1 & h2 & -> & Hh1 & Hh2).
    destruct (Hout h1 ltac:(done) Hh1) as (c & He & Hx).
    destruct (Z.eqb_spec c 0) as [|Hc]; [done|]. injection Hx as ->.
    destruct (IH _ _ _ Hr Ho Hh2) as (-> & vs & Hvs & Hev & ->). split; [done|].
    exists (c :: vs). split_and!; [by constructor|by rewrite effective_app, He, Hev|done].
  - destruct (Z.eqb_spec code EINTR) as [->|_]; simpl in Hr.
    + destruct (Hmore _ Hr) as (h1 & h2 & -> & Hh1 & _).
      destruct (Hout h1 ltac:(done) Hh1) as (c & _ & Hx). by destruct (c =? 0).
    + destruct (Z.eqb_spec code EAGAIN) as [->|Hne]; simpl in Hr; injection Hr as <- <- <-;
        destruct (Hout h ltac:(done) Hh) as (c & He & Hx); destruct (Z.eqb_spec c 0) as [->|];
        simplify_eq. split; [done|]. exists []. by split_and!.
Qed.

(** The loop over the elements only uses the queue. *)
Fixpoint store_all (values : list T) : M Q v2_exn Z :=
  match values with
  | [] => mret 0
  | value :: values' =>
      ok ← q_enqueue value;
      if negb ok then mret 0 else n ← store_all values'; mret (u64 (n + 1))
  end.

Lemma enqueue_loop_stores values q e :
  enqueue_loop (S := os) q_enqueue values (mkQueue q e) =
    ((store_all values q).1, mkQueue (store_all values q).2 e).
Proof.
  revert q. induction values as [|x values IH]; intros q; [done|]. cbn [enqueue_loop store_all].
  rewrite !bind_run. unfold on_queue, bind_outcome. simpl.
  destruct (q_enqueue x q) as [[[]| | | |] q1]; simpl; try done.
  change ((mkQueue q e) <| queue_storage := q1 |>) with (mkQueue q1 e).
  rewrite !bind_run, IH. unfold bind_outcome. by destruct (store_all values q1) as [[]].
Qed.

(** *** The operations return *)
Lemma read_returns before c rest s :
  os_answers s = before ++ read_answer c :: rest → Forall (λ a, interrupted a = true) before →
  ∃ s', linux_read_notification linux_fd s =
      (outcome_of (@read_notification Z kernel_event_fd c), s') ∧ os_answers s' = rest.
Proof.
  intros Ha Hb. eexists. split; [apply (proj1 (linux_event_fd_refines fd c s before rest Hb) Ha)|done].
Qed.

Lemma write_returns before c rest s :
  os_answers s = before ++ write_answer c :: rest → Forall (λ a, interrupted a = true) before →
  ∃ s', linux_write_notification linux_fd s =
      (outcome_of (@write_notification Z kernel_event_fd c), s') ∧ os_answers s' = rest.
Proof.
  intros Ha Hb. eexists. split; [apply (proj2 (linux_event_fd_refines fd c s before rest Hb) Ha)|done].
Qed.

Lemma notify_returns fuel before c rest q s :
  os_answers s = before ++ write_answer c :: rest → Forall (λ a, interrupted a = true) before →
  ∃ s', notify (Q := Q) (S fuel) (mkQueue q (Some s)) = (Ret tt, mkQueue q (Some s')) ∧ os_answers s' = rest.
Proof.
  intros Ha Hb. destruct (write_returns before c rest s Ha Hb) as (s' & Hw & Hr). exists s'. split; [|done].
  cbn [notify]. rewrite bind_run. unfold try_catch. rewrite bind_run. unfold on_event. simpl.
  rewrite Hw. by destruct (write_outcomes c) as [-> | ->].
Qed.

(** [reads] are the reads of a counter that is not zero, each with its interruptions. *)
Definition read_answers (reads : list (list answer * Z)) : list answer :=
  reads ≫= λ r, r.1 ++ [read_answer r.2].

Lemma drain_returns fuel total reads before rest q s :
  os_answers s = read_answers reads ++ before ++ read_answer 0 :: rest →
  Forall (λ r, Forall (λ a, interrupted a = true) r.1 ∧ r.2 ≠ 0) reads →
  Forall (λ a, interrupted a = true) before → (length reads < fuel)%nat →
  ∃ s', drain_loop (Q := Q) fuel total (mkQueue q (Some s)) =
      (Ret (foldl (λ t v, u64 (t + v)) total reads.*2), mkQueue q (Some s')) ∧ os_answers s' = rest.
Proof.
  intros Ha Hr Hb Hf. revert total s fuel Ha Hf.
  induction Hr as [|[b c] reads [Hbi Hc] Hr IH]; [|simpl in Hbi, Hc]; intros total s fuel Ha Hf;
    (destruct fuel as [|fuel]; [simpl in Hf; lia|]); cbn [drain_loop]; simpl in Ha.
  - destruct (read_returns before 0 rest s Ha Hb) as (s' & Hrd & Hrest).
    exists s'. split; [|done]. rewrite bind_run. unfold try_catch. rewrite bind_run. unfold on_event. simpl.
    by rewrite Hrd.
  - rewrite <-!app_assoc in Ha. simpl in Ha.
    destruct (read_returns b c _ s Ha Hbi) as (s1 & Hrd & Hrest).
    destruct (IH (u64 (total + c)) s1 fuel Hrest ltac:(simpl in Hf; lia)) as (s' & Hd & Hrest').
    exists s'. split; [|done]. rewrite bind_run. unfold try_catch. rewrite bind_run. unfold on_event. simpl.
    rewrite Hrd, read_outcomes, (proj2 (Z.eqb_neq _ _) Hc). simpl. exact Hd.
Qed.

(** C33. A waitable queue on a Linux descriptor that other threads use as well. Whenever
    [enqueue_batch] ends, it has stored what the queue accepted before it first refused,
    and of its system calls exactly one write had an effect if it stored anything, none
    otherwise, whatever the counter was and however often it was interrupted; it throws
    nothing, a saturated counter included. It ends when the kernel answers the write. If
    the queue throws, the exception is passed on, what was stored before stays, and there
    is no system call at all. *)
Theorem enqueue_batch_on_linux fuel values q s :
  let '(r, q1) := store_all values q in
  match r with
  | Ret n =>
      (∀ o q' s' h,
         enqueue_batch q_enqueue (S fuel) values (mkQueue q (Some s)) = (o, mkQueue q' (Some s')) →
         o ≠ Blocked → happened h s s' →
         o = Ret n ∧ q' = q1 ∧
         if n =? 0 then effective h = [] else ∃ c, effective h = [write_entry c]) ∧
      (∀ before c rest,
         os_answers s = before ++ write_answer c :: rest → Forall (λ a, interrupted a = true) before →
         ∃ s', enqueue_batch q_enqueue (S fuel) values (mkQueue q (Some s)) =
           (Ret n, mkQueue q1 (Some s')))
  | _ => enqueue_batch q_enqueue (S fuel) values (mkQueue q (Some s)) = (r, mkQueue q1 (Some s))
  end.
Proof.
  pose proof (enqueue_loop_stores values q (Some s)) as Hloop. unfold enqueue_batch.
  destruct (store_all values q) as [[n|e| | |] q1] eqn:Hst; simpl in Hloop;
    try (setoid_rewrite (bind_run (enqueue_loop q_enqueue values)); by rewrite Hloop).
  assert (enqueue_batch q_enqueue (S fuel) values (mkQueue q (Some s)) =
    (when (negb (n =? 0)) (notify (Q := Q) (S fuel));; mret n) (mkQueue q1 (Some s))) as Heq
    by exact (run_bind _ _ _ _ _ Hloop).
  unfold enqueue_batch in Heq. rewrite Heq. split.
  - intros o q' s' h Hr Ho Hh. destruct (n =? 0); cbn [when negb] in Hr.
    + injection Hr as <- <- <-. split_and!; try done. destruct Hh as [Hc _ _].
      rewrite <-(app_nil_r (os_calls s)) in Hc at 1. apply app_inv_head in Hc. by destruct h.
    + rewrite bind_run in Hr.
      destruct (notify (Q := Q) (S fuel) (mkQueue q1 (Some s))) as [o1 w1] eqn:Hn.
      assert (w1 = mkQueue q' (Some s') ∧ o1 ≠ Blocked) as [-> Hne].
      { destruct o1; injection Hr as <- <-; split; congruence. }
      destruct (notify_on_linux fuel q1 s o1 q' s' h Hn Hne Hh) as (-> & -> & Hev).
      injection Hr as <-. by split_and!.
  - intros before c rest Ha Hb. destruct (n =? 0); simpl; [by exists s|].
    destruct (notify_returns fuel before c rest q1 s Ha Hb) as (s' & Hn & _). exists s'.
    by setoid_rewrite (run_bind _ _ _ _ _ Hn).
Qed.

(** C34. Draining a Linux descriptor that other threads write to meanwhile. When
    [drain_notifications] ends, its last effective system call found the counter at zero,
    every one before it read a counter that was not zero and cleared it, and the result is
    the sum of what was read; the queue is as it was. It ends when the kernel says once
    that the counter is zero, after fewer reads than [fuel]. *)
Theorem drain_on_linux_spec fuel q s :
  (∀ o q' s' h,
     drain_notifications (Q := Q) fuel (mkQueue q (Some s)) = (o, mkQueue q' (Some s')) →
     o ≠ Blocked → happened h s s' →
     q' = q ∧ ∃ vs, Forall (λ v, v ≠ 0) vs ∧ effective h = (read_entry <$> vs) ++ [read_entry 0] ∧
       o = Ret (foldl (λ t v, u64 (t + v)) 0 vs)) ∧
  (∀ reads before rest,
     os_answers s = read_answers reads ++ before ++ read_answer 0 :: rest →
     Forall (λ r, Forall (λ a, interrupted a = true) r.1 ∧ r.2 ≠ 0) reads →
     Forall (λ a, interrupted a = true) before → (length reads < fuel)%nat →
     ∃ s', drain_notifications (Q := Q) fuel (mkQueue q (Some s)) =
       (Ret (foldl (λ t v, u64 (t + v)) 0 reads.*2), mkQueue q (Some s'))).
Proof.
  split.
  - intros o q' s' h. apply drain_on_linux.
  - intros reads before rest Ha Hr Hb Hf.
    destruct (drain_returns fuel 0 reads before rest q s Ha Hr Hb Hf) as (s' & Hd & _). by exists s'.
Qed.
End queue.
End linux.

(** ** Witnesses *)
Section witnesses.
Definition room_for_one (q : list nat) : bool := (length q <? 1)%nat.

(** The write is interrupted once; the queue takes the first value only. *)
Definition signalled : os := mkOs [intr; write_answer 3] [] ∅.
Definition signal_history : list entry := [mkEntry (write_call 5) intr 3 3; write_entry 5 3].

Lemma signal_happened : happened 5 signal_history signalled
  (mkOs [] [write_call 5; write_call 5] ∅).
Proof. split; [done|done|]. repeat constructor. Qed.

Lemma enqueue_batch_on_linux_witness :
  (∃ c, effective signal_history = [write_entry 5 c]) ∧
  ∃ s', enqueue_batch (EventFd0 := linux_event_fd (linux_fd 5)) (fifo_enqueue room_for_one) 1 [8; 9]%nat
    (mkQueue [] (Some signalled)) = (Ret 1, mkQueue [8%nat] (Some s')).
Proof.
  split.
  - exact (proj2 (proj2 (proj1 (enqueue_batch_on_linux 5 (fifo_enqueue room_for_one) 0 [8; 9]%nat [] signalled)
      (Ret 1) [8%nat] _ signal_history eq_refl ltac:(discriminate) signal_happened))).
  - exact (proj2 (enqueue_batch_on_linux 5 (fifo_enqueue room_for_one) 0 [8; 9]%nat [] signalled)
      [intr] 3 [] eq_refl ltac:(repeat constructor)).
Defined.

(** Another thread writes between the two reads that find something. *)
Definition drained : os := mkOs [read_answer 3; intr; read_answer 1; read_answer 0] [] ∅.
Definition drain_history : list entry :=
  [read_entry 5 3; mkEntry (read_call 5) intr 1 1; read_entry 5 1; read_entry 5 0].

Lemma drain_happened : happened 5 drain_history drained
  (mkOs [] (replicate 4 (read_call 5)) ∅).
Proof.
  split; [done|done|]. repeat apply Forall_cons_2; [..|constructor];
    [by eapply call_read|by apply call_interrupted|by eapply call_read|by apply call_read_empty].
Qed.

Lemma drain_on_linux_spec_witness :
  (∃ vs, Forall (λ v, v ≠ 0) vs ∧ effective drain_history = (read_entry 5 <$> vs) ++ [read_entry 5 0] ∧
    (Ret 4 : outcome v2_exn Z) = Ret (foldl (λ t v, u64 (t + v)) 0 vs)) ∧
  ∃ s', drain_notifications (EventFd0 := linux_event_fd (linux_fd 5)) 3
    (mkQueue ([] : list nat) (Some drained)) = (Ret 4, mkQueue [] (Some s')).
Proof.
  split.
  - exact (proj2 (proj1 (drain_on_linux_spec 5 3 ([] : list nat) drained)
      (Ret 4) [] _ drain_history eq_refl ltac:(discriminate) drain_happened)).
  - exact (proj2 (drain_on_linux_spec 5 3 ([] : list nat) drained) [([], 3); ([intr], 1)] [] []
      eq_refl ltac:(repeat constructor; discriminate) ltac:(constructor) ltac:(vm_compute; lia)).
Defined.
End witnesses.
