(* ===== verification/Ownership.v ===== *)
(** * Who owns a descriptor ([v2/socket/*.cc], [v2/linux_event_fd.cc] together)

    A client program keeps the objects of the library in variables and may also hold bare
    descriptors: those it had before and those it has released. It constructs, moves,
    assigns, closes and destroys the objects in any order, and goes on after an exception.
    The theorem accounts for every open descriptor at every moment of every such program. *)
From S2P Require Import Prelude Posix UnixSocket EventFd.

Open Scope string_scope.
Open Scope list_scope.
Open Scope Z_scope.

(** ** Objects in variables *)
Inductive object : Type :=
  | ODescriptor (o : OwnedFileDescriptor)
  | OSocket (o : UnixSocket)
  | OListener (o : UnixSocketListener)
  | OEvent (o : LinuxEventFd).

Definition object_fd (ob : object) : Z :=
  match ob with
  | ODescriptor o => native_handle o
  | OSocket o => socket_native_handle o
  | OListener o => listener_native_handle o
  | OEvent o => event_native_handle o
  end.

Definition object_posix (ob : object) : bool :=
  match ob with
  | ODescriptor o => posix_pointer o
  | OSocket o => posix_pointer (socket_descriptor o)
  | OListener o => posix_pointer (listener_descriptor o)
  | OEvent o => event_posix o
  end.

Inductive kind : Type := KDescriptor | KSocket | KListener | KEvent.

#[export] Instance kind_eq_dec : EqDecision kind.
Proof. solve_decision. Defined.

Definition object_kind (ob : object) : kind :=
  match ob with
  | ODescriptor _ => KDescriptor | OSocket _ => KSocket
  | OListener _ => KListener | OEvent _ => KEvent
  end.

(** The operations that every class has, or all but one *)
Definition object_close (ob : object) : io object :=
  match ob with
  | ODescriptor o => o' ← close o; mret (ODescriptor o')
  | OSocket o => o' ← socket_close o; mret (OSocket o')
  | OListener o => o' ← listener_close o; mret (OListener o')
  | OEvent _ => undef
  end.

Definition object_destroy (ob : object) : io unit :=
  match ob with
  | ODescriptor o => destroy o
  | OSocket o => socket_destroy o
  | OListener o => listener_destroy o
  | OEvent o => event_destroy o
  end.

(** What a move leaves *)
Definition object_moved (k : kind) : object :=
  match k with
  | KDescriptor => ODescriptor moved_descriptor
  | KSocket => OSocket (mkSocket moved_descriptor)
  | KListener => OListener moved_listener
  | KEvent => OEvent moved_event
  end.

Definition object_assign (this other : object) : io (object * object) :=
  match this, other with
  | ODescriptor o1, ODescriptor o2 =>
      '(o, rest) ← move_assign o1 o2; mret (ODescriptor o, ODescriptor rest)
  | OSocket o1, OSocket o2 =>
      '(o, rest) ← socket_move_assign o1 o2; mret (OSocket o, OSocket rest)
  | OListener o1, OListener o2 =>
      '(o, rest) ← listener_move_assign o1 o2; mret (OListener o, OListener rest)
  | OEvent o1, OEvent o2 =>
      '(o, rest) ← event_move_assign o1 o2; mret (OEvent o, OEvent rest)
  | _, _ => undef
  end.

(** ** The client *)
Record world : Type := mkWorld {
  w_os : os;
  w_vars : gmap string object;
  w_client : gset Z;
}.

#[export] Instance world_rebuild : Rebuild world :=
  λ w, mkWorld (w_os w) (w_vars w) (w_client w).

Abbreviation client A := (M world v2_exn A).

Definition sys {A} (m : io A) : client A := λ w,
  let '(o, s) := m (w_os w) in (o, w <| w_os := s |>).
Definition var (x : string) : client object := ob ← gets (λ w, w_vars w !! x); access ob.
Definition set_var (x : string) (ob : object) : client unit :=
  modify (λ w, w <| w_vars := <[x := ob]> (w_vars w) |>).

Inductive client_op : Type :=
  | op_adopt (x : string) (fd : Z)
  | op_connect (x path : string)
  | op_bind (x path : string) (backlog : Z)
  | op_event (x : string)
  | op_accept (x l : string) (flags : Z)
  | op_adopt_socket (x y : string)
  | op_release (x y : string)
  | op_release_raw (x : string)
  | op_move (x y : string)
  | op_assign (x y : string)
  | op_close (x : string)
  | op_destroy (x : string)
  | op_shutdown (x : string) (how : Z)
  | op_read (x : string) (buffers : list Z)
  | op_write (x : string) (buffers : list (list Z))
  | op_read_notification (x : string)
  | op_write_notification (x : string).

Definition perform (op : client_op) : client unit :=
  match op with
  | op_adopt x fd =>
      o ← sys (adopt_native_handle fd true);
      modify (λ w, w <| w_client := w_client w ∖ {[fd]} |>);; set_var x (ODescriptor o)
  | op_connect x path => o ← sys (connect path); set_var x (OSocket o)
  | op_bind x path backlog => o ← sys (listener_bind path backlog); set_var x (OListener o)
  | op_event x => o ← sys make_linux_event_fd; set_var x (OEvent o)
  | op_accept x l flags =>
      ob ← var l;
      match ob with
      | OListener listener => o ← sys (accept listener flags); set_var x (OSocket o)
      | _ => undef
      end
  | op_adopt_socket x y =>
      ob ← var y;
      match ob with
      | ODescriptor owned =>
          set_var y (object_moved KDescriptor);;
          o ← sys (adopt_socket owned); set_var x (OSocket o)
      | _ => undef
      end
  | op_release x y =>
      ob ← var y;
      match ob with
      | OSocket o =>
          '(released, o') ← sys (socket_release o);
          set_var y (OSocket o');; set_var x (ODescriptor released)
      | OListener o =>
          '(released, o') ← sys (listener_release o);
          set_var y (OListener o');; set_var x (ODescriptor released)
      | _ => undef
      end
  | op_release_raw x =>
      ob ← var x;
      match ob with
      | ODescriptor o =>
          let '(fd, o') := release_native_handle o in
          set_var x (ODescriptor o');;
          when (negb (fd =? -1)) (modify (λ w, w <| w_client := {[fd]} ∪ w_client w |>))
      | _ => undef
      end
  | op_move x y => ob ← var y; set_var y (object_moved (object_kind ob));; set_var x ob
  | op_assign x y =>
      ob1 ← var x; ob2 ← var y;
      if bool_decide (x = y) then mret tt   (* [this != &other] *)
      else '(o, rest) ← sys (object_assign ob1 ob2); set_var y rest;; set_var x o
  | op_close x => ob ← var x; ob' ← sys (object_close ob); set_var x ob'
  | op_destroy x =>
      ob ← var x; sys (object_destroy ob);;
      modify (λ w, w <| w_vars := delete x (w_vars w) |>)
  | op_shutdown x how =>
      ob ← var x; match ob with OSocket o => sys (socket_shutdown o how) | _ => undef end
  | op_read x buffers =>
      ob ← var x;
      match ob with OSocket o => sys (read_some o buffers);; mret tt | _ => undef end
  | op_write x buffers =>
      ob ← var x;
      match ob with OSocket o => sys (write_some o buffers);; mret tt | _ => undef end
  | op_read_notification x =>
      ob ← var x;
      match ob with OEvent o => sys (linux_read_notification o);; mret tt | _ => undef end
  | op_write_notification x =>
      ob ← var x; match ob with OEvent o => sys (linux_write_notification o) | _ => undef end
  end.

(** What the language and the interface ask of the caller: a new variable is not in use, a
    variable has the type the operation is for, a bare descriptor that is adopted is the
    caller's, and an object that has been moved from is not asked to do input or output. *)
Definition fresh (w : world) (x : string) : Prop := w_vars w !! x = None.
Definition has_kind (w : world) (x : string) (P : object → Prop) : Prop :=
  ∃ ob, w_vars w !! x = Some ob ∧ P ob.

Definition valid_op (w : world) (op : client_op) : Prop :=
  match op with
  | op_adopt x fd => fresh w x ∧ (fd < 0 ∨ fd ∈ w_client w)
  | op_connect x _ | op_bind x _ _ | op_event x => fresh w x
  | op_accept x l _ =>
      fresh w x ∧ has_kind w l (λ ob, ∃ o, ob = OListener o ∧ listener_posix o = true)
  | op_adopt_socket x y => fresh w x ∧ has_kind w y (λ ob, object_kind ob = KDescriptor)
  | op_release x y =>
      fresh w x ∧ has_kind w y (λ ob, object_kind ob = KSocket ∨ object_kind ob = KListener)
  | op_release_raw x => has_kind w x (λ ob, object_kind ob = KDescriptor)
  | op_move x y => fresh w x ∧ has_kind w y (λ _, True)
  | op_assign x y =>
      has_kind w x (λ ob1, has_kind w y (λ ob2, object_kind ob1 = object_kind ob2))
  | op_close x => has_kind w x (λ ob, object_kind ob ≠ KEvent)
  | op_destroy x => has_kind w x (λ _, True)
  | op_shutdown x _ | op_read x _ | op_write x _ =>
      has_kind w x (λ ob, object_kind ob = KSocket ∧ object_posix ob = true)
  | op_read_notification x | op_write_notification x =>
      has_kind w x (λ ob, object_kind ob = KEvent ∧ object_posix ob = true)
  end.

(** One step of a client program, which survives an exception *)
Inductive client_step : world → world → Prop :=
  | client_step_op w op w' :
      valid_op w op →
      (perform op w = (Ret tt, w') ∨ ∃ e, perform op w = (Throw e, w')) →
      client_step w w'.

Definition client_start (s : os) : world := mkWorld s ∅ (os_open s).

(** ** The account *)
Definition held_fd (ob : object) : option Z :=
  if object_fd ob =? -1 then None else Some (object_fd ob).
Definition held (vars : gmap string object) : gmap string Z := omap held_fd vars.

Record accounted {K} `{Countable K} (fds : gmap K Z) (bare open : gset Z) : Prop := mkAccounted {
  acc_open f : f ∈ open ↔ f ∈ bare ∨ ∃ x, fds !! x = Some f;
  acc_bare x f : fds !! x = Some f → f ∉ bare;
  acc_once x y f : fds !! x = Some f → fds !! y = Some f → x = y;
}.

Section accounted.
Context {K} `{Countable K} (fds : gmap K Z) (bare open : gset Z) (Hacc : accounted fds bare open).

Lemma accounted_new x f :
  fds !! x = None → f ∉ open → accounted (<[x := f]> fds) bare ({[f]} ∪ open).
Proof using Hacc.
  destruct Hacc as [Ho Hb H1]. intros Hx Hf. rewrite Ho in Hf. split.
  - intros g. rewrite elem_of_union, elem_of_singleton, Ho. split.
    + intros [->|[Hg|[y Hy]]]; [right; exists x; apply lookup_insert_eq|by left|].
      right. exists y. rewrite lookup_insert_ne; [done|]. by intros ->; simplify_eq.
    + intros [Hg|[y Hy]]; [by right; left|]. apply lookup_insert_Some in Hy; naive_solver.
  - intros y g. rewrite lookup_insert_Some. naive_solver.
  - intros y z g. rewrite !lookup_insert_Some. naive_solver.
Qed.

Lemma accounted_close x f :
  fds !! x = Some f → accounted (delete x fds) bare (open ∖ {[f]}).
Proof using Hacc.
  destruct Hacc as [Ho Hb H1]. intros Hx. split.
  - intros g. rewrite elem_of_difference, elem_of_singleton, Ho. split.
    + intros [[Hg|[y Hy]] Hn]; [by left|]. right. exists y.
      rewrite lookup_delete_ne; [done|]. by intros ->; simplify_eq.
    + intros [Hg|[y Hy]]; [split; [by left|intros ->; by eapply Hb]|].
      apply lookup_delete_Some in Hy as [Hne Hy]. split; [naive_solver|].
      intros ->. by destruct Hne; eapply H1.
  - intros y g. rewrite lookup_delete_Some. naive_solver.
  - intros y z g. rewrite !lookup_delete_Some. naive_solver.
Qed.

Lemma accounted_move x y f :
  fds !! y = Some f → fds !! x = None → accounted (<[x := f]> (delete y fds)) bare open.
Proof using Hacc.
  destruct Hacc as [Ho Hb H1]. intros Hy Hx. split.
  - intros g. rewrite Ho. split; (intros [Hg|[z Hz]]; [by left|right]).
    + destruct (decide (z = y)) as [->|Hne]; [exists x; simplify_eq; apply lookup_insert_eq|].
      exists z. rewrite lookup_insert_ne by (by intros ->; simplify_eq).
      by rewrite lookup_delete_ne.
    + rewrite lookup_insert_Some, lookup_delete_Some in Hz. naive_solver.
  - intros z g. rewrite lookup_insert_Some, lookup_delete_Some. naive_solver.
  - intros z z' g. rewrite !lookup_insert_Some, !lookup_delete_Some. naive_solver.
Qed.

Lemma accounted_adopt x f :
  fds !! x = None → f ∈ bare → accounted (<[x := f]> fds) (bare ∖ {[f]}) open.
Proof using Hacc.
  destruct Hacc as [Ho Hb H1]. intros Hx Hf. split.
  - intros g. rewrite Ho, elem_of_difference, elem_of_singleton. split.
    + intros [Hg|[y Hy]].
      * destruct (decide (g = f)) as [->|]; [|by left]. right. exists x. apply lookup_insert_eq.
      * right. exists y. rewrite lookup_insert_ne; [done|]. by intros ->; simplify_eq.
    + intros [[Hg _]|[y Hy]]; [by left|]. rewrite lookup_insert_Some in Hy. naive_solver.
  - intros y g. rewrite lookup_insert_Some, elem_of_difference, elem_of_singleton. naive_solver.
  - intros y z g. rewrite !lookup_insert_Some. naive_solver.
Qed.

Lemma accounted_release x f :
  fds !! x = Some f → accounted (delete x fds) ({[f]} ∪ bare) open.
Proof using Hacc.
  destruct Hacc as [Ho Hb H1]. intros Hx. split.
  - intros g. rewrite Ho, elem_of_union, elem_of_singleton. split.
    + intros [Hg|[y Hy]]; [by left; right|].
      destruct (decide (y = x)) as [->|]; [left; left; naive_solver|].
      right. exists y. by rewrite lookup_delete_ne.
    + intros [[->|Hg]|[y Hy]]; [right; by exists x|by left|].
      rewrite lookup_delete_Some in Hy. naive_solver.
  - intros y g. rewrite lookup_delete_Some, elem_of_union, elem_of_singleton.
    intros [Hne Hy] [->|]; [by destruct Hne; eapply H1|by eapply Hb].
  - intros y z g. rewrite !lookup_delete_Some. naive_solver.
Qed.
End accounted.

(** ** What each routine does to the descriptors *)
Definition dropped (f : Z) (F : gset Z) : gset Z := if f =? -1 then F else F ∖ {[f]}.

#[export] Instance settles_proper {A} (P : gset Z → A → gset Z → Prop) Q :
  Proper ((≡) ==> iff) (settles P Q).
Proof. intros m1 m2 Hm. split; intros H s; specialize (H s); [rewrite <-Hm|rewrite Hm]; done. Qed.

Lemma opens_after {A B} (fd : B → Z) (P : A → Prop) m (f : A → io B) :
  settled P m → (∀ a, P a → opens fd (f a)) → opens fd (m ≫= f).
Proof.
  intros Hm Hf s. specialize (Hm s). rewrite bind_run. unfold bind_outcome.
  destruct (m s) as [[a|e| | |] s1]; simpl in *; try done.
  destruct Hm as [Ha Hs]. specialize (Hf a Ha s1). rewrite Hs in Hf.
  by destruct (f a s1) as [[b|e| | |] s2].
Qed.

Lemma quiet_facade P : P tt → settled P (facade true).
Proof. apply settled_ret. Qed.
Lemma quiet_check_result a what : settled (λ n, n = a_result a) (check_result a what).
Proof. intros s. rewrite check_result_run. by destruct (a_result a =? -1). Qed.
Lemma quiet_make_iovecs {Buffer} (size : Buffer → Z) n buffers :
  settled (λ _, True) (make_iovecs_loop size n buffers).
Proof.
  revert n. induction buffers as [|b buffers IH]; intros n; [by apply settled_ret|]. simpl.
  destruct (_ >? _); [apply quiet_throw|].
  apply (settled_bind _ _ _ _ (IH _)). intros ? _. by apply settled_ret.
Qed.

(** A call that makes a descriptor, its check, and an object around the result *)
Lemma opened_checked {A} a what (make : Z → io A) (fd : A → Z) :
  (∀ f s, 0 ≤ f → ∃ o, make f s = (Ret o, s) ∧ fd o = f) →
  opens fd (a ← opened a; f ← check_result a what; make f).
Proof.
  intros Hmake s. pose proof (opened_settles a s) as Ho. rewrite bind_run. unfold bind_outcome.
  destruct (opened a s) as [[b|e| | |] s1]; simpl in *; try done.
  destruct Ho as [-> Ho]. rewrite bind_check_result.
  destruct (Z.eqb_spec (a_result a) (-1)) as [Hm|Hm]; [naive_solver lia|].
  destruct Ho as [[? ?]|(Hp & Hn & Hs)]; [done|].
  destruct (Hmake _ s1 Hp) as (o & -> & ->). done.
Qed.

Lemma opens_equiv {A} (fd : A → Z) m1 m2 : m1 ≡ m2 → opens fd m2 → opens fd m1.
Proof. intros Hm. unfold opens. by rewrite Hm. Qed.

Lemma adopt_native_handle_run f s :
  0 ≤ f → ∃ o, adopt_native_handle f true s = (Ret o, s) ∧ o = mkOwned f true.
Proof. intros Hf. unfold adopt_native_handle. rewrite (proj2 (Z.ltb_ge _ _) Hf). eauto. Qed.

(** The descriptor that an object can use and close *)
Definition usable (o : OwnedFileDescriptor) : Z :=
  if posix_pointer o then file_descriptor o else -1.
Definition object_usable (ob : object) : Z :=
  match ob with
  | OListener o => if listener_posix o then usable (listener_descriptor o) else -1
  | _ => if object_posix ob then object_fd ob else -1
  end.

Lemma create_socket_opens : opens usable create_socket.
Proof.
  unfold create_socket, invoke_open. eapply opens_equiv; [apply bind_assoc|].
  apply (opens_after _ _ _ _ (quiet_invoke _)). intros a _.
  eapply opens_equiv; [|apply (opened_checked a "create Unix socket" (λ f, adopt_native_handle f true))].
  - f_equiv. intros b s. rewrite bind_check_result. by destruct (a_result b =? -1).
  - intros f s Hf. destruct (adopt_native_handle_run f s Hf) as (o & -> & ->). eauto.
Qed.

(** The destructor gives the descriptor back. *)
Lemma destroy_gives_back o s :
  0 ≤ usable o → usable o ∈ os_open s →
  ∃ s', destroy o s = (Ret tt, s') ∧ os_open s' = os_open s ∖ {[usable o]}.
Proof.
  destruct o as [fd [|]]; unfold usable; simpl; [|lia]. intros Hp Hin.
  rewrite destroy_run by done. eauto.
Qed.

Lemma make_socket_address_quiet path : settled (λ _, True) (make_socket_address path).
Proof. intros s. rewrite make_socket_address_run. by destruct (valid_path path). Qed.

Lemma connect_loop_quiet fuel fd path n : settled (λ _, True) (connect_loop fuel fd path n).
Proof.
  intros s. rewrite (connect_loop_retry fd path n fuel s).
  apply (settled_bind _ _ _ _ (quiet_retry_loop _ _)). intros a _.
  apply (settled_bind _ _ _ _ (quiet_check_result _ _)). intros. by apply settled_ret.
Qed.

Lemma connect_opens path : opens (λ o, object_usable (OSocket o)) (connect path).
Proof.
  apply (opens_after _ _ _ _ (make_socket_address_quiet path)). intros [address n] _.
  apply (opens_guarded usable _ _ _ destroy create_socket_opens); [|apply destroy_gives_back].
  intros o Ho s. rewrite run_bind_gets.
  apply (settled_bind _ _ _ _ (connect_loop_quiet _ _ _ _)). intros _ _. by apply settled_ret.
Qed.

Lemma unlink_socket_path_quiet path : settled (λ _, True) (unlink_socket_path path true).
Proof. intros s. unfold unlink_socket_path. by destruct (str_empty path). Qed.

Lemma quiet_on_throw {A} (P : A → Prop) cleanup m :
  settled (λ _, True) cleanup → settled P m → settled P (on_throw cleanup m).
Proof.
  intros Hc Hm s. specialize (Hm s). unfold on_throw, try_catch.
  destruct (m s) as [[a|e| | |] s1]; try done. rewrite bind_run. specialize (Hc s1).
  unfold bind_outcome. destruct (cleanup s1) as [[]]; simpl in *; naive_solver congruence.
Qed.

Lemma listener_bind_opens path backlog :
  opens (λ o, object_usable (OListener o)) (listener_bind path backlog).
Proof.
  apply (opens_after _ _ _ _ (make_socket_address_quiet path)). intros [address n] _.
  apply (opens_guarded usable _ _ _ destroy create_socket_opens); [|apply destroy_gives_back].
  intros o Ho. apply (settled_bind _ _ _ _ (quiet_invoke _)). intros a _.
  apply (settled_bind _ _ _ _ (quiet_check_result _ _)). intros _ _. apply quiet_on_throw.
  - apply (settled_bind _ _ _ _ (unlink_socket_path_quiet _)). intros _ _. by apply settled_ret.
  - apply (settled_bind _ _ _ _ (quiet_invoke _)). intros b _.
    apply (settled_bind _ _ _ _ (quiet_check_result _ _)). intros _ _. by apply settled_ret.
Qed.

Lemma check_unix_stream_socket_quiet fd :
  settled (λ _, True) (check_unix_stream_socket fd true).
Proof.
  apply (settled_bind (λ _, True)); [by apply quiet_facade|]. intros _ _.
  apply (settled_bind _ _ _ _ (quiet_invoke _)). intros d _.
  apply (settled_bind _ _ _ _ (quiet_check_result _ _)). intros _ _.
  apply (settled_bind _ _ _ _ (quiet_invoke _)). intros t _.
  apply (settled_bind _ _ _ _ (quiet_check_result _ _)). intros _ _.
  unfold when. destruct (_ || _); [apply quiet_throw|by apply settled_ret].
Qed.

Lemma accept_opens l flags :
  listener_posix l = true → opens (λ o, object_usable (OSocket o)) (accept l flags).
Proof.
  intros Hl. unfold accept. rewrite Hl. apply (opens_after (λ o, object_usable (OSocket o)) (λ _, True));
    [by apply quiet_facade|]. intros _ _.
  set (c := sys_accept4 _ _).
  apply (opens_equiv _ _ (retry_call (invoke c) ≫= λ a,
    (owned ← (a ← opened a; fd ← check_result a "accept Unix socket connection";
              adopt_native_handle fd true); adopt_socket owned))).
  { assert (retry_call (invoke_open c) ≡ (retry_call (invoke c) ≫= opened)) as Hr by (exact (retry_open c)).
    rewrite Hr, bind_assoc. f_equiv. intros a. cbn beta. symmetry. rewrite bind_assoc. f_equiv.
    intros b. cbn beta. by rewrite bind_assoc. }
  apply (opens_after _ _ _ _ (quiet_retry c)). intros a _.
  unfold adopt_socket.
  apply (opens_guarded usable (λ o, object_usable (OSocket o)) _
    (λ owned, if negb (is_open owned) then throw _ else _) destroy).
  - apply opened_checked. intros f s Hf.
    destruct (adopt_native_handle_run f s Hf) as (o & -> & ->). eauto.
  - intros [fd [|]] Ho; unfold usable in Ho; simpl in Ho; [|lia].
    destruct (negb _); [apply quiet_throw|].
    apply (settled_bind _ _ _ _ (check_unix_stream_socket_quiet _)). intros _ _. by apply settled_ret.
  - apply destroy_gives_back.
Qed.

Lemma event_opens : opens (λ o, object_usable (OEvent o)) make_linux_event_fd.
Proof.
  unfold make_linux_event_fd, LinuxEventFd_new, invoke_open. eapply opens_equiv; [apply bind_assoc|].
  apply (opens_after _ _ _ _ (quiet_invoke _)). intros a _.
  eapply opens_equiv; [|apply (opened_checked a "eventfd" (λ f, mret (mkEvent f true)))].
  - f_equiv. intros b s. rewrite bind_check_result. by destruct (a_result b =? -1).
  - intros f s Hf. by exists (mkEvent f true).
Qed.

(** An object is in order when it can close what it holds, and a listener when it can also
    remove its path. *)
Definition descriptor_ok (o : OwnedFileDescriptor) : Prop :=
  file_descriptor o = -1 ∨ 0 ≤ file_descriptor o ∧ posix_pointer o = true.
Definition object_ok (ob : object) : Prop :=
  match ob with
  | ODescriptor o => descriptor_ok o
  | OSocket o => descriptor_ok (socket_descriptor o)
  | OListener o =>
      descriptor_ok (listener_descriptor o) ∧
      (listener_posix o = true ∨ file_descriptor (listener_descriptor o) = -1 ∧ bound_path o = "")
  | OEvent o => descriptor_ok (mkOwned (event_descriptor o) (event_posix o))
  end.

Definition releases {A} (m : io A) (P : A → Prop) (f : Z) (s : os) : Prop :=
  ∃ a s', m s = (Ret a, s') ∧ P a ∧ os_open s' = dropped f (os_open s).

Lemma releases_bind {A B} (m : io A) P f s (k : A → io B) P' :
  releases m P f s → (∀ a s', P a → releases (k a) P' (-1) s') → releases (m ≫= k) P' f s.
Proof.
  intros (a & s1 & H1 & Ha & Hs) Hk. destruct (Hk a s1 Ha) as (b & s2 & H2 & Hb & Hs2).
  exists b, s2. rewrite (run_bind _ _ _ _ _ H1). rewrite Hs2, Hs. done.
Qed.

Lemma releases_ret {A} (a : A) (P : A → Prop) s : P a → releases (mret a) P (-1) s.
Proof. intros Ha. by exists a, s. Qed.

Definition owned_in (f : Z) (s : os) : Prop := f = -1 ∨ f ∈ os_open s.

Lemma close_releases o s :
  descriptor_ok o → owned_in (file_descriptor o) s →
  releases (close o) (λ o', file_descriptor o' = -1) (file_descriptor o) s.
Proof.
  intros Ho Hin. unfold close, releases, dropped. destruct (Z.eqb_spec (file_descriptor o) (-1)) as [Hm|Hm].
  - simpl. eauto.
  - destruct Ho as [|[Hp Hx]]; [done|]. destruct Hin as [|Hin]; [done|]. rewrite Hx. simpl.
    unfold close_fd. run_simpl. rewrite bool_decide_true by done. run_simpl. eauto.
Qed.

Lemma closed_ok o : file_descriptor o = -1 → descriptor_ok o.
Proof. by left. Qed.

Lemma destroy_releases o s :
  descriptor_ok o → owned_in (file_descriptor o) s →
  releases (destroy o) (λ _, True) (file_descriptor o) s.
Proof.
  intros Ho Hin. eapply releases_bind; [by apply close_releases|].
  intros. by apply releases_ret.
Qed.

Lemma unlink_path_releases l s :
  listener_posix l = true ∨ bound_path l = "" →
  releases (unlink_path l) (λ l', l' = l <| bound_path := "" |>) (-1) s.
Proof.
  intros Hl. unfold unlink_path. destruct (str_empty (bound_path l)) eqn:He; simpl.
  - apply releases_ret. apply str_empty_true in He. destruct l; simpl in *; by subst.
  - destruct Hl as [Hl|Hl]; [|by rewrite Hl in He]. unfold unlink_socket_path. rewrite He, Hl.
    simpl. by eexists _, _.
Qed.

Lemma listener_close_releases l s :
  object_ok (OListener l) → owned_in (listener_native_handle l) s →
  releases (listener_close l)
    (λ l', object_ok (OListener l') ∧ listener_native_handle l' = -1)
    (listener_native_handle l) s.
Proof.
  intros [Ho Hl] Hin. eapply releases_bind; [by apply close_releases|]. intros o s' Hc.
  destruct (unlink_path_releases (l <| listener_descriptor := o |>) s')
    as (l' & s'' & Hr & -> & Hs); [naive_solver|].
  eexists _, _. split; [exact Hr|]. split; [|done]. split; [|done].
  split; [by apply closed_ok|]. simpl. naive_solver.
Qed.

Lemma object_close_releases ob s :
  object_kind ob ≠ KEvent → object_ok ob → owned_in (object_fd ob) s →
  releases (object_close ob) (λ ob', object_ok ob' ∧ object_fd ob' = -1) (object_fd ob) s.
Proof.
  intros Hk Ho Hin. destruct ob as [o|o|l|o]; [..|done].
  - eapply releases_bind; [by apply close_releases|]. intros o' s' Hc.
    apply releases_ret. split; [by apply closed_ok|done].
  - eapply releases_bind; [eapply releases_bind; [by apply close_releases|]|].
    + intros o' s' Hc. apply (releases_ret (mkSocket o') (λ o, socket_native_handle o = -1) _ Hc).
    + intros o' s' Hc. apply releases_ret. split; [by apply closed_ok|done].
  - eapply releases_bind; [by apply listener_close_releases|]. intros l' s' Hc.
    by apply releases_ret.
Qed.

Lemma event_destroy_releases o s :
  object_ok (OEvent o) → owned_in (event_native_handle o) s →
  releases (event_destroy o) (λ _, True) (event_native_handle o) s.
Proof.
  unfold event_native_handle. intros Ho Hin.
  destruct (close_releases (mkOwned (event_descriptor o) (event_posix o)) s Ho Hin)
    as (o' & s' & Hr & _ & Hs).
  exists tt, s'. split; [|done]. unfold close in Hr. simpl in Hr. unfold event_destroy.
  apply run_bind_inv in Hr as ([] & s1 & Hr & H1).
  by injection H1 as <- <-.
Qed.

Lemma object_destroy_releases ob s :
  object_ok ob → owned_in (object_fd ob) s →
  releases (object_destroy ob) (λ _, True) (object_fd ob) s.
Proof.
  intros Ho Hin. destruct ob as [o|o|l|o]; simpl.
  - by apply destroy_releases.
  - apply (releases_bind _ (λ o', socket_native_handle o' = -1)).
    + eapply releases_bind; [by apply close_releases|]. intros o' s' Hc. by apply releases_ret.
    + intros [o'] s' Hc. unfold socket_native_handle, native_handle in Hc. simpl in Hc.
      rewrite <-Hc. apply destroy_releases; [by apply closed_ok|by left].
  - eapply releases_bind; [by apply listener_close_releases|]. intros l' s' [Ho' Hc].
    unfold listener_native_handle, native_handle in Hc. rewrite <-Hc.
    apply destroy_releases; [by apply closed_ok|by left].
  - by apply event_destroy_releases.
Qed.

Lemma moved_ok k : object_ok (object_moved k) ∧ object_fd (object_moved k) = -1.
Proof. destruct k; split; try done; try (by left). split; [by left|by right]. Qed.

(** Assigning gives up what the target held, and the target becomes the other object. *)
Lemma object_assign_releases this other s :
  object_kind this = object_kind other → object_ok this → owned_in (object_fd this) s →
  releases (object_assign this other)
    (λ '(o, rest), o = other ∧ rest = object_moved (object_kind other)) (object_fd this) s.
Proof.
  intros Hk Ho Hin. destruct this as [o1|[o1]|l1|e1], other as [o2|[o2]|l2|e2]; try done; simpl.
  - eapply releases_bind; [eapply releases_bind; [by apply close_releases|]|].
    + intros o' s' _. by apply (releases_ret _ (λ r, r = (o2, moved_descriptor))).
    + intros [] s' [= -> ->]. by apply releases_ret.
  - unfold socket_move_assign. simpl.
    eapply releases_bind; [eapply releases_bind; [eapply releases_bind; [by apply close_releases|]|]|].
    + intros o' s' _. by apply (releases_ret _ (λ r, r = (o2, moved_descriptor))).
    + intros [] s' [= -> ->].
      by apply (releases_ret _ (λ r, r = (mkSocket o2, mkSocket moved_descriptor))).
    + intros [] s' [= -> ->]. by apply releases_ret.
  - eapply releases_bind; [eapply releases_bind; [by apply listener_close_releases|]|].
    + intros l' s' [Ho' Hc]. unfold listener_native_handle, native_handle in Hc.
      eapply releases_bind; [eapply releases_bind|].
      * rewrite <-Hc. apply close_releases; [by apply closed_ok|by left].
      * intros o' s2 _. by apply (releases_ret _ (λ r, r = (listener_descriptor l2, moved_descriptor))).
      * intros [] s2 [= -> ->].
        by apply (releases_ret _ (λ r, r = (mkListener (listener_descriptor l2) (bound_path l2)
                                               (listener_posix l2), moved_listener))).
    + intros [] s' [= -> ->]. apply releases_ret. by destruct l2.
  - eapply releases_bind; [eapply releases_bind; [by apply event_destroy_releases|]|].
    + intros o' s' _. by apply (releases_ret _ (λ r, r = (e2, moved_event))).
    + intros [] s' [= -> ->]. by apply releases_ret.
Qed.

(** ** The invariant of the client's world *)
Definition world_ok (w : world) : Prop :=
  accounted (held (w_vars w)) (w_client w) (os_open (w_os w)) ∧
  map_Forall (λ _ ob, object_ok ob) (w_vars w).

Definition safe (m : client unit) (w : world) : Prop :=
  match m w with
  | (Ret _, w') | (Throw _, w') => world_ok w'
  | (Blocked, _) => True
  | _ => False
  end.

Lemma safe_var x ob (k : object → client unit) w :
  w_vars w !! x = Some ob → safe (k ob) w → safe (ob ← var x; k ob) w.
Proof.
  intros Hx. unfold safe, var. rewrite run_bind_bind, run_bind_gets.
  by rewrite (run_bind_access _ _ _ _ Hx).
Qed.

Lemma safe_set_var x ob (k : unit → client unit) w :
  safe (k tt) (w <| w_vars := <[x := ob]> (w_vars w) |>) → safe (set_var x ob ≫= k) w.
Proof. done. Qed.

Lemma safe_sys {A} (m : io A) (k : A → client unit) w :
  match m (w_os w) with
  | (Ret a, s') => safe (k a) (w <| w_os := s' |>)
  | (Throw _, s') => world_ok (w <| w_os := s' |>)
  | (Blocked, _) => True
  | _ => False
  end → safe (sys m ≫= k) w.
Proof.
  unfold safe. rewrite bind_run. unfold sys. by destruct (m (w_os w)) as [[a|e| | |] s'].
Qed.

Lemma safe_quiet {A} (P : A → Prop) (m : io A) (k : A → client unit) w :
  settled P m → world_ok w → (∀ a s', P a → os_open s' = os_open (w_os w) → safe (k a) (w <| w_os := s' |>)) →
  safe (sys m ≫= k) w.
Proof.
  intros Hm [Hacc Hok] Hk. apply safe_sys. specialize (Hm (w_os w)).
  destruct (m (w_os w)) as [[a|e| | |] s']; try done; [by apply Hk; destruct Hm|].
  split; [|done]. simpl. by rewrite Hm.
Qed.

Lemma safe_releases {A} (P : A → Prop) f (m : io A) (k : A → client unit) w :
  releases m P f (w_os w) →
  (∀ a s', P a → os_open s' = dropped f (os_open (w_os w)) → safe (k a) (w <| w_os := s' |>)) →
  safe (sys m ≫= k) w.
Proof. intros (a & s' & Hr & Ha & Hs) Hk. apply safe_sys. rewrite Hr. by apply Hk. Qed.

Lemma held_fd_some ob : object_fd ob ≠ -1 → held_fd ob = Some (object_fd ob).
Proof. intros Hn. unfold held_fd. by rewrite (proj2 (Z.eqb_neq _ _) Hn). Qed.
Lemma held_fd_none ob : object_fd ob = -1 → held_fd ob = None.
Proof. intros Hn. unfold held_fd. by rewrite Hn. Qed.

Lemma held_lookup vars x ob : vars !! x = Some ob → held vars !! x = held_fd ob.
Proof. intros Hx. unfold held. by rewrite lookup_omap, Hx. Qed.
Lemma held_fresh vars x : vars !! x = None → held vars !! x = None.
Proof. intros Hx. unfold held. by rewrite lookup_omap, Hx. Qed.
Lemma held_insert vars x ob :
  held (<[x := ob]> vars) =
    match held_fd ob with Some f => <[x := f]> (held vars) | None => delete x (held vars) end.
Proof.
  unfold held. destruct (held_fd ob) eqn:E; [by rewrite (omap_insert_Some _ _ _ _ _ E)|].
  by rewrite (omap_insert_None _ _ _ _ E).
Qed.
Lemma held_delete vars x : held (delete x vars) = delete x (held vars).
Proof. apply omap_delete. Qed.

(** What a variable holds is open, so it can be closed. *)
Lemma world_owned w x ob :
  world_ok w → w_vars w !! x = Some ob → object_ok ob ∧ owned_in (object_fd ob) (w_os w).
Proof.
  intros [[Ho _ _] Hok] Hx. split; [by apply (Hok x)|].
  destruct (decide (object_fd ob = -1)) as [|Hn]; [by left|right]. apply Ho. right. exists x.
  rewrite (held_lookup _ _ _ Hx). unfold held_fd. by rewrite (proj2 (Z.eqb_neq _ _) Hn).
Qed.

Lemma usable_ok ob : 0 ≤ object_usable ob → object_ok ob ∧ object_fd ob = object_usable ob.
Proof.
  destruct ob as [[fd []]|[[fd []]]|[[fd []] path []]|[fd []]]; simpl; unfold usable; simpl;
    try lia; intros Hp; (split; [|done]); try (by right); (split; [by right|by left]).
Qed.

Lemma safe_new {A} (make : A → object) (m : io A) x w :
  opens (λ a, object_usable (make a)) m → world_ok w → fresh w x →
  safe (o ← sys m; set_var x (make o)) w.
Proof.
  intros Hm [Hacc Hok] Hx. apply safe_sys. specialize (Hm (w_os w)).
  destruct (m (w_os w)) as [[a|e| | |] s']; try done; [|by split; [simpl; rewrite Hm|]].
  destruct Hm as (Hp & Hn & Hs). destruct (usable_ok _ Hp) as [Hok' Hfd]. split; simpl.
  - rewrite held_insert, held_fd_some by lia. rewrite Hs, <-Hfd.
    apply accounted_new; [done|by apply held_fresh|by rewrite Hfd].
  - by apply map_Forall_insert_2.
Qed.

(** The variable [x] becomes an object that holds nothing, its descriptor being closed. *)
Lemma world_ok_closed w x ob ob' s' :
  world_ok w → w_vars w !! x = Some ob → object_ok ob' → object_fd ob' = -1 →
  os_open s' = dropped (object_fd ob) (os_open (w_os w)) →
  world_ok (w <| w_os := s' |> <| w_vars := <[x := ob']> (w_vars w) |>).
Proof.
  intros [Hacc Hok] Hx Hok' Hfd Hs. split; simpl; [|by apply map_Forall_insert_2].
  rewrite held_insert, (held_fd_none _ Hfd), Hs. unfold dropped.
  pose proof (held_lookup _ _ _ Hx) as Hl. unfold held_fd in Hl.
  destruct (object_fd ob =? -1); [by rewrite delete_id|by apply accounted_close].
Qed.

(** A descriptor moves from [y] to [x], which held nothing. *)
Lemma world_ok_moved w x y ob obx oby s' :
  world_ok w → held (w_vars w) !! x = None → x ≠ y → w_vars w !! y = Some ob →
  object_ok obx → object_ok oby → object_fd obx = object_fd ob → object_fd oby = -1 →
  os_open s' = os_open (w_os w) →
  world_ok (w <| w_os := s' |> <| w_vars := <[x := obx]> (<[y := oby]> (w_vars w)) |>).
Proof.
  intros [Hacc Hok] Hx Hne Hy Hokx Hoky Hfx Hfy Hs. split; simpl.
  - rewrite !held_insert, (held_fd_none oby), Hs by done. unfold held_fd. rewrite Hfx.
    pose proof (held_lookup _ _ _ Hy) as Hl. unfold held_fd in Hl.
    destruct (object_fd ob =? -1).
    + rewrite !delete_id; [done|done|by rewrite lookup_delete_ne].
    + by apply accounted_move.
  - by apply map_Forall_insert_2; [|apply map_Forall_insert_2].
Qed.

Lemma adopt_socket_spec o s :
  descriptor_ok o → owned_in (file_descriptor o) s →
  match adopt_socket o s with
  | (Ret a, s') => a = mkSocket o ∧ os_open s' = os_open s
  | (Throw _, s') => os_open s' = dropped (file_descriptor o) (os_open s)
  | (Blocked, _) => True
  | _ => False
  end.
Proof.
  intros Ho Hin. unfold adopt_socket, on_throw, try_catch, is_open. 
  set (m := if negb (negb _) then _ else _ : io UnixSocket).
  assert (settled (λ a, a = mkSocket o) m) as Hm.
  { unfold m. destruct (Z.eqb_spec (file_descriptor o) (-1)); simpl; [apply quiet_throw|].
    destruct Ho as [|[_ ->]]; [done|].
    apply (settled_bind _ _ _ _ (check_unix_stream_socket_quiet _)). intros _ _. by apply settled_ret. }
  specialize (Hm s). destruct (m s) as [[a|e| | |] s1]; try done.
  destruct (destroy_releases o s1) as (u & s2 & Hr & _ & Hs2);
    [done|by unfold owned_in; rewrite Hm|].
  rewrite (run_bind _ _ _ _ _ Hr). simpl. by rewrite Hs2, Hm.
Qed.

(** Releasing hands the descriptor over to a new object. *)
Lemma descriptor_hands_over o posix s :
  descriptor_ok o → (file_descriptor o ≠ -1 → posix = true) →
  ∃ d, (if file_descriptor o =? -1 then mret (empty_descriptor posix)
        else try_catch (adopt_native_handle (file_descriptor o) posix) (λ _, abort)) s = (Ret d, s) ∧
    descriptor_ok d ∧ file_descriptor d = file_descriptor o.
Proof.
  intros Ho Hposix. destruct (Z.eqb_spec (file_descriptor o) (-1)) as [Hm|Hm].
  - eexists. split; [done|]. by split; [left|].
  - destruct Ho as [|[Hp _]]; [done|]. rewrite Hposix by done. unfold try_catch.
    destruct (adopt_native_handle_run _ s Hp) as (d & -> & ->). eexists. split; [done|].
    by split; [right|].
Qed.

Lemma socket_release_releases o s :
  descriptor_ok (socket_descriptor o) →
  releases (socket_release o) (λ '(d, o'), descriptor_ok d ∧
    file_descriptor d = socket_native_handle o ∧ socket_native_handle o' = -1) (-1) s.
Proof.
  intros Ho. destruct (descriptor_hands_over _ (posix_pointer (socket_descriptor o)) s Ho)
    as (d & Hr & Hd & Hf); [by destruct Ho as [|[]]|].
  unfold socket_release, release_native_handle.
  destruct (file_descriptor (socket_descriptor o) =? -1); simpl in *.
  - injection Hr as <-. by eexists _, _.
  - eexists _, _. rewrite (run_bind _ _ _ _ _ Hr). done.
Qed.

Lemma listener_release_releases l s :
  object_ok (OListener l) →
  releases (listener_release l) (λ '(d, l'), descriptor_ok d ∧
    file_descriptor d = listener_native_handle l ∧ object_ok (OListener l') ∧
    listener_native_handle l' = -1) (-1) s.
Proof.
  intros [Ho Hl]. unfold listener_release, release_native_handle.
  eapply releases_bind; [apply unlink_path_releases; simpl; naive_solver|].
  intros l' s' ->. destruct (descriptor_hands_over _ (listener_posix l) s' Ho)
    as (d & Hr & Hd & Hf); [by destruct Hl as [|[]]|].
  assert (object_ok (OListener (l <| listener_descriptor :=
      (listener_descriptor l) <| file_descriptor := -1 |> |> <| bound_path := "" |>))) as Hok
    by (split; [by left|simpl; naive_solver]).
  destruct (file_descriptor (listener_descriptor l) =? -1); simpl in *.
  - injection Hr as <-. by eexists _, _.
  - eexists _, _. rewrite (run_bind _ _ _ _ _ Hr). done.
Qed.

(** *** Each operation *)
Section operations.
Context (w : world) (Hw : world_ok w).

Lemma safe_adopt x fd : valid_op w (op_adopt x fd) → safe (perform (op_adopt x fd)) w.
Proof using Hw.
  destruct Hw as [Hacc Hok]. intros [Hx Hfd]. apply safe_sys. unfold adopt_native_handle.
  destruct (Z.ltb_spec fd 0) as [Hn|Hp]; simpl; [by split|].
  destruct Hfd as [|Hfd]; [lia|]. split; simpl.
  - rewrite held_insert, held_fd_some; simpl; [|unfold native_handle; simpl; lia].
    apply accounted_adopt; [done|by apply held_fresh|done].
  - apply map_Forall_insert_2; [by right|done].
Qed.

Lemma safe_adopt_socket x y : valid_op w (op_adopt_socket x y) → safe (perform (op_adopt_socket x y)) w.
Proof using Hw.
  intros [Hx (ob & Hy & Hk)]. destruct (world_owned _ _ _ Hw Hy) as [Ho Hin].
  eapply safe_var; [done|]. destruct ob as [o| | |]; try done.
  apply safe_set_var, safe_sys. pose proof (adopt_socket_spec o (w_os w) Ho Hin) as Hs.
  simpl. destruct (adopt_socket o (w_os w)) as [[a|e| | |] s']; try done.
  - destruct Hs as [-> Hs].
    apply (world_ok_moved w x y (ODescriptor o) _ _ s'); try done;
      [by apply held_fresh|by intros ->; rewrite Hx in Hy|by left].
  - apply (world_ok_closed w y (ODescriptor o) _ s'); try done. by left.
Qed.

Lemma safe_release x y : valid_op w (op_release x y) → safe (perform (op_release x y)) w.
Proof using Hw.
  intros [Hx (ob & Hy & Hk)]. destruct (world_owned _ _ _ Hw Hy) as [Ho Hin].
  assert (x ≠ y) as Hne by (by intros ->; rewrite Hx in Hy). apply held_fresh in Hx.
  eapply safe_var; [done|]. destruct ob as [o|o|l|o]; try (by destruct Hk).
  - eapply safe_releases; [by apply socket_release_releases|].
    intros [d o'] s' (Hd & Hfd & Ho') Hs. apply safe_set_var.
    by apply (world_ok_moved w x y (OSocket o)); [..|apply closed_ok| | |].
  - eapply safe_releases; [by apply listener_release_releases|].
    intros [d l'] s' (Hd & Hfd & Hl & Ho') Hs. apply safe_set_var.
    by apply (world_ok_moved w x y (OListener l)).
Qed.

Lemma safe_release_raw x : valid_op w (op_release_raw x) → safe (perform (op_release_raw x)) w.
Proof using Hw.
  intros (ob & Hx & Hk). destruct Hw as [Hacc Hok]. destruct (world_owned _ _ _ Hw Hx) as [Ho Hin].
  eapply safe_var; [done|]. destruct ob as [o| | |]; try done. apply safe_set_var.
  pose proof (held_lookup _ _ _ Hx) as Hl. unfold held_fd in Hl. simpl in Hl. unfold native_handle in Hl.
  destruct (file_descriptor o =? -1); simpl; (split; simpl; [|apply map_Forall_insert_2; [by left|done]]);
    rewrite held_insert, held_fd_none by done.
  - by rewrite delete_id.
  - by apply accounted_release.
Qed.

Lemma safe_move x y : valid_op w (op_move x y) → safe (perform (op_move x y)) w.
Proof using Hw.
  intros [Hx (ob & Hy & _)]. destruct (world_owned _ _ _ Hw Hy) as [Ho _].
  destruct (moved_ok (object_kind ob)) as [Hmo Hmf].
  eapply safe_var; [done|]. apply safe_set_var.
  apply (world_ok_moved w x y ob _ _ (w_os w)); try done;
    [by apply held_fresh|by intros ->; rewrite Hx in Hy].
Qed.

Lemma safe_assign x y : valid_op w (op_assign x y) → safe (perform (op_assign x y)) w.
Proof using Hw.
  intros (ob1 & Hx & ob2 & Hy & Hk).
  destruct (world_owned _ _ _ Hw Hx) as [Ho1 Hin1]. destruct (world_owned _ _ _ Hw Hy) as [Ho2 _].
  destruct (moved_ok (object_kind ob2)) as [Hmo Hmf].
  eapply safe_var; [done|]. eapply safe_var; [done|]. case_bool_decide as Hne; [done|].
  eapply safe_releases; [by apply object_assign_releases|]. intros [o rest] s' [-> ->] Hs.
  apply safe_set_var. pose proof (world_ok_closed w x ob1 _ s' Hw Hx Hmo Hmf Hs) as Hw1.
  pose proof (world_ok_moved _ x y ob2 ob2 (object_moved (object_kind ob2)) s' Hw1) as Hm.
  unfold update, field_update in Hm. simpl in Hm.
  rewrite (insert_insert_ne _ y x), insert_insert_eq in Hm by done.
  apply Hm; try done; [|by rewrite lookup_insert_ne].
  by rewrite held_insert, (held_fd_none _ Hmf), lookup_delete_eq.
Qed.

Lemma safe_close x : valid_op w (op_close x) → safe (perform (op_close x)) w.
Proof using Hw.
  intros (ob & Hx & Hk). destruct (world_owned _ _ _ Hw Hx) as [Ho Hin].
  eapply safe_var; [done|]. eapply safe_releases; [by apply object_close_releases|].
  intros ob' s' [Hok Hfd] Hs. by apply (world_ok_closed w x ob).
Qed.

Lemma safe_destroy x : valid_op w (op_destroy x) → safe (perform (op_destroy x)) w.
Proof using Hw.
  intros (ob & Hx & _). destruct (world_owned _ _ _ Hw Hx) as [Ho Hin]. destruct Hw as [Hacc Hok].
  eapply safe_var; [done|]. eapply safe_releases; [by apply object_destroy_releases|].
  intros [] s' _ Hs. split; simpl; [|by apply map_Forall_delete].
  rewrite held_delete, Hs. pose proof (held_lookup _ _ _ Hx) as Hl. unfold held_fd in Hl.
  unfold dropped. destruct (object_fd ob =? -1); [by rewrite delete_id|by apply accounted_close].
Qed.

Lemma safe_io {A} (m : io A) : settled (λ _, True) m → safe (sys m;; mret tt) w.
Proof using Hw.
  intros Hm. apply (safe_quiet _ _ _ _ Hm Hw). intros a s' _ Hs. destruct Hw as [Hacc Hok].
  split; [|done]. simpl. by rewrite Hs.
Qed.

Lemma safe_io_unit (m : io unit) : settled (λ _, True) m → safe (sys m) w.
Proof using Hw.
  intros Hm. pose proof (safe_io m Hm) as Hs. unfold safe in *. rewrite bind_run in Hs.
  unfold bind_outcome in Hs. by destruct (sys m w) as [[[]| | | |] w'].
Qed.
End operations.

(** Input and output leave the descriptors alone. *)
Lemma vectored_quiet {A Buffer} (size : Buffer → Z) c what (k : Z → answer → A) (empty : A) buffers :
  settled (λ _, True)
    (iovecs ← make_iovecs size buffers;
     if bool_decide (iovecs = []) then mret empty
     else facade true;; a ← retry_call (invoke (c iovecs)); n ← check_result a what; mret (k n a)).
Proof.
  apply (settled_bind (λ _, True)).
  { unfold make_iovecs. destruct (_ >? _); [apply quiet_throw|apply quiet_make_iovecs]. }
  intros iovecs _. destruct (bool_decide _); [by apply settled_ret|].
  apply (settled_bind (λ _, True)); [by apply quiet_facade|]. intros _ _.
  apply (settled_bind _ _ _ _ (quiet_retry _)). intros a _.
  apply (settled_bind _ _ _ _ (quiet_check_result _ _)). intros n _. by apply settled_ret.
Qed.

Lemma shutdown_quiet o how :
  posix_pointer (socket_descriptor o) = true → settled (λ _, True) (socket_shutdown o how).
Proof.
  intros Ho. unfold socket_shutdown. rewrite Ho.
  apply (settled_bind (λ _, True)); [by apply quiet_facade|]. intros _ _.
  apply (settled_bind (λ _, True)).
  { unfold shutdown_direction. repeat (destruct (_ =? _); [by apply settled_ret|]). apply quiet_throw. }
  intros d _. apply (settled_bind _ _ _ _ (quiet_invoke _)). intros a _.
  apply (settled_bind _ _ _ _ (quiet_check_result _ _)). intros n _. by apply settled_ret.
Qed.

Lemma notification_quiet {A} o c (f : answer → io A) :
  event_posix o = true → (∀ a, settled (λ _, True) (f a)) →
  settled (λ _, True) (facade (event_posix o);; a ← retry_call (invoke c); f a).
Proof.
  intros -> Hf. apply (settled_bind (λ _, True)); [by apply quiet_facade|]. intros _ _.
  apply (settled_bind _ _ _ _ (quiet_retry _)). intros a _. apply Hf.
Qed.

Ltac quiet_cases := repeat case_match; first [apply quiet_throw|by apply settled_ret].

Lemma perform_safe w op : world_ok w → valid_op w op → safe (perform op) w.
Proof.
  intros Hw Hv. destruct op as [x fd|x path|x path backlog|x|x l flags|x y|x y|x|x y|x y|x|x
    |x how|x sizes|x buffers|x|x].
  - by apply safe_adopt.
  - by apply (safe_new OSocket); [apply connect_opens| |].
  - by apply (safe_new OListener); [apply listener_bind_opens| |].
  - by apply (safe_new OEvent); [apply event_opens| |].
  - destruct Hv as [Hx (ob & Hl & o & -> & Ho)]. eapply safe_var; [done|].
    by apply (safe_new OSocket); [apply accept_opens| |].
  - by apply safe_adopt_socket.
  - by apply safe_release.
  - by apply safe_release_raw.
  - by apply safe_move.
  - by apply safe_assign.
  - by apply safe_close.
  - by apply safe_destroy.
  - destruct Hv as (ob & Hx & Hk & Hp). eapply safe_var; [done|]. destruct ob; try done.
    by apply safe_io_unit, shutdown_quiet.
  - destruct Hv as (ob & Hx & Hk & Hp). eapply safe_var; [done|]. destruct ob as [|o| |]; try done.
    apply safe_io; [done|]. unfold read_some. simpl in Hp. rewrite Hp. apply vectored_quiet.
  - destruct Hv as (ob & Hx & Hk & Hp). eapply safe_var; [done|]. destruct ob as [|o| |]; try done.
    apply safe_io; [done|]. unfold write_some. simpl in Hp. rewrite Hp. apply vectored_quiet.
  - destruct Hv as (ob & Hx & Hk & Hp). eapply safe_var; [done|]. destruct ob as [| | |o]; try done.
    apply safe_io; [done|]. unfold linux_read_notification. apply notification_quiet; [done|]. intros a. quiet_cases.
  - destruct Hv as (ob & Hx & Hk & Hp). eapply safe_var; [done|]. destruct ob as [| | |o]; try done.
    apply safe_io_unit; [done|]. unfold linux_write_notification. apply notification_quiet; [done|]. intros a. quiet_cases.
Qed.

Lemma client_start_ok s : world_ok (client_start s).
Proof.
  split; [|apply map_Forall_empty]. unfold held. simpl. rewrite omap_empty. split.
  - intros f. split; [by left|]. intros [|[x Hx]]; [done|by rewrite lookup_empty in Hx].
  - intros x f Hx. by rewrite lookup_empty in Hx.
  - intros x y f Hx. by rewrite lookup_empty in Hx.
Qed.

Lemma client_step_ok w w' : client_step w w' → world_ok w → world_ok w'.
Proof.
  intros [? op ? Hv Hr] Hw. pose proof (perform_safe _ _ Hw Hv) as Hs. unfold safe in Hs.
  by destruct Hr as [Hr|[e Hr]]; rewrite Hr in Hs.
Qed.

Lemma client_reachable_ok s w : rtc client_step (client_start s) w → world_ok w.
Proof.
  intros Hr. pattern w. revert w Hr. apply rtc_ind_r; [apply client_start_ok|].
  intros w w' _ Hs Hw. by eapply client_step_ok.
Qed.

(** C5. Every open descriptor has exactly one owner, in every state that a client program
    can reach by operations that succeed or throw: it is either bare, and then the client's
    own business, or held by exactly one object; and every descriptor an object holds is
    open. So nothing is leaked, even when a constructor throws half-way, and no operation
    closes a descriptor that is not its own: none is ever undefined. When no object is
    left, the open descriptors are the bare ones. *)
Theorem descriptors_owned s w :
  rtc client_step (client_start s) w →
  (∀ f, f ∈ os_open (w_os w) ↔
     f ∈ w_client w ∨ ∃ x ob, w_vars w !! x = Some ob ∧ object_fd ob = f ∧ f ≠ -1) ∧
  (∀ x y ob1 ob2, w_vars w !! x = Some ob1 → w_vars w !! y = Some ob2 →
     object_fd ob1 = object_fd ob2 → object_fd ob1 ≠ -1 → x = y ∧ object_fd ob1 ∉ w_client w) ∧
  (∀ op, valid_op w op → (perform op w).1 ≠ Undef ∧ (perform op w).1 ≠ Abort) ∧
  (w_vars w = ∅ → os_open (w_os w) = w_client w).
Proof.
  intros Hw%client_reachable_ok. pose proof Hw as [[Hopen Hbare Honce] Hok].
  assert (∀ x f, held (w_vars w) !! x = Some f ↔
            ∃ ob, w_vars w !! x = Some ob ∧ object_fd ob = f ∧ f ≠ -1) as Hheld.
  { intros x f. unfold held. rewrite lookup_omap_Some. unfold held_fd.
    split; intros (ob & H1 & H2); exists ob; destruct (Z.eqb_spec (object_fd ob) (-1)); naive_solver. }
  split_and!.
  - intros f. rewrite Hopen. setoid_rewrite Hheld. done.
  - intros x y ob1 ob2 H1 H2 He Hn. split.
    + apply (Honce x y (object_fd ob1)); apply Hheld; [by exists ob1|by exists ob2].
    + apply (Hbare x), Hheld. by exists ob1.
  - intros op Hv. pose proof (perform_safe _ _ Hw Hv) as Hs. unfold safe in Hs.
    by destruct (perform op w) as [[]].
  - intros He. apply set_eq. intros f. rewrite Hopen, He. unfold held. rewrite omap_empty.
    split; [intros [|[x Hx]]; [done|by rewrite lookup_empty in Hx]|by left].
Qed.

(** ** Witness *)
Section witnesses.
(** A client connects a socket, moves it to another variable and releases the descriptor. *)
Definition w0 : world := client_start (asked [result 3; result 0]).
Definition w1 : world := mkWorld
  (mkOs [] [the_socket_call; sys_connect 3 "s" 4] {[3]}) {["a" := OSocket (mkSocket (mkOwned 3 true))]} ∅.
Definition w2 : world := mkWorld (w_os w1)
  (<["b" := OSocket (mkSocket (mkOwned 3 true))]>
     (<["a" := OSocket (mkSocket moved_descriptor)]> (w_vars w1))) ∅.

Lemma w1_step : client_step w0 w1.
Proof. apply (client_step_op w0 (op_connect "a" "s")); [done|]. left. reflexivity. Qed.
Lemma w2_step : client_step w1 w2.
Proof.
  apply (client_step_op w1 (op_move "b" "a")); [|by left].
  split; [done|]. by eexists.
Qed.

Lemma w2_reachable : rtc client_step w0 w2.
Proof. exact (rtc_l _ _ _ _ w1_step (rtc_once _ _ w2_step)). Qed.
Lemma w2_valid : valid_op w2 (op_close "b").
Proof. exists (OSocket (mkSocket (mkOwned 3 true))). by split. Qed.

Lemma descriptors_owned_witness :
  (perform (op_close "b") w2).1 ≠ Undef ∧ (perform (op_close "b") w2).1 ≠ Abort.
Proof.
  exact (proj1 (proj2 (proj2 (descriptors_owned (asked [result 3; result 0]) w2 w2_reachable)))
    (op_close "b") w2_valid).
Defined.
End witnesses.
