(* ===== verification/Epoll.v ===== *)
(** * Epoll ([v2/linux_epoll.cc], [linux_epoll_state.cc], [linux_epoll_registration.cc])

    A [NativeLinuxEpoll] owns a state, which owns the epoll descriptor; a registration
    refers to the state weakly, so it may outlive it. The states that are alive are
    a map from their addresses; a weak pointer is an address that may be gone from it. The
    readings of [steady_clock] are answers of the environment, in nanoseconds. *)
From S2P Require Import Prelude Posix UnixSocket Ownership.

Open Scope string_scope.
Open Scope list_scope.
Open Scope Z_scope.

(** ** State *)
Record epolls : Type := mkEpolls {
  e_os : os;
  e_clock : list Z;
  e_states : gmap nat Z;   (* the descriptor of each [NativeEpollState] that is alive *)
  e_next : nat;            (* no state was ever made at this address or above *)
  e_native : gmap nat (list (Z * Z));   (* [native_events] of the object with that state *)
}.

#[export] Instance epolls_rebuild : Rebuild epolls :=
  λ e, mkEpolls (e_os e) (e_clock e) (e_states e) (e_next e) (e_native e).

Abbreviation ep A := (M epolls v2_exn A).

Definition sys_ep {A} (m : io A) : ep A := λ e,
  let '(o, s) := m (e_os e) in (o, e <| e_os := s |>).

Definition now : ep Z :=
  readings ← gets e_clock;
  match readings with
  | [] => blocked
  | t :: rest => modify (λ e, e <| e_clock := rest |>);; mret t
  end.

(** [std::weak_ptr::lock], giving the descriptor of the state *)
Definition lock (state : nat) : ep (option Z) := gets (λ e, e_states e !! state).

(** A call on an epoll descriptor that is not open would reach a stranger. *)
Definition epoll_call (fd : Z) (c : syscall) : io answer :=
  open ← gets os_open; if bool_decide (fd ∈ open) then invoke c else undef.

(** ** [NativeEpollState] *)
Definition NativeEpollState_new : ep nat :=
  a ← sys_ep (invoke_open (sys_epoll_create1 EPOLL_CLOEXEC));
  fd ← sys_ep (check_result a "create epoll");
  state ← gets e_next;
  modify (λ e, e <| e_states := <[state := fd]> (e_states e) |> <| e_next := S state |>);;
  mret state.

Definition state_is_open (fd : Z) : bool := negb (fd =? -1).

Definition state_close (state : nat) : ep unit :=
  fd ← lock state; fd ← access fd;
  modify (λ e, e <| e_states := <[state := -1]> (e_states e) |>);;
  when (negb (fd =? -1)) (sys_ep (close_fd fd)).

(** The last shared pointer goes away. *)
Definition state_destroy (state : nat) : ep unit :=
  state_close state;; modify (λ e, e <| e_states := delete state (e_states e) |>).

(** ** [NativeEpollRegistration] *)
Record EpollInterest : Type := mkInterest { readable : bool; writable : bool }.
Record NativeEpollRegistration : Type := mkRegistration { reg_state : nat; reg_fd : Z }.

(** The mask of events and the token *)
Definition make_native_event (interest : EpollInterest) (token : Z) : ep (Z * Z) :=
  if negb (readable interest) && negb (writable interest)
  then throw (invalid_argument "epoll registration must have an interest")
  else
    let events := if readable interest then Z.lor 0 EPOLLIN else 0 in
    let events := if writable interest then Z.lor events EPOLLOUT else events in
    mret (events, token).

Definition registration_new (state : nat) (file_descriptor : Z) (interest : EpollInterest)
    (token : Z) : ep NativeEpollRegistration :=
  fd ← lock state; fd ← access fd;
  if negb (state_is_open fd) then throw (system_error EBADF "add to closed epoll")
  else
    event ← make_native_event interest token;
    a ← sys_ep (epoll_call fd (sys_epoll_ctl fd EPOLL_CTL_ADD file_descriptor (Some event)));
    sys_ep (check_result a "add epoll registration");;
    mret (mkRegistration state file_descriptor).

Definition registration_destroy (this : NativeEpollRegistration) : ep unit :=
  epoll_state ← lock (reg_state this);
  match epoll_state with
  | Some fd =>
      when (state_is_open fd)
        (sys_ep (epoll_call fd (sys_epoll_ctl fd EPOLL_CTL_DEL (reg_fd this) None));; mret tt)
  | None => mret tt
  end.

Definition modify_registration (this : NativeEpollRegistration) (interest : EpollInterest)
    (token : Z) : ep unit :=
  epoll_state ← lock (reg_state this);
  let fd := default (-1) epoll_state in
  if negb (state_is_open fd) then throw (system_error EBADF "modify closed epoll")
  else
    event ← make_native_event interest token;
    a ← sys_ep (epoll_call fd (sys_epoll_ctl fd EPOLL_CTL_MOD (reg_fd this) (Some event)));
    sys_ep (check_result a "modify epoll registration");; mret tt.

(** ** [NativeLinuxEpoll] *)
Record NativeLinuxEpoll : Type := mkEpoll { epoll_state : nat }.

Record EpollReadyEvent : Type := mkReady {
  token : Z;
  ready_readable : bool;
  ready_writable : bool;
  ready_error : bool;
  hangup : bool;
  peer_closed : bool;
}.

Definition NativeLinuxEpoll_new : ep NativeLinuxEpoll :=
  state ← NativeEpollState_new; mret (mkEpoll state).

(** The object has its state as long as it lives. *)
Definition epoll_descriptor (this : NativeLinuxEpoll) : ep Z :=
  fd ← lock (epoll_state this); access fd.

Definition epoll_is_open (this : NativeLinuxEpoll) : ep bool :=
  fd ← epoll_descriptor this; mret (state_is_open fd).
Definition epoll_close (this : NativeLinuxEpoll) : ep unit := state_close (epoll_state this).
Definition epoll_destroy (this : NativeLinuxEpoll) : ep unit :=
  epoll_close this;; state_destroy (epoll_state this).

Definition epoll_add (this : NativeLinuxEpoll) (file_descriptor : Z) (interest : EpollInterest)
    (token : Z) : ep NativeEpollRegistration :=
  fd ← epoll_descriptor this;
  if negb (state_is_open fd) then throw (system_error EBADF "add to closed epoll")
  else registration_new (epoll_state this) file_descriptor interest token.

Definition INT_MAX : Z := 2 ^ 31 - 1.
Definition ns_per_ms : Z := 1000000.

(** [std::chrono::ceil<std::chrono::milliseconds>] *)
Definition ceil_ms (ns : Z) : Z := - ((- ns) / ns_per_ms).

Definition wait_timeout (timeout : option Z) : ep Z :=
  match timeout with
  | None => mret (-1)
  | Some t =>
      if (t <? 0) || (t >? INT_MAX) then throw (invalid_argument "invalid epoll timeout")
      else mret t
  end.

Definition remaining_wait_timeout (deadline : option Z) : ep Z :=
  match deadline with
  | None => mret (-1)
  | Some d =>
      t ← now;
      let remaining := d - t in
      if remaining <=? 0 then mret 0 else wait_timeout (Some (ceil_ms remaining))
  end.

(** The events of an answer: pairs of mask and token *)
Fixpoint event_pairs (data : list Z) : list (Z * Z) :=
  match data with
  | events :: token :: data' => (events, token) :: event_pairs data'
  | _ => []
  end.

Definition has_flag (events flag : Z) : bool := negb (Z.land events flag =? 0).
Definition ready_event (native_event : Z * Z) : EpollReadyEvent :=
  let '(events, token) := native_event in
  mkReady token (has_flag events EPOLLIN) (has_flag events EPOLLOUT)
    (has_flag events EPOLLERR) (has_flag events EPOLLHUP) (has_flag events EPOLLRDHUP).

Definition resize (n : nat) (l : list (Z * Z)) : list (Z * Z) :=
  take n l ++ replicate (n - length l) (0, 0).

(** One call per round; [errno] is that of the call, also behind the clock. *)
Fixpoint wait_loop (fuel : nat) (fd maximum_events : Z) (deadline : option Z) : ep answer :=
  match fuel with
  | O => blocked
  | S fuel =>
      timeout ← remaining_wait_timeout deadline;
      a ← sys_ep (epoll_call fd (sys_epoll_wait fd maximum_events timeout));
      if interrupted a then
        again ← match deadline with
                | None => mret true
                | Some d => t ← now; mret (t <? d)
                end;
        if (again : bool) then wait_loop fuel fd maximum_events deadline else mret a
      else mret a
  end.

Definition native_events (this : NativeLinuxEpoll) (e : epolls) : list (Z * Z) :=
  default [] (e_native e !! epoll_state this).
Definition set_native_events (this : NativeLinuxEpoll) (events : list (Z * Z)) : ep unit :=
  modify (λ e, e <| e_native := <[epoll_state this := events]> (e_native e) |>).

(** The kernel writes its events over the first native ones. *)
Definition overwrite (written native : list (Z * Z)) : list (Z * Z) :=
  written ++ drop (length written) native.

(** The caller's vector is given by its size; the result is its new contents. *)
Definition wait (this : NativeLinuxEpoll) (size : nat) (timeout : option Z) :
  ep (list EpollReadyEvent) :=
  if (size =? 0)%nat then throw (invalid_argument "epoll event buffer must not be empty")
  else if Z.of_nat size >? INT_MAX
  then throw (invalid_argument "epoll event buffer is too large")
  else
    wait_timeout timeout;;
    fd ← epoll_descriptor this;
    if negb (state_is_open fd) then throw (system_error EBADF "wait on closed epoll")
    else
      native ← gets (native_events this);
      set_native_events this (resize size native);;
      deadline ← match timeout with
                 | Some t => n ← now; mret (Some (n + t * ns_per_ms))
                 | None => mret None
                 end;
      answers ← gets (λ e, os_answers (e_os e));
      a ← wait_loop (S (length answers)) fd (Z.of_nat size) deadline;
      let events := overwrite (event_pairs (a_data a)) (resize size native) in
      set_native_events this events;;
      if interrupted a && bool_decide (is_Some deadline) then mret []
      else
        n ← sys_ep (check_result a "wait for epoll events");
        if n >? Z.of_nat size
        then throw (runtime_error "epoll returned more events than requested")
        else mret (ready_event <$> take (Z.to_nat n) events).

(** ** Waiting *)
Definition epoll_timeout (deadline t : Z) : Z :=
  if deadline - t <=? 0 then 0 else ceil_ms (deadline - t).

Lemma ceil_ms_bounds ns t :
  0 < ns ≤ t * ns_per_ms → 0 < ceil_ms ns ≤ t ∧ ns ≤ ceil_ms ns * ns_per_ms.
Proof.
  intros Hns. unfold ceil_ms, ns_per_ms in *.
  pose proof (Z.mul_div_le (- ns) 1000000). pose proof (Z.mul_succ_div_gt (- ns) 1000000). lia.
Qed.

(** A clock that does not run backwards gives a timeout within the caller's. *)
Lemma epoll_timeout_bounds t0 timeout t :
  0 ≤ timeout → t0 ≤ t →
  let d := t0 + timeout * ns_per_ms in
  0 ≤ epoll_timeout d t ≤ timeout ∧ d - t ≤ epoll_timeout d t * ns_per_ms.
Proof.
  intros Ht Hle d. unfold epoll_timeout. destruct (Z.leb_spec (d - t) 0); [lia|].
  pose proof (ceil_ms_bounds (d - t) timeout). lia.
Qed.

Lemma bind_now {A} t rest (k : Z → ep A) e :
  e_clock e = t :: rest → (now ≫= k) e = k t (e <| e_clock := rest |>).
Proof. intros He. unfold now. by rewrite run_bind_bind, run_bind_gets, He. Qed.

Lemma remaining_wait_timeout_run t0 timeout t rest e :
  0 ≤ timeout ≤ INT_MAX → t0 ≤ t → e_clock e = t :: rest →
  let d := t0 + timeout * ns_per_ms in
  remaining_wait_timeout (Some d) e = (Ret (epoll_timeout d t), e <| e_clock := rest |>).
Proof.
  intros Ht Hle He d. unfold remaining_wait_timeout.
  rewrite (bind_now _ _ _ _ He).
  pose proof (epoll_timeout_bounds t0 timeout t (proj1 Ht) Hle) as [Hb _]. fold d in Hb.
  unfold epoll_timeout in *. destruct (Z.leb_spec (d - t) 0) as [|Hp]; [done|].
  unfold wait_timeout. rewrite Z.gtb_ltb.
  rewrite (proj2 (Z.ltb_ge _ _)), (proj2 (Z.ltb_ge _ _)) by lia. done.
Qed.

Lemma epoll_wait_run fd c a rest e :
  os_answers (e_os e) = a :: rest → fd ∈ os_open (e_os e) →
  sys_ep (epoll_call fd c) e = (Ret a, e <| e_os := skipped c [a] rest (e_os e) |>).
Proof.
  intros Ha Hf. unfold sys_ep, epoll_call. rewrite run_bind_gets, bool_decide_true by done.
  by rewrite (invoke_run _ _ _ _ Ha).
Qed.

(** The state after some rounds: the calls they made and what they used up *)
Definition waited (calls : list syscall) (answers : list answer) (clock : list Z) (e : epolls) :
  epolls :=
  e <| e_os := mkOs answers (os_calls (e_os e) ++ calls) (os_open (e_os e)) |> <| e_clock := clock |>.

(** One reading before each call, and one behind each that is interrupted *)
Definition readings (rounds : list (Z * Z)) : list Z :=
  rounds ≫= λ '(before, behind), [before; behind].

Lemma wait_loop_run t0 timeout fd n rounds before t a rest clock e fuel :
  let d := t0 + timeout * ns_per_ms in
  0 ≤ timeout ≤ INT_MAX →
  Forall (λ '(r, c), t0 ≤ r ∧ c < d) rounds → t0 ≤ t →
  Forall (λ a, interrupted a = true) before → length before = length rounds →
  os_answers (e_os e) = before ++ a :: rest →
  e_clock e = readings rounds ++ t :: clock →
  fd ∈ os_open (e_os e) → (length rounds < fuel)%nat →
  interrupted a = false ∨ (∃ c, head clock = Some c ∧ d ≤ c) →
  wait_loop fuel fd n (Some d) e =
    (Ret a, waited ((λ r, sys_epoll_wait fd n (epoll_timeout d r)) <$> (rounds.*1 ++ [t])) rest
              (if interrupted a then tail clock else clock) e).
Proof.
  intros d Ht Hrounds Htt Hb. revert rounds Hrounds e fuel.
  induction Hb as [|b before Hb _ IH]; intros [|[r c] rounds] Hrounds e fuel Hlen Ha Hc Hf Hfuel Hend;
    try done; (destruct fuel as [|fuel]; [simpl in Hfuel; lia|]); cbn [wait_loop]; simpl in Ha, Hc.
  - rewrite (run_bind _ _ _ _ _ (remaining_wait_timeout_run t0 timeout t _ e Ht Htt Hc)).
    fold d. set (e1 := e <| e_clock := clock |>).
    rewrite (run_bind _ _ _ _ _ (epoll_wait_run fd _ a rest e1 Ha Hf)).
    destruct (interrupted a) eqn:Hi; [|done]. destruct Hend as [|(c & Hcl & Hle)]; [done|].
    destruct clock as [|c' clock]; simplify_eq/=.
    rewrite run_bind_bind, (bind_now c clock), run_bind_ret by done.
    by rewrite (proj2 (Z.ltb_ge _ _) Hle).
  - apply Forall_cons in Hrounds as [[Hr Hcd] Hrounds].
    rewrite (run_bind _ _ _ _ _ (remaining_wait_timeout_run t0 timeout r _ e Ht Hr Hc)). fold d.
    set (e1 := e <| e_clock := _ |>).
    rewrite (run_bind _ _ _ _ _ (epoll_wait_run fd _ b (before ++ a :: rest) e1 Ha Hf)), Hb.
    rewrite run_bind_bind, (bind_now c (readings rounds ++ t :: clock)), run_bind_ret by done.
    rewrite (proj2 (Z.ltb_lt _ _) Hcd).
    rewrite (IH rounds Hrounds); simpl; try done; [|by injection Hlen|simpl in Hfuel; lia].
    unfold waited, skipped, update, field_update. simpl. by rewrite <-app_assoc.
Qed.

Definition at_native (this : NativeLinuxEpoll) (events : list (Z * Z)) (e : epolls) : epolls :=
  e <| e_native := <[epoll_state this := events]> (e_native e) |>.

(** C30. [NativeLinuxEpoll::wait] with a timeout computes its deadline once. A call that is
    interrupted before the deadline is made again with what is left of the time, rounded
    up to milliseconds, so that it neither exceeds the caller's timeout nor ends a wait
    early. An interruption behind the deadline is an empty result, every other failure is
    thrown, and a result is the events of the kernel, at most as many as asked for. *)
Theorem wait_deadline_spec this size timeout fd t0 rounds before t a rest clock e :
  let d := t0 + timeout * ns_per_ms in
  e_states e !! epoll_state this = Some fd → fd ≠ -1 → fd ∈ os_open (e_os e) →
  0 < Z.of_nat size ≤ INT_MAX → 0 ≤ timeout ≤ INT_MAX →
  Forall (λ '(r, c), t0 ≤ r ∧ c < d) rounds → t0 ≤ t →
  Forall (λ a, interrupted a = true) before → length before = length rounds →
  os_answers (e_os e) = before ++ a :: rest →
  e_clock e = t0 :: readings rounds ++ t :: clock →
  interrupted a = false ∨ (∃ c, head clock = Some c ∧ d ≤ c) →
  let n := Z.of_nat size in
  let calls := (λ r, sys_epoll_wait fd n (epoll_timeout d r)) <$> (rounds.*1 ++ [t]) in
  let events := overwrite (event_pairs (a_data a)) (resize size (native_events this e)) in
  wait this size (Some timeout) e =
    (if interrupted a then Ret []
     else if a_result a =? -1 then Throw (system_error (a_errno a) "wait for epoll events")
     else if a_result a >? n
     then Throw (runtime_error "epoll returned more events than requested")
     else Ret (ready_event <$> take (Z.to_nat (a_result a)) events),
     at_native this events
       (waited calls rest (if interrupted a then tail clock else clock) e)) ∧
  Forall (λ r, 0 ≤ epoll_timeout d r ≤ timeout ∧ d - r ≤ epoll_timeout d r * ns_per_ms)
    (rounds.*1 ++ [t]).
Proof.
  intros d Hst Hn Hf Hsize Ht Hrounds Htt Hb Hlen Ha Hc Hend n calls events. split.
  2:{ apply Forall_app. split; [|apply Forall_singleton, epoll_timeout_bounds; lia].
      apply Forall_fmap. eapply Forall_impl; [exact Hrounds|].
      intros [r c] [Hr _]. apply epoll_timeout_bounds; simpl; lia. }
  unfold wait. rewrite (proj2 (Nat.eqb_neq _ _)) by lia. rewrite Z.gtb_ltb.
  rewrite (proj2 (Z.ltb_ge _ _)) by lia. unfold wait_timeout at 1. rewrite Z.gtb_ltb.
  rewrite (proj2 (Z.ltb_ge timeout 0)), (proj2 (Z.ltb_ge INT_MAX timeout)) by lia. simpl.
  rewrite run_bind_ret. unfold epoll_descriptor, lock. rewrite !run_bind_bind, run_bind_gets, Hst.
  simpl. rewrite run_bind_ret. unfold state_is_open. rewrite (proj2 (Z.eqb_neq _ _) Hn). simpl.
  rewrite run_bind_gets. unfold set_native_events. rewrite run_bind_modify.
  rewrite run_bind_bind, (bind_now t0 (readings rounds ++ t :: clock)), run_bind_ret by done.
  fold d. rewrite run_bind_gets. simpl. rewrite Ha.
  match goal with |- (_ ≫= _) ?e' = _ => set (e1 := e') end.
  assert (length rounds < S (length (before ++ a :: rest)))%nat as Hfuel
    by (rewrite length_app; lia).
  rewrite (run_bind _ _ _ _ _ (wait_loop_run t0 timeout fd n rounds before t a rest clock
    e1 _ Ht Hrounds Htt Hb Hlen Ha eq_refl Hf Hfuel Hend)).
  rewrite run_bind_modify. fold events d calls.
  match goal with |- _ ?e' = (_, ?e2) => assert (e' = e2) as -> end.
  { unfold e1, at_native, waited, update, field_update. simpl. by rewrite insert_insert_eq. }
  destruct (interrupted a); [done|]. cbn [andb]. rewrite bind_run. unfold sys_ep.
  rewrite check_result_run. destruct (a_result a =? -1); [done|]. simpl. fold n.
  by destruct (a_result a >? n).
Qed.

(** ** Objects that refer to one another weakly

    A client makes epolls and registrations and uses and destroys them in any order; in
    particular a registration may be destroyed behind its epoll. *)
Inductive ep_op : Type :=
  | ep_new
  | ep_add (epoll : NativeLinuxEpoll) (fd : Z) (interest : EpollInterest) (token : Z)
  | ep_modify (registration : NativeEpollRegistration) (interest : EpollInterest) (token : Z)
  | ep_unregister (registration : NativeEpollRegistration)
  | ep_wait (epoll : NativeLinuxEpoll) (size : nat) (timeout : option Z)
  | ep_close (epoll : NativeLinuxEpoll)
  | ep_destroy (epoll : NativeLinuxEpoll).

Definition perform_ep (op : ep_op) : ep unit :=
  match op with
  | ep_new => NativeLinuxEpoll_new;; mret tt
  | ep_add epoll fd interest token => epoll_add epoll fd interest token;; mret tt
  | ep_modify r interest token => modify_registration r interest token
  | ep_unregister r => registration_destroy r
  | ep_wait epoll size timeout => wait epoll size timeout;; mret tt
  | ep_close epoll => epoll_close epoll
  | ep_destroy epoll => epoll_destroy epoll
  end.

(** An epoll that is used is alive; nothing is asked about a registration. *)
Definition valid_ep (e : epolls) (op : ep_op) : Prop :=
  match op with
  | ep_add epoll _ _ _ | ep_wait epoll _ _ | ep_close epoll | ep_destroy epoll =>
      is_Some (e_states e !! epoll_state epoll)
  | _ => True
  end.

Inductive ep_step : epolls → epolls → Prop :=
  | ep_step_op e op e' :
      valid_ep e op →
      (perform_ep op e = (Ret tt, e') ∨ ∃ ex, perform_ep op e = (Throw ex, e')) →
      ep_step e e'.

Definition epolls_start (s : os) (clock : list Z) : epolls := mkEpolls s clock ∅ 0 ∅.

Definition state_fd (fd : Z) : option Z := if fd =? -1 then None else Some fd.

(** [bare] are the descriptors that were there before. *)
Record epolls_ok (bare : gset Z) (e : epolls) : Prop := mkEpollsOk {
  ok_accounted : accounted (omap state_fd (e_states e)) bare (os_open (e_os e));
  ok_fresh state : (e_next e ≤ state)%nat → e_states e !! state = None;
}.

Lemma epolls_open bare e state fd :
  epolls_ok bare e → e_states e !! state = Some fd → fd ≠ -1 → fd ∈ os_open (e_os e).
Proof.
  intros [[Ho _ _] _] Hs Hn. apply Ho. right. exists state. rewrite lookup_omap, Hs. simpl.
  unfold state_fd. by rewrite (proj2 (Z.eqb_neq _ _) Hn).
Qed.

(** Routines that neither open nor close anything *)
Definition same (e e' : epolls) : Prop :=
  os_open (e_os e') = os_open (e_os e) ∧ e_states e' = e_states e ∧ e_next e' = e_next e.

Definition calm {A} (e : epolls) (m : ep A) : Prop :=
  ∀ e1, same e e1 →
    match m e1 with
    | (Ret _, e2) | (Throw _, e2) => same e e2
    | (Blocked, _) => True
    | _ => False
    end.

Section calm.
Context (e : epolls).

Lemma calm_bind {A B} (m : ep A) (k : A → ep B) :
  calm e m → (∀ a, calm e (k a)) → calm e (m ≫= k).
Proof.
  intros Hm Hk e1 He. specialize (Hm e1 He). rewrite bind_run. unfold bind_outcome.
  destruct (m e1) as [[a|ex| | |] e2]; simpl in *; try done. by apply Hk.
Qed.
Lemma calm_ret {A} (a : A) : calm e (mret a).
Proof. by intros e1 He. Qed.
Lemma calm_throw {A} ex : calm e (throw ex : ep A).
Proof. by intros e1 He. Qed.
Lemma calm_gets {A} (f : epolls → A) : calm e (gets f).
Proof. by intros e1 He. Qed.
Lemma calm_modify f : (∀ e1, same e e1 → same e (f e1)) → calm e (modify f).
Proof. intros Hf e1 He. by apply Hf. Qed.
Lemma calm_lock {B} state (k : option Z → ep B) :
  calm e (k (e_states e !! state)) → calm e (lock state ≫= k).
Proof.
  intros Hk e1 He. unfold lock. rewrite run_bind_gets.
  assert (e_states e1 = e_states e) as -> by apply He. by apply Hk.
Qed.
Lemma calm_sys {A} (m : io A) :
  (∀ s, os_open s = os_open (e_os e) → match m s with
        | (Ret _, s') | (Throw _, s') => os_open s' = os_open s
        | (Blocked, _) => True
        | _ => False
        end) → calm e (sys_ep m).
Proof.
  intros Hm e1 (Ho & Hs & Hn). unfold sys_ep. specialize (Hm (e_os e1) Ho).
  destruct (m (e_os e1)) as [[a|ex| | |] s']; try done; split_and!; simpl; congruence.
Qed.
Lemma calm_check a what : calm e (sys_ep (check_result a what)).
Proof. apply calm_sys. intros s _. rewrite check_result_run. by destruct (a_result a =? -1). Qed.
Lemma calm_epoll_call fd c : fd ∈ os_open (e_os e) → calm e (sys_ep (epoll_call fd c)).
Proof.
  intros Hf. apply calm_sys. intros s Hs. unfold epoll_call. rewrite run_bind_gets.
  rewrite bool_decide_true by (by rewrite Hs). pose proof (quiet_invoke c s) as Hi.
  destruct (invoke c s) as [[a|ex| | |] s']; naive_solver.
Qed.
Lemma calm_access {A B} (a : A) (k : A → ep B) : calm e (k a) → calm e (access (Some a) ≫= k).
Proof. done. Qed.
Lemma calm_now : calm e now.
Proof.
  apply calm_bind; [apply calm_gets|]. intros [|t rest]; [by intros e1 He|].
  apply calm_bind; [by apply calm_modify|]. intros. apply calm_ret.
Qed.
Lemma calm_wait_timeout timeout : calm e (wait_timeout timeout).
Proof.
  destruct timeout as [t|]; simpl; [|apply calm_ret].
  destruct (_ || _); [apply calm_throw|apply calm_ret].
Qed.
End calm.

#[export] Hint Resolve calm_ret calm_throw calm_gets calm_check calm_now calm_wait_timeout : calm.

Lemma calm_wait_loop e fuel fd n deadline :
  fd ∈ os_open (e_os e) → calm e (wait_loop fuel fd n deadline).
Proof.
  intros Hf. induction fuel as [|fuel IH]; [by intros e1 He|]. cbn [wait_loop].
  apply calm_bind; [|intros timeout].
  { destruct deadline as [d|]; cbn [remaining_wait_timeout]; [|auto with calm].
    apply calm_bind; [auto with calm|]. intros t. destruct (_ <=? _); auto with calm. }
  apply calm_bind; [by apply calm_epoll_call|]. intros a.
  destruct (interrupted a); [|auto with calm]. apply calm_bind; [|by intros []; auto with calm].
  destruct deadline; [|auto with calm]. apply calm_bind; auto with calm.
Qed.

Lemma calm_descriptor {B} e this fd (k : Z → ep B) :
  e_states e !! epoll_state this = Some fd → calm e (k fd) →
  calm e (epoll_descriptor this ≫= k).
Proof.
  intros Hs Hk e1 He. unfold epoll_descriptor, lock. rewrite !run_bind_bind, run_bind_gets.
  assert (e_states e1 = e_states e) as -> by apply He. rewrite Hs. by apply Hk.
Qed.

Lemma calm_native_event e interest token : calm e (make_native_event interest token).
Proof. unfold make_native_event. destruct (_ && _); auto with calm. Qed.
#[export] Hint Resolve calm_native_event : calm.

(** A call with an event, and the check of its result *)
Lemma calm_control {A} e fd op f interest token what (a : A) :
  fd ∈ os_open (e_os e) →
  calm e (event ← make_native_event interest token;
          r ← sys_ep (epoll_call fd (sys_epoll_ctl fd op f (Some event)));
          sys_ep (check_result r what);; mret a).
Proof.
  intros Hf. apply calm_bind; [auto with calm|]. intros event.
  apply calm_bind; [by apply calm_epoll_call|]. intros r. apply calm_bind; auto with calm.
Qed.

Section calm_operations.
Context (bare : gset Z) (e : epolls) (Hok : epolls_ok bare e).

Lemma open_state state fd :
  e_states e !! state = Some fd → state_is_open fd = true → fd ∈ os_open (e_os e).
Proof using Hok.
  intros Hs Ho. eapply epolls_open; [done..|]. unfold state_is_open in Ho.
  by apply negb_true_iff, Z.eqb_neq in Ho.
Qed.

Lemma calm_wait this size timeout :
  is_Some (e_states e !! epoll_state this) → calm e (wait this size timeout).
Proof using Hok.
  intros [fd Hs]. unfold wait. destruct (size =? 0)%nat; [auto with calm|].
  destruct (_ >? INT_MAX); [auto with calm|]. apply calm_bind; [auto with calm|]. intros _.
  eapply calm_descriptor; [done|]. destruct (state_is_open fd) eqn:Ho; simpl; [|auto with calm].
  apply calm_bind; [auto with calm|]. intros native.
  apply calm_bind; [by apply calm_modify|]. intros _.
  apply calm_bind; [destruct timeout; [apply calm_bind|]; auto with calm|]. intros deadline.
  apply calm_bind; [auto with calm|]. intros answers.
  apply calm_bind.
  { apply (calm_wait_loop e (S (length answers)) fd). by eapply open_state. }
  intros a.
  apply calm_bind; [by apply calm_modify|]. intros _.
  destruct (_ && _); [auto with calm|]. apply calm_bind; [auto with calm|]. intros n.
  destruct (_ >? _); auto with calm.
Qed.

Lemma calm_add this fd interest token :
  is_Some (e_states e !! epoll_state this) → calm e (epoll_add this fd interest token).
Proof using Hok.
  intros [f Hs]. unfold epoll_add. eapply calm_descriptor; [done|].
  destruct (state_is_open f) eqn:Ho; simpl; [|auto with calm].
  unfold registration_new. apply calm_lock. rewrite Hs. apply calm_access. rewrite Ho. simpl.
  apply calm_control. by eapply open_state.
Qed.

Lemma calm_modify_registration r interest token : calm e (modify_registration r interest token).
Proof using Hok.
  unfold modify_registration. apply calm_lock.
  destruct (e_states e !! reg_state r) as [f|] eqn:Hs; simpl; [|auto with calm].
  destruct (state_is_open f) eqn:Ho; simpl; [|auto with calm].
  apply calm_control. by eapply open_state.
Qed.

Lemma calm_registration_destroy r : calm e (registration_destroy r).
Proof using Hok.
  unfold registration_destroy. apply calm_lock.
  destruct (e_states e !! reg_state r) as [f|] eqn:Hs; [|auto with calm].
  destruct (state_is_open f) eqn:Ho; simpl; [|auto with calm].
  apply calm_bind; [|auto with calm]. apply calm_epoll_call. by eapply open_state.
Qed.
End calm_operations.

(** *** Each operation keeps the account *)
Definition safe_ep (bare : gset Z) (m : ep unit) (e : epolls) : Prop :=
  match m e with
  | (Ret _, e') | (Throw _, e') => epolls_ok bare e'
  | (Blocked, _) => True
  | _ => False
  end.

Lemma calm_safe bare e m : epolls_ok bare e → calm e m → safe_ep bare m e.
Proof.
  intros [Hacc Hfr] Hm. specialize (Hm e (conj eq_refl (conj eq_refl eq_refl))). unfold safe_ep.
  destruct (m e) as [[a|ex| | |] e']; try done; destruct Hm as (Ho & Hs & Hn);
    (split; [by rewrite Ho, Hs|by rewrite Hn, Hs]).
Qed.

Lemma calm_safe_unit {A} bare e (m : ep A) :
  epolls_ok bare e → calm e m → safe_ep bare (m;; mret tt) e.
Proof. intros Hok Hm. apply calm_safe; [done|]. apply calm_bind; auto with calm. Qed.

Lemma sys_ep_bind {A B C} (m : io A) (f : A → io B) (k : B → ep C) :
  (a ← sys_ep m; b ← sys_ep (f a); k b) ≡ (b ← sys_ep (m ≫= f); k b).
Proof.
  intros e. rewrite !bind_run.
  assert (sys_ep (m ≫= f) e = bind_outcome (λ a, sys_ep (f a)) (sys_ep m e)) as ->.
  { unfold sys_ep at 1 3. rewrite bind_run. unfold bind_outcome, sys_ep.
    by destruct (m (e_os e)) as [[a|ex| | |] s]. }
  unfold bind_outcome at 1 3. by destruct (sys_ep m e) as [[a|ex| | |] e1].
Qed.

Definition epoll_create : io Z :=
  a ← invoke_open (sys_epoll_create1 EPOLL_CLOEXEC); check_result a "create epoll".

Lemma NativeEpollState_new_equiv :
  NativeEpollState_new ≡
    (fd ← sys_ep epoll_create;
     state ← gets e_next;
     modify (λ e, e <| e_states := <[state := fd]> (e_states e) |> <| e_next := S state |>);;
     mret state).
Proof. exact (sys_ep_bind _ _ _). Qed.

Lemma epoll_create_opens : opens id epoll_create.
Proof.
  eapply opens_equiv; [apply bind_assoc|].
  apply (opens_after _ _ _ _ (quiet_invoke _)). intros a _.
  eapply opens_equiv; [|apply (opened_checked a "create epoll" mret)].
  - f_equiv. intros b. symmetry. apply bind_ret_r.
  - intros f s Hf. by exists f.
Qed.

Lemma state_fd_some fd : 0 ≤ fd → state_fd fd = Some fd.
Proof. intros Hf. unfold state_fd. by rewrite (proj2 (Z.eqb_neq _ _)) by lia. Qed.

Lemma new_safe bare e : epolls_ok bare e → safe_ep bare (perform_ep ep_new) e.
Proof.
  intros [Hacc Hfr]. unfold safe_ep. simpl. unfold NativeLinuxEpoll_new.
  rewrite run_bind_bind, bind_run, (NativeEpollState_new_equiv e), bind_run. unfold sys_ep.
  pose proof (epoll_create_opens (e_os e)) as Ho.
  destruct (epoll_create (e_os e)) as [[fd|ex| | |] s]; try done; simpl.
  - destruct Ho as (Hp & Hn & Ho). split; simpl.
    + rewrite (omap_insert_Some _ _ _ _ fd), Ho by (by apply state_fd_some).
      apply accounted_new; [done| |done]. by rewrite lookup_omap, Hfr.
    + intros state Hst. rewrite lookup_insert_ne by lia. apply Hfr. lia.
  - split; simpl; [by rewrite Ho|done].
Qed.

Lemma state_close_run bare e state fd :
  epolls_ok bare e → e_states e !! state = Some fd →
  ∃ e', state_close state e = (Ret tt, e') ∧ epolls_ok bare e' ∧
    e_states e' = <[state := -1]> (e_states e) ∧ e_next e' = e_next e.
Proof.
  intros Hok Hs. pose proof (epolls_open _ _ _ _ Hok Hs) as Hopen. destruct Hok as [Hacc Hfr].
  assert (∀ id, (e_next e ≤ id)%nat → <[state := -1]> (e_states e) !! id = None) as Hfr'.
  { intros id Hid. rewrite lookup_insert_ne; [by apply Hfr|]. intros <-. by rewrite Hfr in Hs. }
  assert (omap state_fd (e_states e) !! state = state_fd fd) as Hl by (by rewrite lookup_omap, Hs).
  unfold state_close, lock. rewrite run_bind_gets, Hs. simpl. rewrite run_bind_ret, run_bind_modify.
  unfold state_fd in Hl. destruct (Z.eqb_spec fd (-1)) as [->|Hn]; simpl.
  - eexists. split_and!; try done. split; [|done]. simpl.
    by rewrite omap_insert_None, delete_id.
  - unfold sys_ep, close_fd. rewrite run_bind_gets. simpl. rewrite bool_decide_true by auto.
    eexists. split_and!; try done. split; [|done]. simpl.
    rewrite omap_insert_None by done. by apply accounted_close.
Qed.

Lemma destroy_safe bare e this :
  epolls_ok bare e → is_Some (e_states e !! epoll_state this) →
  safe_ep bare (perform_ep (ep_destroy this)) e.
Proof.
  intros Hok [fd Hs]. destruct (state_close_run _ _ _ _ Hok Hs) as (e1 & H1 & Hok1 & Hs1 & Hn1).
  destruct (state_close_run bare e1 (epoll_state this) (-1) Hok1) as (e2 & H2 & [Hacc2 Hfr2] & Hs2 & Hn2);
    [by rewrite Hs1, lookup_insert_eq|].
  unfold safe_ep. simpl. unfold epoll_destroy, epoll_close, state_destroy.
  rewrite (run_bind _ _ _ _ _ H1), (run_bind _ _ _ _ _ H2). split; simpl.
  - rewrite omap_delete, delete_id; [done|]. by rewrite lookup_omap, Hs2, lookup_insert_eq.
  - intros state Hst. rewrite lookup_delete_None. right. by apply Hfr2.
Qed.

Lemma perform_ep_safe bare e op :
  epolls_ok bare e → valid_ep e op → safe_ep bare (perform_ep op) e.
Proof.
  intros Hok Hv. destruct op as [|this fd i t|r i t|r|this size timeout|this|this]; simpl in *.
  - by apply new_safe.
  - by eapply calm_safe_unit, calm_add.
  - by eapply calm_safe, calm_modify_registration.
  - by eapply calm_safe, calm_registration_destroy.
  - by eapply calm_safe_unit, calm_wait.
  - destruct Hv as [fd Hs]. destruct (state_close_run _ _ _ _ Hok Hs) as (e1 & H1 & Hok1 & _).
    unfold safe_ep, epoll_close. by rewrite H1.
  - by apply destroy_safe.
Qed.

Lemma epolls_reachable_ok s clock e :
  rtc ep_step (epolls_start s clock) e → epolls_ok (os_open s) e.
Proof.
  intros Hr. pattern e. revert e Hr. apply rtc_ind_r.
  - split; [|done]. simpl. rewrite omap_empty. split.
    + intros f. split; [by left|]. intros [|[x Hx]]; [done|by rewrite lookup_empty in Hx].
    + intros x f Hx. by rewrite lookup_empty in Hx.
    + intros x y f Hx. by rewrite lookup_empty in Hx.
  - intros e1 e2 _ [? op ? Hv Hp] Hok. pose proof (perform_ep_safe _ _ _ Hok Hv) as Hs.
    unfold safe_ep in Hs. by destruct Hp as [Hp|[ex Hp]]; rewrite Hp in Hs.
Qed.

(** C16. Epolls and registrations can be used, closed and destroyed in any order. No
    operation reaches a descriptor that is not an open epoll of this client, also not that
    of a registration that outlives its epoll: modifying such a registration is [EBADF] and
    destroying it does nothing, both without a system call. The descriptors that are open
    are those that were open before and one for each epoll that is alive and not closed. *)
Theorem epoll_lifetimes s clock e :
  rtc ep_step (epolls_start s clock) e →
  (∀ op, valid_ep e op → (perform_ep op e).1 ≠ Undef ∧ (perform_ep op e).1 ≠ Abort) ∧
  (∀ r, default (-1) (e_states e !! reg_state r) = -1 →
     perform_ep (ep_unregister r) e = (Ret tt, e) ∧
     ∀ interest token, perform_ep (ep_modify r interest token) e =
       (Throw (system_error EBADF "modify closed epoll"), e)) ∧
  (∀ f, f ∈ os_open (e_os e) ↔
     f ∈ os_open s ∨ ∃ state, e_states e !! state = Some f ∧ f ≠ -1).
Proof.
  intros Hok%epolls_reachable_ok. split_and!.
  - intros op Hv. pose proof (perform_ep_safe _ _ _ Hok Hv) as Hs. unfold safe_ep in Hs.
    by destruct (perform_ep op e) as [[]].
  - intros r Hr. simpl. unfold registration_destroy, modify_registration, lock.
    split; [|intros interest token]; rewrite run_bind_gets;
      (destruct (e_states e !! reg_state r); simpl in Hr; [by subst|done]).
  - intros f. destruct Hok as [[Ho _ _] _]. rewrite Ho. f_equiv. f_equiv. intros state.
    rewrite lookup_omap_Some. unfold state_fd. split.
    + intros (fd & Hf & Hs). destruct (Z.eqb_spec fd (-1)); naive_solver.
    + intros [Hs Hn]. exists f. by rewrite (proj2 (Z.eqb_neq _ _) Hn).
Qed.

(** ** Witnesses *)
Section witnesses.
(** Ten milliseconds; the first call is interrupted after nine and a half of them. *)
Definition sample_epolls : epolls :=
  mkEpolls (mkOs [intr; mkAnswer 1 0 [EPOLLIN; 77]] [] {[6]})
    [1000; 1000; 9501000; 9501000; 9600000] {[0%nat := 6]} 1 ∅.

Lemma wait_deadline_spec_witness :
  wait (mkEpoll 0) 2 (Some 10) sample_epolls =
    (Ret [mkReady 77 true false false false false],
     at_native (mkEpoll 0) [(EPOLLIN, 77); (0, 0)]
       (waited [sys_epoll_wait 6 2 10; sys_epoll_wait 6 2 1] [] [9600000] sample_epolls)).
Proof.
  exact (proj1 (wait_deadline_spec (mkEpoll 0) 2 10 6 1000 [(1000, 9501000)] [intr] 9501000
    (mkAnswer 1 0 [EPOLLIN; 77]) [] [9600000] sample_epolls
    eq_refl ltac:(discriminate) ltac:(set_solver) ltac:(vm_compute; split; congruence)
    ltac:(vm_compute; split; discriminate) ltac:(repeat constructor; vm_compute; congruence)
    ltac:(vm_compute; discriminate) ltac:(repeat constructor) eq_refl eq_refl eq_refl
    ltac:(by left))).
Defined.

(** An epoll is made and destroyed; a registration of it is destroyed afterwards. *)
Definition e0 : epolls := epolls_start (asked [result 6]) [].
Definition e1 : epolls :=
  mkEpolls (mkOs [] [sys_epoll_create1 EPOLL_CLOEXEC] {[6]}) [] {[0%nat := 6]} 1 ∅.
Definition e2 : epolls :=
  mkEpolls (mkOs [] [sys_epoll_create1 EPOLL_CLOEXEC; sys_close 6] ({[6]} ∖ {[6]})) [] ∅ 1 ∅.

Lemma e1_step : ep_step e0 e1.
Proof. apply (ep_step_op e0 ep_new); [done|]. left. reflexivity. Qed.
Lemma e2_step : ep_step e1 e2.
Proof.
  apply (ep_step_op e1 (ep_destroy (mkEpoll 0))); [by eexists|]. left. reflexivity.
Qed.

Lemma epoll_lifetimes_witness :
  perform_ep (ep_unregister (mkRegistration 0 9)) e2 = (Ret tt, e2).
Proof.
  exact (proj1 (proj1 (proj2 (epoll_lifetimes (asked [result 6]) [] e2
    (rtc_l _ _ _ _ e1_step (rtc_once _ _ e2_step)))) (mkRegistration 0 9) eq_refl)).
Defined.
End witnesses.
