(* ===== verification/Messages.v ===== *)
(** * Message builders ([v2/interface/*_builder.cc], [v2/include/.../internal/*_builder_impl.hpp])

    A builder collects the parts of one message for the protocol encoder. Arrow schemas and
    arrays come in through owning pointers with the deleter of [arrow_c_data.hpp], so a
    builder that replaces or drops one has to release it. The objects live on a heap that
    records what was released and what was freed. *)
From S2P Require Import Prelude Posix.

Open Scope string_scope.
Open Scope list_scope.
Open Scope Z_scope.

(** ** Arrow objects ([interface/arrow_c_data.hpp]) *)
Record arrow_heap : Type := mkHeap {
  h_objects : gmap nat bool;   (* whether the release callback of a live object is set *)
  h_released : list nat;       (* calls of release callbacks, oldest first *)
  h_freed : list nat;
}.

#[export] Instance arrow_heap_rebuild : Rebuild arrow_heap :=
  λ h, mkHeap (h_objects h) (h_released h) (h_freed h).

Abbreviation heap A := (M arrow_heap v2_exn A).

(** [ArrowSchemaPtr] and [ArrowArrayPtr]: the null pointer or an object that is owned *)
Definition arrow_ptr : Type := option nat.

Definition ArrowCDataDeleter (value : arrow_ptr) : heap unit :=
  match value with
  | None => mret tt
  | Some p =>
      object ← gets (λ h, h_objects h !! p);
      release ← access object;
      when release (modify (λ h, h <| h_released := h_released h ++ [p] |>));;
      modify (λ h, h <| h_objects := delete p (h_objects h) |> <| h_freed := h_freed h ++ [p] |>)
  end.

(** Move assignment of a [std::unique_ptr]: the old object goes. *)
Definition ptr_assign (this other : arrow_ptr) : heap arrow_ptr :=
  ArrowCDataDeleter this;; mret other.

(** ** The parts of a message *)
Record Payload : Type := mkPayload { payload_name : string; payload_value : string; binary : bool }.
Record ErrorInfo : Type := mkErrorInfo { code : string; message : string }.
Record DataSchema : Type := mkDataSchema { schema : arrow_ptr; has_group_id : bool; has_row_id : bool }.
Record RecordBatch : Type := mkRecordBatch { array : arrow_ptr; is_end_of_group : bool }.

(** ** [CallMessage] ([call_message_builder.cc]) *)
Record CallMessage : Type := mkCallMessage {
  stream_id : Z;
  call_name : option string;   (* [open_call_] *)
  payloads : list Payload;
  data_schema_ : option DataSchema;
  reset_row_id : option Z;
  record_batch_ : option RecordBatch;
  call_error : option ErrorInfo;
  is_close_call : bool;
}.

#[export] Instance CallMessage_rebuild : Rebuild CallMessage :=
  λ m, mkCallMessage (stream_id m) (call_name m) (payloads m) (data_schema_ m) (reset_row_id m)
         (record_batch_ m) (call_error m) (is_close_call m).

Definition CallMessage_new (stream_id : Z) : CallMessage :=
  mkCallMessage stream_id None [] None None None None false.

Definition message_add_payload (this : CallMessage) (name value : string) (binary : bool) : CallMessage :=
  this <| payloads := payloads this ++ [mkPayload name value binary] |>.

(** An optional that holds a value is assigned to, member by member. *)
Definition message_data_schema (this : CallMessage) (s : arrow_ptr) (group_id row_id : bool) :
  heap CallMessage :=
  s' ← match data_schema_ this with
       | None => mret s
       | Some old => ptr_assign (schema old) s
       end;
  mret (this <| data_schema_ := Some (mkDataSchema s' group_id row_id) |>).

Definition message_reset (this : CallMessage) (row_id : Z) : CallMessage :=
  this <| reset_row_id := Some row_id |>.

Definition message_record_batch (this : CallMessage) (a : arrow_ptr) (end_of_group : bool) :
  heap CallMessage :=
  a' ← match record_batch_ this with
       | None => mret a
       | Some old => ptr_assign (array old) a
       end;
  mret (this <| record_batch_ := Some (mkRecordBatch a' end_of_group) |>).

Definition message_error (this : CallMessage) (code text : string) : CallMessage :=
  this <| call_error := Some (mkErrorInfo code text) |>.
Definition message_close_call (this : CallMessage) : CallMessage := this <| is_close_call := true |>.
Definition set_open_call (this : CallMessage) (name : string) : CallMessage :=
  this <| call_name := Some name |>.

(** The members go in the reverse order of their declaration. *)
Definition CallMessage_destroy (this : CallMessage) : heap unit :=
  ArrowCDataDeleter (record_batch_ this ≫= array);;
  ArrowCDataDeleter (data_schema_ this ≫= schema).

(** ** The builders

    [CallMessageBuilderBase] is an interface with two implementations, each of which
    forwards to its message; its overloads with fewer arguments supply defaults. *)
Class CallMessageBuilderBase (B : Type) : Type := {
  add_payload : B → string → string → bool → heap B;
  data_schema : B → arrow_ptr → bool → bool → heap B;
  reset : B → Z → heap B;
  record_batch : B → arrow_ptr → bool → heap B;
  error : B → string → string → heap B;
  close_call : B → heap B;
  builder_destroy : B → heap unit;
}.

Record CallMessageBuilderImpl : Type := mkBuilder { message_ : CallMessage }.
Record OpeningCallMessageBuilderImpl : Type := mkOpening { opening_message_ : CallMessage }.

#[export] Instance call_builder : CallMessageBuilderBase CallMessageBuilderImpl := {|
  add_payload b name value binary := mret (mkBuilder (message_add_payload (message_ b) name value binary));
  data_schema b s group_id row_id :=
    m ← message_data_schema (message_ b) s group_id row_id; mret (mkBuilder m);
  reset b row_id := mret (mkBuilder (message_reset (message_ b) row_id));
  record_batch b a end_of_group :=
    m ← message_record_batch (message_ b) a end_of_group; mret (mkBuilder m);
  error b code text := mret (mkBuilder (message_error (message_ b) code text));
  close_call b := mret (mkBuilder (message_close_call (message_ b)));
  builder_destroy b := CallMessage_destroy (message_ b);
|}.

#[export] Instance opening_builder : CallMessageBuilderBase OpeningCallMessageBuilderImpl := {|
  add_payload b name value binary :=
    mret (mkOpening (message_add_payload (opening_message_ b) name value binary));
  data_schema b s group_id row_id :=
    m ← message_data_schema (opening_message_ b) s group_id row_id; mret (mkOpening m);
  reset b row_id := mret (mkOpening (message_reset (opening_message_ b) row_id));
  record_batch b a end_of_group :=
    m ← message_record_batch (opening_message_ b) a end_of_group; mret (mkOpening m);
  error b code text := mret (mkOpening (message_error (opening_message_ b) code text));
  close_call b := mret (mkOpening (message_close_call (opening_message_ b)));
  builder_destroy b := CallMessage_destroy (opening_message_ b);
|}.

Definition open_call (b : OpeningCallMessageBuilderImpl) (name : string) :
  heap OpeningCallMessageBuilderImpl :=
  mret (mkOpening (set_open_call (opening_message_ b) name)).

(** [MessageBuilderFactory] *)
Definition create_call_builder (stream_id : Z) : CallMessageBuilderImpl :=
  mkBuilder (CallMessage_new stream_id).
Definition create_opening_call_builder (stream_id : Z) : OpeningCallMessageBuilderImpl :=
  mkOpening (CallMessage_new stream_id).

Section overloads.
Context {B : Type} `{!CallMessageBuilderBase B}.

Definition add_payload_text (b : B) (name value : string) : heap B := add_payload b name value false.
Definition data_schema_plain (b : B) (s : arrow_ptr) : heap B := data_schema b s false false.
Definition data_schema_grouped (b : B) (s : arrow_ptr) (group_id : bool) : heap B :=
  data_schema b s group_id false.
Definition record_batch_plain (b : B) (a : arrow_ptr) : heap B := record_batch b a false.
End overloads.

(** ** [ControlMessage] and its builder ([control_message_builder.cc]) *)
Inductive endian : Type := little | big.

Record ServerCapabilities : Type := mkCapabilities {
  major : Z; minor : Z; endianness : endian; number_of_supported_workers : Z;
}.

Record ControlMessage : Type := mkControlMessage {
  control_stream_id : Z;
  server_capabilities : option ServerCapabilities;
  is_keep_alive : bool;
  control_payloads : list Payload;
  control_error : option ErrorInfo;
  is_close_connection : bool;
}.

#[export] Instance ControlMessage_rebuild : Rebuild ControlMessage :=
  λ m, mkControlMessage (control_stream_id m) (server_capabilities m) (is_keep_alive m)
         (control_payloads m) (control_error m) (is_close_connection m).

Definition ControlMessage_new (stream_id : Z) : ControlMessage :=
  mkControlMessage stream_id None false [] None false.

Definition set_server_capabilities (this : ControlMessage) (major minor : Z) (e : endian)
    (workers : Z) : ControlMessage :=
  this <| server_capabilities := Some (mkCapabilities major minor e workers) |>.
Definition set_keep_alive (this : ControlMessage) : ControlMessage :=
  this <| is_keep_alive := true |>.
Definition control_add_payload (this : ControlMessage) (name value : string) (binary : bool) :
  ControlMessage :=
  this <| control_payloads := control_payloads this ++ [mkPayload name value binary] |>.
Definition set_control_error (this : ControlMessage) (code text : string) : ControlMessage :=
  this <| control_error := Some (mkErrorInfo code text) |>.
Definition set_close_connection (this : ControlMessage) : ControlMessage :=
  this <| is_close_connection := true |>.

Record ControlMessageBuilderImpl : Type := mkControlBuilder { control_message_ : ControlMessage }.

(** Stream zero is the control stream. *)
Definition create_control_builder : ControlMessageBuilderImpl :=
  mkControlBuilder (ControlMessage_new 0).

(** The operations of the control builder forward to its message. *)
Inductive control_op : Type :=
  | control_capabilities (major minor : Z) (e : endian) (workers : Z)
  | control_keep_alive
  | control_payload (name value : string) (binary : bool)
  | control_failure (code text : string)
  | control_close.

Definition control_builder_op (b : ControlMessageBuilderImpl) (op : control_op) :
  ControlMessageBuilderImpl :=
  let m := control_message_ b in
  mkControlBuilder
    match op with
    | control_capabilities major minor e workers => set_server_capabilities m major minor e workers
    | control_keep_alive => set_keep_alive m
    | control_payload name value binary => control_add_payload m name value binary
    | control_failure code text => set_control_error m code text
    | control_close => set_close_connection m
    end.

(** ** What a builder promises

    A call on the interface is a value, so that a client is a list of them. *)
Inductive builder_op : Type :=
  | op_payload (name value : string) (binary : bool)
  | op_schema (s : arrow_ptr) (group_id row_id : bool)
  | op_reset (row_id : Z)
  | op_batch (a : arrow_ptr) (end_of_group : bool)
  | op_error (code text : string)
  | op_close_call.

Section clients.
Context {B : Type} `{!CallMessageBuilderBase B}.

Definition builder_call (b : B) (op : builder_op) : heap B :=
  match op with
  | op_payload name value binary => add_payload b name value binary
  | op_schema s group_id row_id => data_schema b s group_id row_id
  | op_reset row_id => reset b row_id
  | op_batch a end_of_group => record_batch b a end_of_group
  | op_error code text => error b code text
  | op_close_call => close_call b
  end.

Fixpoint builder_calls (b : B) (ops : list builder_op) : heap B :=
  match ops with
  | [] => mret b
  | op :: ops' => b' ← builder_call b op; builder_calls b' ops'
  end.
End clients.

Definition message_call (m : CallMessage) (op : builder_op) : heap CallMessage :=
  match op with
  | op_payload name value binary => mret (message_add_payload m name value binary)
  | op_schema s group_id row_id => message_data_schema m s group_id row_id
  | op_reset row_id => mret (message_reset m row_id)
  | op_batch a end_of_group => message_record_batch m a end_of_group
  | op_error code text => mret (message_error m code text)
  | op_close_call => mret (message_close_call m)
  end.

(** The contract of an implementation: it is its message. *)
Class BuilderContract (B : Type) `{!CallMessageBuilderBase B} : Type := {
  builder_message : B → CallMessage;
  contract_call b op :
    (b' ← builder_call b op; mret (builder_message b')) ≡ message_call (builder_message b) op;
  contract_destroy b : builder_destroy b ≡ CallMessage_destroy (builder_message b);
}.

Lemma forwarded_message {B} (x : heap CallMessage) (f : CallMessage → B) (g : B → CallMessage) :
  (∀ m, g (f m) = m) → (b ← (m ← x; mret (f m)); mret (g b)) ≡ x.
Proof.
  intros Hg h. rewrite run_bind_bind, bind_run. unfold bind_outcome.
  destruct (x h) as [[m| | | |] h']; simpl; try done. by rewrite run_bind_ret, Hg.
Qed.

#[export] Program Instance call_builder_contract : BuilderContract CallMessageBuilderImpl :=
  {| builder_message := message_ |}.
Next Obligation.
  intros b [| | | | |]; simpl; try (by intros h); by apply forwarded_message.
Qed.
Next Obligation. by intros b h. Qed.

#[export] Program Instance opening_builder_contract : BuilderContract OpeningCallMessageBuilderImpl :=
  {| builder_message := opening_message_ |}.
Next Obligation.
  intros b [| | | | |]; simpl; try (by intros h); by apply forwarded_message.
Qed.
Next Obligation. by intros b h. Qed.

(** ** The message of a sequence of calls

    Payloads add up in order; of everything else the last call counts. *)
Definition payload_of (op : builder_op) : option Payload :=
  match op with op_payload name value binary => Some (mkPayload name value binary) | _ => None end.
Definition schema_of (op : builder_op) : option DataSchema :=
  match op with op_schema s g r => Some (mkDataSchema s g r) | _ => None end.
Definition reset_of (op : builder_op) : option Z :=
  match op with op_reset row_id => Some row_id | _ => None end.
Definition batch_of (op : builder_op) : option RecordBatch :=
  match op with op_batch a e => Some (mkRecordBatch a e) | _ => None end.
Definition error_of (op : builder_op) : option ErrorInfo :=
  match op with op_error code text => Some (mkErrorInfo code text) | _ => None end.
Definition closes (op : builder_op) : bool :=
  match op with op_close_call => true | _ => false end.

Definition last_or {A} (old : option A) (f : builder_op → option A) (ops : list builder_op) : option A :=
  match last (omap f ops) with Some a => Some a | None => old end.

Definition composed (m : CallMessage) (ops : list builder_op) : CallMessage :=
  mkCallMessage (stream_id m) (call_name m) (payloads m ++ omap payload_of ops)
    (last_or (data_schema_ m) schema_of ops) (last_or (reset_row_id m) reset_of ops)
    (last_or (record_batch_ m) batch_of ops) (last_or (call_error m) error_of ops)
    (is_close_call m || existsb closes ops).

(** The Arrow objects that a call hands over, and those that a message owns *)
Definition handed (op : builder_op) : list nat :=
  match op with
  | op_schema (Some p) _ _ | op_batch (Some p) _ => [p]
  | _ => []
  end.
Definition owned (m : CallMessage) : list nat :=
  option_list (record_batch_ m ≫= array) ++ option_list (data_schema_ m ≫= schema).

(** One object is released, if it has a callback, and freed. *)
Definition release_one (h : arrow_heap) (p : nat) : arrow_heap :=
  mkHeap (delete p (h_objects h))
    (if default false (h_objects h !! p) then h_released h ++ [p] else h_released h)
    (h_freed h ++ [p]).

Lemma deleter_run (p : arrow_ptr) h :
  (∀ q, p = Some q → is_Some (h_objects h !! q)) →
  ArrowCDataDeleter p h = (Ret tt, foldl release_one h (option_list p)).
Proof.
  intros Hp. destruct p as [q|]; [|done]. destruct (Hp q eq_refl) as [r Hr].
  unfold ArrowCDataDeleter. rewrite run_bind_gets, Hr. simpl. rewrite run_bind_ret.
  unfold release_one. rewrite Hr. by destruct r.
Qed.

Lemma released_lookup gone h p :
  p ∉ gone → h_objects (foldl release_one h gone) !! p = h_objects h !! p.
Proof.
  revert h. induction gone as [|q gone IH]; intros h Hp; [done|]. simpl.
  rewrite IH by set_solver. simpl. rewrite lookup_delete_ne; [done|set_solver].
Qed.

Lemma filter_delete (m : gmap nat bool) p (l : list nat) :
  p ∉ l → filter (λ q, delete p m !! q = Some true) l = filter (λ q, m !! q = Some true) l.
Proof.
  induction l as [|q l IH]; intros Hp; [done|]. rewrite !filter_cons, IH by set_solver.
  apply decide_ext. rewrite lookup_delete_ne; [done|set_solver].
Qed.

Lemma released_effect gone h :
  NoDup gone →
  let h' := foldl release_one h gone in
  h_freed h' = h_freed h ++ gone ∧
  h_released h' = h_released h ++ filter (λ p, h_objects h !! p = Some true) gone ∧
  (∀ p, h_objects h' !! p = if bool_decide (p ∈ gone) then None else h_objects h !! p).
Proof.
  intros Hnd. revert h. induction Hnd as [|p gone Hp Hnd IH]; intros h; simpl.
  { by rewrite !app_nil_r. }
  destruct (IH (release_one h p)) as (H1 & H2 & H3). rewrite H1, H2. simpl. split_and!.
  - by rewrite <-app_assoc.
  - rewrite filter_cons.
    assert (filter (λ q, delete p (h_objects h) !! q = Some true) gone =
            filter (λ q, h_objects h !! q = Some true) gone) as ->.
    { by apply filter_delete. }
    destruct (h_objects h !! p) as [[]|] eqn:E; simpl; [by rewrite <-app_assoc|done|done].
  - intros q. rewrite H3. simpl. destruct (decide (q = p)) as [->|Hne].
    + rewrite lookup_delete_eq. rewrite (bool_decide_true (p ∈ p :: gone)) by left.
      by case_bool_decide.
    + rewrite lookup_delete_ne by done. repeat case_bool_decide; set_solver.
Qed.

Definition live (h : arrow_heap) (l : list nat) : Prop := ∀ p, p ∈ l → is_Some (h_objects h !! p).

Lemma live_after h l gone l' :
  live h l → NoDup l → l ≡ₚ gone ++ l' → live (foldl release_one h gone) l'.
Proof.
  intros Hl Hnd Hp p Hin. rewrite Hp, NoDup_app in Hnd. destruct Hnd as (_ & Hdis & _).
  rewrite released_lookup by (intros Hg; by eapply Hdis). apply Hl. rewrite Hp. set_solver.
Qed.

Lemma message_call_run m op h :
  live h (owned m) →
  ∃ gone, message_call m op h = (Ret (composed m [op]), foldl release_one h gone) ∧
    owned m ++ handed op ≡ₚ gone ++ owned (composed m [op]).
Proof.
  intros Hl. destruct m as [sid cn ps ds rr rb ce cl].
  destruct op as [name value binary|s g r|row_id|a e|code text|];
    try (exists []; split; [|by rewrite app_nil_r]; unfold composed, last_or; simpl;
         by rewrite ?app_nil_r, ?orb_false_r, ?orb_true_r).
  - exists (option_list (ds ≫= schema)). simpl. unfold composed, last_or, message_data_schema. simpl.
    rewrite app_nil_r, orb_false_r. split.
    + destruct ds as [[s0 g0 r0]|]; simpl; [|done]. unfold ptr_assign.
      rewrite run_bind_bind. erewrite run_bind; [|apply deleter_run].
      * done.
      * intros q ->. apply Hl. unfold owned. simpl. set_solver.
    + unfold owned. simpl. destruct s as [p|]; simpl; solve_Permutation.
  - exists (option_list (rb ≫= array)). simpl. unfold composed, last_or, message_record_batch. simpl.
    rewrite app_nil_r, orb_false_r. split.
    + destruct rb as [[a0 e0]|]; simpl; [|done]. unfold ptr_assign.
      rewrite run_bind_bind. erewrite run_bind; [|apply deleter_run].
      * done.
      * intros q ->. apply Hl. unfold owned. simpl. set_solver.
    + unfold owned. simpl. destruct a as [p|]; simpl; solve_Permutation.
Qed.

Lemma last_or_app {A} (old : option A) f ops1 ops2 :
  last_or old f (ops1 ++ ops2) = last_or (last_or old f ops1) f ops2.
Proof. unfold last_or. rewrite omap_app, last_app. by destruct (last (omap f ops2)). Qed.

Lemma composed_app m ops1 ops2 : composed m (ops1 ++ ops2) = composed (composed m ops1) ops2.
Proof.
  unfold composed. simpl. by rewrite omap_app, app_assoc, !last_or_app, existsb_app, orb_assoc.
Qed.

Lemma composed_nil m : composed m [] = m.
Proof. destruct m. unfold composed. simpl. by rewrite app_nil_r, orb_false_r. Qed.

Section contract.
Context {B : Type} `{!CallMessageBuilderBase B} `{!BuilderContract B}.

Lemma contract_call_run b op h m h' :
  message_call (builder_message b) op h = (Ret m, h') →
  ∃ b', builder_call b op h = (Ret b', h') ∧ builder_message b' = m.
Proof.
  intros Hm. rewrite <-(contract_call b op h) in Hm.
  apply run_bind_inv in Hm as (b' & h1 & Hb & Hr). exists b'. by injection Hr as <- <-.
Qed.

Lemma builder_calls_run b ops h :
  let handed_over := ops ≫= handed in
  NoDup (owned (builder_message b) ++ handed_over) →
  live h (owned (builder_message b) ++ handed_over) →
  ∃ b' gone, builder_calls b ops h = (Ret b', foldl release_one h gone) ∧
    builder_message b' = composed (builder_message b) ops ∧
    owned (builder_message b) ++ handed_over ≡ₚ gone ++ owned (builder_message b').
Proof.
  revert b h. induction ops as [|op ops IH]; intros b h handed_over Hnd Hl; subst handed_over; simpl in *.
  { exists b, []. by rewrite composed_nil, app_nil_r. }
  destruct (message_call_run (builder_message b) op h) as (g1 & Hr & Hp1);
    [intros p Hp; apply Hl; set_solver|].
  apply contract_call_run in Hr as (b1 & Hb & Hm). rewrite <-Hm in Hp1.
  assert (owned (builder_message b) ++ handed op ++ (ops ≫= handed) ≡ₚ
          g1 ++ owned (builder_message b1) ++ (ops ≫= handed)) as Hp
    by (rewrite !app_assoc; by rewrite Hp1).
  destruct (IH b1 (foldl release_one h g1)) as (b' & g2 & Hr2 & Hm2 & Hp2).
  { rewrite Hp, NoDup_app in Hnd. by destruct Hnd as (_ & _ & ?). }
  { by eapply live_after. }
  exists b', (g1 ++ g2). rewrite (run_bind _ _ _ _ _ Hb), foldl_app. split_and!; [done| |].
  - by rewrite Hm2, Hm, <-composed_app.
  - by rewrite Hp, Hp2, <-app_assoc.
Qed.

Lemma builder_destroy_run b h :
  NoDup (owned (builder_message b)) → live h (owned (builder_message b)) →
  builder_destroy b h = (Ret tt, foldl release_one h (owned (builder_message b))).
Proof.
  intros Hnd Hl. rewrite (contract_destroy b h). unfold CallMessage_destroy, owned in *.
  destruct (builder_message b) as [sid cn ps ds rr rb ce cl]; simpl in *.
  assert (∀ q, rb ≫= array = Some q → is_Some (h_objects h !! q)) as H1
    by (intros q Hq; apply Hl; rewrite Hq; set_solver).
  rewrite (run_bind _ _ _ _ _ (deleter_run _ _ H1)), foldl_app. apply deleter_run.
  intros q Hq. rewrite Hq in *. rewrite released_lookup; [apply Hl; set_solver|].
  apply NoDup_app in Hnd as (_ & Hdis & _). intros Hin. apply (Hdis _ Hin). set_solver.
Qed.

(** C17. A builder, of either kind, keeps its contract for every sequence of calls: the
    message holds all payloads in their order and, of everything else, what the last call
    gave. Each Arrow object that is handed over, and each the message had, is freed exactly
    once and released exactly if it has a callback: the replaced ones by the call that
    replaces them, the others when the builder is destroyed. No other object is touched. *)
Theorem builder_contract_spec b ops h :
  let objects := owned (builder_message b) ++ (ops ≫= handed) in
  NoDup objects → live h objects →
  ∃ b' h1 replaced, builder_calls b ops h = (Ret b', h1) ∧
    builder_message b' = composed (builder_message b) ops ∧
    objects ≡ₚ replaced ++ owned (builder_message b') ∧
    h_freed h1 = h_freed h ++ replaced ∧
    ∃ h2, builder_destroy b' h1 = (Ret tt, h2) ∧
      let freed := replaced ++ owned (builder_message b') in
      h_freed h2 = h_freed h ++ freed ∧
      h_released h2 = h_released h ++ filter (λ p, h_objects h !! p = Some true) freed ∧
      ∀ p, h_objects h2 !! p = if bool_decide (p ∈ objects) then None else h_objects h !! p.
Proof.
  intros objects Hnd Hl. destruct (builder_calls_run b ops h Hnd Hl) as (b' & gone & Hr & Hm & Hp).
  fold objects in Hp. pose proof Hnd as Hnd'. rewrite Hp in Hnd'.
  pose proof Hnd' as (Hndg & Hdis & Hndo)%NoDup_app.
  exists b', (foldl release_one h gone), gone. split_and!; try done;
    [exact (proj1 (released_effect gone h Hndg))|].
  exists (foldl release_one h (gone ++ owned (builder_message b'))).
  destruct (released_effect _ h Hnd') as (H1 & H2 & H3).
  split; [|split; [exact H1|split; [exact H2|]]].
  - rewrite foldl_app. apply builder_destroy_run; [done|]. by eapply live_after.
  - intros p. rewrite H3. assert (p ∈ gone ++ owned (builder_message b') ↔ p ∈ objects) as Hiff
      by (by rewrite Hp). by repeat case_bool_decide; naive_solver.
Qed.
End contract.

(** An opening builder in addition takes the name of the call, at any point between
    its other calls; the last name counts, and it touches nothing else. *)
Theorem opening_name_spec b before after name h :
  let objects := owned (opening_message_ b) ++ ((before ++ after) ≫= handed) in
  NoDup objects → live h objects →
  ∃ b' h', (b1 ← builder_calls b before; b2 ← open_call b1 name; builder_calls b2 after) h =
      (Ret b', h') ∧
    opening_message_ b' =
      (composed (opening_message_ b) (before ++ after)) <| call_name := Some name |>.
Proof.
  intros objects Hnd Hl. unfold objects in *. rewrite bind_app, app_assoc in Hnd, Hl.
  destruct (builder_calls_run b before h) as (b1 & g1 & H1 & Hm1 & Hp1).
  { by apply NoDup_app in Hnd as (? & _). }
  { intros p Hp. apply Hl. set_solver. }
  set (b2 := mkOpening (set_open_call (opening_message_ b1) name)).
  assert (owned (builder_message b2) = owned (opening_message_ b1)) as Ho by done.
  destruct (builder_calls_run b2 after (foldl release_one h g1)) as (b' & g2 & H2 & Hm2 & _).
  - rewrite Ho. simpl in Hp1. rewrite Hp1, <-app_assoc, NoDup_app in Hnd. by destruct Hnd as (_ & _ & ?).
  - rewrite Ho. eapply live_after; [done|done|]. simpl in Hp1. by rewrite Hp1, <-app_assoc.
  - exists b'. eexists. rewrite (run_bind _ _ _ _ _ H1). unfold open_call. rewrite run_bind_ret.
    split; [exact H2|]. simpl in Hm1, Hm2. rewrite Hm2, Hm1, composed_app. done.
Qed.

(** ** Witnesses *)
Section witnesses.
(** The second schema replaces the first one. *)
Definition sample_calls : list builder_op :=
  [op_schema (Some 1%nat) true false; op_payload "script" "x" false;
   op_schema (Some 2%nat) false false; op_batch None true; op_close_call].
Definition sample_heap : arrow_heap :=
  mkHeap (<[1%nat := true]> (<[2%nat := false]> (<[3%nat := true]> ∅))) [] [].

Lemma sample_live : live sample_heap [1; 2]%nat.
Proof. intros p Hp. apply elem_of_cons in Hp as [->|Hp]; [by eexists|]. apply list_elem_of_singleton in Hp as ->. by eexists. Qed.

Lemma builder_contract_spec_witness :
  ∃ b' h1, builder_calls (create_call_builder 5) sample_calls sample_heap = (Ret b', h1) ∧
    builder_message b' =
      mkCallMessage 5 None [mkPayload "script" "x" false] (Some (mkDataSchema (Some 2%nat) false false))
        None (Some (mkRecordBatch None true)) None true.
Proof.
  destruct (builder_contract_spec (create_call_builder 5) sample_calls sample_heap
    ltac:(apply (bool_decide_unpack _); vm_compute; exact I) sample_live)
    as (b' & h1 & _ & H1 & H2 & _).
  exists b', h1. split; [exact H1|exact H2].
Defined.

Lemma opening_name_spec_witness :
  ∃ b' h', (b1 ← builder_calls (create_opening_call_builder 7) [op_reset 4];
            b2 ← open_call b1 "run"; builder_calls b2 [op_error "c" "t"]) sample_heap = (Ret b', h') ∧
    opening_message_ b' =
      mkCallMessage 7 (Some "run") [] None (Some 4) None (Some (mkErrorInfo "c" "t")) false.
Proof.
  destruct (opening_name_spec (create_opening_call_builder 7) [op_reset 4] [op_error "c" "t"] "run"
    sample_heap ltac:(constructor) ltac:(intros p Hp; by apply not_elem_of_nil in Hp))
    as (b' & h' & H1 & H2).
  exists b', h'. split; [exact H1|exact H2].
Defined.
End witnesses.
