(* ===== verification/Assert.v ===== *)
(** * Exceptions and assertions ([v2/assert.cc], [v2/include/.../exception.hpp])

    A failed [EXASOL_UDF_ASSERT] formats an [Exception] with its location and stack trace,
    writes it to the standard error stream and calls a terminator, which tests replace.
    The location and the trace come from the compiler and the C++ run-time system. *)
From S2P Require Import Prelude Posix.

Open Scope string_scope.
Open Scope list_scope.
Open Scope Z_scope.

Record source_location : Type := mkLocation { file_name : string; location_line : Z; function_name : string }.
Record stacktrace_entry : Type := mkEntry { description : string; source_file : string; source_line : Z }.

Record Exception : Type := mkException {
  exception_message : string;
  location : source_location;
  stacktrace : list stacktrace_entry;
}.

(** [message_.c_str()] *)
Definition what (e : Exception) : string := c_str (exception_message e).

Definition newline : string := String "010" "".

Definition format_stacktrace_entry (frame_number : Z) (description source_file : string)
    (source_line : Z) : string :=
  "  #" +:+ to_string frame_number +:+ " " +:+ description +:+
  (if str_empty source_file then ""
   else " (" +:+ source_file +:+ ":" +:+ to_string source_line +:+ ")") +:+ newline.

Fixpoint format_entries (frame_number : Z) (entries : list stacktrace_entry) : string :=
  match entries with
  | [] => ""
  | frame :: entries' =>
      format_stacktrace_entry frame_number (description frame) (source_file frame) (source_line frame)
      +:+ format_entries (u64 (frame_number + 1)) entries'
  end.

Definition format_assertion_failure (error : Exception) : string :=
  file_name (location error) +:+ ":" +:+ to_string (location_line (location error)) +:+ ":" +:+
  function_name (location error) +:+ ": " +:+ what error +:+ newline +:+
  format_entries 0 (stacktrace error).

(** What is written to the standard error stream is the state. *)
Abbreviation stderr A := (M (list string) v2_exn A).

Definition assertion_failure (trace : list stacktrace_entry) (expression : string)
    (location : source_location) (terminator : stderr unit) : stderr unit :=
  let error := mkException ("Assertion failed: " +:+ expression) location trace in
  modify (λ out, out ++ [format_assertion_failure error]);;
  terminator;;
  undef.   (* [std::unreachable] *)

(** [EXASOL_UDF_ASSERT] ends in [std::abort]. *)
Definition EXASOL_UDF_ASSERT (trace : list stacktrace_entry) (expression : string)
    (location : source_location) (condition : bool) : stderr unit :=
  if negb condition then assertion_failure trace expression location abort else mret tt.

(** A failed assertion writes exactly one text, with the location, the expression and
    one numbered line for each frame, and then ends the process; it never returns. With
    another terminator it ends the way the terminator does, and a terminator that returns
    makes the behaviour undefined. A condition that holds does nothing. *)
Theorem assertion_failure_spec trace expression loc out :
  let text := file_name loc +:+ ":" +:+ to_string (location_line loc) +:+ ":" +:+
    function_name loc +:+ ": " +:+ c_str ("Assertion failed: " +:+ expression) +:+ newline +:+
    format_entries 0 trace in
  EXASOL_UDF_ASSERT trace expression loc false out = (Abort, out ++ [text]) ∧
  EXASOL_UDF_ASSERT trace expression loc true out = (Ret tt, out) ∧
  ∀ terminator, assertion_failure trace expression loc terminator out =
    match terminator (out ++ [text]) with
    | (Ret _, out') => (Undef, out')
    | r => r
    end.
Proof.
  split_and!; try done. intros terminator. unfold assertion_failure. rewrite run_bind_modify.
  rewrite bind_run. unfold bind_outcome.
  by destruct (terminator _) as [[]].
Qed.
