(* ===== verification/MessageViews.v ===== *)
(** * Message views ([v2/udf_protocol.*], [v2/interface/*view*.cc])

    A received frame is verified once, copied, and then read through views. The generated
    FlatBuffers code is the class [FrameFormat]: a verifier, a reader that may leave the
    buffer, and the promise that it does not for a buffer the verifier accepted. *)
From S2P Require Import Prelude Posix Messages Assert.

Open Scope string_scope.
Open Scope list_scope.
Open Scope Z_scope.

(** ** The tables of a frame ([udf_protocol.fbs])

    A table, string or vector that is absent reads as a null pointer, a number that is
    absent as its default. A union has a tag and, possibly null, the table it names; a
    reader can meet a tag that a newer schema added. *)
Module protocol.
Inductive Endianness : Type := Little | Big | other_endianness (tag : Z).
Inductive BufferTransport : Type := Inline | Memfd | OutOfBand | other_transport (tag : Z).

(** [union Type], with the fields of its tables; enumerations as their numbers *)
Inductive Type_ : Type :=
  | Null | Int (bit_width : Z) (is_signed : bool) | FloatingPoint (precision : Z)
  | Binary | Utf8 | Bool_ | Decimal (decimal_precision scale decimal_width : Z) | Date (unit : Z)
  | Time (unit : Z) (time_width : Z) | Timestamp (unit : Z) (timezone : option string)
  | Interval (unit : Z) | List_ | Struct_ | Union (mode : Z) (type_ids : option (list Z))
  | FixedSizeBinary (byte_width : Z) | FixedSizeList (list_size : Z) | Map (keys_sorted : bool)
  | Duration (unit : Z) | LargeBinary | LargeUtf8 | LargeList | RunEndEncoded | BinaryView
  | Utf8View | ListView | LargeListView | other_type (tag : Z).

Record KeyValue : Type := mkKeyValue { key : option string; key_value : option string }.
Inductive Field : Type :=
  mkField (name : string) (nullable : bool) (type : Type_) (children : option (list Field))
    (custom_metadata : option (list KeyValue)).
Record Schema : Type := mkSchema { fields : option (list Field) }.
Record FieldNode : Type := mkFieldNode { node_length : Z; null_count : Z }.
Record Buffer : Type := mkBuffer { offset : Z; buffer_length : Z }.

Record Version : Type := mkVersion { major : Z; minor : Z }.
Record ServerCapabilities : Type := mkServerCapabilities {
  supported_version : option Version; endianness : Endianness; number_of_supported_workers : Z }.
Record KeepAlive : Type := mkKeepAlive {}.
Record StringPayload : Type := mkStringPayload { text : option string }.
Record BinaryPayload : Type := mkBinaryPayload { bytes : option (list Z) }.
Inductive PayloadValue : Type :=
  | payload_NONE
  | payload_StringPayload (t : option StringPayload)
  | payload_BinaryPayload (t : option BinaryPayload)
  | other_payload (tag : Z).
Record OpenCall : Type := mkOpenCall { call_name : option string }.
Record Payload : Type := mkPayload { name : option string; payload : PayloadValue }.
Record Payloads : Type := mkPayloads { items : option (list Payload) }.
Record Error : Type := mkError { code : option string; message : option string }.
Record CloseCall : Type := mkCloseCall {}.
Record CloseConnection : Type := mkCloseConnection {}.
Record Reset : Type := mkReset { row_id : Z }.
Record DataSchema : Type := mkDataSchema {
  schema : option Schema; has_group_id : bool; has_row_id : bool }.
Record DataRecordBatchMetadata : Type := mkBatchMetadata {
  buffer_transport : BufferTransport; is_end_of_group : bool; length : Z;
  nodes : option (list FieldNode); buffers : option (list Buffer);
  variadic_buffer_counts : option (list Z) }.
Record CloseControlMessage : Type := mkCloseControlMessage {
  close_call : option CloseCall; close_connection : option CloseConnection }.
Inductive ControlMessageValue : Type :=
  | value_NONE
  | value_ServerCapabilities (t : option ServerCapabilities)
  | value_KeepAlive (t : option KeepAlive)
  | value_OpenCall (t : option OpenCall)
  | value_CloseControlMessage (t : option CloseControlMessage)
  | other_value (tag : Z).
Record ControlMessage : Type := mkControlMessage {
  payloads : option Payloads; reset : option Reset; next_send_budget_in_bytes : Z;
  data_schema : option DataSchema; error : option Error; value : ControlMessageValue }.
Record Frame : Type := mkFrame {
  stream_id : Z; control_message : option ControlMessage;
  data_record_batch_metadata : option DataRecordBatchMetadata }.

(** The typed accessors of the union: the table when the tag is right, null otherwise *)
Definition value_as_ServerCapabilities (c : ControlMessage) : option ServerCapabilities :=
  match value c with value_ServerCapabilities t => t | _ => None end.
Definition value_as_KeepAlive (c : ControlMessage) : option KeepAlive :=
  match value c with value_KeepAlive t => t | _ => None end.
Definition value_as_OpenCall (c : ControlMessage) : option OpenCall :=
  match value c with value_OpenCall t => t | _ => None end.
Definition value_as_CloseControlMessage (c : ControlMessage) : option CloseControlMessage :=
  match value c with value_CloseControlMessage t => t | _ => None end.
End protocol.

Class FrameFormat : Type := {
  VerifyBuffer : list Z → bool;
  GetFrame : list Z → option protocol.Frame;
  verified_read bytes : VerifyBuffer bytes = true → is_Some (GetFrame bytes);
}.

(** ** Decoded frames *)
Record DecodedFrame : Type := mkDecoded { buffer_ : option (list Z) }.

Section views.
Context {format : FrameFormat}.
(** The location and the stack trace of a failed assertion *)
Context (loc : source_location) (trace : list stacktrace_entry).

Definition verify_frame_buffer (data : option (list Z)) (size : Z) : stderr bool :=
  match data with
  | None => mret false
  | Some bytes =>
      if size =? 0 then mret false
      else
        read ← access (if size <=? Z.of_nat (length bytes) then Some (take (Z.to_nat size) bytes) else None);
        mret (VerifyBuffer read)
  end.

Definition decode (buffer : list Z) : stderr (option DecodedFrame) :=
  if bool_decide (buffer = []) then mret None
  else
    ok ← verify_frame_buffer (Some buffer) (Z.of_nat (length buffer));
    if negb ok then mret None else mret (Some (mkDecoded (Some buffer))).

(** The implicit move leaves an object without a buffer. *)
Definition DecodedFrame_move (other : DecodedFrame) : DecodedFrame * DecodedFrame :=
  (mkDecoded (buffer_ other), mkDecoded None).

Definition frame (this : DecodedFrame) : stderr protocol.Frame :=
  bytes ← access (buffer_ this); access (GetFrame bytes).

Definition control_message (decoded_frame : DecodedFrame) : stderr (option protocol.ControlMessage) :=
  f ← frame decoded_frame; mret (protocol.control_message f).

(** Both the pointer and the optional reference are an option here. *)
Definition optional_reference {T} (value : option T) : option T :=
  match value with Some t => Some t | None => None end.

(** ** The view of a call message ([message_view.cc]) *)
Record CallMessageViewImpl : Type := mkCallView { decoded_frame_ : option DecodedFrame }.

Definition CallMessageViewImpl_new (frame : option DecodedFrame) : stderr CallMessageViewImpl :=
  EXASOL_UDF_ASSERT trace "decoded_frame_ != nullptr" loc (bool_decide (is_Some frame));;
  mret (mkCallView frame).

Definition view_stream_id (this : CallMessageViewImpl) : stderr Z :=
  d ← access (decoded_frame_ this); f ← frame d; mret (protocol.stream_id f).

Definition view_open_call (this : CallMessageViewImpl) : stderr (option protocol.OpenCall) :=
  d ← access (decoded_frame_ this); control ← control_message d;
  mret (optional_reference (control ≫= protocol.value_as_OpenCall)).

Definition view_payloads (this : CallMessageViewImpl) : stderr (option protocol.Payloads) :=
  d ← access (decoded_frame_ this); control ← control_message d;
  mret (optional_reference (control ≫= protocol.payloads)).

Definition view_reset (this : CallMessageViewImpl) : stderr (option protocol.Reset) :=
  d ← access (decoded_frame_ this); control ← control_message d;
  mret (optional_reference (control ≫= protocol.reset)).

Definition view_error (this : CallMessageViewImpl) : stderr (option protocol.Error) :=
  d ← access (decoded_frame_ this); control ← control_message d;
  mret (optional_reference (control ≫= protocol.error)).

Definition view_close_call (this : CallMessageViewImpl) : stderr (option protocol.CloseCall) :=
  d ← access (decoded_frame_ this); control ← control_message d;
  let close := control ≫= protocol.value_as_CloseControlMessage in
  mret (optional_reference (close ≫= protocol.close_call)).

(** Owning views of received Arrow data ([data_schema_view_impl.cc],
    [record_batch_view_impl.cc]): a member is taken over at most once. *)
Record DataSchemaViewImpl : Type := mkSchemaView {
  schema_ : arrow_ptr; has_group_id_ : bool; has_row_id_ : bool }.
Record RecordBatchViewImpl : Type := mkBatchView { array_ : arrow_ptr; is_end_of_group_ : bool }.

(** Neither accessor looks at the frame: both return null. *)
Definition view_data_schema (this : CallMessageViewImpl) : stderr (option DataSchemaViewImpl) :=
  mret None.
Definition view_record_batch (this : CallMessageViewImpl) : stderr (option RecordBatchViewImpl) :=
  mret None.

(** ** The view of a control message ([control_message_view_impl.cc]) *)
Record ControlMessageViewImpl : Type := mkControlView { control_frame_ : option DecodedFrame }.

Definition ControlMessageViewImpl_new (frame : option DecodedFrame) : stderr ControlMessageViewImpl :=
  EXASOL_UDF_ASSERT trace "decoded_frame_ != nullptr" loc (bool_decide (is_Some frame));;
  mret (mkControlView frame).

Definition control_view_stream_id (this : ControlMessageViewImpl) : stderr Z :=
  d ← access (control_frame_ this); f ← frame d; mret (protocol.stream_id f).

Definition view_server_capabilities (this : ControlMessageViewImpl) :
  stderr (option protocol.ServerCapabilities) :=
  d ← access (control_frame_ this); control ← control_message d;
  mret (optional_reference (control ≫= protocol.value_as_ServerCapabilities)).

Definition view_keep_alive (this : ControlMessageViewImpl) : stderr (option protocol.KeepAlive) :=
  d ← access (control_frame_ this); control ← control_message d;
  mret (optional_reference (control ≫= protocol.value_as_KeepAlive)).

Definition control_view_payloads (this : ControlMessageViewImpl) : stderr (option protocol.Payloads) :=
  d ← access (control_frame_ this); control ← control_message d;
  mret (optional_reference (control ≫= protocol.payloads)).

Definition control_view_error (this : ControlMessageViewImpl) : stderr (option protocol.Error) :=
  d ← access (control_frame_ this); control ← control_message d;
  mret (optional_reference (control ≫= protocol.error)).

Definition view_close_connection (this : ControlMessageViewImpl) :
  stderr (option protocol.CloseConnection) :=
  d ← access (control_frame_ this); control ← control_message d;
  let close := control ≫= protocol.value_as_CloseControlMessage in
  mret (optional_reference (close ≫= protocol.close_connection)).

(** ** Reading a whole message through a view *)
Record call_content : Type := mkCallContent {
  c_stream : Z; c_open : option protocol.OpenCall; c_payloads : option protocol.Payloads;
  c_schema : option DataSchemaViewImpl; c_reset : option protocol.Reset;
  c_batch : option RecordBatchViewImpl; c_error : option protocol.Error;
  c_close : option protocol.CloseCall }.

Definition read_call (frame : option DecodedFrame) : stderr call_content :=
  v ← CallMessageViewImpl_new frame;
  s ← view_stream_id v; o ← view_open_call v; p ← view_payloads v; ds ← view_data_schema v;
  r ← view_reset v; b ← view_record_batch v; e ← view_error v; c ← view_close_call v;
  mret (mkCallContent s o p ds r b e c).

Record control_content : Type := mkControlContent {
  k_stream : Z; k_capabilities : option protocol.ServerCapabilities;
  k_alive : option protocol.KeepAlive; k_payloads : option protocol.Payloads;
  k_error : option protocol.Error; k_close : option protocol.CloseConnection }.

Definition read_control (frame : option DecodedFrame) : stderr control_content :=
  v ← ControlMessageViewImpl_new frame;
  s ← control_view_stream_id v; sc ← view_server_capabilities v; ka ← view_keep_alive v;
  p ← control_view_payloads v; e ← control_view_error v; c ← view_close_connection v;
  mret (mkControlContent s sc ka p e c).

(** What the views have to say about a frame *)
Definition no_control : protocol.ControlMessage :=
  protocol.mkControlMessage None None 0 None None protocol.value_NONE.

Definition call_view_of (f : protocol.Frame) : call_content :=
  let c := default no_control (protocol.control_message f) in
  let o := match protocol.value c with protocol.value_OpenCall t => t | _ => None end in
  let cl := match protocol.value c with
            | protocol.value_CloseControlMessage (Some t) => protocol.close_call t
            | _ => None
            end in
  mkCallContent (protocol.stream_id f) o (protocol.payloads c) None (protocol.reset c) None
    (protocol.error c) cl.

Definition control_view_of (f : protocol.Frame) : control_content :=
  let c := default no_control (protocol.control_message f) in
  let cap := match protocol.value c with protocol.value_ServerCapabilities t => t | _ => None end in
  let ka := match protocol.value c with protocol.value_KeepAlive t => t | _ => None end in
  let cl := match protocol.value c with
            | protocol.value_CloseControlMessage (Some t) => protocol.close_connection t
            | _ => None
            end in
  mkControlContent (protocol.stream_id f) cap ka (protocol.payloads c) (protocol.error c) cl.

(** ** Lemmas *)
Lemma optional_reference_id {T} (v : option T) : optional_reference v = v.
Proof. by destruct v. Qed.

Lemma decode_run buffer out :
  decode buffer out =
    (Ret (if bool_decide (buffer = []) || negb (VerifyBuffer buffer) then None
          else Some (mkDecoded (Some buffer))), out).
Proof.
  unfold decode, verify_frame_buffer. case_bool_decide as Hne; [done|]. simpl.
  assert (Z.of_nat (length buffer) =? 0 = false) as -> by (destruct buffer; simpl; [done|lia]).
  rewrite Z.leb_refl, Nat2Z.id, firstn_all, run_bind_bind, (run_bind_access _ buffer), run_bind_ret by done.
  by destruct (VerifyBuffer buffer).
Qed.

Lemma frame_run bytes f out :
  GetFrame bytes = Some f → frame (mkDecoded (Some bytes)) out = (Ret f, out).
Proof. intros H. unfold frame. simpl. rewrite run_bind_ret. by apply run_access_some. Qed.

Lemma control_message_run bytes f out :
  GetFrame bytes = Some f →
  control_message (mkDecoded (Some bytes)) out = (Ret (protocol.control_message f), out).
Proof. intros H. unfold control_message. by rewrite (run_bind _ _ _ _ _ (frame_run _ _ _ H)). Qed.

(** One accessor of a view: the frame is read and the part is selected. *)
Lemma accessor_run {A} bytes f (part : option protocol.ControlMessage → A) out :
  GetFrame bytes = Some f →
  (d ← access (Some (mkDecoded (Some bytes))); control ← control_message d; mret (part control)) out =
    (Ret (part (protocol.control_message f)), out).
Proof.
  intros H. simpl. rewrite run_bind_ret. by rewrite (run_bind _ _ _ _ _ (control_message_run _ _ _ H)).
Qed.

Lemma stream_id_run bytes f out :
  GetFrame bytes = Some f →
  (d ← access (Some (mkDecoded (Some bytes))); f ← frame d; mret (protocol.stream_id f)) out =
    (Ret (protocol.stream_id f), out).
Proof.
  intros H. simpl. rewrite run_bind_ret. by rewrite (run_bind _ _ _ _ _ (frame_run _ _ _ H)).
Qed.

Lemma call_view_run d out : CallMessageViewImpl_new (Some d) out = (Ret (mkCallView (Some d)), out).
Proof. done. Qed.
Lemma control_view_run d out :
  ControlMessageViewImpl_new (Some d) out = (Ret (mkControlView (Some d)), out).
Proof. done. Qed.

(** The next accessor of a sequence returns. *)
Ltac read_accessor H :=
  erewrite run_bind; [|first [by apply (accessor_run _ _ _ _ H) | by apply (stream_id_run _ _ _ H) | done]].

Lemma read_call_run bytes f out :
  GetFrame bytes = Some f → read_call (Some (mkDecoded (Some bytes))) out = (Ret (call_view_of f), out).
Proof.
  intros H. unfold read_call. rewrite (run_bind _ _ _ _ _ (call_view_run _ _)).
  do 8 read_accessor H. unfold call_view_of. rewrite !optional_reference_id.
  by destruct (protocol.control_message f) as [[? ? ? ? ? [|?|?|?|[]|?]]|].
Qed.

Lemma read_control_run bytes f out :
  GetFrame bytes = Some f →
  read_control (Some (mkDecoded (Some bytes))) out = (Ret (control_view_of f), out).
Proof.
  intros H. unfold read_control. rewrite (run_bind _ _ _ _ _ (control_view_run _ _)).
  do 6 read_accessor H. unfold control_view_of. rewrite !optional_reference_id.
  by destruct (protocol.control_message f) as [[? ? ? ? ? [|?|?|?|[]|?]]|].
Qed.

(** C27. Whatever bytes arrive, decoding and reading them through both views is defined
    behaviour. An empty or refused buffer gives no frame. Otherwise the frame is a copy of
    the bytes, and the two views answer with exactly the parts of the message in it: at
    most one of the categories capabilities, keep-alive, opening and closing, and never a
    data schema or a record batch, even if the message has them. *)
Theorem decoded_views_spec buffer out :
  (decode buffer out = (Ret None, out) ∧ (buffer = [] ∨ VerifyBuffer buffer = false)) ∨
  ∃ d f, decode buffer out = (Ret (Some d), out) ∧
    buffer_ d = Some buffer ∧ GetFrame buffer = Some f ∧
    read_call (Some d) out = (Ret (call_view_of f), out) ∧
    read_control (Some d) out = (Ret (control_view_of f), out) ∧
    c_schema (call_view_of f) = None ∧ c_batch (call_view_of f) = None ∧
    (is_Some (c_open (call_view_of f)) →
       c_close (call_view_of f) = None ∧ k_capabilities (control_view_of f) = None ∧
       k_alive (control_view_of f) = None ∧ k_close (control_view_of f) = None) ∧
    (is_Some (k_capabilities (control_view_of f)) →
       c_close (call_view_of f) = None ∧ k_alive (control_view_of f) = None ∧
       k_close (control_view_of f) = None) ∧
    (is_Some (k_alive (control_view_of f)) →
       c_close (call_view_of f) = None ∧ k_close (control_view_of f) = None).
Proof.
  rewrite decode_run. case_bool_decide as Hne; [naive_solver|]. simpl.
  destruct (VerifyBuffer buffer) eqn:Hv; [|naive_solver]. right.
  destruct (verified_read _ Hv) as [f Hf]. exists (mkDecoded (Some buffer)), f.
  do 3 (split; [done|]). split; [by apply read_call_run|]. split; [by apply read_control_run|].
  unfold call_view_of, control_view_of. simpl.
  destruct (protocol.control_message f) as [[? ? ? ? ? [|?|?|?|[]|?]]|]; simpl;
    rewrite ?is_Some_None; naive_solver.
Qed.

(** A view of no frame cannot be made: the process writes the failed assertion with its
    location and stack trace and ends, before anything is read. A frame that was moved from
    still makes a view, but reading it is undefined; the object it was moved to reads as
    before. *)
Theorem view_construction_spec d bytes f out :
  buffer_ d = Some bytes → GetFrame bytes = Some f →
  let report := format_assertion_failure
    (mkException "Assertion failed: decoded_frame_ != nullptr" loc trace) in
  read_call None out = (Abort, out ++ [report]) ∧ read_control None out = (Abort, out ++ [report]) ∧
  let '(moved, rest) := DecodedFrame_move d in
  read_call (Some rest) out = (Undef, out) ∧ read_control (Some rest) out = (Undef, out) ∧
  read_call (Some moved) out = (Ret (call_view_of f), out) ∧
  read_control (Some moved) out = (Ret (control_view_of f), out).
Proof.
  destruct d as [b]. simpl. intros -> Hf. split_and!; try done;
    [by apply read_call_run|by apply read_control_run].
Qed.
End views.

(** ** The owning views

    A view of Arrow data keeps its object until it is taken; then the caller owns it. *)
Definition take_schema (this : DataSchemaViewImpl) : arrow_ptr * DataSchemaViewImpl :=
  (schema_ this, mkSchemaView None (has_group_id_ this) (has_row_id_ this)).
Definition schema_view_destroy (this : DataSchemaViewImpl) : heap unit := ArrowCDataDeleter (schema_ this).

Definition take_array (this : RecordBatchViewImpl) : arrow_ptr * RecordBatchViewImpl :=
  (array_ this, mkBatchView None (is_end_of_group_ this)).
Definition batch_view_destroy (this : RecordBatchViewImpl) : heap unit := ArrowCDataDeleter (array_ this).

(** Both parts of a received message go into a new one; the views are destroyed. *)
Definition forward_data {B} `{!CallMessageBuilderBase B} (b : B) (sv : DataSchemaViewImpl)
    (bv : RecordBatchViewImpl) (group_id row_id end_of_group : bool) : heap B :=
  let '(s, sv') := take_schema sv in
  let '(a, bv') := take_array bv in
  b' ← builder_calls b [op_schema s group_id row_id; op_batch a end_of_group];
  batch_view_destroy bv';;
  schema_view_destroy sv';;
  mret b'.

Lemma handed_parts s a g r e :
  [op_schema s g r; op_batch a e] ≫= handed = option_list s ++ option_list a.
Proof. by destruct s, a. Qed.

(** Data that a view owns goes from a received message into a new one without a copy:
    once the schema and the array were taken and given to a builder of either kind,
    destroying the views releases nothing, and destroying the builder frees each of them
    once and touches nothing else. *)
Theorem forwarded_data_released_once {B} `{!CallMessageBuilderBase B} `{!BuilderContract B}
    (b : B) sv bv g r e h :
  owned (builder_message b) = [] →
  let objects := option_list (schema_ sv) ++ option_list (array_ bv) in
  NoDup objects → live h objects →
  ∃ b' h2, forward_data b sv bv g r e h = (Ret b', h) ∧
    data_schema_ (builder_message b') = Some (mkDataSchema (schema_ sv) g r) ∧
    record_batch_ (builder_message b') = Some (mkRecordBatch (array_ bv) e) ∧
    builder_destroy b' h = (Ret tt, h2) ∧
    (∀ p, h_objects h2 !! p = if bool_decide (p ∈ objects) then None else h_objects h !! p) ∧
    h_freed h2 ≡ₚ h_freed h ++ objects.
Proof.
  intros Ho objects Hnd Hl.
  destruct (builder_calls_run b [op_schema (schema_ sv) g r; op_batch (array_ bv) e] h)
    as (b' & gone & Hr & Hm & Hp); rewrite ?Ho, ?handed_parts; [done..|].
  rewrite Ho, handed_parts in Hp. fold objects in Hp.
  assert (owned (builder_message b') ≡ₚ objects) as Hb by (rewrite Hm; apply Permutation_app_comm).
  assert (gone = []) as ->.
  { rewrite Hb in Hp. apply Permutation_length in Hp. rewrite !length_app in Hp. simpl in Hp.
    apply nil_length_inv. lia. }
  exists b'. eexists. split; [|split; [by rewrite Hm|split; [by rewrite Hm|split]]].
  - unfold forward_data, take_schema, take_array. by rewrite (run_bind _ _ _ _ _ Hr).
  - apply builder_destroy_run; [by rewrite Hb|]. intros p Hin. apply Hl. by rewrite <-Hb.
  - destruct (released_effect (owned (builder_message b')) h) as (H1 & _ & H3); [by rewrite Hb|].
    split; [|by rewrite H1, Hb]. intros p. rewrite H3.
    assert (p ∈ owned (builder_message b') ↔ p ∈ objects) as Hiff by (by rewrite Hb).
    repeat case_bool_decide; naive_solver.
Qed.

(** ** Witnesses *)
Section witnesses.
(** A format in which the first byte is the stream and the second says what the message
    does: open a call, or close one and send a schema. *)
Definition sample_frame (buffer : list Z) : option protocol.Frame :=
  match buffer with
  | [s; 0] => Some (protocol.mkFrame s (Some (protocol.mkControlMessage None
      (Some (protocol.mkReset 4)) 0 None None
      (protocol.value_OpenCall (Some (protocol.mkOpenCall (Some "run")))))) None)
  | [s; 1] => Some (protocol.mkFrame s (Some (protocol.mkControlMessage None None 0
      (Some (protocol.mkDataSchema None true false)) None
      (protocol.value_CloseControlMessage (Some (protocol.mkCloseControlMessage
         (Some protocol.mkCloseCall) None))))) None)
  | _ => None
  end.

Definition sample_verify (buffer : list Z) : bool := bool_decide (is_Some (sample_frame buffer)).
Lemma sample_verified buffer : sample_verify buffer = true → is_Some (sample_frame buffer).
Proof. intros H. by apply bool_decide_eq_true in H. Qed.
#[local] Instance sample_format : FrameFormat := {|
  VerifyBuffer := sample_verify; GetFrame := sample_frame; verified_read := sample_verified;
|}.

Definition sample_location : source_location := mkLocation "message_view.cc" 70 "CallMessageViewImpl".

Lemma decoded_views_spec_witness :
  ∃ d f, decode [5; 1] [] = (Ret (Some d), []) ∧
    read_call sample_location [] (Some d) [] = (Ret (call_view_of f), []) ∧
    c_close (call_view_of f) = Some protocol.mkCloseCall ∧ c_schema (call_view_of f) = None.
Proof.
  destruct (decoded_views_spec sample_location [] [5; 1] []) as [[H _]|(d & f & H1 & _ & Hf & H2 & _ & H3 & _)].
  - discriminate H.
  - exists d, f. split; [exact H1|split; [exact H2|split; [|exact H3]]].
    injection Hf as <-. reflexivity.
Defined.

Lemma view_construction_spec_witness :
  read_call sample_location [] None [] =
    (Abort, [format_assertion_failure
       (mkException "Assertion failed: decoded_frame_ != nullptr" sample_location [])]) ∧
  read_call sample_location [] (Some (mkDecoded None)) [] = (Undef, []).
Proof.
  destruct (view_construction_spec (format := sample_format) sample_location [] (mkDecoded (Some [7; 0])) [7; 0]
    (protocol.mkFrame 7 (Some (protocol.mkControlMessage None
      (Some (protocol.mkReset 4)) 0 None None
      (protocol.value_OpenCall (Some (protocol.mkOpenCall (Some "run")))))) None) []
    eq_refl ltac:(reflexivity)) as (H1 & _ & H2 & _).
  split; [exact H1|exact H2].
Defined.

Lemma sample_views_live : live sample_heap [2; 1]%nat.
Proof. intros p Hp. apply sample_live. set_solver. Qed.

Lemma forwarded_data_released_once_witness :
  ∃ b' h2, forward_data (create_opening_call_builder 3) (mkSchemaView (Some 2%nat) true false)
      (mkBatchView (Some 1%nat) true) true false true sample_heap = (Ret b', sample_heap) ∧
    builder_destroy b' sample_heap = (Ret tt, h2) ∧ h_freed h2 ≡ₚ [2; 1]%nat.
Proof.
  destruct (forwarded_data_released_once (BuilderContract0 := opening_builder_contract)
    (create_opening_call_builder 3) (mkSchemaView (Some 2%nat) true false)
    (mkBatchView (Some 1%nat) true) true false true sample_heap
    eq_refl ltac:(apply (bool_decide_unpack _); vm_compute; exact I) sample_views_live)
    as (b' & h2 & H1 & _ & _ & H2 & _ & H3).
  exists b', h2. split; [exact H1|split; [exact H2|exact H3]].
Defined.
End witnesses.
